(** * AI-code detection engine ([src/lib/aiDetection.ts]): shallow embedding

    The engine scores every line of a source text against two tables of
    regular expressions, smooths the verdicts with two contextual passes and
    aggregates them into blocks and statistics.

    Data is modelled as the TypeScript code has it:
    - a JavaScript string is a sequence of UTF-16 code units ([list N]);
    - a JavaScript number is an IEEE 754 binary64 value (Rocq's primitive
      [float], whose operations are the processor's);
    - a [RegExp] object carries its mutable [lastIndex], and the two pattern
      tables, being module-level constants holding such objects, are threaded
      through the analysis as explicit state;
    - arrays mutated in place are lists updated by index.

    The analysis of a repository ([src/lib/githubAnalyzer.ts]) runs the
    engine over the files of a GitHub repository.  Its promises are modelled
    settled, its requests are answered by a function of the number of the
    request and of the address, and what a call does - requests, console
    output, calls of the progress callback - is kept as a list of events
    beside the tables of the engine.  Of the component
    ([src/components/CodeAnalyzer.tsx]) the rows and the titles of the tabs
    are modelled.

    The definitions come first.  The properties follow: the bounds of the
    matcher, the rounding of binary64 arithmetic on the values the engine
    computes, the invariant of the block aggregator, the module state, the
    confidence and classification of a line, the refiner, and the
    statistics of a result; then the structure score, the reasons of a
    verdict, the rules that cannot fire, blank texts, the data of the
    blocks, the labels of paths, the listing and the analysis of a
    repository, and the tabs. *)

From Stdlib Require Import ZArith NArith List String Ascii Bool Lia.
From Stdlib Require Import Floats Uint63.
From Stdlib Require Import Reals Lra.
From stdpp Require Import base option list.

Set Default Proof Using "Type".
Local Open Scope nat_scope.

(* ===================================================================== *)
(** * JavaScript strings *)
(* ===================================================================== *)

Module JSString.

(** A UTF-16 code unit. *)
Definition char := N.
Bind Scope N_scope with char.
Definition jsstring := list char.

(** An ASCII literal as a JavaScript string. *)
Definition js (s : string) : jsstring :=
  map N_of_ascii (list_ascii_of_string s).

(** The double quote, which a literal above cannot hold. *)
Definition dq : char := 34%N.

Definition in_range (lo hi c : char) : bool := (lo <=? c)%N && (c <=? hi)%N.

(** ECMAScript [WhiteSpace] and [LineTerminator] code points: the set
    that [String.prototype.trim] strips and that [\s] matches. *)
Definition isLineTerminator (c : char) : bool :=
  (c =? 10)%N || (c =? 13)%N || (c =? 8232)%N || (c =? 8233)%N.

Definition isWhiteSpace (c : char) : bool :=
  in_range 9 13 c || (c =? 32)%N || (c =? 160)%N || (c =? 5760)%N
  || in_range 8192 8202 c || (c =? 8232)%N || (c =? 8233)%N
  || (c =? 8239)%N || (c =? 8287)%N || (c =? 12288)%N || (c =? 65279)%N.

Definition isDigit (c : char) : bool := in_range 48 57 c.

(** [IsWordChar] of the RegExp semantics: [A-Za-z0-9_]. *)
Definition isWordChar (c : char) : bool :=
  in_range 97 122 c || in_range 65 90 c || isDigit c || (c =? 95)%N.

Fixpoint trimStart (s : jsstring) : jsstring :=
  match s with
  | c :: s' => if isWhiteSpace c then trimStart s' else s
  | [] => []
  end.

Definition trimEnd (s : jsstring) : jsstring := rev (trimStart (rev s)).

(** [String.prototype.trim]. *)
Definition trim (s : jsstring) : jsstring := trimEnd (trimStart s).

(** [s.split('\n')]: never empty; the empty string gives one empty piece. *)
Fixpoint split_newline (s : jsstring) : list jsstring :=
  match s with
  | [] => [[]]
  | c :: s' =>
      if (c =? 10)%N then [] :: split_newline s'
      else match split_newline s' with
           | l :: ls => (c :: l) :: ls
           | [] => [[c]]
           end
  end.

Fixpoint eqb (a b : jsstring) : bool :=
  match a, b with
  | [], [] => true
  | x :: a', y :: b' => (x =? y)%N && eqb a' b'
  | _, _ => false
  end.

(** [s.startsWith(p)]. *)
Fixpoint startsWith (s p : jsstring) : bool :=
  match p, s with
  | [], _ => true
  | y :: p', x :: s' => (x =? y)%N && startsWith s' p'
  | _ :: _, [] => false
  end.

(** Truthiness of a string: non-empty. *)
Definition truthy (s : jsstring) : bool :=
  match s with [] => false | _ :: _ => true end.

End JSString.
Import JSString.

(* ===================================================================== *)
(** * Regular expressions: the backtracking matcher of ECMAScript *)
(* ===================================================================== *)

Module Regex.

(** Members of a character class. *)
Inductive class_item :=
| CChar (c : char)
| CRange (lo hi : char)
| CWord                       (* \w *)
| CSpace                      (* \s *)
| CNotSpace                   (* \S *)
| CDigit.                     (* \d *)

(** The pattern syntax the source uses.  Capturing groups only group: no
    pattern has a back-reference and no caller reads a capture. *)
Inductive regex :=
| Empty
| Char (c : char)
| Class (invert : bool) (items : list class_item)
| Dot
| Seq (r1 r2 : regex)
| Alt (r1 r2 : regex)
| Repeat (greedy : bool) (min : nat) (r : regex)   (* r{min,} *)
| Bol                         (* ^ *)
| Eol                         (* $ *)
| WordBoundary                (* \b *)
| NegLookahead (r : regex).   (* (?!r) *)

Record flags := { ignoreCase : bool; multiline : bool; dotAll : bool }.

(** [Canonicalize] without the [u] flag.  Every pattern of the source is
    made of ASCII characters, and a code unit of 128 or more never
    canonicalizes to an ASCII one, so only the ASCII letters matter. *)
Definition Canonicalize (fl : flags) (c : char) : char :=
  if ignoreCase fl && in_range 97 122 c then (c - 32)%N else c.

Definition item_holds (fl : flags) (cc : char) (it : class_item) : bool :=
  match it with
  | CChar a => (Canonicalize fl a =? cc)%N
  | CRange lo hi =>
      if ignoreCase fl then
        in_range lo hi cc
        || (in_range 65 90 cc && in_range lo hi (cc + 32)%N)
      else in_range lo hi cc
  | CWord => isWordChar cc
  | CSpace => isWhiteSpace cc
  | CNotSpace => negb (isWhiteSpace cc)
  | CDigit => isDigit cc
  end.

(** [CharacterSetMatcher]: some member of the set canonicalizes to the
    canonicalized input character. *)
Definition class_holds (fl : flags) (items : list class_item) (ch : char) : bool :=
  existsb (item_holds fl (Canonicalize fl ch)) items.

Definition Continuation := nat -> option nat.
Definition Matcher := nat -> Continuation -> option nat.

(** [RepeatMatcher] for [r{min,}].  Once [min] is exhausted an iteration
    that consumes nothing is rejected, so every further iteration
    advances; [fuel] bounds the iterations, and [min + length s + 1] is
    never exhausted. *)
Fixpoint RepeatMatcher (fuel : nat) (m : Matcher) (greedy : bool)
    (min : nat) (x : nat) (c : Continuation) : option nat :=
  match fuel with
  | O => None
  | S fuel' =>
      let d : Continuation := fun y =>
        if (min =? 0) && (y =? x) then None
        else RepeatMatcher fuel' m greedy (pred min) y c in
      if negb (min =? 0) then m x d
      else if greedy then
        match m x d with Some z => Some z | None => c x end
      else
        match c x with Some z => Some z | None => m x d end
  end.

Section Compile.
Variable fl : flags.
Variable s : jsstring.

Definition wordAt (i : nat) : bool :=
  match s !! i with Some c => isWordChar c | None => false end.

Definition wordBefore (x : nat) : bool :=
  match x with O => false | S i => wordAt i end.

Definition lineTerminatorAt (i : nat) : bool :=
  match s !! i with Some c => isLineTerminator c | None => false end.

Fixpoint compile (r : regex) : Matcher :=
  fun x c =>
  match r with
  | Empty => c x
  | Char a =>
      match s !! x with
      | Some ch =>
          if (Canonicalize fl ch =? Canonicalize fl a)%N then c (S x) else None
      | None => None
      end
  | Class invert items =>
      match s !! x with
      | Some ch =>
          if xorb invert (class_holds fl items ch) then c (S x) else None
      | None => None
      end
  | Dot =>
      match s !! x with
      | Some ch =>
          if dotAll fl || negb (isLineTerminator ch) then c (S x) else None
      | None => None
      end
  | Seq r1 r2 => compile r1 x (fun y => compile r2 y c)
  | Alt r1 r2 =>
      match compile r1 x c with
      | Some z => Some z
      | None => compile r2 x c
      end
  | Repeat greedy min r1 =>
      RepeatMatcher (S (min + length s)) (compile r1) greedy min x c
  | Bol =>
      if (x =? 0) || (multiline fl && match x with O => false | S i => lineTerminatorAt i end)
      then c x else None
  | Eol =>
      if (x =? length s) || (multiline fl && lineTerminatorAt x)
      then c x else None
  | WordBoundary =>
      if xorb (wordBefore x) (wordAt x) then c x else None
  | NegLookahead r1 =>
      match compile r1 x (fun y => Some y) with
      | Some _ => None
      | None => c x
      end
  end.

(** The pattern matched at start index [x]: the end index of the match. *)
Definition matchAt (r : regex) (x : nat) : option nat :=
  compile r x (fun y => Some y).

(** The first start index from [x] on (trying [n] more after it) at which
    the pattern matches, with the end index. *)
Fixpoint searchFrom (r : regex) (n : nat) (x : nat) : option (nat * nat) :=
  match matchAt r x with
  | Some e => Some (x, e)
  | None =>
      match n with
      | O => None
      | S n' => searchFrom r n' (S x)
      end
  end.
End Compile.

(** [RegExpBuiltinExec] from index [from]: start and end of the leftmost
    match at or after [from], if [from] is within the string. *)
Definition exec (fl : flags) (r : regex) (s : jsstring) (from : nat)
  : option (nat * nat) :=
  if length s <? from then None
  else searchFrom fl s r (length s - from) from.

(** ** Pattern syntax helpers *)

Fixpoint lit_chars (cs : jsstring) : regex :=
  match cs with
  | [] => Empty
  | [c] => Char c
  | c :: cs' => Seq (Char c) (lit_chars cs')
  end.

(** An ASCII literal. *)
Definition lit (s : string) : regex := lit_chars (js s).

Fixpoint seqs (rs : list regex) : regex :=
  match rs with
  | [] => Empty
  | [r] => r
  | r :: rs' => Seq r (seqs rs')
  end.

Fixpoint alts (rs : list regex) : regex :=
  match rs with
  | [] => Empty
  | [r] => r
  | r :: rs' => Alt r (alts rs')
  end.

Definition rstar (r : regex) : regex := Repeat true 0 r.
Definition rplus (r : regex) : regex := Repeat true 1 r.
Definition rstar_lazy (r : regex) : regex := Repeat false 0 r.
Definition atLeast (n : nat) (r : regex) : regex := Repeat true n r.

Definition ws : regex := Class false [CSpace].          (* \s *)
Definition word : regex := Class false [CWord].         (* \w *)
Definition digit : regex := Class false [CDigit].       (* \d *)
Definition ch (s : string) : class_item :=              (* one ASCII char *)
  match s with
  | String a _ => CChar (N_of_ascii a)
  | EmptyString => CChar 0%N
  end.
Definition rng (lo hi : string) : class_item :=
  match ch lo, ch hi with
  | CChar a, CChar b => CRange a b
  | _, _ => CRange 1%N 0%N
  end.
Definition oneOf (items : list class_item) : regex := Class false items.
Definition noneOf (items : list class_item) : regex := Class true items.
Definition letter : regex := oneOf [rng "a" "z"; rng "A" "Z"].   (* [a-zA-Z] *)
(** The class of the two quote characters. *)
Definition quote : regex := oneOf [CChar dq; ch "'"].

End Regex.
Import Regex.

(* ===================================================================== *)
(** * JavaScript numbers and RegExp objects *)
(* ===================================================================== *)

Set Warnings "-inexact-float".

Module JSNumber.
Local Open Scope float_scope.

(** A non-negative integer (a [length], a count) as a number. *)
Definition ofNat (n : nat) : float :=
  PrimFloat.of_uint63 (Uint63.of_Z (Z.of_nat n)).

(** [a > b] and [a >= b]. *)
Definition gt (a b : float) : bool := b <? a.
Definition ge (a b : float) : bool := b <=? a.

(** [Math.max] and [Math.min]: NaN if an argument is NaN, and +0 is
    larger than -0. *)
Definition Math_max (a b : float) : float :=
  if is_nan a || is_nan b then nan
  else if a <? b then b
  else if b <? a then a
  else if get_sign a then b else a.

Definition Math_min (a b : float) : float :=
  if is_nan a || is_nan b then nan
  else if a <? b then a
  else if b <? a then b
  else if get_sign a then a else b.

(** [xs.reduce((a, b) => a + b, 0)]. *)
Definition sum (xs : list float) : float := fold_left PrimFloat.add xs 0.
End JSNumber.
Import JSNumber.

Module JSRegExp.

(** A [RegExp] object: its pattern and flags, and the mutable [lastIndex]
    that [test] reads and writes when the [g] flag is set. *)
Record RegExp := {
  source : regex;
  global : bool;
  reflags : flags;
  lastIndex : nat
}.

Definition set_lastIndex (R : RegExp) (i : nat) : RegExp :=
  {| source := source R; global := global R; reflags := reflags R;
     lastIndex := i |}.

(** [R.test(S)]: [RegExpBuiltinExec].  A global pattern starts at its
    [lastIndex], stores the end of the match there, and resets it to 0
    when nothing matches; a non-global one starts at 0 and is unchanged. *)
Definition test (R : RegExp) (S : jsstring) : bool * RegExp :=
  if global R then
    match exec (reflags R) (source R) S (lastIndex R) with
    | Some (_, e) => (true, set_lastIndex R e)
    | None => (false, set_lastIndex R 0)
    end
  else
    match exec (reflags R) (source R) S 0 with
    | Some _ => (true, R)
    | None => (false, R)
    end.

(** [S.match(/r/)] with a fresh non-global literal, as a truth value. *)
Definition matches (fl : flags) (r : regex) (S : jsstring) : bool :=
  match exec fl r S 0 with Some _ => true | None => false end.

(** [S.match(/r/)?.[0] || ''] with a fresh non-global literal. *)
Definition matched (fl : flags) (r : regex) (S : jsstring) : jsstring :=
  match exec fl r S 0 with
  | Some (b, e) => take (e - b) (drop b S)
  | None => []
  end.

(** [(S.match(/r/g) || []).length] with a fresh global literal: the
    matches are collected from left to right, each search starting where
    the previous match ended (one further on after an empty match). *)
Fixpoint countFrom (fuel : nat) (fl : flags) (r : regex) (S : jsstring)
    (from : nat) : nat :=
  match fuel with
  | O => 0
  | S fuel' =>
      match exec fl r S from with
      | Some (b, e) =>
          1 + countFrom fuel' fl r S (if e =? b then e + 1 else e)
      | None => 0
      end
  end.

Definition matchCount (fl : flags) (r : regex) (S : jsstring) : nat :=
  countFrom (length S + 2) fl r S 0.

Definition noFlags : flags :=
  {| ignoreCase := false; multiline := false; dotAll := false |}.
Definition flag_i : flags :=
  {| ignoreCase := true; multiline := false; dotAll := false |}.
Definition flag_m : flags :=
  {| ignoreCase := false; multiline := true; dotAll := false |}.
Definition flag_s : flags :=
  {| ignoreCase := false; multiline := false; dotAll := true |}.

(** A regular expression literal [/r/flags] as evaluated: [lastIndex] 0. *)
Definition literal (r : regex) (g : bool) (fl : flags) : RegExp :=
  {| source := r; global := g; reflags := fl; lastIndex := 0 |}.

End JSRegExp.
Import JSRegExp.

(* ===================================================================== *)
(** * The data model of [aiDetection.ts] *)
(* ===================================================================== *)

Record LineAnalysis := {
  content : jsstring;
  isAI : bool;
  confidence : float;
  reasons : list string
}.

Inductive ConfidenceLevel :=
| StronglyAI | ModerateAI | LikelyAI | Uncertain | LikelyHuman | StronglyHuman.

Module AIBlock.
Record t := {
  startLine : nat;
  endLine : nat;
  confidenceLevel : ConfidenceLevel;
  confidence : float;
  reasons : list string
}.
End AIBlock.

Record AnalysisResult := {
  totalLines : nat;
  aiLines : nat;
  humanLines : nat;
  aiPercentage : float;
  humanPercentage : float;
  overallConfidence : float;
  lineAnalysis : list LineAnalysis;
  aiBlocks : list AIBlock.t
}.

Record DetectionPattern := {
  pattern : RegExp;
  weight : float;
  reason : string;
  aiIndicator : bool
}.

Definition mkPattern (r : regex) (g : bool) (fl : flags) (w : float)
    (why : string) (ai : bool) : DetectionPattern :=
  {| pattern := literal r g fl; weight := w; reason := why; aiIndicator := ai |}.

(** ** The pattern tables as the module defines them (every [lastIndex] 0) *)

Module Tables.
Local Open Scope float_scope.
Local Open Scope string_scope.

Definition openParen : regex := lit "(".
Definition notCloseParen : regex := noneOf [ch ")"].

Definition AI_PATTERNS : list DetectionPattern := [
  (* /\/\/\s*Step\s*\d+:|\/\/\s*\d+\.|#\s*Step\s*\d+:|#\s*\d+\./gi *)
  mkPattern
    (alts [ seqs [lit "//"; rstar ws; lit "Step"; rstar ws; rplus digit; lit ":"];
            seqs [lit "//"; rstar ws; rplus digit; lit "."];
            seqs [lit "#"; rstar ws; lit "Step"; rstar ws; rplus digit; lit ":"];
            seqs [lit "#"; rstar ws; rplus digit; lit "."] ])
    true flag_i 0.9
    "Contains step-by-step comments typical of AI explanations" true;
  (* /#\s*(Loop through|Track if|Last.*elements|Swap if|If no|Example usage|Original|Sorted)/gi *)
  mkPattern
    (seqs [lit "#"; rstar ws;
           alts [ lit "Loop through"; lit "Track if";
                  seqs [lit "Last"; rstar Dot; lit "elements"];
                  lit "Swap if"; lit "If no"; lit "Example usage";
                  lit "Original"; lit "Sorted" ]])
    true flag_i 0.8
    "Contains verbose explanatory comments typical of AI generation" true;
  (* /(Example usage|if __name__ == <dq>__main__<dq>:|# Example|\/\/ Example)/gi *)
  mkPattern
    (alts [ lit "Example usage";
            seqs [lit "if __name__ == "; Char dq; lit "__main__"; Char dq; lit ":"];
            lit "# Example"; lit "// Example" ])
    true flag_i 0.9
    "Contains structured example usage typical of AI tutorials" true;
  (* /#.*already (in place|sorted)|#.*optimization|#.*efficient/gi *)
  mkPattern
    (alts [ seqs [lit "#"; rstar Dot; lit "already "; alts [lit "in place"; lit "sorted"]];
            seqs [lit "#"; rstar Dot; lit "optimization"];
            seqs [lit "#"; rstar Dot; lit "efficient"] ])
    true flag_i 0.8
    "Contains optimization comments typical of AI explanations" true;
  (* /\b(nums|arr|swapped|sorted_nums)\b/gi *)
  mkPattern
    (seqs [WordBoundary;
           alts [lit "nums"; lit "arr"; lit "swapped"; lit "sorted_nums"];
           WordBoundary])
    true flag_i 0.7
    "Uses educational variable names typical of AI tutorials" true;
  (* /print\s*\(\s*[<dq>']Original:|print\s*\(\s*[<dq>']Sorted:/gi *)
  mkPattern
    (alts [ seqs [lit "print"; rstar ws; openParen; rstar ws; quote; lit "Original:"];
            seqs [lit "print"; rstar ws; openParen; rstar ws; quote; lit "Sorted:"] ])
    true flag_i 0.9
    "Contains labeled output statements typical of AI examples" true;
  (* /def\s+\w+\s*\([^)]*\):\s*\n.*return/s *)
  mkPattern
    (seqs [lit "def"; rplus ws; rplus word; rstar ws; openParen;
           rstar notCloseParen; lit "):"; rstar ws; Char 10; rstar Dot;
           lit "return"])
    false flag_s 0.6
    "Contains complete function with proper return statement" true;
  (* /if.*:\s*\n.*else:\s*\n.*break/gs *)
  mkPattern
    (seqs [lit "if"; rstar Dot; lit ":"; rstar ws; Char 10; rstar Dot;
           lit "else:"; rstar ws; Char 10; rstar Dot; lit "break"])
    true flag_s 0.7
    "Contains comprehensive conditional logic typical of AI" true;
  (* /^    [a-zA-Z]/gm *)
  mkPattern (seqs [Bol; lit "    "; letter])
    true flag_m 0.3
    "Perfect 4-space indentation consistency" true;
  (* /print\s*\(\s*(?![<dq>']Original:|[<dq>']Sorted:)/gi *)
  mkPattern
    (seqs [lit "print"; rstar ws; openParen; rstar ws;
           NegLookahead (alts [ seqs [quote; lit "Original:"];
                                seqs [quote; lit "Sorted:"] ])])
    true flag_i 0.6
    "Contains debug print statements" false;
  (* /(TODO|FIXME|HACK|XXX|BUG):/gi *)
  mkPattern
    (seqs [alts [lit "TODO"; lit "FIXME"; lit "HACK"; lit "XXX"; lit "BUG"]; lit ":"])
    true flag_i 0.8
    "Contains TODO/FIXME comments indicating human planning" false;
  (* /#\s*[a-z][^.A-Z]*$/gm *)
  mkPattern
    (seqs [lit "#"; rstar ws; oneOf [rng "a" "z"];
           rstar (noneOf [ch "."; rng "A" "Z"]); Eol])
    true flag_m 0.4
    "Contains casual comments typical of human code" false;
  (* /\b(i|j|k|n|x|y|z|tmp|temp|val|res|data|item)\b/g *)
  mkPattern
    (seqs [WordBoundary;
           alts [ lit "i"; lit "j"; lit "k"; lit "n"; lit "x"; lit "y"; lit "z";
                  lit "tmp"; lit "temp"; lit "val"; lit "res"; lit "data"; lit "item" ];
           WordBoundary])
    true noFlags 0.3
    "Uses short variable names common in human code" false;
  (* /\s{5,}|[a-zA-Z]\s{2,}[a-zA-Z]|\t\s|\s\t/g *)
  mkPattern
    (alts [ atLeast 5 ws; seqs [letter; atLeast 2 ws; letter];
            seqs [Char 9; ws]; seqs [ws; Char 9] ])
    true noFlags 0.6
    "Has inconsistent spacing typical of human editing" false;
  (* /\w+\[\w+\]\s*=\s*\w+\[\w+\]/g *)
  mkPattern
    (seqs [ rplus word; lit "["; rplus word; lit "]"; rstar ws; lit "=";
            rstar ws; rplus word; lit "["; rplus word; lit "]" ])
    true noFlags 0.2
    "Direct assignments without explanatory comments" false;
  (* /\[.*64.*25.*12.*22.*11.*\]/g *)
  mkPattern
    (seqs [ lit "["; rstar Dot; lit "64"; rstar Dot; lit "25"; rstar Dot;
            lit "12"; rstar Dot; lit "22"; rstar Dot; lit "11"; rstar Dot; lit "]" ])
    true noFlags 0.4
    "Contains hardcoded test values" true
].

Definition javascript_patterns : list DetectionPattern := [
  (* /console\.log\([^)]*\)/g *)
  mkPattern (seqs [lit "console.log("; rstar notCloseParen; lit ")"])
    true noFlags 0.2 "Contains debug console.log statements" false;
  (* /function\s+\w+\s*\([^)]*\)\s*{/g *)
  mkPattern
    (seqs [ lit "function"; rplus ws; rplus word; rstar ws; openParen;
            rstar notCloseParen; lit ")"; rstar ws; lit "{" ])
    true noFlags 0.1 "Uses function declarations" true
].

Definition python_patterns : list DetectionPattern := [
  (* /print\([^)]*\)/g *)
  mkPattern (seqs [lit "print("; rstar notCloseParen; lit ")"])
    true noFlags 0.2 "Contains debug print statements" false;
  (* /def\s+\w+\s*\([^)]*\):/g *)
  mkPattern
    (seqs [ lit "def"; rplus ws; rplus word; rstar ws; openParen;
            rstar notCloseParen; lit "):" ])
    true noFlags 0.1 "Uses function definitions" true
].

Definition typescript_patterns : list DetectionPattern := [
  (* /:\s*(string|number|boolean|any|unknown|void|never)\b/g *)
  mkPattern
    (seqs [ lit ":"; rstar ws;
            alts [ lit "string"; lit "number"; lit "boolean"; lit "any";
                   lit "unknown"; lit "void"; lit "never" ];
            WordBoundary ])
    true noFlags 0.2 "Contains explicit type annotations" true
].

Definition LANGUAGE_PATTERNS : list (jsstring * list DetectionPattern) := [
  (js "javascript", javascript_patterns);
  (js "python", python_patterns);
  (js "typescript", typescript_patterns)
].
End Tables.

(** ** Module state and abrupt completion *)

(** The two tables are module-level constants, but the [RegExp] objects in
    them are mutable: [test] moves the [lastIndex] of a global pattern.  The
    tables are therefore the state that one call of the engine hands to the
    next. *)
Record Globals := {
  AI_PATTERNS : list DetectionPattern;
  LANGUAGE_PATTERNS : list (jsstring * list DetectionPattern)
}.

(** The state after the module is loaded. *)
Definition initial : Globals :=
  {| AI_PATTERNS := Tables.AI_PATTERNS;
     LANGUAGE_PATTERNS := Tables.LANGUAGE_PATTERNS |}.

Inductive JSError := TypeError (message : string).

Inductive Completion (A : Type) :=
| Normal (a : A)
| Throw (e : JSError).
Arguments Normal {A} a.
Arguments Throw {A} e.

(** [LANGUAGE_PATTERNS] is an object literal, so reading a property it does
    not own continues in [Object.prototype]. *)
Inductive Property :=
| Own (ps : list DetectionPattern)   (* one of the three rule arrays *)
| Inherited                          (* a member of Object.prototype *)
| Absent.                            (* undefined *)

(** The property names of [Object.prototype]: eleven functions and the
    [__proto__] accessor, which here yields [Object.prototype] itself.  All
    are truthy and none is iterable. *)
Definition ObjectPrototype_names : list jsstring :=
  map js [ "constructor"; "__defineGetter__"; "__defineSetter__";
           "hasOwnProperty"; "__lookupGetter__"; "__lookupSetter__";
           "isPrototypeOf"; "propertyIsEnumerable"; "toString"; "valueOf";
           "__proto__"; "toLocaleString" ]%string.

Fixpoint ownProperty (tbl : list (jsstring * list DetectionPattern))
    (key : jsstring) : option (list DetectionPattern) :=
  match tbl with
  | [] => None
  | (k, ps) :: tbl' => if JSString.eqb k key then Some ps else ownProperty tbl' key
  end.

Definition getProperty (tbl : list (jsstring * list DetectionPattern))
    (key : jsstring) : Property :=
  match ownProperty tbl key with
  | Some ps => Own ps
  | None => if existsb (JSString.eqb key) ObjectPrototype_names then Inherited else Absent
  end.

Fixpoint setProperty (tbl : list (jsstring * list DetectionPattern))
    (key : jsstring) (ps' : list DetectionPattern)
    : list (jsstring * list DetectionPattern) :=
  match tbl with
  | [] => []
  | (k, ps) :: tbl' =>
      if JSString.eqb k key then (k, ps') :: tbl'
      else (k, ps) :: setProperty tbl' key ps'
  end.

(* ===================================================================== *)
(** * The functions of [aiDetection.ts] *)
(* ===================================================================== *)

Section Engine.
Local Open Scope float_scope.

(** ** [analyzeCodeStructure] *)

Definition nonBlank (line : jsstring) : bool := truthy (trim line).

(** One iteration of the indentation loop, on (consistentIndentation,
    indentPattern). *)
Definition indentStep (st : nat * jsstring) (line : jsstring) : nat * jsstring :=
  let '(consistentIndentation, indentPattern) := st in
  let indent := matched noFlags (seqs [Bol; rstar ws]) line in
  let indentPattern :=
    if negb (truthy indentPattern) && truthy indent then indent else indentPattern in
  if JSString.eqb indent indentPattern || JSString.eqb indent []
     || startsWith indent indentPattern
  then (S consistentIndentation, indentPattern)
  else (consistentIndentation, indentPattern).

(** [/\/\*[\s\S]*?\*\/|\/\/.*$/gm] *)
Definition commentPattern : regex :=
  alts [ seqs [lit "/*"; rstar_lazy (oneOf [CSpace; CNotSpace]); lit "*/"];
         seqs [lit "//"; rstar Dot; Eol] ].

(** [/(try|catch|throw|Error|Exception)/g] *)
Definition errorHandlingPattern : regex :=
  alts [lit "try"; lit "catch"; lit "throw"; lit "Error"; lit "Exception"].

Definition analyzeCodeStructure (code : jsstring) : float :=
  let aiScore := 0 in
  let lines := List.filter nonBlank (split_newline code) in
  let '(consistentIndentation, _) := fold_left indentStep lines (O, []) in
  let aiScore :=
    if gt (ofNat consistentIndentation / ofNat (length lines)) 0.9
    then aiScore + 0.3 else aiScore in
  let commentLines := matchCount flag_m commentPattern code in
  let commentRatio := ofNat commentLines / ofNat (length lines) in
  let aiScore := if gt commentRatio 0.3 then aiScore + 0.2 else aiScore in
  let errorHandlingCount := matchCount noFlags errorHandlingPattern code in
  let aiScore :=
    if gt (ofNat errorHandlingCount) (ofNat (length lines) * 0.1)
    then aiScore + 0.2 else aiScore in
  Math_min aiScore 1.

(** ** [analyzeLine] *)

(** The three accumulators of [analyzeLine]. *)
Record Scores := {
  aiScore : float;
  humanScore : float;
  fired : list string           (* the local [reasons] *)
}.

Definition addAI (w : float) (why : string) (sc : Scores) : Scores :=
  {| aiScore := aiScore sc + w; humanScore := humanScore sc;
     fired := fired sc ++ [why] |}.

Definition addHuman (w : float) (why : string) (sc : Scores) : Scores :=
  {| aiScore := aiScore sc; humanScore := humanScore sc + w;
     fired := fired sc ++ [why] |}.

(** [for (const pattern of ps) if (pattern.pattern.test(content)) ...]:
    every pattern is tested once, in order, and keeps the [lastIndex] the
    test left in it. *)
Fixpoint applyPatterns (ps : list DetectionPattern) (content : jsstring)
    (sc : Scores) : list DetectionPattern * Scores :=
  match ps with
  | [] => ([], sc)
  | p :: ps' =>
      let '(hit, R) := test (pattern p) content in
      let p' := {| pattern := R; weight := weight p; reason := reason p;
                   aiIndicator := aiIndicator p |} in
      let sc' :=
        if hit then
          if aiIndicator p then addAI (weight p) (reason p) sc
          else addHuman (weight p) (reason p) sc
        else sc in
      let '(ps'', sc'') := applyPatterns ps' content sc' in
      (p' :: ps'', sc'')
  end.

(** [/[{}();,]/] *)
Definition punctuationPattern : regex :=
  oneOf [ch "{"; ch "}"; ch "("; ch ")"; ch ";"; ch ","].

(** [/[^\w\s\(\)\[\]{};:,.<>!@#$%^&*+=|\\?/-]/] *)
Definition imperfectPattern : regex :=
  noneOf [ CWord; CSpace; ch "("; ch ")"; ch "["; ch "]"; ch "{"; ch "}";
           ch ";"; ch ":"; ch ","; ch "."; ch "<"; ch ">"; ch "!"; ch "@";
           ch "#"; ch "$"; ch "%"; ch "^"; ch "&"; ch "*"; ch "+"; ch "=";
           ch "|"; ch "\"; ch "?"; ch "/"; ch "-" ].

(** [/\b(foo|bar|baz|qux|quirky|magic|hack|wtf)\b/i] *)
Definition quirkyPattern : regex :=
  seqs [ WordBoundary;
         alts [ lit "foo"; lit "bar"; lit "baz"; lit "qux"; lit "quirky";
                lit "magic"; lit "hack"; lit "wtf" ];
         WordBoundary ].

(** The heuristics that follow the two pattern loops. *)
Definition heuristics (content : jsstring) (sc : Scores) : Scores :=
  let sc :=
    if (120 <? length content)%nat then
      addAI 0.2 "Very long line length typical of AI generation" sc
    else if (length content <? 20)%nat && negb (matches noFlags punctuationPattern content)
    then addHuman 0.1 "Short, concise line suggests human writing" sc
    else sc in
  let hasPerfectSyntax := negb (matches noFlags imperfectPattern content) in
  let sc :=
    if hasPerfectSyntax && (30 <? length content)%nat
    then addAI 0.1 "Perfect syntax and structure" sc else sc in
  if matches flag_i quirkyPattern content
  then addHuman 0.3 "Uses creative or placeholder naming typical of humans" sc
  else sc.

(** The scoring part of [analyzeLine], from the first pattern loop to the
    last heuristic, on the trimmed, non-empty [content].  Iterating a
    value inherited from [Object.prototype] throws. *)
Definition scoreLine (g : Globals) (content language : jsstring)
    : Globals * Completion Scores :=
  let sc := {| aiScore := 0; humanScore := 0; fired := [] |} in
  let '(general, sc) := applyPatterns (AI_PATTERNS g) content sc in
  match getProperty (LANGUAGE_PATTERNS g) language with
  | Inherited =>
      ({| AI_PATTERNS := general; LANGUAGE_PATTERNS := LANGUAGE_PATTERNS g |},
       Throw (TypeError "langPatterns is not iterable"))
  | Absent =>
      ({| AI_PATTERNS := general; LANGUAGE_PATTERNS := LANGUAGE_PATTERNS g |},
       Normal (heuristics content sc))
  | Own langPatterns =>
      let '(langPatterns', sc) := applyPatterns langPatterns content sc in
      ({| AI_PATTERNS := general;
          LANGUAGE_PATTERNS := setProperty (LANGUAGE_PATTERNS g) language langPatterns' |},
       Normal (heuristics content sc))
  end.

(** The end of [analyzeLine]: confidence, classification, default reason. *)
Definition verdict (line : jsstring) (sc : Scores) : LineAnalysis :=
  let totalScore := aiScore sc + humanScore sc in
  let confidence :=
    if gt totalScore 0 then Math_max (aiScore sc) (humanScore sc) / totalScore
    else 0.5 in
  let confidence := Math_min (Math_max confidence 0.1) 0.95 in
  let isAI := gt (aiScore sc) (humanScore sc) in
  let reasons :=
    if (length (fired sc) =? 0)%nat
    then ["No significant patterns detected - neutral classification"%string]
    else fired sc in
  {| content := line; isAI := isAI; confidence := confidence; reasons := reasons |}.

Definition analyzeLine (g : Globals) (line : jsstring) (lineNumber : nat)
    (language : jsstring) : Globals * Completion LineAnalysis :=
  let content := trim line in
  if negb (truthy content) then
    (g, Normal {| content := line; isAI := false; confidence := 0.5;
                  reasons := ["Empty line - neutral"%string] |})
  else
    match scoreLine g content language with
    | (g', Normal sc) => (g', Normal (verdict line sc))
    | (g', Throw e) => (g', Throw e)
    end.

(** ** [isCreativeHumanCode] *)

(** The seven literals are evaluated afresh at every call, so their
    [lastIndex] is 0 whatever their flags. *)
Definition creativePatterns : list (flags * regex) := [
  (* /(TODO|FIXME|HACK|XXX|NOTE):/gi *)
  (flag_i, seqs [alts [lit "TODO"; lit "FIXME"; lit "HACK"; lit "XXX"; lit "NOTE"]; lit ":"]);
  (* /\b(foo|bar|baz|qux|quirky|magic|hack|wtf|temp|tmp)\b/i *)
  (flag_i, seqs [ WordBoundary;
                  alts [ lit "foo"; lit "bar"; lit "baz"; lit "qux"; lit "quirky";
                         lit "magic"; lit "hack"; lit "wtf"; lit "temp"; lit "tmp" ];
                  WordBoundary ]);
  (* /console\.log\((?!.*Result:|.*Error:|.*Usage:)/ *)
  (noFlags, seqs [ lit "console.log(";
                   NegLookahead (alts [ seqs [rstar Dot; lit "Result:"];
                                        seqs [rstar Dot; lit "Error:"];
                                        seqs [rstar Dot; lit "Usage:"] ]) ]);
  (* /\/\/\s*(FIXME|TODO|HACK|NOTE)/i *)
  (flag_i, seqs [lit "//"; rstar ws; alts [lit "FIXME"; lit "TODO"; lit "HACK"; lit "NOTE"]]);
  (* /\/\/\s*[a-z][^.A-Z]*$/ *)
  (noFlags, seqs [ lit "//"; rstar ws; oneOf [rng "a" "z"];
                   rstar (noneOf [ch "."; rng "A" "Z"]); Eol ]);
  (* /\?\?\?|\!\!\!|\.\.\.$/ *)
  (noFlags, alts [lit "???"; lit "!!!"; seqs [lit "..."; Eol]]);
  (* /\/\/\s*(lol|wtf|omg|meh|ugh)/i *)
  (flag_i, seqs [lit "//"; rstar ws; alts [lit "lol"; lit "wtf"; lit "omg"; lit "meh"; lit "ugh"]])
].

Definition isCreativeHumanCode (line : jsstring) : bool :=
  let content := trim line in
  existsb (fun p => matches (fst p) (snd p) content) creativePatterns.

(** ** [getConfidenceLevel] *)

Definition getConfidenceLevel (confidence : float) (isAI : bool) : ConfidenceLevel :=
  if isAI then
    if ge confidence 0.85 then StronglyAI
    else if ge confidence 0.7 then ModerateAI
    else if ge confidence 0.6 then LikelyAI
    else Uncertain
  else
    if ge confidence 0.85 then StronglyHuman
    else if ge confidence 0.7 then LikelyHuman
    else Uncertain.
End Engine.

Section Refiner.
Local Open Scope float_scope.

(** ** [applyContextualAnalysis]

    The array is mutated in place; each loop is a left fold of its body
    over the indices it visits. *)

Definition markSandwiched (l : LineAnalysis) : LineAnalysis :=
  {| content := content l; isAI := true;
     confidence := Math_max (confidence l) 0.8;
     reasons := reasons l ++ ["Line sandwiched between AI-generated code blocks"%string] |}.

(** Body of the first loop at index [i]. *)
Definition sandwichStep (la : list LineAnalysis) (i : nat) : list LineAnalysis :=
  match la !! i, la !! (i - 1)%nat, la !! (i + 1)%nat with
  | Some currentLine, Some prevLine, Some nextLine =>
      if negb (nonBlank (content currentLine)) then la
      else if negb (isAI currentLine) && isAI prevLine && isAI nextLine then
        if negb (isCreativeHumanCode (content currentLine))
        then <[i := markSandwiched currentLine]> la
        else la
      else la
  | _, _, _ => la
  end.

(** [for (let i = 1; i < lineAnalysis.length - 1; i++)] *)
Definition sandwichPass (la : list LineAnalysis) : list LineAnalysis :=
  fold_left sandwichStep (seq 1 (length la - 2)) la.

Definition boost (l : LineAnalysis) : LineAnalysis :=
  {| content := content l; isAI := isAI l;
     confidence := Math_min (confidence l + 0.1) 0.95;
     reasons := reasons l |}.

Definition markExtended (l : LineAnalysis) : LineAnalysis :=
  {| content := content l; isAI := true;
     confidence := Math_max (confidence l) 0.75;
     reasons := reasons l ++ ["Part of extended AI-generated code block"%string] |}.

(** The look-ahead of the second loop:
    [for (let j = i + 1; j < Math.min(i + 4, lineAnalysis.length); j++)]. *)
Definition aiContinues (la : list LineAnalysis) (i : nat) : bool :=
  existsb
    (fun j => match la !! j with
              | Some l => nonBlank (content l) && isAI l
              | None => false
              end)
    (seq (i + 1) (Nat.min (i + 4) (length la) - (i + 1))).

(** Body of the second loop at index [i], on the array and
    [consecutiveAICount]. *)
Definition runStep (st : list LineAnalysis * nat) (i : nat)
    : list LineAnalysis * nat :=
  let '(la, consecutiveAICount) := st in
  match la !! i with
  | None => st
  | Some line =>
      if negb (nonBlank (content line)) then (la, O)
      else if isAI line then
        let consecutiveAICount := S consecutiveAICount in
        if (3 <=? consecutiveAICount)%nat
        then (<[i := boost line]> la, consecutiveAICount)
        else (la, consecutiveAICount)
      else
        let la :=
          if (2 <=? consecutiveAICount)%nat && negb (isCreativeHumanCode (content line))
          then if aiContinues la i then <[i := markExtended line]> la else la
          else la in
        (la, O)
  end.

Definition runPass (la : list LineAnalysis) : list LineAnalysis :=
  fst (fold_left runStep (seq 0 (length la)) (la, O)).

Definition applyContextualAnalysis (la : list LineAnalysis) : list LineAnalysis :=
  runPass (sandwichPass la).
End Refiner.

Section Blocks.
Local Open Scope float_scope.

(** ** [detectAIBlocks] *)

(** The accumulator [currentBlock]. *)
Record CurrentBlock := {
  cb_start : nat;
  cb_end : nat;
  cb_isAI : bool;
  confidences : list float;
  cb_reasons : list string      (* a [Set], in insertion order *)
}.

(** [set.add(x)] on a [Set] kept in insertion order. *)
Definition setAdd (set : list string) (x : string) : list string :=
  if existsb (String.eqb x) set then set else set ++ [x].

(** [new Set(xs)], and adding every element of [xs] to a set. *)
Definition setAddAll (set : list string) (xs : list string) : list string :=
  fold_left setAdd xs set.

(** The block pushed for an accumulator of two or more lines. *)
Definition emit (cb : CurrentBlock) : list AIBlock.t :=
  if (2 <=? length (confidences cb))%nat then
    let avgConfidence := JSNumber.sum (confidences cb) / ofNat (length (confidences cb)) in
    [ {| AIBlock.startLine := cb_start cb;
         AIBlock.endLine := cb_end cb;
         AIBlock.confidenceLevel := getConfidenceLevel avgConfidence (cb_isAI cb);
         AIBlock.confidence := avgConfidence;
         AIBlock.reasons := cb_reasons cb |} ]
  else [].

Definition emitOpt (cur : option CurrentBlock) : list AIBlock.t :=
  match cur with Some cb => emit cb | None => [] end.

(** Body of the loop at index [i] on [line = lineAnalysis[i]]. *)
Definition blockStep (st : list AIBlock.t * option CurrentBlock)
    (i : nat) (line : LineAnalysis) : list AIBlock.t * option CurrentBlock :=
  let '(blocks, currentBlock) := st in
  if negb (nonBlank (content line)) then st
  else
    match currentBlock with
    | Some cb =>
        if Bool.eqb (cb_isAI cb) (isAI line) then
          (blocks,
           Some {| cb_start := cb_start cb; cb_end := i + 1; cb_isAI := cb_isAI cb;
                   confidences := confidences cb ++ [confidence line];
                   cb_reasons := setAddAll (cb_reasons cb) (reasons line) |})
        else
          (blocks ++ emit cb,
           Some {| cb_start := i + 1; cb_end := i + 1; cb_isAI := isAI line;
                   confidences := [confidence line];
                   cb_reasons := setAddAll [] (reasons line) |})
    | None =>
        (blocks,
         Some {| cb_start := i + 1; cb_end := i + 1; cb_isAI := isAI line;
                 confidences := [confidence line];
                 cb_reasons := setAddAll [] (reasons line) |})
    end.

(** The loop from index [i] over the remaining lines. *)
Fixpoint blockLoop (i : nat) (lines : list LineAnalysis)
    (st : list AIBlock.t * option CurrentBlock)
    : list AIBlock.t * option CurrentBlock :=
  match lines with
  | [] => st
  | line :: lines' => blockLoop (S i) lines' (blockStep st i line)
  end.

Definition detectAIBlocks (lineAnalysis : list LineAnalysis) : list AIBlock.t :=
  let '(blocks, currentBlock) := blockLoop 0 lineAnalysis ([], None) in
  blocks ++ emitOpt currentBlock.
End Blocks.

Section AnalyzeCode.
Local Open Scope float_scope.

(** ** [analyzeCode]

    The promise resolves after a random delay that nothing else depends
    on; the model is the computation that follows it. *)

(** The confidence adjustment inside the per-line loop. *)
Definition adjust (structureScore : float) (analysis : LineAnalysis) : LineAnalysis :=
  if gt structureScore 0.5 then
    if isAI analysis then
      {| content := content analysis; isAI := isAI analysis;
         confidence := Math_min (confidence analysis + 0.1) 0.95;
         reasons := reasons analysis |}
    else analysis
  else analysis.

(** The per-line loop from line number [i + 1] on; an exception leaves it. *)
Fixpoint analyzeLines (g : Globals) (structureScore : float) (language : jsstring)
    (i : nat) (lines : list jsstring) (acc : list LineAnalysis)
    : Globals * Completion (list LineAnalysis) :=
  match lines with
  | [] => (g, Normal acc)
  | line :: lines' =>
      match analyzeLine g line (i + 1) language with
      | (g', Normal analysis) =>
          analyzeLines g' structureScore language (S i) lines'
            (acc ++ [adjust structureScore analysis])
      | (g', Throw e) => (g', Throw e)
      end
  end.

(** The statistics computed from the refined array. *)
Definition summarize (lineAnalysis : list LineAnalysis) : AnalysisResult :=
  let aiBlocks := detectAIBlocks lineAnalysis in
  let nonEmptyLines := List.filter (fun l => nonBlank (content l)) lineAnalysis in
  let aiLines := length (List.filter isAI nonEmptyLines) in
  let humanLines := (length nonEmptyLines - aiLines)%nat in
  let totalLines := length nonEmptyLines in
  let aiPercentage :=
    if (0 <? totalLines)%nat then ofNat aiLines / ofNat totalLines * 100 else 0 in
  let humanPercentage :=
    if (0 <? totalLines)%nat then ofNat humanLines / ofNat totalLines * 100 else 0 in
  let overallConfidence :=
    if (0 <? length nonEmptyLines)%nat
    then JSNumber.sum (map confidence nonEmptyLines) / ofNat (length nonEmptyLines)
    else 0.5 in
  {| totalLines := totalLines; aiLines := aiLines; humanLines := humanLines;
     aiPercentage := aiPercentage; humanPercentage := humanPercentage;
     overallConfidence := overallConfidence;
     lineAnalysis := lineAnalysis; aiBlocks := aiBlocks |}.

Definition analyzeCode (g : Globals) (code language : jsstring)
    : Globals * Completion AnalysisResult :=
  let lines := split_newline code in
  let structureScore := analyzeCodeStructure code in
  match analyzeLines g structureScore language 0 lines [] with
  | (g', Normal lineAnalysis) =>
      (g', Normal (summarize (applyContextualAnalysis lineAnalysis)))
  | (g', Throw e) => (g', Throw e)
  end.
End AnalyzeCode.


(* ===================================================================== *)
(** * The functions of [githubAnalyzer.ts] *)
(* ===================================================================== *)

Module GitHubAnalyzer.

(** A property read from an object literal whose values are strings: the
    object's own, a member of [Object.prototype], or [undefined]. *)
Inductive Lookup :=
| OwnString (value : jsstring)
| InheritedMember
| Undefined.

Fixpoint ownString (tbl : list (jsstring * jsstring)) (key : jsstring)
    : option jsstring :=
  match tbl with
  | [] => None
  | (k, v) :: tbl' => if JSString.eqb k key then Some v else ownString tbl' key
  end.

Definition getString (tbl : list (jsstring * jsstring)) (key : jsstring) : Lookup :=
  match ownString tbl key with
  | Some v => OwnString v
  | None =>
      if existsb (JSString.eqb key) ObjectPrototype_names then InheritedMember
      else Undefined
  end.

Definition LANGUAGE_MAP : list (jsstring * jsstring) :=
  map (fun kv => (js (fst kv), js (snd kv)))
    [ (".js", "javascript"); (".jsx", "jsx"); (".ts", "typescript"); (".tsx", "tsx");
      (".py", "python"); (".java", "java"); (".cpp", "cpp"); (".cc", "cpp");
      (".cxx", "cpp"); (".c++", "cpp"); (".cs", "csharp"); (".go", "go");
      (".rs", "rust"); (".php", "php"); (".rb", "ruby"); (".swift", "swift");
      (".kt", "kotlin"); (".scala", "scala"); (".sh", "bash"); (".sql", "sql");
      (".html", "html"); (".css", "css"); (".scss", "scss"); (".sass", "sass");
      (".json", "json"); (".yaml", "yaml"); (".yml", "yaml"); (".xml", "xml");
      (".md", "markdown") ]%string.

(** [/\.[^.]*$/] *)
Definition extensionPattern : regex :=
  seqs [lit "."; rstar (noneOf [ch "."]); Eol].

(** What [getLanguageFromPath] returns: a string, or the member of
    [Object.prototype] that [LANGUAGE_MAP[ext]] would read. *)
Inductive Label :=
| LabelString (language : jsstring)
| LabelInherited.

Definition codeExtensions : list jsstring :=
  map js [ ".js"; ".jsx"; ".ts"; ".tsx"; ".py"; ".java"; ".cpp"; ".cc"; ".cxx";
           ".c++"; ".cs"; ".go"; ".rs"; ".php"; ".rb"; ".swift"; ".kt"; ".scala" ]%string.

Section Paths.
(** [String.prototype.toLowerCase], which the model leaves open: the
    functions below are defined, and their properties hold, whatever it
    maps a path to. *)
Variable toLowerCase : jsstring -> jsstring.

(** [filePath.toLowerCase().match(/\.[^.]*$/)?.[0]]; a match is never
    empty, so the empty string stands for [undefined]. *)
Definition extension (filePath : jsstring) : jsstring :=
  matched noFlags extensionPattern (toLowerCase filePath).

Definition getLanguageFromPath (filePath : jsstring) : Label :=
  let ext := extension filePath in
  if truthy ext then
    match getString LANGUAGE_MAP ext with
    | OwnString language =>
        if truthy language then LabelString language else LabelString (js "text")
    | InheritedMember => LabelInherited
    | Undefined => LabelString (js "text")
    end
  else LabelString (js "text").

Definition shouldAnalyzeFile (filePath : jsstring) : bool :=
  let ext := extension filePath in
  if negb (truthy ext) then false
  else existsb (JSString.eqb ext) codeExtensions.
End Paths.

(** ** The data of the repository analysis *)

Module GitHubFile.
Record t := {
  name : jsstring;
  path : jsstring;
  type : jsstring;                     (* 'file' | 'dir' *)
  download_url : option jsstring;      (* download_url?: string *)
  size : float
}.
End GitHubFile.

Module FileAnalysis.
Record t := {
  path : jsstring;
  language : jsstring;
  analysis : AnalysisResult;
  size : float
}.
End FileAnalysis.

Module OverallStats.
Record t := {
  totalLines : nat;
  aiLines : nat;
  humanLines : nat;
  aiPercentage : float;
  humanPercentage : float;
  overallConfidence : float
}.
End OverallStats.

Module RepositoryAnalysis.
Record t := {
  repositoryUrl : jsstring;
  totalFiles : nat;
  analyzedFiles : nat;
  files : list FileAnalysis.t;
  overallStats : OverallStats.t
}.
End RepositoryAnalysis.

(** ** Promises, the network and the console *)

(** The values that the functions throw, or reject with. *)
Inductive Reason :=
| GitHubApiError (status : N) (statusText : jsstring)
      (* new Error(`GitHub API error: ${status} ${statusText}`) *)
| FailedToFetchFile (status : N)
      (* new Error(`Failed to fetch file: ${status}`) *)
| InvalidRepositoryUrl
      (* new Error('Invalid GitHub repository URL. Please use format: ...') *)
| NoAnalyzeableFiles
      (* new Error('No analyzeable code files found in this repository') *)
| Thrown (e : JSError)                 (* thrown by [analyzeCode] *)
| External (id : nat).                 (* from [fetch], a body or a callback *)

(** A settled promise. *)
Inductive Promise (A : Type) :=
| Fulfilled (value : A)
| Rejected (reason : Reason).
Arguments Fulfilled {A} value.
Arguments Rejected {A} reason.

(** What [response.json()] yields, at the type the source gives it. *)
Inductive Json :=
| JsonArray (items : list GitHubFile.t)
| JsonValue (item : GitHubFile.t).

Record Response := {
  ok : bool;
  status : N;
  statusText : jsstring;
  json : Promise Json;                 (* response.json() *)
  text : Promise jsstring              (* response.text() *)
}.

(** What a call does that can be seen from outside, in order. *)
Inductive Event :=
| Request (url : jsstring)                                   (* fetch(url) *)
| ConsoleError (message : jsstring) (reason : Reason)
| ConsoleWarn (message : jsstring) (reason : Reason)
| ProgressCall (current total : nat) (currentFile : jsstring).

(** The state that the functions thread: the tables of [aiDetection.ts],
    the number of requests made, and the events so far. *)
Record State := {
  globals : Globals;
  requests : nat;
  log : list Event
}.

Definition record (e : Event) (st : State) : State :=
  {| globals := globals st; requests := requests st; log := log st ++ [e] |}.

Definition setGlobals (g : Globals) (st : State) : State :=
  {| globals := g; requests := requests st; log := log st |}.

(** [onProgress]: the callback returns, or throws. *)
Definition Callback := nat -> nat -> jsstring -> option Reason.

(** [onProgress?.(current, total, currentFile)]. *)
Definition progress (onProgress : option Callback) (current total : nat)
    (currentFile : jsstring) (st : State) : State * option Reason :=
  match onProgress with
  | None => (st, None)
  | Some callback =>
      (record (ProgressCall current total currentFile) st,
       callback current total currentFile)
  end.

(** Truthiness of a number: neither zero nor NaN. *)
Definition truthyNumber (x : float) : bool :=
  negb (PrimFloat.eqb x 0) && negb (PrimFloat.is_nan x).

(** [/github\.com\/([^\/]+)\/([^\/]+)/] *)
Definition urlPattern : regex :=
  seqs [lit "github.com/"; rplus (noneOf [ch "/"]); lit "/"; rplus (noneOf [ch "/"])].

(** The two groups of the match of [urlPattern] from [b] to [e].  The
    first group starts after the eleven characters of the literal and ends
    at the first end, in the order in which the matcher tries them, from
    which the rest of the pattern matches; the second group starts after the
    slash and ends with the match. *)
Definition groups (url : jsstring) (b e : nat) : jsstring * jsstring :=
  let b1 := b + 11 in
  let rest := seqs [lit "/"; rplus (noneOf [ch "/"])] in
  let e1 :=
    match compile noFlags url (rplus (noneOf [ch "/"])) b1
            (fun y => match matchAt noFlags url rest y with
                      | Some _ => Some y
                      | None => None
                      end) with
    | Some y => y
    | None => b1
    end in
  (take (e1 - b1) (drop b1 url), take (e - S e1) (drop (S e1) url)).

Module Totals.
(** The variables of the loop over the files. *)
Record t := {
  fileAnalyses : list FileAnalysis.t;
  totalLines : nat;
  totalAiLines : nat;
  totalHumanLines : nat;
  totalConfidence : float;
  analyzedCount : nat
}.
End Totals.

Section Repository.
Variable toLowerCase : jsstring -> jsstring.

(** The network: what [fetch(url)] settles to, given the number of requests
    made before it. *)
Variable fetch : nat -> jsstring -> Promise Response.

Definition request (url : jsstring) (st : State) : State * Promise Response :=
  ({| globals := globals st; requests := S (requests st);
      log := log st ++ [Request url] |},
   fetch (requests st) url).

Definition contentsUrl (owner repo path : jsstring) : jsstring :=
  js "https://api.github.com/repos/" ++ owner ++ js "/" ++ repo
  ++ js "/contents/" ++ path.

Definition fetchGitHubContents (owner repo path : jsstring) (st : State)
    : State * Promise (list GitHubFile.t) :=
  let caught (reason : Reason) (st' : State) :=
    (record (ConsoleError
               (js "Error fetching GitHub contents for " ++ owner ++ js "/" ++ repo
                ++ js "/" ++ path ++ js ":") reason) st',
     Rejected reason) in
  match request (contentsUrl owner repo path) st with
  | (st1, Rejected reason) => caught reason st1
  | (st1, Fulfilled response) =>
      if negb (ok response)
      then caught (GitHubApiError (status response) (statusText response)) st1
      else
        match json response with
        | Rejected reason => caught reason st1
        | Fulfilled (JsonArray items) => (st1, Fulfilled items)
        | Fulfilled (JsonValue item) => (st1, Fulfilled [item])
        end
  end.

Definition fetchFileContent (downloadUrl : jsstring) (st : State)
    : State * Promise jsstring :=
  let caught (reason : Reason) (st' : State) :=
    (record (ConsoleError
               (js "Error fetching file content from " ++ downloadUrl ++ js ":")
               reason) st',
     Rejected reason) in
  match request downloadUrl st with
  | (st1, Rejected reason) => caught reason st1
  | (st1, Fulfilled response) =>
      if negb (ok response) then caught (FailedToFetchFile (status response)) st1
      else
        match text response with
        | Rejected reason => caught reason st1
        | Fulfilled content => (st1, Fulfilled content)
        end
  end.

(** The loop of [getAllFiles] over the listing; [getSubFiles] is the
    recursive call. *)
Fixpoint collectFiles
    (getSubFiles : jsstring -> State -> State * Promise (list GitHubFile.t))
    (contents allFiles : list GitHubFile.t) (st : State)
    : State * list GitHubFile.t :=
  match contents with
  | [] => (st, allFiles)
  | item :: contents' =>
      if JSString.eqb (GitHubFile.type item) (js "file") then
        collectFiles getSubFiles contents' (allFiles ++ [item]) st
      else if JSString.eqb (GitHubFile.type item) (js "dir")
              && negb (startsWith (GitHubFile.name item) (js "."))
              && negb (JSString.eqb (GitHubFile.name item) (js "node_modules")) then
        match getSubFiles (GitHubFile.path item) st with
        | (st1, Fulfilled subFiles) =>
            collectFiles getSubFiles contents' (allFiles ++ subFiles) st1
        | (st1, Rejected reason) =>
            collectFiles getSubFiles contents' allFiles
              (record (ConsoleWarn
                         (js "Skipping directory " ++ GitHubFile.path item ++ js ":")
                         reason) st1)
        end
      else collectFiles getSubFiles contents' allFiles st
  end.

(** [maxDepth] is 3 in the only call from outside, and one less in each
    call from inside: a natural number. *)
Fixpoint getAllFiles (maxDepth : nat) (owner repo path : jsstring) (st : State)
    : State * Promise (list GitHubFile.t) :=
  match maxDepth with
  | O => (st, Fulfilled [])
  | S depth =>
      match fetchGitHubContents owner repo path st with
      | (st1, Rejected reason) => (st1, Rejected reason)
      | (st1, Fulfilled contents) =>
          let (st2, allFiles) :=
            collectFiles (getAllFiles depth owner repo) contents [] st1 in
          (st2, Fulfilled allFiles)
      end
  end.

(** The filter of [analyzeGitHubRepository]. *)
Definition analyzeable (file : GitHubFile.t) : bool :=
  shouldAnalyzeFile toLowerCase (GitHubFile.path file)
  && truthyNumber (GitHubFile.size file)
  && PrimFloat.ltb (GitHubFile.size file) (1024 * 1024)%float
  && match GitHubFile.download_url file with
     | Some url => truthy url
     | None => false
     end.

Definition emptyTotals : Totals.t :=
  {| Totals.fileAnalyses := []; Totals.totalLines := 0; Totals.totalAiLines := 0;
     Totals.totalHumanLines := 0; Totals.totalConfidence := 0%float;
     Totals.analyzedCount := 0 |}.

(** The statements that follow [analyzeCode] in the loop. *)
Definition addFile (file : GitHubFile.t) (language : jsstring)
    (analysis : AnalysisResult) (acc : Totals.t) : Totals.t :=
  {| Totals.fileAnalyses :=
       Totals.fileAnalyses acc
       ++ [ {| FileAnalysis.path := GitHubFile.path file;
               FileAnalysis.language := language;
               FileAnalysis.analysis := analysis;
               FileAnalysis.size :=
                 if truthyNumber (GitHubFile.size file) then GitHubFile.size file
                 else 0%float |} ];
     Totals.totalLines := Totals.totalLines acc + totalLines analysis;
     Totals.totalAiLines := Totals.totalAiLines acc + aiLines analysis;
     Totals.totalHumanLines := Totals.totalHumanLines acc + humanLines analysis;
     Totals.totalConfidence :=
       (Totals.totalConfidence acc + overallConfidence analysis)%float;
     Totals.analyzedCount := Totals.analyzedCount acc + 1 |}.

(** The loop over the files from index [i] on.  A label that is no string
    is outside the model, whose answer is then [None].  The URL of a file
    without [download_url] would be the text of [undefined]. *)
Fixpoint analyzeFiles (onProgress : option Callback) (total i : nat)
    (files : list GitHubFile.t) (acc : Totals.t) (st : State)
    : State * option (Promise Totals.t) :=
  match files with
  | [] => (st, Some (Fulfilled acc))
  | file :: files' =>
      match progress onProgress (i + 1) total (GitHubFile.path file) st with
      | (st1, Some reason) => (st1, Some (Rejected reason))
      | (st1, None) =>
          let caught (reason : Reason) (st' : State) :=
            analyzeFiles onProgress total (S i) files' acc
              (record (ConsoleWarn
                         (js "Failed to analyze " ++ GitHubFile.path file ++ js ":")
                         reason) st') in
          let downloadUrl :=
            match GitHubFile.download_url file with
            | Some url => url
            | None => js "undefined"
            end in
          match fetchFileContent downloadUrl st1 with
          | (st2, Rejected reason) => caught reason st2
          | (st2, Fulfilled content) =>
              match getLanguageFromPath toLowerCase (GitHubFile.path file) with
              | LabelInherited => (st2, None)
              | LabelString language =>
                  if negb (truthy (trim content)) then
                    analyzeFiles onProgress total (S i) files' acc st2
                  else
                    match analyzeCode (globals st2) content language with
                    | (g, Normal analysis) =>
                        analyzeFiles onProgress total (S i) files'
                          (addFile file language analysis acc) (setGlobals g st2)
                    | (g, Throw e) => caught (Thrown e) (setGlobals g st2)
                    end
              end
          end
      end
  end.

Definition overallStats (acc : Totals.t) : OverallStats.t :=
  {| OverallStats.totalLines := Totals.totalLines acc;
     OverallStats.aiLines := Totals.totalAiLines acc;
     OverallStats.humanLines := Totals.totalHumanLines acc;
     OverallStats.aiPercentage :=
       if 0 <? Totals.totalLines acc
       then (ofNat (Totals.totalAiLines acc) / ofNat (Totals.totalLines acc) * 100)%float
       else 0%float;
     OverallStats.humanPercentage :=
       if 0 <? Totals.totalLines acc
       then (ofNat (Totals.totalHumanLines acc) / ofNat (Totals.totalLines acc)
             * 100)%float
       else 0%float;
     OverallStats.overallConfidence :=
       if 0 <? Totals.analyzedCount acc
       then (Totals.totalConfidence acc / ofNat (Totals.analyzedCount acc))%float
       else 0%float |}.

Definition analyzeGitHubRepository (repositoryUrl : jsstring)
    (onProgress : option Callback) (st : State)
    : State * option (Promise RepositoryAnalysis.t) :=
  match exec noFlags urlPattern repositoryUrl 0 with
  | None => (st, Some (Rejected InvalidRepositoryUrl))
  | Some (b, e) =>
      let (owner, repo) := groups repositoryUrl b e in
      match progress onProgress 0 1 (js "Fetching repository structure...") st with
      | (st1, Some reason) => (st1, Some (Rejected reason))
      | (st1, None) =>
          match getAllFiles 3 owner repo [] st1 with
          | (st2, Rejected reason) => (st2, Some (Rejected reason))
          | (st2, Fulfilled allFiles) =>
              let analyzeableFiles := List.filter analyzeable allFiles in
              if length analyzeableFiles =? 0
              then (st2, Some (Rejected NoAnalyzeableFiles))
              else
                match analyzeFiles onProgress (length analyzeableFiles) 0
                        analyzeableFiles emptyTotals st2 with
                | (st3, Some (Fulfilled acc)) =>
                    (st3,
                     Some (Fulfilled
                       {| RepositoryAnalysis.repositoryUrl := repositoryUrl;
                          RepositoryAnalysis.totalFiles := length allFiles;
                          RepositoryAnalysis.analyzedFiles :=
                            length (Totals.fileAnalyses acc);
                          RepositoryAnalysis.files := Totals.fileAnalyses acc;
                          RepositoryAnalysis.overallStats := overallStats acc |}))
                | (st3, Some (Rejected reason)) => (st3, Some (Rejected reason))
                | (st3, None) => (st3, None)
                end
          end
      end
  end.
End Repository.

End GitHubAnalyzer.

(* ===================================================================== *)
(** * The tabs of [CodeAnalyzer.tsx] *)
(* ===================================================================== *)

Module CodeAnalyzer.

(** The values of [SUPPORTED_LANGUAGES]. *)
Definition SUPPORTED_LANGUAGES : list jsstring :=
  map js [ "javascript"; "typescript"; "jsx"; "tsx"; "python"; "java"; "cpp";
           "csharp"; "go"; "rust" ]%string.

(** The rows of the three tabs of the line-by-line analysis. *)
Definition allLines (analysis : AnalysisResult) : list LineAnalysis :=
  lineAnalysis analysis.

Definition aiOnly (analysis : AnalysisResult) : list LineAnalysis :=
  List.filter (fun line => isAI line) (lineAnalysis analysis).

Definition humanOnly (analysis : AnalysisResult) : list LineAnalysis :=
  List.filter (fun line => negb (isAI line)) (lineAnalysis analysis).

(** The numbers in the titles of the tabs. *)
Definition allLinesTitle (analysis : AnalysisResult) : nat := totalLines analysis.
Definition aiOnlyTitle (analysis : AnalysisResult) : nat := aiLines analysis.
Definition humanOnlyTitle (analysis : AnalysisResult) : nat := humanLines analysis.

End CodeAnalyzer.

(* ===================================================================== *)
(** * A sample repository *)
(* ===================================================================== *)

(** [toLowerCase] on strings of ASCII characters. *)
Definition lowerASCII (s : jsstring) : jsstring :=
  map (fun a => if in_range 65 90 a then (a + 32)%N else a) s.

(** A small repository with a hidden directory, a directory of sources and
    three files, one of them empty; whatever else is asked for is not
    found. *)
Module Sample.
Import GitHubAnalyzer.

Definition item (name path type : string) (url : option string) (size : float)
    : GitHubFile.t :=
  {| GitHubFile.name := js name; GitHubFile.path := js path;
     GitHubFile.type := js type;
     GitHubFile.download_url := option_map js url;
     GitHubFile.size := size |}.

Definition root : list GitHubFile.t :=
  [ item ".github" ".github" "dir" None 0%float;
    item "src" "src" "dir" None 0%float;
    item "README.md" "README.md" "file" (Some "https://raw.test/README.md"%string) 120%float;
    item "main.py" "main.py" "file" (Some "https://raw.test/main.py"%string) 64%float ].

Definition src : list GitHubFile.t :=
  [ item "app.js" "src/app.js" "file" (Some "https://raw.test/src/app.js"%string) 48%float;
    item "empty.ts" "src/empty.ts" "file" (Some "https://raw.test/src/empty.ts"%string) 2%float ].

Definition found (body : Promise Json) (content : Promise jsstring) : Promise Response :=
  Fulfilled {| ok := true; status := 200; statusText := js "OK";
               json := body; text := content |}.

Definition notFound : Promise Response :=
  Fulfilled {| ok := false; status := 404; statusText := js "Not Found";
               json := Rejected (External 0); text := Fulfilled (js "Not Found") |}.

Definition pages : list (jsstring * Promise Response) :=
  [ (js "https://api.github.com/repos/octo/demo/contents/",
     found (Fulfilled (JsonArray root)) (Rejected (External 1)));
    (js "https://api.github.com/repos/octo/demo/contents/src",
     found (Fulfilled (JsonArray src)) (Rejected (External 1)));
    (js "https://raw.test/main.py",
     found (Rejected (External 2)) (Fulfilled (js "value = 1")));
    (js "https://raw.test/src/app.js",
     found (Rejected (External 2)) (Fulfilled (js "let total = 0;")));
    (js "https://raw.test/src/empty.ts",
     found (Rejected (External 2)) (Fulfilled (js "  "))) ].

Fixpoint page (pages : list (jsstring * Promise Response)) (url : jsstring)
    : Promise Response :=
  match pages with
  | [] => notFound
  | (u, response) :: pages' => if JSString.eqb u url then response else page pages' url
  end.

Definition fetch (n : nat) (url : jsstring) : Promise Response := page pages url.

Definition start : State := {| globals := initial; requests := 0; log := [] |}.
End Sample.

Module Offline.
Import GitHubAnalyzer.
(** The repository of [Sample] when only the contents API answers. *)
Definition fetch (n : nat) (url : jsstring) : Promise Response :=
  Sample.page (firstn 2 Sample.pages) url.
End Offline.

Definition sampleUrl : jsstring := js "https://github.com/octo/demo".


(* ===================================================================== *)
(** * Sample inputs *)
(* ===================================================================== *)

(** Lines joined by line feeds. *)
Fixpoint unlines (ls : list jsstring) : jsstring :=
  match ls with
  | [] => []
  | [l] => l
  | l :: ls' => l ++ 10%N :: unlines ls'
  end.

(** The line [print(<dq>Original:<dq>, nums)]. *)
Definition labelledPrint : jsstring :=
  js "print(" ++ [dq] ++ js "Original:" ++ [dq] ++ js ", nums)".

(** Two AI lines, a TODO note, two AI lines. *)
Definition notedCode : jsstring :=
  unlines [js "nums"; js "arr nums"; js "TODO: x"; js "nums"; js "arr nums"].

(** Two AI lines, a human line, three blank lines, an AI line. *)
Definition gappedCode : jsstring :=
  unlines [js "nums"; js "arr nums"; js "value"; []; []; []; js "nums"].

(** One AI line and two human lines. *)
Definition thirdsCode : jsstring :=
  unlines [js "nums"; js "value"; js "other"].

(** The classifications of the lines of a result. *)
Definition classes (r : AnalysisResult) : list bool := map isAI (lineAnalysis r).

(** Two AI lines, a HUMAN line, a blank line, an AI line. *)
Definition extendedCode : jsstring :=
  unlines [js "nums"; js "arr nums"; js "value"; []; js "nums"].

(* ===================================================================== *)
(** * The matcher: iteration bounds *)
(* ===================================================================== *)

(** [RepeatMatcher] and [countFrom] recurse on a bound that the source does
    not have.  Neither bound is ever reached: a larger one gives the same
    answer. *)

Section MatcherFacts.
Variable fl : flags.
Variable s : jsstring.

(** A matcher that moves forward within [s]: started at [x], it either
    fails or answers what its continuation answers at some index from [x]
    on, and it asks its continuation nothing else. *)
Definition Forward (m : Matcher) : Prop :=
  forall x, x <= length s ->
    (forall c, m x c = None \/ exists y, x <= y <= length s /\ m x c = c y)
    /\ (forall c c', (forall y, x <= y <= length s -> c y = c' y) -> m x c = m x c').

Lemma RepeatMatcher_ext m greedy : Forward m -> forall fuel min x c c',
  x <= length s -> (forall y, x <= y <= length s -> c y = c' y) ->
  RepeatMatcher fuel m greedy min x c = RepeatMatcher fuel m greedy min x c'.
Proof.
  intros Hm. induction fuel as [|fuel IH]; intros min x c c' Hx Hc; [reflexivity|].
  cbn [RepeatMatcher].
  assert (Hd : m x (fun y => if (min =? 0) && (y =? x) then None
                             else RepeatMatcher fuel m greedy (pred min) y c)
               = m x (fun y => if (min =? 0) && (y =? x) then None
                               else RepeatMatcher fuel m greedy (pred min) y c')).
  { apply (Hm x Hx). intros y Hy. destruct ((min =? 0) && (y =? x)); [reflexivity|].
    apply IH; [lia|]. intros z Hz. apply Hc. lia. }
  rewrite Hd, (Hc x) by lia. reflexivity.
Qed.

Lemma RepeatMatcher_answer m greedy : Forward m -> forall fuel min x c,
  x <= length s ->
  RepeatMatcher fuel m greedy min x c = None
  \/ exists y, x <= y <= length s /\ RepeatMatcher fuel m greedy min x c = c y.
Proof.
  intros Hm. induction fuel as [|fuel IH]; intros min x c Hx; [now left|].
  cbn [RepeatMatcher].
  set (d := fun y => if (min =? 0) && (y =? x) then None
                     else RepeatMatcher fuel m greedy (pred min) y c).
  assert (Hmd : m x d = None \/ exists y, x <= y <= length s /\ m x d = c y).
  { destruct (proj1 (Hm x Hx) d) as [Hn|(y & Hy & Heq)]; [now left|].
    rewrite Heq. unfold d. destruct ((min =? 0) && (y =? x)); [now left|].
    destruct (IH (pred min) y c ltac:(lia)) as [Hn|(z & Hz & Hz')]; [now left|].
    right. exists z. split; [lia|exact Hz']. }
  destruct (negb (min =? 0)); [exact Hmd|].
  destruct greedy.
  - destruct (m x d) as [z|] eqn:Hz.
    + destruct Hmd as [Hn|Hs]; [discriminate|right; exact Hs].
    + right. exists x. split; [lia|reflexivity].
  - destruct (c x) as [z|] eqn:Hz.
    + right. exists x. split; [lia|now symmetry].
    + exact Hmd.
Qed.

Lemma RepeatMatcher_Forward m greedy fuel min :
  Forward m -> Forward (RepeatMatcher fuel m greedy min).
Proof.
  intros Hm x Hx. split.
  - intros c. now apply RepeatMatcher_answer.
  - intros c c' Hc. now apply RepeatMatcher_ext.
Qed.

(** Every compiled pattern moves forward within [s]. *)
Lemma compile_Forward r : Forward (compile fl s r).
Proof.
  induction r as [|a|invert items| |r1 IH1 r2 IH2|r1 IH1 r2 IH2|greedy min r1 IH1
                 | | | |r1 IH1]; intros x Hx.
  - split; [intros c; right; exists x; split; [lia|reflexivity]|].
    intros c c' Hc. apply Hc. lia.
  - cbn [compile]. destruct (s !! x) as [ch|] eqn:Hch; [|split; auto].
    apply lookup_lt_Some in Hch.
    destruct (_ =? _)%N; [|split; auto].
    split; [intros c; right; exists (S x); split; [lia|reflexivity]|].
    intros c c' Hc. apply Hc. lia.
  - cbn [compile]. destruct (s !! x) as [ch|] eqn:Hch; [|split; auto].
    apply lookup_lt_Some in Hch.
    destruct (xorb _ _); [|split; auto].
    split; [intros c; right; exists (S x); split; [lia|reflexivity]|].
    intros c c' Hc. apply Hc. lia.
  - cbn [compile]. destruct (s !! x) as [ch|] eqn:Hch; [|split; auto].
    apply lookup_lt_Some in Hch.
    destruct (_ || _); [|split; auto].
    split; [intros c; right; exists (S x); split; [lia|reflexivity]|].
    intros c c' Hc. apply Hc. lia.
  - cbn [compile]. split.
    + intros c.
      destruct (proj1 (IH1 x Hx) (fun y => compile fl s r2 y c)) as [Hn|(y & Hy & Heq)];
        [now left|].
      rewrite Heq.
      destruct (proj1 (IH2 y ltac:(lia)) c) as [Hn|(z & Hz & Heq')]; [now left|].
      right. exists z. split; [lia|exact Heq'].
    + intros c c' Hc. apply (IH1 x Hx). intros y Hy.
      apply (IH2 y ltac:(lia)). intros z Hz. apply Hc. lia.
  - cbn [compile]. split.
    + intros c.
      destruct (compile fl s r1 x c) as [z|] eqn:Hz.
      * destruct (proj1 (IH1 x Hx) c) as [Hn|(y & Hy & Heq)]; [congruence|].
        right. exists y. split; [exact Hy|congruence].
      * apply (IH2 x Hx).
    + intros c c' Hc.
      rewrite (proj2 (IH1 x Hx) c c' Hc), (proj2 (IH2 x Hx) c c' Hc). reflexivity.
  - cbn [compile]. now apply RepeatMatcher_Forward.
  - cbn [compile]. destruct (_ || _); [|split; auto].
    split; [intros c; right; exists x; split; [lia|reflexivity]|].
    intros c c' Hc. apply Hc. lia.
  - cbn [compile]. destruct (_ || _); [|split; auto].
    split; [intros c; right; exists x; split; [lia|reflexivity]|].
    intros c c' Hc. apply Hc. lia.
  - cbn [compile]. destruct (xorb _ _); [|split; auto].
    split; [intros c; right; exists x; split; [lia|reflexivity]|].
    intros c c' Hc. apply Hc. lia.
  - cbn [compile]. destruct (compile fl s r1 x _); [split; auto|].
    split; [intros c; right; exists x; split; [lia|reflexivity]|].
    intros c c' Hc. apply Hc. lia.
Qed.

(** One more iteration than the bound allows changes nothing. *)
Lemma RepeatMatcher_bound m greedy : Forward m -> forall fuel min x c,
  x <= length s -> min + (length s - x) < fuel ->
  RepeatMatcher (S fuel) m greedy min x c = RepeatMatcher fuel m greedy min x c.
Proof.
  intros Hm. induction fuel as [|fuel IH]; intros min x c Hx Hf; [lia|].
  cbn [RepeatMatcher].
  assert (Hd : m x (fun y => if (min =? 0) && (y =? x) then None
                             else RepeatMatcher (S fuel) m greedy (pred min) y c)
               = m x (fun y => if (min =? 0) && (y =? x) then None
                               else RepeatMatcher fuel m greedy (pred min) y c)).
  { apply (Hm x Hx). intros y Hy.
    destruct (min =? 0) eqn:Hmin; destruct (y =? x) eqn:Hyx; cbn [andb]; try reflexivity.
    - apply Nat.eqb_eq in Hmin. apply Nat.eqb_neq in Hyx. apply IH; lia.
    - apply Nat.eqb_neq in Hmin. apply IH; lia.
    - apply Nat.eqb_neq in Hmin. apply IH; lia. }
  cbn [RepeatMatcher] in Hd. rewrite Hd. reflexivity.
Qed.

(** The bound that [compile] gives [RepeatMatcher] is never reached. *)
Lemma RepeatMatcher_enough m greedy min x c extra :
  Forward m -> x <= length s ->
  RepeatMatcher (S (min + length s) + extra) m greedy min x c
  = RepeatMatcher (S (min + length s)) m greedy min x c.
Proof.
  intros Hm Hx. induction extra as [|extra IH]; [now rewrite Nat.add_0_r|].
  rewrite Nat.add_succ_r, RepeatMatcher_bound by (auto; lia). exact IH.
Qed.

(** A match found at [x] ends between [x] and the end of [s]. *)
Lemma matchAt_range r x e :
  x <= length s -> matchAt fl s r x = Some e -> x <= e <= length s.
Proof.
  intros Hx He. unfold matchAt in He.
  destruct (proj1 (compile_Forward r x Hx) (fun y => Some y)) as [Hn|(y & Hy & Heq)];
    congruence.
Qed.

Lemma searchFrom_range r : forall n x b e,
  x + n <= length s -> searchFrom fl s r n x = Some (b, e) ->
  x <= b <= e /\ e <= length s.
Proof.
  induction n as [|n IH]; intros x b e Hx; cbn [searchFrom];
    destruct (matchAt fl s r x) as [e'|] eqn:He'.
  - intros [= <- <-]. apply matchAt_range in He'; lia.
  - discriminate.
  - intros [= <- <-]. apply matchAt_range in He'; lia.
  - intros H. apply IH in H; lia.
Qed.
End MatcherFacts.

Lemma exec_range fl r s from b e :
  exec fl r s from = Some (b, e) -> from <= b <= e /\ e <= length s.
Proof.
  unfold exec. destruct (length s <? from) eqn:Hlt; [discriminate|].
  apply Nat.ltb_ge in Hlt. intros H. apply searchFrom_range in H; lia.
Qed.

(** The bound of [countFrom] is never reached either: each search starts
    further on than the one before. *)
Lemma countFrom_bound fl r s : forall fuel from,
  length s + 1 - from < fuel ->
  countFrom (S fuel) fl r s from = countFrom fuel fl r s from.
Proof.
  induction fuel as [|fuel IH]; intros from Hf; [lia|].
  cbn [countFrom]. destruct (exec fl r s from) as [[b e]|] eqn:He; [|reflexivity].
  apply exec_range in He. f_equal.
  assert (Hn : length s + 1 - (if e =? b then e + 1 else e) < fuel).
  { destruct (e =? b) eqn:Heb; [apply Nat.eqb_eq in Heb|apply Nat.eqb_neq in Heb]; lia. }
  specialize (IH _ Hn). cbn [countFrom] in IH. exact IH.
Qed.

Lemma matchCount_enough fl r s extra :
  countFrom (length s + 2 + extra) fl r s 0 = matchCount fl r s.
Proof.
  unfold matchCount. induction extra as [|extra IH]; [now rewrite Nat.add_0_r|].
  rewrite Nat.add_succ_r, countFrom_bound by lia. exact IH.
Qed.

(* ===================================================================== *)
(** * Binary64 arithmetic: rounding of non-negative values *)
(* ===================================================================== *)

Module Binary64.
Local Open Scope Z_scope.

(** ** Powers of two *)

Definition bpow (e : Z) : R :=
  match e with
  | Z0 => 1%R
  | Zpos p => IZR (Z.pow_pos 2 p)
  | Zneg p => (/ IZR (Z.pow_pos 2 p))%R
  end.

Lemma bpow_powerRZ e : bpow e = powerRZ 2 e.
Proof.
  destruct e as [|p|p]; simpl; try reflexivity.
  - rewrite Zpower_pos_nat, Zpower_nat_Z. rewrite <- pow_IZR. reflexivity.
  - rewrite Zpower_pos_nat, Zpower_nat_Z. rewrite <- pow_IZR. reflexivity.
Qed.

Lemma bpow_gt_0 e : (0 < bpow e)%R.
Proof. rewrite bpow_powerRZ. apply powerRZ_lt. lra. Qed.

Lemma bpow_plus a b : bpow (a + b) = (bpow a * bpow b)%R.
Proof. rewrite !bpow_powerRZ. apply powerRZ_add. lra. Qed.

Lemma bpow_nonneg_IZR k : 0 <= k -> bpow k = IZR (2 ^ k).
Proof.
  intros Hk. destruct k as [|p|p]; try lia; reflexivity.
Qed.

Lemma bpow_ge_1 k : 0 <= k -> (1 <= bpow k)%R.
Proof.
  intros Hk. rewrite bpow_nonneg_IZR by exact Hk. apply IZR_le.
  assert (0 < 2 ^ k) by (apply Z.pow_pos_nonneg; lia). lia.
Qed.

Lemma bpow_le a b : a <= b -> (bpow a <= bpow b)%R.
Proof.
  intros H. replace b with (a + (b - a)) by lia. rewrite bpow_plus.
  pose proof (bpow_gt_0 a). pose proof (bpow_ge_1 (b - a) ltac:(lia)). nra.
Qed.

Lemma bpow_lt a b : a < b -> (bpow a < bpow b)%R.
Proof.
  intros H. replace b with (a + 1 + (b - a - 1)) by lia. rewrite !bpow_plus.
  pose proof (bpow_gt_0 a). pose proof (bpow_ge_1 (b - a - 1) ltac:(lia)).
  change (bpow 1) with 2%R. nra.
Qed.

(** ** Number of binary digits *)

Lemma digits2_pos_size p : digits2_pos p = Pos.size p.
Proof. induction p; simpl; congruence. Qed.

Lemma digits2_bounds p :
  2 ^ (Zpos (digits2_pos p) - 1) <= Zpos p < 2 ^ Zpos (digits2_pos p).
Proof.
  rewrite digits2_pos_size. split.
  - pose proof (Pos.size_le p) as H.
    assert (H' : 2 ^ Zpos (Pos.size p) <= 2 * Zpos p).
    { change 2 with (Zpos 2) at 1. rewrite <- Pos2Z.inj_pow. exact H. }
    replace (Zpos (Pos.size p)) with (Zpos (Pos.size p) - 1 + 1) in H' by lia.
    rewrite Z.pow_add_r in H' by lia. lia.
  - pose proof (Pos.size_gt p) as H.
    change 2 with (Zpos 2). rewrite <- Pos2Z.inj_pow. exact H.
Qed.

Lemma digits2_le p k : 0 <= k -> Zpos p < 2 ^ k -> Zpos (digits2_pos p) <= k.
Proof.
  intros Hk H. destruct (digits2_bounds p) as [Hlo _].
  destruct (Z_le_gt_dec (Zpos (digits2_pos p)) k) as [|Hgt]; [assumption|].
  assert (2 ^ k <= 2 ^ (Zpos (digits2_pos p) - 1)) by (apply Z.pow_le_mono_r; lia).
  lia.
Qed.

Lemma digits2_ge p k : 2 ^ k <= Zpos p -> k + 1 <= Zpos (digits2_pos p).
Proof.
  intros H. destruct (digits2_bounds p) as [_ Hhi].
  destruct (Z_le_gt_dec (k + 1) (Zpos (digits2_pos p))) as [|Hgt]; [assumption|].
  assert (2 ^ Zpos (digits2_pos p) <= 2 ^ k) by (apply Z.pow_le_mono_r; lia).
  lia.
Qed.

(** ** Right shifts *)

Lemma iter_pos_nat {A} (f : A -> A) n : forall x,
  SpecFloat.iter_pos f n x = Nat.iter (Pos.to_nat n) f x.
Proof.
  induction n as [n IH|n IH|]; intros x.
  - cbn [SpecFloat.iter_pos]. rewrite !IH. rewrite Pos2Nat.inj_xI.
    replace (S (2 * Pos.to_nat n))%nat with (S (Pos.to_nat n + Pos.to_nat n)) by lia.
    rewrite Nat.iter_succ_r. now rewrite Nat.iter_add.
  - cbn [SpecFloat.iter_pos]. rewrite !IH. rewrite Pos2Nat.inj_xO.
    replace (2 * Pos.to_nat n)%nat with (Pos.to_nat n + Pos.to_nat n)%nat by lia.
    now rewrite Nat.iter_add.
  - reflexivity.
Qed.

Lemma shr_1_m mrs : 0 <= shr_m mrs -> shr_m (shr_1 mrs) = shr_m mrs / 2.
Proof.
  destruct mrs as [m r s]. simpl. intros Hm.
  destruct m as [|p|p]; try lia; [reflexivity|].
  destruct p as [p|p|]; simpl; try reflexivity.
  - rewrite Pos2Z.inj_xI. apply Z.div_unique with 1; lia.
  - rewrite Pos2Z.inj_xO. apply Z.div_unique with 0; lia.
Qed.

Lemma shr_1_exact mrs :
  0 <= shr_m mrs -> shr_r mrs = false -> shr_s mrs = false ->
  shr_m mrs mod 2 = 0 ->
  shr_r (shr_1 mrs) = false /\ shr_s (shr_1 mrs) = false.
Proof.
  destruct mrs as [m r s]. simpl. intros Hm -> -> Hmod.
  destruct m as [|p|p]; try lia; [auto|].
  destruct p as [p|p|]; simpl; auto.
  - rewrite Pos2Z.inj_xI in Hmod. rewrite Z.add_comm, Z.mul_comm, Z.mod_add in Hmod by lia.
    discriminate.
  - discriminate.
Qed.

Lemma shr_iter_m n : forall mrs, 0 <= shr_m mrs ->
  shr_m (Nat.iter n shr_1 mrs) = shr_m mrs / 2 ^ Z.of_nat n.
Proof.
  induction n as [|n IH]; intros mrs Hm.
  - simpl. now rewrite Z.div_1_r.
  - rewrite Nat.iter_succ_r. rewrite IH.
    + rewrite shr_1_m by exact Hm. rewrite Nat2Z.inj_succ, Z.pow_succ_r by lia.
      rewrite Z.div_div by (try apply Z.pow_pos_nonneg; lia). reflexivity.
    + rewrite shr_1_m by exact Hm. apply Z.div_pos; lia.
Qed.

Lemma shr_iter_exact n : forall mrs, 0 <= shr_m mrs ->
  shr_r mrs = false -> shr_s mrs = false ->
  shr_m mrs mod 2 ^ Z.of_nat n = 0 ->
  shr_r (Nat.iter n shr_1 mrs) = false /\ shr_s (Nat.iter n shr_1 mrs) = false.
Proof.
  induction n as [|n IH]; intros mrs Hm Hr Hs Hmod.
  - simpl. auto.
  - rewrite Nat.iter_succ_r.
    rewrite Nat2Z.inj_succ, Z.pow_succ_r in Hmod by lia.
    assert (H2n : 0 < 2 ^ Z.of_nat n) by (apply Z.pow_pos_nonneg; lia).
    assert (Hdiv : shr_m mrs = 2 * (2 ^ Z.of_nat n * (shr_m mrs / (2 * 2 ^ Z.of_nat n)))).
    { pose proof (Z.div_mod (shr_m mrs) (2 * 2 ^ Z.of_nat n) ltac:(lia)). lia. }
    assert (Hm2 : shr_m mrs mod 2 = 0).
    { rewrite Hdiv. rewrite Z.mul_comm. apply Z.mod_mul. lia. }
    destruct (shr_1_exact mrs Hm Hr Hs Hm2) as [Hr' Hs'].
    apply IH; auto.
    + rewrite shr_1_m by exact Hm. apply Z.div_pos; lia.
    + rewrite shr_1_m by exact Hm. rewrite Hdiv at 1.
      rewrite Z.mul_comm, Z.div_mul by lia. rewrite Z.mul_comm. apply Z.mod_mul. lia.
Qed.


(** ** The rounding step [binary_round_aux] *)

Lemma fexp_eq e : fexp prec emax e = Z.max (e - 53) (-1074).
Proof. reflexivity. Qed.

Lemma loc_of_record_of_loc m l : loc_of_shr_record (shr_record_of_loc m l) = l.
Proof. destruct l as [|[| |]]; reflexivity. Qed.

Lemma shr_m_record_of_loc m l : shr_m (shr_record_of_loc m l) = m.
Proof. destruct l as [|[| |]]; reflexivity. Qed.

Lemma round_nearest_even_bounds m l :
  m <= round_nearest_even m l <= m + 1.
Proof.
  destruct l as [|[| |]]; simpl; try lia. destruct (Z.even m); lia.
Qed.

Lemma loc_exact_of_bits mrs :
  shr_r mrs = false -> shr_s mrs = false -> loc_of_shr_record mrs = loc_Exact.
Proof. destruct mrs as [m r s]. simpl. now intros -> ->. Qed.

(** [shr_fexp] divides the mantissa by [2 ^ n], where [n] is the number
    of positions by which the exponent has to grow (none if negative). *)
Lemma shr_fexp_spec m e l :
  0 <= m ->
  let n := Z.max (fexp prec emax (Zdigits2 m + e) - e) 0 in
  exists mrs,
    shr_fexp prec emax m e l = (mrs, e + n)
    /\ shr_m mrs = m / 2 ^ n
    /\ (n = 0 -> mrs = shr_record_of_loc m l)
    /\ (l = loc_Exact -> m mod 2 ^ n = 0 -> loc_of_shr_record mrs = loc_Exact).
Proof.
  intros Hm n. unfold shr_fexp, shr.
  destruct (fexp prec emax (Zdigits2 m + e) - e) as [|p|p] eqn:Hn; subst n.
  - exists (shr_record_of_loc m l). simpl. rewrite Z.add_0_r, Z.div_1_r.
    rewrite shr_m_record_of_loc. repeat split; auto.
    intros ->. reflexivity.
  - exists (SpecFloat.iter_pos shr_1 p (shr_record_of_loc m l)).
    rewrite Z.max_l by lia. split; [reflexivity|].
    rewrite iter_pos_nat.
    assert (Hp : Z.of_nat (Pos.to_nat p) = Zpos p) by apply positive_nat_Z.
    split; [|split].
    + rewrite shr_iter_m by (now rewrite shr_m_record_of_loc).
      now rewrite shr_m_record_of_loc, Hp.
    + lia.
    + intros -> Hmod. apply loc_exact_of_bits;
        apply (shr_iter_exact (Pos.to_nat p) (shr_record_of_loc m loc_Exact));
        simpl; auto; now rewrite Hp.
  - exists (shr_record_of_loc m l). simpl. rewrite Z.add_0_r, Z.div_1_r.
    rewrite shr_m_record_of_loc. repeat split; auto.
    intros ->. reflexivity.
Qed.

(** The float that [binary_round_aux] builds from the rounded mantissa
    [m1] at exponent [e1]. *)
Definition finish (m1 e1 : Z) : spec_float :=
  if m1 =? 0 then S754_zero false
  else if m1 =? 2 ^ 53 then
    if e1 + 1 <=? 971 then S754_finite false (Z.to_pos (2 ^ 52)) (e1 + 1)
    else S754_infinity false
  else
    if e1 <=? 971 then S754_finite false (Z.to_pos m1) e1
    else S754_infinity false.

Lemma finish_eq m1 e1 :
  -1074 <= e1 -> 0 <= m1 <= 2 ^ 53 ->
  (let '(mrs, e2) := shr_fexp prec emax m1 e1 loc_Exact in
   match shr_m mrs with
   | Z0 => S754_zero false
   | Zpos m => if e2 <=? emax - prec then S754_finite false m e2 else S754_infinity false
   | Zneg _ => S754_nan
   end) = finish m1 e1.
Proof.
  intros He Hm. unfold finish.
  destruct (shr_fexp_spec m1 e1 loc_Exact ltac:(lia)) as (mrs & -> & Hmrs & Hzero & _).
  destruct (Z.eqb_spec m1 0) as [->|Hnz].
  { simpl in Hmrs. rewrite Z.div_0_l in Hmrs
      by (apply Z.pow_nonzero; lia). now rewrite Hmrs. }
  destruct (Z.eqb_spec m1 (2 ^ 53)) as [->|Hn53].
  { change (Zdigits2 (2 ^ 53)) with 54 in *. rewrite fexp_eq in *.
    replace (Z.max (Z.max (54 + e1 - 53) (-1074) - e1) 0) with 1 in * by lia.
    rewrite Hmrs. change (2 ^ 53 / 2 ^ 1) with (2 ^ 52). reflexivity. }
  destruct m1 as [|q|q]; try lia.
  assert (Hd : Zpos (digits2_pos q) <= 53) by (apply digits2_le; lia).
  simpl Zdigits2 in *. rewrite fexp_eq in *.
  replace (Z.max (Z.max (Zpos (digits2_pos q) + e1 - 53) (-1074) - e1) 0) with 0 in * by lia.
  rewrite Hmrs, Z.div_1_r, Z.add_0_r. reflexivity.
Qed.

(** The mantissa [mx] at exponent [ex], with at least the precision of
    the format, is cut to the format's exponent [e1] and rounded to one of
    the two neighbours there; what is cut off exactly stays exact. *)
Lemma binary_round_aux_shape (mx : positive) (ex : Z) (lx : location) :
  let e1 := fexp prec emax (Zpos (digits2_pos mx) + ex) in
  let m' := Zpos mx / 2 ^ (e1 - ex) in
  ex <= e1 ->
  exists m1,
    m' <= m1 <= m' + 1
    /\ (lx = loc_Exact -> Zpos mx mod 2 ^ (e1 - ex) = 0 -> m1 = m')
    /\ m' < 2 ^ 53
    /\ (2 ^ 52 <= m' \/ e1 = -1074)
    /\ binary_round_aux prec emax false (Zpos mx) ex lx = finish m1 e1.
Proof.
  intros e1 m' Hex.
  destruct (shr_fexp_spec (Zpos mx) ex lx ltac:(lia)) as (mrs & Heq & Hm & _ & Hexact).
  simpl Zdigits2 in *. fold e1 in Heq, Hm, Hexact.
  rewrite Z.max_l in Heq, Hm, Hexact by lia.
  replace (ex + (e1 - ex)) with e1 in Heq by lia. fold m' in Hm.
  destruct (digits2_bounds mx) as [Hlo Hhi].
  assert (He1 : e1 = Z.max (Zpos (digits2_pos mx) + ex - 53) (-1074)) by reflexivity.
  assert (Hpow : 0 < 2 ^ (e1 - ex)) by (apply Z.pow_pos_nonneg; lia).
  assert (Hm53 : m' < 2 ^ 53).
  { apply Z.div_lt_upper_bound; [lia|].
    rewrite <- Z.pow_add_r by lia.
    eapply Z.lt_le_trans; [exact Hhi|]. apply Z.pow_le_mono_r; lia. }
  assert (Hm0 : 0 <= m') by (apply Z.div_pos; lia).
  assert (Hcan : 2 ^ 52 <= m' \/ e1 = -1074).
  { destruct (Z.eq_dec e1 (-1074)%Z) as [|Hne]; [now right|left].
    apply Z.div_le_lower_bound; [lia|].
    rewrite <- Z.pow_add_r by lia.
    replace (e1 - ex + 52) with (Zpos (digits2_pos mx) - 1) by lia. exact Hlo. }
  exists (round_nearest_even (shr_m mrs) (loc_of_shr_record mrs)).
  rewrite Hm.
  pose proof (round_nearest_even_bounds m' (loc_of_shr_record mrs)) as Hb.
  split; [exact Hb|]. split.
  { intros Hl Hmod. rewrite (Hexact Hl Hmod). reflexivity. }
  split; [exact Hm53|]. split; [exact Hcan|].
  unfold binary_round_aux. rewrite Heq. rewrite Hm.
  apply finish_eq; lia.
Qed.


(** ** Real value, validity and order of non-negative floats *)

Local Open Scope R_scope.

Definition SF2R (x : spec_float) : R :=
  match x with
  | S754_finite s m e => IZR (cond_Zopp s (Zpos m)) * bpow e
  | _ => 0
  end.

(** Positive zero and the positive finite numbers. *)
Inductive NN : spec_float -> Prop :=
| NN_zero : NN (S754_zero false)
| NN_finite m e : NN (S754_finite false m e).

Definition valid (x : spec_float) : Prop := valid_binary x = true.

Lemma SF2R_nonneg x : NN x -> 0 <= SF2R x.
Proof.
  intros [|m e]; simpl; [lra|].
  pose proof (bpow_gt_0 e). assert (0 < IZR (Zpos m)) by (apply IZR_lt; lia). nra.
Qed.

Lemma SF2R_finite_pos m e : 0 < SF2R (S754_finite false m e).
Proof.
  simpl. pose proof (bpow_gt_0 e).
  assert (0 < IZR (Zpos m)) by (apply IZR_lt; lia). nra.
Qed.

(** A canonical mantissa fills the 53 bits unless the exponent is the
    smallest one. *)
Lemma bounded_grid m e :
  SpecFloat.bounded prec emax m e = true ->
  (-1074 <= e <= 971)%Z /\ (Zpos m < 2 ^ 53)%Z
  /\ (2 ^ 52 <= Zpos m \/ e = -1074)%Z.
Proof.
  unfold SpecFloat.bounded, canonical_mantissa. rewrite fexp_eq. intros H.
  apply andb_prop in H as [H1 H2].
  apply Z.eqb_eq in H1. apply Z.leb_le in H2. change (emax - prec)%Z with 971%Z in H2.
  destruct (digits2_bounds m) as [Hlo Hhi].
  assert (Hd : (Zpos (digits2_pos m) <= 53)%Z) by lia.
  split; [lia|]. split.
  - eapply Z.lt_le_trans; [exact Hhi|]. apply Z.pow_le_mono_r; lia.
  - destruct (Z.eq_dec e (-1074)%Z) as [|Hne]; [now right|left].
    replace (Zpos (digits2_pos m)) with 53%Z in Hlo by lia. exact Hlo.
Qed.

Lemma bounded_of_grid m e :
  (-1074 <= e <= 971)%Z -> (Zpos m < 2 ^ 53)%Z ->
  (2 ^ 52 <= Zpos m \/ e = -1074)%Z ->
  SpecFloat.bounded prec emax m e = true.
Proof.
  intros He Hm Hc. unfold SpecFloat.bounded, canonical_mantissa. rewrite fexp_eq.
  apply andb_true_intro. split; [|apply Z.leb_le; change (emax - prec)%Z with 971%Z; lia].
  apply Z.eqb_eq.
  assert (Hd : (Zpos (digits2_pos m) <= 53)%Z) by (apply digits2_le; lia).
  destruct Hc as [Hc|Hc]; [|lia].
  pose proof (digits2_ge m 52 Hc). lia.
Qed.

Lemma bpow_shift e k : (0 <= k)%Z -> bpow (e + k) = bpow e * IZR (2 ^ k).
Proof. intros Hk. now rewrite bpow_plus, (bpow_nonneg_IZR k). Qed.

(** Between two neighbours of the grid at exponent [e1] there is no
    float, provided the lower one is canonical there. *)
Lemma no_float_between m' e1 c :
  (-1074 <= e1)%Z -> (0 <= m')%Z -> (2 ^ 52 <= m' \/ e1 = -1074)%Z ->
  NN c -> valid c ->
  IZR m' * bpow e1 < SF2R c < (IZR m' + 1) * bpow e1 -> False.
Proof.
  intros He1 Hm' Hcan Hnn Hv [Hlo Hhi].
  pose proof (bpow_gt_0 e1) as Hb1.
  assert (0 <= IZR m') by (apply IZR_le; lia).
  destruct Hnn as [|mc ec]; simpl in *; [nra|].
  destruct (bounded_grid mc ec Hv) as (Hec & Hmc & Hcc).
  destruct (Z_lt_le_dec ec e1) as [Hlt|Hge].
  - assert (Hm52 : (2 ^ 52 <= m')%Z) by lia.
    assert (IZR (Zpos mc) < IZR (2 ^ 53)) by (apply IZR_lt; exact Hmc).
    assert (IZR (2 ^ 52) <= IZR m') by (apply IZR_le; exact Hm52).
    assert (bpow (ec + 1) <= bpow e1) by (apply bpow_le; lia).
    rewrite bpow_plus in *. change (bpow 1) with 2 in *.
    pose proof (bpow_gt_0 ec).
    change (IZR (2 ^ 53)) with (2 * IZR (2 ^ 52)) in *.
    assert (0 < IZR (2 ^ 52)) by (apply IZR_lt; reflexivity).
    nra.
  - replace ec with (e1 + (ec - e1))%Z in Hlo, Hhi by lia.
    rewrite bpow_shift in Hlo, Hhi by lia.
    assert (Hlo' : IZR m' < IZR (Zpos mc * 2 ^ (ec - e1))).
    { rewrite mult_IZR. nra. }
    assert (Hhi' : IZR (Zpos mc * 2 ^ (ec - e1)) < IZR (m' + 1)).
    { rewrite mult_IZR, plus_IZR. nra. }
    apply lt_IZR in Hlo'. apply lt_IZR in Hhi'. lia.
Qed.

Lemma canonical_lt m1 e1 m2 e2 :
  SpecFloat.bounded prec emax m1 e1 = true -> SpecFloat.bounded prec emax m2 e2 = true ->
  (e1 < e2)%Z ->
  IZR (Zpos m1) * bpow e1 < IZR (Zpos m2) * bpow e2.
Proof.
  intros H1 H2 Hlt.
  destruct (bounded_grid m1 e1 H1) as (He1 & Hm1 & _).
  destruct (bounded_grid m2 e2 H2) as (He2 & _ & Hc2).
  assert (Hm52 : (2 ^ 52 <= Zpos m2)%Z) by lia.
  assert (IZR (Zpos m1) < IZR (2 ^ 53)) by (apply IZR_lt; exact Hm1).
  assert (IZR (2 ^ 52) <= IZR (Zpos m2)) by (apply IZR_le; exact Hm52).
  assert (bpow (e1 + 1) <= bpow e2) by (apply bpow_le; lia).
  rewrite bpow_plus in *. change (bpow 1) with 2 in *.
  pose proof (bpow_gt_0 e1). pose proof (bpow_gt_0 e2).
  change (IZR (2 ^ 53)) with (2 * IZR (2 ^ 52)) in *.
  assert (0 < IZR (2 ^ 52)) by (apply IZR_lt; reflexivity).
  nra.
Qed.

(** On valid non-negative floats [SFcompare] is the order of the reals. *)
Lemma SFcompare_R x y :
  NN x -> NN y -> valid x -> valid y ->
  match SFcompare x y with
  | Some Lt => SF2R x < SF2R y
  | Some Eq => SF2R x = SF2R y
  | Some Gt => SF2R y < SF2R x
  | None => False
  end.
Proof.
  intros [|m1 e1] [|m2 e2] Hx Hy; cbn [SFcompare].
  - reflexivity.
  - apply SF2R_finite_pos.
  - apply SF2R_finite_pos.
  - destruct (Z.compare_spec e1 e2) as [->|Hlt|Hgt].
    + rewrite Pos.compare_cont_spec. simpl.
      pose proof (bpow_gt_0 e2).
      destruct (Pos.compare_spec m1 m2) as [->|Hm|Hm]; simpl.
      * reflexivity.
      * assert (IZR (Zpos m1) < IZR (Zpos m2)) by (apply IZR_lt; lia). nra.
      * assert (IZR (Zpos m2) < IZR (Zpos m1)) by (apply IZR_lt; lia). nra.
    + now apply canonical_lt.
    + apply canonical_lt; auto; lia.
Qed.

Lemma SFleb_R x y :
  NN x -> NN y -> valid x -> valid y ->
  (SFleb x y = true <-> SF2R x <= SF2R y).
Proof.
  intros Hx Hy Vx Vy. pose proof (SFcompare_R x y Hx Hy Vx Vy) as H.
  unfold SFleb. destruct (SFcompare x y) as [[| |]|]; try contradiction;
    split; intros; try lra; try discriminate; reflexivity.
Qed.

Lemma SFltb_R x y :
  NN x -> NN y -> valid x -> valid y ->
  (SFltb x y = true <-> SF2R x < SF2R y).
Proof.
  intros Hx Hy Vx Vy. pose proof (SFcompare_R x y Hx Hy Vx Vy) as H.
  unfold SFltb. destruct (SFcompare x y) as [[| |]|]; try contradiction;
    split; intros; try lra; try discriminate; reflexivity.
Qed.


(** ** Faithful rounding *)

(** [r] is a float next to the real [v >= 0]: no float lies strictly
    between the two, and in the normal range they differ by at most one
    unit in the last place. *)
Record Rounded (v : R) (r : spec_float) : Prop := {
  rd_nn : NN r;
  rd_valid : valid r;
  rd_below : forall c, NN c -> valid c -> SF2R c <= v -> SF2R c <= SF2R r;
  rd_above : forall c, NN c -> valid c -> v <= SF2R c -> SF2R r <= SF2R c;
  rd_error : bpow (-1021) <= v -> Rabs (SF2R r - v) <= bpow (-52) * v
}.

(** The real [v] lies in the interval that mantissa [mx], exponent [ex]
    and location [lx] describe. *)
Definition Located (v : R) (mx : positive) (ex : Z) (lx : location) : Prop :=
  IZR (Zpos mx) * bpow ex <= v < (IZR (Zpos mx) + 1) * bpow ex
  /\ (lx = loc_Exact -> v = IZR (Zpos mx) * bpow ex).

Lemma SF2R_finish m1 e1 :
  (0 <= m1)%Z -> (e1 <= 970)%Z -> SF2R (finish m1 e1) = IZR m1 * bpow e1.
Proof.
  intros Hm He. unfold finish.
  destruct (Z.eqb_spec m1 0) as [->|Hnz]; [simpl; lra|].
  destruct (Z.eqb_spec m1 (2 ^ 53)) as [->|Hn53].
  - destruct (Z.leb_spec (e1 + 1) 971); [|lia]. cbn [SF2R cond_Zopp].
    rewrite bpow_plus. change (bpow 1) with 2.
    change (Zpos (Z.to_pos (2 ^ 52))) with (2 ^ 52)%Z.
    change (2 ^ 53)%Z with (2 ^ 52 * 2)%Z. rewrite mult_IZR. ring.
  - destruct (Z.leb_spec e1 971); [|lia]. cbn [SF2R cond_Zopp].
    rewrite Z2Pos.id by lia. reflexivity.
Qed.

Lemma finish_valid m1 e1 :
  (0 <= m1 <= 2 ^ 53)%Z -> (-1074 <= e1 <= 970)%Z ->
  (m1 <> 0 -> 2 ^ 52 <= m1 \/ e1 = -1074)%Z ->
  NN (finish m1 e1) /\ valid (finish m1 e1).
Proof.
  intros Hm He Hcan. unfold finish, valid.
  destruct (Z.eqb_spec m1 0) as [->|Hnz]; [split; [constructor|reflexivity]|].
  destruct (Z.eqb_spec m1 (2 ^ 53)) as [->|Hn53].
  - destruct (Z.leb_spec (e1 + 1) 971); [|lia]. split; [constructor|].
    simpl. apply bounded_of_grid; [lia|reflexivity|left; reflexivity].
  - destruct (Z.leb_spec e1 971); [|lia]. split; [constructor|].
    simpl. apply bounded_of_grid; rewrite ?Z2Pos.id by lia; lia.
Qed.

Theorem binary_round_aux_rounded (mx : positive) (ex : Z) (lx : location) (v : R) :
  (ex <= fexp prec emax (Zpos (digits2_pos mx) + ex))%Z ->
  Located v mx ex lx ->
  (lx <> loc_Exact -> IZR (Zpos mx) * bpow ex < v) ->
  v < bpow 971 ->
  Rounded v (binary_round_aux prec emax false (Zpos mx) ex lx).
Proof.
  intros Hex [[Hlo Hhi] Hexact] Hstrict Hsmall.
  destruct (binary_round_aux_shape mx ex lx Hex)
    as (m1 & Hm1 & Hm1exact & Hm53 & Hcan & ->).
  set (e1 := fexp prec emax (Zpos (digits2_pos mx) + ex)) in *.
  set (n := (e1 - ex)%Z) in *.
  set (m' := (Zpos mx / 2 ^ n)%Z) in *.
  assert (He1 : (-1074 <= e1)%Z) by (subst e1; rewrite fexp_eq; lia).
  assert (Hn : (0 <= n)%Z) by (subst n; lia).
  assert (Hpow : (0 < 2 ^ n)%Z) by (apply Z.pow_pos_nonneg; lia).
  assert (Hm0 : (0 <= m')%Z) by (apply Z.div_pos; lia).
  (* the mantissa between its two neighbours at exponent e1 *)
  assert (Hdiv : (m' * 2 ^ n <= Zpos mx < (m' + 1) * 2 ^ n)%Z).
  { pose proof (Z.div_mod (Zpos mx) (2 ^ n) ltac:(lia)) as Hdm.
    pose proof (Z.mod_pos_bound (Zpos mx) (2 ^ n) Hpow). fold m' in Hdm. lia. }
  assert (Hbe : bpow e1 = bpow ex * IZR (2 ^ n)).
  { replace e1 with (ex + n)%Z by (subst n; lia). now apply bpow_shift. }
  pose proof (bpow_gt_0 ex) as Hbex. pose proof (bpow_gt_0 e1) as Hbe1.
  assert (Hlo1 : IZR m' * bpow e1 <= IZR (Zpos mx) * bpow ex).
  { rewrite Hbe. assert (IZR (m' * 2 ^ n) <= IZR (Zpos mx)) by (apply IZR_le; lia).
    rewrite mult_IZR in *. nra. }
  assert (Hhi1 : (IZR (Zpos mx) + 1) * bpow ex <= (IZR m' + 1) * bpow e1).
  { rewrite Hbe.
    assert (IZR (Zpos mx + 1) <= IZR ((m' + 1) * 2 ^ n)) by (apply IZR_le; lia).
    rewrite mult_IZR, !plus_IZR in *. nra. }
  assert (Hv0 : 0 < v).
  { assert (0 < IZR (Zpos mx)) by (apply IZR_lt; lia). nra. }
  (* no overflow *)
  assert (He970 : (e1 <= 970)%Z).
  { destruct (Z_le_gt_dec e1 970) as [|Hgt]; [assumption|exfalso].
    assert (Hm52 : (2 ^ 52 <= m')%Z) by lia.
    assert (IZR (2 ^ 52) <= IZR m') by (apply IZR_le; exact Hm52).
    assert (bpow 971 <= bpow e1) by (apply bpow_le; lia).
    assert (1 < IZR (2 ^ 52)) by (apply IZR_lt; reflexivity).
    pose proof (bpow_gt_0 971). nra. }
  assert (Hval : SF2R (finish m1 e1) = IZR m1 * bpow e1) by (apply SF2R_finish; lia).
  (* a rounded-up mantissa means that v is strictly above the lower neighbour *)
  assert (Hup : m1 = (m' + 1)%Z -> IZR m' * bpow e1 < v).
  { intros Hm1up.
    destruct lx as [|c].
    - assert (Hmod : (Zpos mx mod 2 ^ n <> 0)%Z).
      { intros Hmod. specialize (Hm1exact eq_refl Hmod). lia. }
      assert (Hgt : (m' * 2 ^ n < Zpos mx)%Z).
      { pose proof (Z.div_mod (Zpos mx) (2 ^ n) ltac:(lia)) as Hdm.
        pose proof (Z.mod_pos_bound (Zpos mx) (2 ^ n) Hpow). fold m' in Hdm. lia. }
      assert (IZR (m' * 2 ^ n) < IZR (Zpos mx)) by (apply IZR_lt; exact Hgt).
      rewrite mult_IZR in *. rewrite Hbe. nra.
    - assert (IZR (Zpos mx) * bpow ex < v) by (apply Hstrict; discriminate). lra. }
  assert (Hcases : m1 = m' \/ m1 = (m' + 1)%Z) by lia.
  destruct (finish_valid m1 e1) as [Hnn Hvalid]; [lia|lia| |].
  { intros Hnz. destruct Hcan as [Hc|Hc]; [left; lia|now right]. }
  split; auto.
  - (* floats below v are below the result *)
    intros c Hc Vc Hcv. rewrite Hval.
    destruct Hcases as [->| ->].
    + destruct (Rle_lt_dec (SF2R c) (IZR m' * bpow e1)) as [|Hgt]; [assumption|].
      exfalso. apply (no_float_between m' e1 c); auto. lra.
    + rewrite plus_IZR. lra.
  - (* floats above v are above the result *)
    intros c Hc Vc Hcv. rewrite Hval.
    destruct Hcases as [->|Hm1up].
    + lra.
    + specialize (Hup Hm1up). subst m1. rewrite plus_IZR.
      destruct (Rle_lt_dec ((IZR m' + 1) * bpow e1) (SF2R c)) as [|Hlt]; [assumption|].
      exfalso. apply (no_float_between m' e1 c); auto. lra.
  - (* one unit in the last place *)
    intros Hnormal. rewrite Hval.
    assert (Hne : e1 <> (-1074)%Z).
    { intros Heq. rewrite Heq in *.
      assert (IZR m' + 1 <= IZR (2 ^ 53)).
      { rewrite <- plus_IZR. apply IZR_le. lia. }
      assert (Hb : bpow (-1021) = IZR (2 ^ 53) * bpow (-1074)).
      { change (-1021)%Z with (-1074 + 53)%Z. rewrite bpow_shift by lia. ring. }
      nra. }
    assert (Hm52 : (2 ^ 52 <= m')%Z) by lia.
    assert (H52 : IZR (2 ^ 52) <= IZR m') by (apply IZR_le; exact Hm52).
    assert (Hb52 : bpow (-52) * IZR (2 ^ 52) = 1).
    { change (IZR (2 ^ 52)) with (bpow 52). rewrite <- bpow_plus. reflexivity. }
    pose proof (bpow_gt_0 (-52)).
    assert (Hulp : bpow e1 <= bpow (-52) * v).
    { assert (bpow e1 = bpow (-52) * (IZR (2 ^ 52) * bpow e1)) by
        (rewrite <- Rmult_assoc, Hb52; ring).
      assert (IZR (2 ^ 52) * bpow e1 <= v) by nra. nra. }
    apply Rabs_le.
    assert (IZR m' <= IZR m1 <= IZR m' + 1).
    { rewrite <- plus_IZR. split; apply IZR_le; lia. }
    split; nra.
Qed.


Lemma Rounded_exact x : NN x -> valid x -> Rounded (SF2R x) x.
Proof.
  intros Hn Hv. split; auto.
  intros _. replace (SF2R x - SF2R x) with 0 by ring. rewrite Rabs_R0.
  pose proof (SF2R_nonneg x Hn). pose proof (bpow_gt_0 (-52)). nra.
Qed.

(** A representable value is rounded to itself. *)
Lemma Rounded_representable v r c :
  Rounded v r -> NN c -> valid c -> SF2R c = v -> SF2R r = v.
Proof.
  intros Hr Hc Vc Heq.
  pose proof (rd_below v r Hr c Hc Vc ltac:(lra)).
  pose proof (rd_above v r Hr c Hc Vc ltac:(lra)). lra.
Qed.

(** ** Normalisation before rounding *)

Lemma shl_align_spec mx ex e' :
  exists mz ez,
    shl_align mx ex e' = (mz, ez) /\ ez = Z.min ex e'
    /\ Zpos mz = (Zpos mx * 2 ^ (ex - ez))%Z.
Proof.
  unfold shl_align. destruct (e' - ex)%Z as [|p|p] eqn:Hd.
  - exists mx, ex. repeat split; [lia|]. rewrite Z.sub_diag. simpl. lia.
  - exists mx, ex. repeat split; [lia|]. rewrite Z.sub_diag. simpl. lia.
  - exists (Pos.iter xO mx p), e'. repeat split; [lia|].
    change (Pos.iter xO mx p) with (shift_pos p mx).
    rewrite shift_pos_correct. replace (ex - e')%Z with (Zpos p) by lia.
    rewrite Z.mul_comm. reflexivity.
Qed.

Lemma digits2_shift mx mz k :
  (0 <= k)%Z -> Zpos mz = (Zpos mx * 2 ^ k)%Z ->
  Zpos (digits2_pos mz) = (Zpos (digits2_pos mx) + k)%Z.
Proof.
  intros Hk Hmz. destruct (digits2_bounds mx) as [Hlo Hhi].
  assert (Hpow : (0 < 2 ^ k)%Z) by (apply Z.pow_pos_nonneg; lia).
  apply Z.le_antisymm.
  - apply digits2_le; [lia|]. rewrite Hmz, Z.pow_add_r by lia. nia.
  - replace (Zpos (digits2_pos mx) + k)%Z with ((Zpos (digits2_pos mx) - 1 + k) + 1)%Z by lia.
    apply digits2_ge. rewrite Hmz, Z.pow_add_r by lia. nia.
Qed.

Lemma fexp_mono a b : (a <= b)%Z -> (fexp prec emax a <= fexp prec emax b)%Z.
Proof. rewrite !fexp_eq. lia. Qed.

Theorem binary_round_rounded (mx : positive) (ex : Z) :
  IZR (Zpos mx) * bpow ex < bpow 971 ->
  Rounded (IZR (Zpos mx) * bpow ex) (binary_round prec emax false mx ex).
Proof.
  intros Hsmall. unfold binary_round.
  destruct (shl_align_spec mx ex (fexp prec emax (Zpos (digits2_pos mx) + ex)))
    as (mz & ez & -> & Hez & Hmz).
  assert (Hk : (0 <= ex - ez)%Z) by lia.
  pose proof (digits2_shift mx mz (ex - ez) Hk Hmz) as Hd.
  assert (Hval : IZR (Zpos mz) * bpow ez = IZR (Zpos mx) * bpow ex).
  { rewrite Hmz, mult_IZR.
    pose proof (bpow_shift ez (ex - ez) ltac:(lia)) as Hbx.
    replace (ez + (ex - ez))%Z with ex in Hbx by lia. rewrite Hbx. ring. }
  rewrite <- Hval in *.
  apply binary_round_aux_rounded; auto.
  - rewrite Hd. replace (Zpos (digits2_pos mx) + (ex - ez) + ez)%Z
      with (Zpos (digits2_pos mx) + ex)%Z by lia. lia.
  - split; [|reflexivity]. pose proof (bpow_gt_0 ez). lra.
  - intros H. now contradiction H.
Qed.

(** ** The operations on non-negative floats *)

Theorem SFadd_rounded x y :
  NN x -> NN y -> valid x -> valid y ->
  SF2R x + SF2R y < bpow 971 ->
  Rounded (SF2R x + SF2R y) (SFadd prec emax x y).
Proof.
  intros [|mx ex] [|my ey] Vx Vy Hsmall; cbn [SFadd].
  - replace (SF2R (S754_zero false) + SF2R (S754_zero false)) with (SF2R (S754_zero false))
      by (simpl; lra). now apply Rounded_exact; [constructor|].
  - replace (SF2R (S754_zero false) + SF2R (S754_finite false my ey))
      with (SF2R (S754_finite false my ey)) by (simpl; lra).
    now apply Rounded_exact; [constructor|].
  - replace (SF2R (S754_finite false mx ex) + SF2R (S754_zero false))
      with (SF2R (S754_finite false mx ex)) by (simpl; lra).
    now apply Rounded_exact; [constructor|].
  - set (ez := Z.min ex ey).
    destruct (shl_align_spec mx ex ez) as (mx' & ex' & Hx & Hex' & Hmx').
    destruct (shl_align_spec my ey ez) as (my' & ey' & Hy & Hey' & Hmy').
    replace ex' with ez in * by lia. replace ey' with ez in * by lia.
    rewrite Hx, Hy. cbn [fst cond_Zopp].
    change (Zpos mx' + Zpos my')%Z with (Zpos (mx' + my')). cbn [binary_normalize].
    assert (Hval : IZR (Zpos (mx' + my')) * bpow ez
                   = SF2R (S754_finite false mx ex) + SF2R (S754_finite false my ey)).
    { cbn [SF2R cond_Zopp]. rewrite Pos2Z.inj_add, plus_IZR, Hmx', Hmy', !mult_IZR.
      pose proof (bpow_shift ez (ex - ez) ltac:(lia)) as Hbx.
      pose proof (bpow_shift ez (ey - ez) ltac:(lia)) as Hby.
      replace (ez + (ex - ez))%Z with ex in Hbx by lia.
      replace (ez + (ey - ez))%Z with ey in Hby by lia.
      rewrite Hbx, Hby. ring. }
    rewrite <- Hval in *. now apply binary_round_rounded.
Qed.

Lemma digits2_mul mx my :
  (Zpos (digits2_pos mx) + Zpos (digits2_pos my) - 1
   <= Zpos (digits2_pos (mx * my)))%Z.
Proof.
  destruct (digits2_bounds mx) as [Hx _]. destruct (digits2_bounds my) as [Hy _].
  replace (Zpos (digits2_pos mx) + Zpos (digits2_pos my) - 1)%Z
    with ((Zpos (digits2_pos mx) - 1 + (Zpos (digits2_pos my) - 1)) + 1)%Z by lia.
  apply digits2_ge. rewrite Z.pow_add_r by lia. rewrite Pos2Z.inj_mul.
  assert (0 < 2 ^ (Zpos (digits2_pos mx) - 1))%Z by (apply Z.pow_pos_nonneg; lia).
  assert (0 < 2 ^ (Zpos (digits2_pos my) - 1))%Z by (apply Z.pow_pos_nonneg; lia).
  nia.
Qed.

Lemma bounded_digits m e :
  SpecFloat.bounded prec emax m e = true ->
  (Zpos (digits2_pos m) = 53 \/ (e = -1074 /\ Zpos (digits2_pos m) <= 53))%Z.
Proof.
  unfold SpecFloat.bounded, canonical_mantissa. rewrite fexp_eq. intros H.
  apply andb_prop in H as [H1 _]. apply Z.eqb_eq in H1. lia.
Qed.

Theorem SFmul_rounded x y :
  NN x -> NN y -> valid x -> valid y ->
  SF2R x * SF2R y < bpow 971 ->
  Rounded (SF2R x * SF2R y) (SFmul prec emax x y).
Proof.
  intros [|mx ex] [|my ey] Vx Vy Hsmall; cbn [SFmul xorb].
  - replace (SF2R (S754_zero false) * _) with (SF2R (S754_zero false)) by (simpl; lra).
    now apply Rounded_exact; [constructor|].
  - replace (SF2R (S754_zero false) * _) with (SF2R (S754_zero false)) by (simpl; lra).
    now apply Rounded_exact; [constructor|].
  - replace (_ * SF2R (S754_zero false)) with (SF2R (S754_zero false)) by (simpl; lra).
    now apply Rounded_exact; [constructor|].
  - assert (Hval : IZR (Zpos (mx * my)) * bpow (ex + ey)
                   = SF2R (S754_finite false mx ex) * SF2R (S754_finite false my ey)).
    { cbn [SF2R cond_Zopp]. rewrite Pos2Z.inj_mul, mult_IZR, bpow_plus. ring. }
    rewrite <- Hval in *.
    apply binary_round_aux_rounded; auto.
    + pose proof (digits2_mul mx my). rewrite fexp_eq.
      destruct (bounded_digits mx ex Vx) as [?|[? ?]];
        destruct (bounded_digits my ey Vy) as [?|[? ?]];
        destruct (bounded_grid mx ex Vx) as (? & _ & _);
        destruct (bounded_grid my ey Vy) as (? & _ & _); lia.
    + split; [|reflexivity]. pose proof (bpow_gt_0 (ex + ey)). lra.
    + intros H. now contradiction H.
Qed.


Lemma new_location_exact nb k :
  (new_location nb k = loc_Exact <-> k = 0%Z).
Proof.
  unfold new_location, new_location_even, new_location_odd.
  destruct (Z.even nb); destruct (Z.eqb_spec k 0); split; intros; auto;
    try discriminate; try contradiction.
Qed.

Theorem SFdiv_rounded mx ex my ey :
  let x := S754_finite false mx ex in
  let y := S754_finite false my ey in
  valid x -> valid y ->
  bpow (-1021) <= SF2R x / SF2R y < bpow 971 ->
  Rounded (SF2R x / SF2R y) (SFdiv prec emax x y).
Proof.
  intros x y Vx Vy [Hnormal Hsmall]. subst x y. cbn [SFdiv xorb].
  unfold SFdiv_core_binary. cbn [Zdigits2].
  set (d1 := Zpos (digits2_pos mx)). set (d2 := Zpos (digits2_pos my)).
  set (e' := Z.min (fexp prec emax (d1 + ex - (d2 + ey))) (ex - ey)).
  set (s := (ex - ey - e')%Z).
  assert (Hs : (0 <= s)%Z) by (subst s e'; lia).
  set (m' := match s with
             | Z0 => Zpos mx
             | Zpos _ => Z.shiftl (Zpos mx) s
             | Zneg _ => 0%Z
             end).
  assert (Hm' : m' = (Zpos mx * 2 ^ s)%Z).
  { subst m'. destruct s as [|p|p] eqn:Hsp; try lia.
    now rewrite Z.shiftl_mul_pow2 by lia. }
  destruct (digits2_bounds mx) as [Hx1 Hx2]. destruct (digits2_bounds my) as [Hy1 Hy2].
  fold d1 in Hx1, Hx2. fold d2 in Hy1, Hy2.
  pose proof (bpow_gt_0 ex) as Hbex. pose proof (bpow_gt_0 ey) as Hbey.
  assert (Hmxp : 0 < IZR (Zpos mx)) by (apply IZR_lt; lia).
  assert (Hmyp : 0 < IZR (Zpos my)) by (apply IZR_lt; lia).
  cbn [SF2R cond_Zopp] in *.
  set (v := IZR (Zpos mx) * bpow ex / (IZR (Zpos my) * bpow ey)) in *.
  (* the quotient is in the normal range, so the exponent is not clamped *)
  assert (HD : (-1021 <= d1 + ex - (d2 + ey))%Z).
  { destruct (Z_le_gt_dec (-1021) (d1 + ex - (d2 + ey))) as [|Hgt]; [assumption|exfalso].
    assert (Hv : v < bpow (d1 + ex - (d2 + ey) + 1)).
    { subst v. apply Rmult_lt_reg_r with (IZR (Zpos my) * bpow ey); [nra|].
      unfold Rdiv. rewrite Rmult_assoc, Rinv_l, Rmult_1_r by nra.
      assert (IZR (Zpos mx) < IZR (2 ^ d1)) by (apply IZR_lt; exact Hx2).
      assert (IZR (2 ^ (d2 - 1)) <= IZR (Zpos my)) by (apply IZR_le; exact Hy1).
      replace (d1 + ex - (d2 + ey) + 1)%Z with (d1 + ex + (- (d2 - 1) - ey))%Z by lia.
      rewrite !bpow_plus.
      assert (Hinv : bpow (- (d2 - 1)) * IZR (2 ^ (d2 - 1)) = 1).
      { rewrite <- (bpow_nonneg_IZR (d2 - 1)) by (subst d2; lia).
        rewrite <- bpow_plus. replace (- (d2 - 1) + (d2 - 1))%Z with 0%Z by lia. reflexivity. }
      assert (Hinv' : bpow (- ey) * bpow ey = 1).
      { rewrite <- bpow_plus. replace (- ey + ey)%Z with 0%Z by lia. reflexivity. }
      rewrite (bpow_nonneg_IZR d1) by (subst d1; lia).
      replace (- (d2 - 1) - ey)%Z with (- (d2 - 1) + - ey)%Z by lia. rewrite bpow_plus.
      pose proof (bpow_gt_0 (- (d2 - 1))). pose proof (bpow_gt_0 (- ey)).
      assert (0 < IZR (2 ^ d1)) by lra.
      assert (1 <= bpow (- (d2 - 1)) * IZR (Zpos my)) by nra.
      replace (IZR (2 ^ d1) * bpow ex * (bpow (- (d2 - 1)) * bpow (- ey)) *
               (IZR (Zpos my) * bpow ey))
        with (IZR (2 ^ d1) * bpow ex * (bpow (- (d2 - 1)) * IZR (Zpos my))
              * (bpow (- ey) * bpow ey)) by ring.
      rewrite Hinv'.
      assert (HA : IZR (Zpos mx) * bpow ex < IZR (2 ^ d1) * bpow ex) by nra.
      set (A := IZR (2 ^ d1) * bpow ex) in *.
      set (X := bpow (- (d2 - 1)) * IZR (Zpos my)) in *.
      assert (0 < A) by nra. nra. }
    assert (bpow (d1 + ex - (d2 + ey) + 1) <= bpow (-1021)) by (apply bpow_le; lia).
    lra. }
  assert (He' : (e' <= d1 + ex - (d2 + ey) - 53)%Z)
    by (subst e'; rewrite fexp_eq; lia).
  (* the quotient has at least 53 digits *)
  pose proof (Z_div_mod m' (Zpos my) ltac:(lia)) as Hdm.
  destruct (Z.div_eucl m' (Zpos my)) as [q r]. destruct Hdm as [Hdm Hr].
  assert (Hq52 : (2 ^ 52 <= q)%Z).
  { set (K := (d1 - 1 + s - d2)%Z).
    assert (HK : (52 <= K)%Z) by (subst K s; lia).
    assert (Hm'K : (2 ^ K * 2 ^ d2 <= m')%Z).
    { rewrite Hm', <- Z.pow_add_r by (subst d2; lia).
      replace (K + d2)%Z with (d1 - 1 + s)%Z by (subst K; lia).
      rewrite Z.pow_add_r by (subst d1; lia).
      assert (0 < 2 ^ s)%Z by (apply Z.pow_pos_nonneg; lia). nia. }
    assert (H2K : (0 < 2 ^ K)%Z) by (apply Z.pow_pos_nonneg; lia).
    assert (Hq : (2 ^ K <= q)%Z) by nia.
    assert (2 ^ 52 <= 2 ^ K)%Z by (apply Z.pow_le_mono_r; lia). lia. }
  destruct q as [|qp|qp]; try lia.
  (* the exact quotient in terms of q and r *)
  assert (Hbx : bpow ex = bpow e' * IZR (2 ^ s) * bpow ey).
  { replace ex with (e' + s + ey)%Z at 1 by (subst s; lia).
    rewrite bpow_plus, bpow_shift by lia. reflexivity. }
  pose proof (bpow_gt_0 e') as Hbe'.
  assert (Hv : v = (IZR (Zpos qp) + IZR r / IZR (Zpos my)) * bpow e').
  { subst v. rewrite Hbx.
    assert (Hmr : IZR (Zpos mx) * IZR (2 ^ s) = IZR (Zpos my) * IZR (Zpos qp) + IZR r).
    { rewrite <- !mult_IZR, <- plus_IZR. f_equal. lia. }
    field_simplify_eq; [|nra]. nra. }
  assert (Hr0 : 0 <= IZR r / IZR (Zpos my) < 1).
  { assert (0 <= IZR r) by (apply IZR_le; lia).
    assert (IZR r < IZR (Zpos my)) by (apply IZR_lt; lia).
    split.
    - apply Rmult_le_reg_r with (IZR (Zpos my)); [lra|].
      unfold Rdiv. rewrite Rmult_assoc, Rinv_l by lra. lra.
    - apply Rmult_lt_reg_r with (IZR (Zpos my)); [lra|].
      unfold Rdiv. rewrite Rmult_assoc, Rinv_l by lra. lra. }
  apply binary_round_aux_rounded.
  - pose proof (digits2_ge qp 52 Hq52). rewrite fexp_eq. lia.
  - split; [rewrite Hv; nra|].
    intros Hloc. apply new_location_exact in Hloc. subst r.
    rewrite Hv. unfold Rdiv. rewrite Rmult_0_l. ring.
  - intros Hloc. rewrite Hv.
    assert (r <> 0%Z) by (intros ->; apply Hloc; now apply new_location_exact).
    assert (0 < IZR r) by (apply IZR_lt; lia).
    assert (0 < IZR r / IZR (Zpos my)).
    { apply Rmult_lt_reg_r with (IZR (Zpos my)); [lra|].
      unfold Rdiv. rewrite Rmult_assoc, Rinv_l by lra. lra. }
    nra.
  - exact Hsmall.
Qed.


(** ** Primitive floats *)

(** The real value of a float, and the non-negative finite floats. *)
Definition B2R (x : float) : R := SF2R (Prim2SF x).
Definition NNf (x : float) : Prop := NN (Prim2SF x).

(** [x] is the float next to [v]. *)
Definition RoundedF (v : R) (x : float) : Prop := Rounded v (Prim2SF x).

Lemma Prim2SF_is_valid x : valid (Prim2SF x).
Proof. apply Prim2SF_valid. Qed.

Lemma B2R_nonneg x : NNf x -> 0 <= B2R x.
Proof. apply SF2R_nonneg. Qed.

Lemma leb_R x y : NNf x -> NNf y -> ((x <=? y)%float = true <-> B2R x <= B2R y).
Proof. intros Hx Hy. rewrite FloatAxioms.leb_spec. apply SFleb_R; auto using Prim2SF_is_valid. Qed.

Lemma ltb_R x y : NNf x -> NNf y -> ((x <? y)%float = true <-> B2R x < B2R y).
Proof. intros Hx Hy. rewrite FloatAxioms.ltb_spec. apply SFltb_R; auto using Prim2SF_is_valid. Qed.

Lemma ltb_R_false x y : NNf x -> NNf y -> ((x <? y)%float = false <-> B2R y <= B2R x).
Proof.
  intros Hx Hy. pose proof (ltb_R x y Hx Hy) as H.
  destruct (x <? y)%float; split; intros; try reflexivity; try discriminate.
  - assert (B2R x < B2R y) by now apply H. lra.
  - destruct (Rle_lt_dec (B2R y) (B2R x)); [assumption|].
    assert (false = true) by now apply H. discriminate.
Qed.

Lemma NNf_not_nan x : NNf x -> is_nan x = false.
Proof.
  intros Hx. unfold is_nan. rewrite FloatAxioms.eqb_spec. unfold SFeqb.
  pose proof (SFcompare_R _ _ Hx Hx (Prim2SF_is_valid x) (Prim2SF_is_valid x)) as H.
  destruct (SFcompare (Prim2SF x) (Prim2SF x)) as [[| |]|]; try reflexivity;
    try contradiction; lra.
Qed.

Theorem add_rounded x y :
  NNf x -> NNf y -> B2R x + B2R y < bpow 971 ->
  RoundedF (B2R x + B2R y) (x + y)%float.
Proof.
  intros Hx Hy Hs. unfold RoundedF. rewrite FloatAxioms.add_spec.
  apply SFadd_rounded; auto using Prim2SF_is_valid.
Qed.

Theorem mul_rounded x y :
  NNf x -> NNf y -> B2R x * B2R y < bpow 971 ->
  RoundedF (B2R x * B2R y) (x * y)%float.
Proof.
  intros Hx Hy Hs. unfold RoundedF. rewrite FloatAxioms.mul_spec.
  apply SFmul_rounded; auto using Prim2SF_is_valid.
Qed.

Theorem div_rounded x y :
  NNf x -> NNf y -> 0 < B2R y ->
  bpow (-1021) <= B2R x / B2R y < bpow 971 ->
  RoundedF (B2R x / B2R y) (x / y)%float.
Proof.
  unfold NNf, B2R, RoundedF. intros Hx Hy Hy0 Hr. rewrite FloatAxioms.div_spec.
  pose proof (Prim2SF_is_valid x) as Vx. pose proof (Prim2SF_is_valid y) as Vy.
  destruct Hy as [|my ey]; [simpl in Hy0; lra|].
  destruct Hx as [|mx ex].
  - exfalso. simpl in Hr. unfold Rdiv in Hr. rewrite Rmult_0_l in Hr.
    pose proof (bpow_gt_0 (-1021)). lra.
  - now apply SFdiv_rounded.
Qed.

(** Zero divided by a positive float is zero. *)
Lemma div_zero x y : B2R x = 0 -> NNf x -> NNf y -> 0 < B2R y ->
  NNf (x / y)%float /\ B2R (x / y)%float = 0.
Proof.
  unfold NNf, B2R. intros Hx0 Hx Hy Hy0. rewrite FloatAxioms.div_spec.
  destruct Hy as [|my ey]; [simpl in Hy0; lra|].
  destruct Hx as [|mx ex].
  - simpl. split; [constructor|reflexivity].
  - pose proof (SF2R_finite_pos mx ex). lra.
Qed.

(** ** [Math.max] and [Math.min] on non-negative floats *)

Lemma Math_max_R a b : NNf a -> NNf b ->
  NNf (Math_max a b) /\ B2R (Math_max a b) = Rmax (B2R a) (B2R b)
  /\ (Math_max a b = a \/ Math_max a b = b).
Proof.
  intros Ha Hb. unfold Math_max.
  rewrite (NNf_not_nan a Ha), (NNf_not_nan b Hb). simpl.
  destruct (a <? b)%float eqn:Hab.
  - apply ltb_R in Hab; auto. split; [exact Hb|]. split; [|now right].
    rewrite Rmax_right; lra.
  - apply ltb_R_false in Hab; auto.
    destruct (b <? a)%float eqn:Hba.
    + split; [exact Ha|]. split; [|now left]. rewrite Rmax_left; lra.
    + apply ltb_R_false in Hba; auto.
      destruct (get_sign a).
      * split; [exact Hb|]. split; [|now right]. rewrite Rmax_right; lra.
      * split; [exact Ha|]. split; [|now left]. rewrite Rmax_left; lra.
Qed.

Lemma Math_min_R a b : NNf a -> NNf b ->
  NNf (Math_min a b) /\ B2R (Math_min a b) = Rmin (B2R a) (B2R b)
  /\ (Math_min a b = a \/ Math_min a b = b).
Proof.
  intros Ha Hb. unfold Math_min.
  rewrite (NNf_not_nan a Ha), (NNf_not_nan b Hb). simpl.
  destruct (a <? b)%float eqn:Hab.
  - apply ltb_R in Hab; auto. split; [exact Ha|]. split; [|now left].
    rewrite Rmin_left; lra.
  - apply ltb_R_false in Hab; auto.
    destruct (b <? a)%float eqn:Hba.
    + split; [exact Hb|]. split; [|now right]. rewrite Rmin_right; lra.
    + apply ltb_R_false in Hba; auto.
      destruct (get_sign a).
      * split; [exact Ha|]. split; [|now left]. rewrite Rmin_left; lra.
      * split; [exact Hb|]. split; [|now right]. rewrite Rmin_right; lra.
Qed.


(** ** Integers as floats *)

Lemma INR_IZR n : INR n = IZR (Z.of_nat n).
Proof. apply INR_IZR_INZ. Qed.

(** A positive integer below [2 ^ 53] is a float. *)
Lemma representable_pos p :
  (Zpos p < 2 ^ 53)%Z ->
  exists c, NN c /\ valid c /\ SF2R c = IZR (Zpos p).
Proof.
  intros Hp. set (d := Zpos (digits2_pos p)).
  assert (Hd : (1 <= d <= 53)%Z).
  { subst d. split; [lia|]. apply digits2_le; lia. }
  destruct (digits2_bounds p) as [Hlo Hhi]. fold d in Hlo, Hhi.
  assert (Hk : (0 < 2 ^ (53 - d))%Z) by (apply Z.pow_pos_nonneg; lia).
  exists (S754_finite false (Z.to_pos (Zpos p * 2 ^ (53 - d))) (d - 53)).
  split; [constructor|]. split.
  - unfold valid. simpl. apply bounded_of_grid; rewrite ?Z2Pos.id by lia; try lia.
      replace 53%Z with (d + (53 - d))%Z at 2 by lia.
      rewrite Z.pow_add_r by lia. nia.
    + left. replace 52%Z with (d - 1 + (53 - d))%Z by lia.
      rewrite Z.pow_add_r by lia. nia.
  - cbn [SF2R cond_Zopp]. rewrite Z2Pos.id by lia. rewrite mult_IZR.
    rewrite <- (bpow_nonneg_IZR (53 - d)) by lia.
    rewrite Rmult_assoc, <- bpow_plus.
    replace (53 - d + (d - 53))%Z with 0%Z by lia. simpl. ring.
Qed.

Theorem ofNat_exact n :
  (Z.of_nat n < 2 ^ 53)%Z -> NNf (ofNat n) /\ B2R (ofNat n) = INR n.
Proof.
  intros Hn. unfold NNf, B2R, ofNat. rewrite of_uint63_spec.
  rewrite Uint63.of_Z_spec. rewrite Z.mod_small
    by (split; [lia|]; eapply Z.lt_trans; [exact Hn|reflexivity]).
  rewrite INR_IZR.
  destruct (Z.of_nat n) as [|p|p] eqn:Hp; try lia.
  - simpl. split; [constructor|reflexivity].
  - cbn [binary_normalize].
    assert (Hr : Rounded (IZR (Zpos p) * bpow 0) (binary_round prec emax false p 0)).
    { apply binary_round_rounded. simpl bpow at 1. rewrite Rmult_1_r.
      eapply Rlt_le_trans; [apply IZR_lt; exact Hn|].
      rewrite <- (bpow_nonneg_IZR 53) by lia. apply bpow_le. lia. }
    simpl bpow in Hr. rewrite Rmult_1_r in Hr.
    split; [apply (rd_nn _ _ Hr)|].
    destruct (representable_pos p Hn) as (c & Hc & Vc & Hcv).
    now apply (Rounded_representable _ _ c Hr).
Qed.

(** ** Floats between two bounds *)

Lemma between_NN lo hi x :
  NNf lo -> 0 < B2R lo -> NNf hi ->
  (lo <=? x)%float = true -> (x <=? hi)%float = true ->
  NNf x /\ B2R lo <= B2R x <= B2R hi.
Proof.
  intros Hlo Hlo0 Hhi H1 H2.
  assert (Hx : NNf x).
  { rewrite FloatAxioms.leb_spec in H1, H2. unfold NNf, B2R in *.
    destruct Hlo as [|ml el]; [simpl in Hlo0; lra|].
    destruct (Prim2SF x) as [[|]|[|]| |[|] m e]; try discriminate H1; try constructor.
    destruct Hhi; discriminate H2. }
  split; [exact Hx|]. split; apply leb_R; auto.
Qed.

Lemma between_intro lo hi x :
  NNf lo -> NNf hi -> NNf x -> B2R lo <= B2R x <= B2R hi ->
  (lo <=? x)%float = true /\ (x <=? hi)%float = true.
Proof. intros Hlo Hhi Hx [H1 H2]. split; apply leb_R; auto. Qed.


(** ** The constants of the engine *)

Lemma B2R_finite c m e :
  Prim2SF c = S754_finite false m e -> NNf c /\ B2R c = IZR (Zpos m) * bpow e.
Proof. unfold NNf, B2R. intros ->. split; [constructor|reflexivity]. Qed.

Ltac float_const m e :=
  match goal with
  | |- NNf ?c /\ B2R ?c = _ =>
      destruct (B2R_finite c m e ltac:(reflexivity)) as [Hn Hv];
      split; [exact Hn|]; rewrite Hv; unfold bpow;
      (try match goal with
           | |- context [Z.pow_pos 2 ?p] =>
               let v := eval vm_compute in (Z.pow_pos 2 p) in
               change (Z.pow_pos 2 p) with v
           end);
      lra
  end.

Lemma const_0 : NNf 0%float /\ B2R 0%float = 0.
Proof. unfold NNf, B2R. split; [constructor|reflexivity]. Qed.

Lemma const_01 : NNf 0.1%float /\ B2R 0.1%float = 7205759403792794 / 72057594037927936.
Proof. float_const 7205759403792794%positive (-56)%Z. Qed.

Lemma const_05 : NNf 0.5%float /\ B2R 0.5%float = 1 / 2.
Proof. float_const 4503599627370496%positive (-53)%Z. Qed.

Lemma const_075 : NNf 0.75%float /\ B2R 0.75%float = 3 / 4.
Proof. float_const 6755399441055744%positive (-53)%Z. Qed.

Lemma const_08 : NNf 0.8%float /\ B2R 0.8%float = 7205759403792794 / 9007199254740992.
Proof. float_const 7205759403792794%positive (-53)%Z. Qed.

Lemma const_095 : NNf 0.95%float /\ B2R 0.95%float = 8556839292003942 / 9007199254740992.
Proof. float_const 8556839292003942%positive (-53)%Z. Qed.

Lemma const_1 : NNf 1%float /\ B2R 1%float = 1.
Proof. float_const 4503599627370496%positive (-52)%Z. Qed.

Lemma const_100 : NNf 100%float /\ B2R 100%float = 100.
Proof. float_const 7036874417766400%positive (-46)%Z. Qed.

Lemma const_100_lo :
  NNf 99.999999999999%float
  /\ B2R 99.999999999999%float = 7036874417766330 / 70368744177664.
Proof. float_const 7036874417766330%positive (-46)%Z. Qed.

Lemma const_100_hi :
  NNf 100.000000000001%float
  /\ B2R 100.000000000001%float = 7036874417766470 / 70368744177664.
Proof. float_const 7036874417766470%positive (-46)%Z. Qed.

Lemma bpow_971_big : 1048576 <= bpow 971.
Proof.
  change 1048576 with (bpow 20). apply bpow_le. lia.
Qed.

Lemma bpow_1021_small : bpow (-1021) <= / 1048576.
Proof.
  change (/ 1048576) with (bpow (-20)). apply bpow_le. lia.
Qed.


(** ** Confidences *)

(** A confidence within the clamp of [analyzeLine]. *)
Definition inRange (c : float) : Prop :=
  (0.1 <=? c)%float = true /\ (c <=? 0.95)%float = true.

Lemma inRange_R c :
  inRange c <-> NNf c /\ B2R 0.1%float <= B2R c <= B2R 0.95%float.
Proof.
  destruct const_01 as [N01 V01]. destruct const_095 as [N095 V095].
  split.
  - intros [H1 H2]. apply between_NN; auto. rewrite V01. lra.
  - intros [Hc Hb]. now apply between_intro.
Qed.

Lemma clamp_inRange x : NNf x -> inRange (Math_min (Math_max x 0.1) 0.95).
Proof.
  intros Hx. destruct const_01 as [N01 V01]. destruct const_095 as [N095 V095].
  destruct (Math_max_R x 0.1%float Hx N01) as (Hy & Vy & _).
  destruct (Math_min_R _ 0.95%float Hy N095) as (Hz & Vz & _).
  apply inRange_R. split; [exact Hz|]. rewrite Vz, Vy, V01, V095.
  unfold Rmin, Rmax. repeat destruct Rle_dec; lra.
Qed.

Lemma bump_inRange c :
  inRange c ->
  inRange (Math_min (c + 0.1) 0.95)
  /\ (c <=? Math_min (c + 0.1) 0.95)%float = true.
Proof.
  intros Hc. apply inRange_R in Hc as (Hn & Hlo & Hhi).
  destruct const_01 as [N01 V01]. destruct const_095 as [N095 V095].
  pose proof bpow_971_big as Hbig.
  assert (Hr : RoundedF (B2R c + B2R 0.1%float) (c + 0.1)%float).
  { apply add_rounded; auto. rewrite V01, V095 in *. lra. }
  pose proof (rd_nn _ _ Hr) as Hs.
  pose proof (rd_below _ _ Hr (Prim2SF c) Hn (Prim2SF_is_valid c)) as Hb.
  fold (B2R c) in Hb. fold (B2R (c + 0.1)%float) in Hb.
  assert (Hge : B2R c <= B2R (c + 0.1)%float) by (apply Hb; rewrite V01; lra).
  destruct (Math_min_R (c + 0.1)%float 0.95%float Hs N095) as (Hz & Vz & _).
  assert (Hzb : B2R c <= B2R (Math_min (c + 0.1) 0.95)).
  { rewrite Vz. unfold Rmin. destruct Rle_dec; lra. }
  split.
  - apply inRange_R. split; [exact Hz|]. split; [lra|].
    rewrite Vz. unfold Rmin. destruct Rle_dec; lra.
  - apply leb_R; auto.
Qed.

Lemma raise_inRange c t :
  inRange c -> inRange t ->
  inRange (Math_max c t) /\ (c <=? Math_max c t)%float = true.
Proof.
  intros Hc Ht. apply inRange_R in Hc as (Hn & Hlo & Hhi).
  apply inRange_R in Ht as (Hnt & Hlot & Hhit).
  destruct (Math_max_R c t Hn Hnt) as (Hz & Vz & _).
  split.
  - apply inRange_R. split; [exact Hz|]. rewrite Vz. unfold Rmax.
    destruct Rle_dec; lra.
  - apply leb_R; auto. rewrite Vz. unfold Rmax. destruct Rle_dec; lra.
Qed.

Lemma inRange_08 : inRange 0.8%float.
Proof. split; reflexivity. Qed.

Lemma inRange_075 : inRange 0.75%float.
Proof. split; reflexivity. Qed.

Lemma inRange_refl c : inRange c -> (c <=? c)%float = true.
Proof. intros Hc. apply inRange_R in Hc as (Hn & _). apply leb_R; auto. lra. Qed.

Lemma inRange_trans a b c :
  inRange a -> inRange b -> inRange c ->
  (a <=? b)%float = true -> (b <=? c)%float = true -> (a <=? c)%float = true.
Proof.
  intros Ha Hb Hc. apply inRange_R in Ha as (Na & _). apply inRange_R in Hb as (Nb & _).
  apply inRange_R in Hc as (Nc & _). intros H1 H2.
  apply leb_R in H1; auto. apply leb_R in H2; auto. apply leb_R; auto. lra.
Qed.

(** ** Scores *)

(** A rule weight: between 0.1 and 1. *)
Definition goodWeight (w : float) : bool := (0.1 <=? w)%float && (w <=? 1)%float.

(** A score after at most [k] additions of rule weights. *)
Definition okScore (k : nat) (a : float) : Prop :=
  NNf a /\ (B2R a = 0 \/ B2R 0.1%float <= B2R a) /\ B2R a <= INR k.

Lemma okScore_0 : okScore 0 0%float.
Proof. destruct const_0 as [N0 V0]. split; [exact N0|]. rewrite V0. simpl. split; [now left|lra]. Qed.

Lemma okScore_mono k k' a : (k <= k')%nat -> okScore k a -> okScore k' a.
Proof.
  intros Hk (Hn & Hz & Hb). split; [exact Hn|]. split; [exact Hz|].
  apply le_INR in Hk. lra.
Qed.

Lemma okScore_add k a w :
  (k < 1000)%nat -> okScore k a -> goodWeight w = true -> okScore (S k) (a + w)%float.
Proof.
  intros Hk (Hn & Hz & Hb) Hw. unfold goodWeight in Hw. apply andb_prop in Hw as [Hw1 Hw2].
  destruct const_01 as [N01 V01]. destruct const_1 as [N1 V1].
  destruct (between_NN 0.1%float 1%float w N01 ltac:(rewrite V01; lra) N1 Hw1 Hw2)
    as (Hnw & Hwlo & Hwhi).
  rewrite V1 in Hwhi. rewrite V01 in *.
  pose proof bpow_971_big as Hbig.
  assert (HkR : INR k <= 1000).
  { rewrite INR_IZR. apply IZR_le. lia. }
  pose proof (B2R_nonneg a Hn) as Ha0.
  assert (Hr : RoundedF (B2R a + B2R w) (a + w)%float).
  { apply add_rounded; auto. lra. }
  pose proof (rd_nn _ _ Hr) as Hs.
  split; [exact Hs|]. split.
  - right.
    pose proof (rd_below _ _ Hr (Prim2SF w) Hnw (Prim2SF_is_valid w)) as Hb'.
    fold (B2R w) in Hb'. fold (B2R (a + w)%float) in Hb'.
    assert (B2R w <= B2R (a + w)%float) by (apply Hb'; lra). lra.
  - destruct (ofNat_exact (S k)) as [Nk Vk].
    { eapply Z.lt_trans with 1001%Z; [lia|reflexivity]. }
    pose proof (rd_above _ _ Hr (Prim2SF (ofNat (S k))) Nk (Prim2SF_is_valid _)) as Ha'.
    fold (B2R (ofNat (S k))) in Ha'. fold (B2R (a + w)%float) in Ha'.
    rewrite Vk in Ha'. apply Ha'. rewrite S_INR. lra.
Qed.

(** The quotient that [analyzeLine] clamps: a non-negative float, taken
    from the division exactly when the real sum of the scores is positive. *)
Lemma quotient_spec k a h :
  (k <= 1000)%nat -> okScore k a -> okScore k h ->
  NNf (a + h)%float
  /\ NNf (if gt (a + h) 0 then (Math_max a h / (a + h))%float else 0.5%float)
  /\ (gt (a + h) 0 = true <-> 0 < B2R a + B2R h).
Proof.
  intros Hk (Na & Za & Ba) (Nh & Zh & Bh).
  destruct const_0 as [N0 V0]. destruct const_01 as [N01 V01].
  destruct const_05 as [N05 _].
  pose proof bpow_971_big as Hbig. pose proof bpow_1021_small as Hsmall.
  assert (HkR : INR k <= 1000).
  { rewrite INR_IZR. apply IZR_le. lia. }
  pose proof (B2R_nonneg a Na) as Ha0. pose proof (B2R_nonneg h Nh) as Hh0.
  assert (Hr : RoundedF (B2R a + B2R h) (a + h)%float).
  { apply add_rounded; auto. lra. }
  pose proof (rd_nn _ _ Hr) as Ns.
  pose proof (rd_below _ _ Hr (Prim2SF a) Na (Prim2SF_is_valid a)) as Hsa.
  pose proof (rd_below _ _ Hr (Prim2SF h) Nh (Prim2SF_is_valid h)) as Hsh.
  fold (B2R a) in Hsa. fold (B2R h) in Hsh. fold (B2R (a + h)%float) in Hsa, Hsh.
  specialize (Hsa ltac:(lra)). specialize (Hsh ltac:(lra)).
  assert (Hiff : gt (a + h) 0 = true <-> 0 < B2R a + B2R h).
  { unfold gt. rewrite ltb_R by auto. rewrite V0. split; intros Hpos.
    - destruct (Rle_lt_dec (B2R a + B2R h) 0) as [Hle|]; [|assumption]. exfalso.
      assert (Hz : B2R a + B2R h = 0) by lra.
      rewrite Hz in Hr.
      pose proof (Rounded_representable _ _ (S754_zero false) Hr NN_zero eq_refl eq_refl) as H.
      fold (B2R (a + h)%float) in H. simpl in H. lra.
    - rewrite V01 in *. destruct Za as [Za|Za]; destruct Zh as [Zh|Zh]; lra. }
  split; [exact Ns|]. split; [|exact Hiff].
  destruct (gt (a + h) 0) eqn:Hpos; [|exact N05].
  assert (Hsum : 0 < B2R a + B2R h) by now apply Hiff.
  unfold gt in Hpos. apply ltb_R in Hpos; auto. rewrite V0 in Hpos.
  destruct (Math_max_R a h Na Nh) as (Nm & Vm & _).
  destruct (ofNat_exact 2000) as [N2k V2k]; [reflexivity|].
  pose proof (rd_above _ _ Hr (Prim2SF (ofNat 2000)) N2k (Prim2SF_is_valid _)) as Hup.
  fold (B2R (ofNat 2000)) in Hup. fold (B2R (a + h)%float) in Hup.
  rewrite V2k, INR_IZR in Hup. change (Z.of_nat 2000) with 2000%Z in Hup.
  specialize (Hup ltac:(lra)).
  assert (Hmax : B2R 0.1%float <= B2R (Math_max a h) <= B2R (a + h)%float).
  { rewrite Vm. pose proof (Rmax_l (B2R a) (B2R h)). pose proof (Rmax_r (B2R a) (B2R h)).
    split; [|apply Rmax_lub; lra].
    destruct Za as [Za|Za]; destruct Zh as [Zh|Zh]; lra. }
  rewrite V01 in Hmax.
  assert (Hdiv : RoundedF (B2R (Math_max a h) / B2R (a + h)%float)
                          (Math_max a h / (a + h))%float).
  { apply div_rounded; auto. split.
    - apply Rle_trans with (/ 1048576); [exact Hsmall|].
      apply Rmult_le_reg_r with (B2R (a + h)%float); [lra|].
      unfold Rdiv. rewrite Rmult_assoc, Rinv_l by lra. lra.
    - apply Rlt_le_trans with 1048576; [|exact Hbig].
      apply Rmult_lt_reg_r with (B2R (a + h)%float); [lra|].
      unfold Rdiv. rewrite Rmult_assoc, Rinv_l by lra. lra. }
  exact (rd_nn _ _ Hdiv).
Qed.

(** The clamp [Math.min(Math.max(q, 0.1), 0.95)] on the reals. *)
Lemma clamp_R q :
  NNf q ->
  B2R (Math_min (Math_max q 0.1) 0.95) = Rmin (Rmax (B2R q) (B2R 0.1%float)) (B2R 0.95%float).
Proof.
  intros Hq. destruct const_01 as [N01 _]. destruct const_095 as [N095 _].
  destruct (Math_max_R q 0.1%float Hq N01) as (Nm & Vm & _).
  destruct (Math_min_R (Math_max q 0.1) 0.95%float Nm N095) as (_ & Vn & _).
  now rewrite Vn, Vm.
Qed.

(** The confidence that [analyzeLine] computes from two scores. *)
Lemma verdict_inRange k a h :
  (k <= 1000)%nat -> okScore k a -> okScore k h ->
  inRange
    (Math_min
       (Math_max (if gt (a + h) 0 then (Math_max a h / (a + h))%float else 0.5%float)
                 0.1) 0.95).
Proof.
  intros Hk Ha Hh. apply clamp_inRange. apply (quotient_spec k a h Hk Ha Hh).
Qed.


(** ** Percentages *)

Lemma Rabs_le_inv x a : Rabs x <= a -> - a <= x <= a.
Proof. unfold Rabs. destruct (Rcase_abs x); lra. Qed.

(** One unit in the last place, relatively: [2 ^ -52]. *)
Definition ulp1 : R := / 4503599627370496.

Lemma bpow_52 : bpow (-52) = ulp1.
Proof. reflexivity. Qed.

(** [count / total * 100] for [count <= total]: between 0 and 100, and
    within two roundings of the exact percentage. *)
Lemma percentage_spec k n :
  (1 <= n)%nat -> (k <= n)%nat -> (Z.of_nat n < 2 ^ 53)%Z ->
  let p := (ofNat k / ofNat n * 100)%float in
  NNf p /\ B2R p <= 100
  /\ Rabs (B2R p - 100 * (INR k / INR n)) <= 100 * (3 * ulp1).
Proof.
  intros Hn Hkn Hn53 p. subst p.
  destruct (ofNat_exact k ltac:(lia)) as [Nk Vk].
  destruct (ofNat_exact n Hn53) as [Nn Vn].
  destruct const_100 as [N100 V100]. destruct const_1 as [N1 V1].
  pose proof bpow_971_big as Hbig.
  assert (HnR : 1 <= INR n) by (change 1 with (INR 1); apply le_INR; lia).
  assert (HknR : INR k <= INR n) by (apply le_INR; lia).
  assert (Hu : 0 < ulp1) by (unfold ulp1; lra).
  destruct (Nat.eq_dec k 0%nat) as [->|Hk0].
  - (* no line of the kind: exactly 0 *)
    destruct (div_zero (ofNat 0) (ofNat n)) as [Nq Vq]; auto.
    { rewrite Vn. lra. }
    assert (Hr : RoundedF (B2R (ofNat 0 / ofNat n)%float * B2R 100%float)
                          (ofNat 0 / ofNat n * 100)%float).
    { apply mul_rounded; auto. rewrite Vq. lra. }
    rewrite Vq, Rmult_0_l in Hr.
    pose proof (Rounded_representable _ _ (S754_zero false) Hr NN_zero eq_refl eq_refl) as H.
    fold (B2R (ofNat 0 / ofNat n * 100)%float) in H.
    split; [exact (rd_nn _ _ Hr)|]. rewrite H. simpl INR.
    unfold Rdiv. rewrite Rmult_0_l, Rmult_0_r, Rminus_0_r, Rabs_R0. lra.
  - assert (HkR : 1 <= INR k) by (change 1 with (INR 1); apply le_INR; lia).
    set (v := INR k / INR n).
    assert (Hvn : v * INR n = INR k).
    { subst v. unfold Rdiv. rewrite Rmult_assoc, Rinv_l by lra. lra. }
    assert (Hn53R : INR n <= 9007199254740992).
    { rewrite INR_IZR. apply IZR_le. lia. }
    assert (Hv1 : v <= 1).
    { apply Rmult_le_reg_r with (INR n); [lra|]. rewrite Hvn. lra. }
    assert (Hv0 : / 9007199254740992 <= v).
    { apply Rmult_le_reg_r with (INR n); [lra|]. rewrite Hvn.
      apply Rle_trans with (/ 9007199254740992 * 9007199254740992); [|lra].
      apply Rmult_le_compat_l; lra. }
    assert (Hsmall : bpow (-1021) <= / 9007199254740992).
    { change (/ 9007199254740992) with (bpow (-53)). apply bpow_le. lia. }
    (* the quotient *)
    assert (Hq : RoundedF (B2R (ofNat k) / B2R (ofNat n)) (ofNat k / ofNat n)%float).
    { apply div_rounded; auto; rewrite ?Vk, ?Vn; fold v; lra. }
    rewrite Vk, Vn in Hq. fold v in Hq.
    pose proof (rd_nn _ _ Hq) as Nq.
    pose proof (rd_above _ _ Hq (Prim2SF 1%float) N1 (Prim2SF_is_valid _)) as Hq1.
    fold (B2R 1%float) in Hq1. fold (B2R (ofNat k / ofNat n)%float) in Hq1.
    rewrite V1 in Hq1. specialize (Hq1 Hv1).
    pose proof (rd_error _ _ Hq ltac:(lra)) as Hqe.
    fold (B2R (ofNat k / ofNat n)%float) in Hqe. rewrite bpow_52 in Hqe.
    apply Rabs_le_inv in Hqe.
    set (q := B2R (ofNat k / ofNat n)%float) in *.
    assert (Hqpos : / 9007199254740992 * (1 - ulp1) <= q).
    { assert (v * (1 - ulp1) <= q) by nra.
      assert (0 <= 1 - ulp1) by (unfold ulp1; lra). nra. }
    (* times 100 *)
    assert (Hp : RoundedF (q * B2R 100%float) (ofNat k / ofNat n * 100)%float).
    { apply mul_rounded; auto. rewrite V100. fold q. lra. }
    rewrite V100 in Hp.
    pose proof (rd_nn _ _ Hp) as Np.
    pose proof (rd_above _ _ Hp (Prim2SF 100%float) N100 (Prim2SF_is_valid _)) as Hp100.
    fold (B2R 100%float) in Hp100. fold (B2R (ofNat k / ofNat n * 100)%float) in Hp100.
    rewrite V100 in Hp100. specialize (Hp100 ltac:(lra)).
    assert (Hpn : bpow (-1021) <= q * 100).
    { unfold ulp1 in Hqpos. lra. }
    pose proof (rd_error _ _ Hp Hpn) as Hpe.
    fold (B2R (ofNat k / ofNat n * 100)%float) in Hpe. rewrite bpow_52 in Hpe.
    apply Rabs_le_inv in Hpe.
    split; [exact Np|]. split; [exact Hp100|].
    apply Rabs_le.
    set (pp := B2R (ofNat k / ofNat n * 100)%float) in *.
    assert (Hv0' : 0 <= v) by lra.
    assert (Hq0 : 0 <= q) by (unfold ulp1 in Hqpos; lra).
    assert (Hu1 : ulp1 <= 1) by (unfold ulp1; lra).
    split; nra.
Qed.

(** The two percentages add up to 100 within the rounding errors. *)
Lemma percentages_sum k n :
  (1 <= n)%nat -> (k <= n)%nat -> (Z.of_nat n < 2 ^ 53)%Z ->
  let pa := (ofNat k / ofNat n * 100)%float in
  let ph := (ofNat (n - k) / ofNat n * 100)%float in
  (99.999999999999 <=? pa + ph)%float = true
  /\ (pa + ph <=? 100.000000000001)%float = true.
Proof.
  intros Hn Hkn Hn53 pa ph.
  destruct (percentage_spec k n Hn Hkn Hn53) as (Na & Ha100 & Hae).
  destruct (percentage_spec (n - k) n Hn ltac:(lia) Hn53) as (Nh & Hh100 & Hhe).
  fold pa in Na, Ha100, Hae. fold ph in Nh, Hh100, Hhe.
  rewrite minus_INR in Hhe by exact Hkn.
  assert (HnR : 1 <= INR n) by (change 1 with (INR 1); apply le_INR; lia).
  assert (Hexact : 100 * (INR k / INR n) + 100 * ((INR n - INR k) / INR n) = 100).
  { field. lra. }
  apply Rabs_le_inv in Hae. apply Rabs_le_inv in Hhe.
  pose proof bpow_971_big as Hbig.
  assert (Hs : RoundedF (B2R pa + B2R ph) (pa + ph)%float).
  { apply add_rounded; auto. lra. }
  pose proof (rd_nn _ _ Hs) as Ns.
  assert (Hsmall : bpow (-1021) <= 1).
  { change 1 with (bpow 0). apply bpow_le. lia. }
  unfold ulp1 in *.
  pose proof (rd_error _ _ Hs ltac:(lra)) as Hse.
  fold (B2R (pa + ph)%float) in Hse. rewrite bpow_52 in Hse. unfold ulp1 in Hse.
  apply Rabs_le_inv in Hse.
  destruct const_100_lo as [Nlo Vlo]. destruct const_100_hi as [Nhi Vhi].
  apply between_intro; auto. rewrite Vlo, Vhi. lra.
Qed.

Lemma percentage_bounds k n :
  (1 <= n)%nat -> (k <= n)%nat -> (Z.of_nat n < 2 ^ 53)%Z ->
  let p := (ofNat k / ofNat n * 100)%float in
  (0 <=? p)%float = true /\ (p <=? 100)%float = true.
Proof.
  intros Hn Hkn Hn53 p.
  destruct (percentage_spec k n Hn Hkn Hn53) as (Np & Hp100 & _). fold p in Np, Hp100.
  destruct const_0 as [N0 V0]. destruct const_100 as [N100 V100].
  apply between_intro; auto. rewrite V0, V100. split; [now apply B2R_nonneg|exact Hp100].
Qed.

End Binary64.
Import Binary64.

(* ===================================================================== *)
(** * The block aggregator *)
(* ===================================================================== *)

Section BlockFacts.
Implicit Types (la pre : list LineAnalysis) (b : AIBlock.t).

Definition nonBlankLine (l : LineAnalysis) : bool := nonBlank (content l).

(** The lines of [la] that a block spans, blank ones left out. *)
Definition members la b : list LineAnalysis :=
  List.filter nonBlankLine
    (take (AIBlock.endLine b - (AIBlock.startLine b - 1))
          (drop (AIBlock.startLine b - 1) la)).

(** The classification of a block: that of its first line. *)
Definition blockIsAI la b : bool :=
  match la !! (AIBlock.startLine b - 1) with
  | Some l => isAI l
  | None => false
  end.

(** A run from line [s] to line [e] (1-based, inclusive) of class [c]:
    within the array, both ends non-blank, every non-blank line of it of
    class [c]. *)
Record Run la (s e : nat) (c : bool) : Prop := {
  run_range : 1 <= s /\ s <= e /\ e <= length la;
  run_first : exists l, la !! (s - 1) = Some l /\ nonBlankLine l = true /\ isAI l = c;
  run_last : exists l, la !! (e - 1) = Some l /\ nonBlankLine l = true;
  run_uniform : forall j l, s - 1 <= j < e -> la !! j = Some l ->
                 nonBlankLine l = true -> isAI l = c
}.

Definition GoodBlock la b : Prop :=
  Run la (AIBlock.startLine b) (AIBlock.endLine b) (blockIsAI la b)
  /\ AIBlock.startLine b < AIBlock.endLine b.

(** Between the end of [b] and line [upto] lies a non-blank line of the
    other class. *)
Definition OtherAfter la b (upto : nat) : Prop :=
  exists j l, AIBlock.endLine b <= j /\ j < upto /\ la !! j = Some l
              /\ nonBlankLine l = true /\ isAI l <> blockIsAI la b.

Definition Consecutive la b b' : Prop :=
  AIBlock.endLine b < AIBlock.startLine b'
  /\ OtherAfter la b (AIBlock.endLine b').

Definition Chain la (bs : list AIBlock.t) : Prop :=
  (forall b, b ∈ bs -> GoodBlock la b)
  /\ (forall k b b', bs !! k = Some b -> bs !! (S k) = Some b' -> Consecutive la b b').

Lemma Run_app la x s e c : Run la s e c -> Run (la ++ [x]) s e c.
Proof.
  intros [Hr (l & Hl & Hn & Hc) (l' & Hl' & Hn') Hu].
  assert (Hlt : forall j, j < e -> (la ++ [x]) !! j = la !! j).
  { intros j Hj. apply lookup_app_l. lia. }
  split.
  - rewrite length_app. simpl. lia.
  - exists l. rewrite Hlt by lia. auto.
  - exists l'. rewrite Hlt by lia. auto.
  - intros j l0 Hj. rewrite Hlt by lia. eauto.
Qed.

Lemma blockIsAI_app la x b :
  1 <= AIBlock.startLine b <= length la -> blockIsAI (la ++ [x]) b = blockIsAI la b.
Proof.
  intros H. unfold blockIsAI. rewrite lookup_app_l by lia. reflexivity.
Qed.

Lemma GoodBlock_app la x b : GoodBlock la b -> GoodBlock (la ++ [x]) b.
Proof.
  intros [Hr Hlt]. split; [|exact Hlt].
  rewrite blockIsAI_app by (destruct Hr as [? _ _ _]; lia).
  now apply Run_app.
Qed.

Lemma OtherAfter_app la x b n :
  1 <= AIBlock.startLine b <= length la -> n <= length la ->
  OtherAfter la b n -> OtherAfter (la ++ [x]) b n.
Proof.
  intros Hs Hn (j & l & H1 & H2 & H3 & H4 & H5).
  exists j, l. rewrite lookup_app_l by lia. rewrite blockIsAI_app by lia. auto.
Qed.

Lemma OtherAfter_mono la b n n' : n <= n' -> OtherAfter la b n -> OtherAfter la b n'.
Proof.
  intros Hn (j & l & H1 & H2 & H3). exists j, l. split; [lia|]. split; [lia|]. exact H3.
Qed.

Lemma Chain_app la x bs : Chain la bs -> Chain (la ++ [x]) bs.
Proof.
  intros [Hg Hc]. split.
  - intros b Hb. apply GoodBlock_app, Hg, Hb.
  - intros k b b' Hk Hk'. destruct (Hc k b b' Hk Hk') as [Hlt Ho].
    assert (Hb : GoodBlock la b) by (apply Hg; eapply list_elem_of_lookup_2; eauto).
    assert (Hb' : GoodBlock la b') by (apply Hg; eapply list_elem_of_lookup_2; eauto).
    destruct Hb as [[? _ _ _] _]. destruct Hb' as [[? _ _ _] _].
    split; [exact Hlt|]. apply OtherAfter_app; auto; lia.
Qed.

Lemma Chain_snoc la bs b :
  Chain la bs -> GoodBlock la b ->
  (forall b0, last bs = Some b0 -> Consecutive la b0 b) ->
  Chain la (bs ++ [b]).
Proof.
  intros [Hg Hc] Hb Hl. split.
  - intros b0 Hin. apply elem_of_app in Hin as [Hin|Hin]; [auto|].
    apply list_elem_of_singleton in Hin. now subst.
  - intros k b1 b2 H1 H2.
    destruct (decide (S k < length bs)) as [Hlt|Hge].
    + rewrite lookup_app_l in H1 by lia. rewrite lookup_app_l in H2 by lia. eauto.
    + apply lookup_lt_Some in H2 as Hk2. rewrite length_app in Hk2. simpl in Hk2.
      assert (S k = length bs) by lia.
      rewrite lookup_app_l in H1 by lia.
      rewrite lookup_app_r in H2 by lia.
      replace (S k - length bs) with 0 in H2 by lia. simpl in H2.
      injection H2 as <-. apply Hl. rewrite last_lookup.
      replace (Init.Nat.pred (length bs)) with k by lia. exact H1.
Qed.

(** The loop invariant of [detectAIBlocks] after the lines [pre]. *)
Definition BlockInv pre (st : list AIBlock.t * option CurrentBlock) : Prop :=
  Chain pre (fst st) /\
  match snd st with
  | None =>
      fst st = [] /\ (forall j l, pre !! j = Some l -> nonBlankLine l = false)
  | Some cb =>
      Run pre (cb_start cb) (cb_end cb) (cb_isAI cb)
      /\ ((length (confidences cb) = 1 /\ cb_start cb = cb_end cb)
          \/ (2 <= length (confidences cb) /\ cb_start cb < cb_end cb))
      /\ (forall j l, cb_end cb <= j -> pre !! j = Some l -> nonBlankLine l = false)
      /\ (forall b0, last (fst st) = Some b0 ->
            AIBlock.endLine b0 < cb_start cb /\ OtherAfter pre b0 (cb_end cb))
  end.

Lemma Run_single pre line :
  nonBlankLine line = true ->
  Run (pre ++ [line]) (length pre + 1) (length pre + 1) (isAI line).
Proof.
  intros Hn.
  assert (Hl : (pre ++ [line]) !! (length pre + 1 - 1) = Some line).
  { replace (length pre + 1 - 1) with (length pre) by lia.
    rewrite lookup_app_r by lia. now rewrite Nat.sub_diag. }
  split.
  - rewrite length_app. simpl. lia.
  - exists line. auto.
  - exists line. auto.
  - intros j l Hj Hjl. replace j with (length pre + 1 - 1) in Hjl by lia.
    rewrite Hl in Hjl. now injection Hjl as <-.
Qed.

Lemma Run_extend pre line s e c :
  Run pre s e c ->
  (forall j l, e <= j -> pre !! j = Some l -> nonBlankLine l = false) ->
  nonBlankLine line = true -> isAI line = c ->
  Run (pre ++ [line]) s (length pre + 1) c.
Proof.
  intros [Hr (l & Hl & Hn & Hc) _ Hu] Hblank Hline Hcls.
  split.
  - rewrite length_app. simpl. lia.
  - exists l. rewrite lookup_app_l by lia. auto.
  - exists line. replace (length pre + 1 - 1) with (length pre) by lia.
    rewrite lookup_app_r by lia. now rewrite Nat.sub_diag.
  - intros j l0 Hj Hjl Hnb.
    destruct (decide (j < length pre)) as [Hlt|Hge].
    + rewrite lookup_app_l in Hjl by lia.
      destruct (decide (j < e)) as [Hje|Hje].
      * eapply Hu; eauto. lia.
      * rewrite (Hblank j l0) in Hnb by (auto; lia). discriminate.
    + assert (j = length pre) by lia. subst j.
      rewrite lookup_app_r in Hjl by lia. rewrite Nat.sub_diag in Hjl.
      simpl in Hjl. now injection Hjl as <-.
Qed.

Lemma emit_cases cb :
  (2 <= length (confidences cb) /\
   exists b, emit cb = [b] /\ AIBlock.startLine b = cb_start cb
             /\ AIBlock.endLine b = cb_end cb)
  \/ (length (confidences cb) < 2 /\ emit cb = []).
Proof.
  unfold emit. destruct (2 <=? length (confidences cb)) eqn:E.
  - left. apply Nat.leb_le in E. split; [exact E|]. eexists. split; [reflexivity|]. auto.
  - right. apply Nat.leb_gt in E. auto.
Qed.

Lemma Run_GoodBlock la b c :
  Run la (AIBlock.startLine b) (AIBlock.endLine b) c ->
  AIBlock.startLine b < AIBlock.endLine b ->
  GoodBlock la b /\ blockIsAI la b = c.
Proof.
  intros Hr Hlt.
  assert (Hc : blockIsAI la b = c).
  { destruct Hr as [_ (l & Hl & _ & Hc) _ _]. unfold blockIsAI. now rewrite Hl. }
  split; [|exact Hc]. split; [|exact Hlt]. now rewrite Hc.
Qed.

Lemma blockStep_inv pre st line :
  BlockInv pre st -> BlockInv (pre ++ [line]) (blockStep st (length pre) line).
Proof.
  destruct st as [blocks cur]. intros [Hchain Hcur]. simpl in Hchain, Hcur.
  unfold blockStep. fold (nonBlankLine line).
  destruct (nonBlankLine line) eqn:Hnb; simpl.
  2:{ (* a blank line leaves the state as it is *)
    split; [now apply Chain_app|]. simpl.
    destruct cur as [cb|].
    - destruct Hcur as (Hrun & Hlen & Hblank & Hlast).
      split; [now apply Run_app|]. split; [exact Hlen|]. split.
      + intros j l Hj Hjl. destruct (decide (j < length pre)).
        * rewrite lookup_app_l in Hjl by lia. eauto.
        * rewrite lookup_app_r in Hjl by lia.
          destruct (j - length pre); simpl in Hjl; [|discriminate].
          now injection Hjl as <-.
      + intros b0 Hb0. destruct (Hlast b0 Hb0) as [Hlt Ho]. split; [exact Hlt|].
        destruct Hrun as [? _ _ _].
        assert (GoodBlock pre b0) as [[? _ _ _] _].
        { apply Hchain. apply last_Some_elem_of. exact Hb0. }
        apply OtherAfter_app; auto; lia.
    - destruct Hcur as [-> Hblank]. split; [reflexivity|].
      intros j l Hjl. destruct (decide (j < length pre)).
      + rewrite lookup_app_l in Hjl by lia. eauto.
      + rewrite lookup_app_r in Hjl by lia.
        destruct (j - length pre); simpl in Hjl; [|discriminate].
        now injection Hjl as <-. }
  assert (Hnone : forall j l, length pre + 1 <= j -> (pre ++ [line]) !! j = Some l ->
                              nonBlankLine l = false).
  { intros j l Hj Hjl. apply lookup_lt_Some in Hjl. rewrite length_app in Hjl.
    simpl in Hjl. lia. }
  destruct cur as [cb|].
  2:{ (* the first non-blank line opens a block *)
    destruct Hcur as [-> _]. split; [now apply Chain_app|]. simpl.
    split; [now apply Run_single|]. split; [left; auto|]. split; [exact Hnone|].
    intros b0 Hb0. discriminate. }
  destruct Hcur as (Hrun & Hlen & Hblank & Hlast).
  destruct (Bool.eqb (cb_isAI cb) (isAI line)) eqn:Hsame; simpl.
  - (* the line continues the current block *)
    apply Bool.eqb_prop in Hsame.
    split; [now apply Chain_app|]. simpl.
    split; [eapply Run_extend; eauto|].
    destruct Hrun as [Hr _ _ _].
    split; [right; rewrite length_app; simpl; lia|]. split; [exact Hnone|].
    intros b0 Hb0. destruct (Hlast b0 Hb0) as [Hlt Ho]. split; [exact Hlt|].
    assert (GoodBlock pre b0) as [[? _ _ _] _].
    { apply Hchain. apply last_Some_elem_of. exact Hb0. }
    eapply OtherAfter_mono; [|apply OtherAfter_app; [| |exact Ho]]; lia.
  - (* the line closes the current block and opens the next *)
    apply Bool.eqb_false_iff in Hsame.
    destruct (emit_cases cb) as [(Hge & b & -> & Hs & He)|(Hlt2 & ->)].
    + assert (Hstart : cb_start cb < cb_end cb) by lia.
      destruct (Run_GoodBlock pre b (cb_isAI cb)) as [Hgood Hcls].
      { now rewrite Hs, He. } { now rewrite Hs, He. }
      destruct Hrun as [Hr _ _ _].
      split.
      * simpl. apply Chain_app. apply Chain_snoc; auto.
        intros b0 Hb0. destruct (Hlast b0 Hb0) as [Hlt Ho].
        split; [now rewrite Hs|]. now rewrite He.
      * simpl. split; [now apply Run_single|]. split; [left; auto|].
        split; [exact Hnone|].
        intros b0 Hb0. rewrite last_snoc in Hb0. injection Hb0 as <-.
        split; [lia|]. exists (length pre), line.
        split; [lia|]. split; [lia|].
        split; [rewrite lookup_app_r by lia; now rewrite Nat.sub_diag|].
        split; [exact Hnb|].
        rewrite blockIsAI_app by lia. rewrite Hcls. congruence.
    + rewrite app_nil_r. split; [now apply Chain_app|]. simpl.
      split; [now apply Run_single|]. split; [left; auto|].
      split; [exact Hnone|].
      destruct Hrun as [Hr _ _ _].
      intros b0 Hb0. destruct (Hlast b0 Hb0) as [Hlt Ho]. split; [lia|].
      assert (GoodBlock pre b0) as [[? _ _ _] _].
      { apply Hchain. apply last_Some_elem_of. exact Hb0. }
      eapply OtherAfter_mono; [|apply OtherAfter_app; [| |exact Ho]]; lia.
Qed.

Lemma blockLoop_inv lines : forall pre st,
  BlockInv pre st -> BlockInv (pre ++ lines) (blockLoop (length pre) lines st).
Proof.
  induction lines as [|line lines IH]; intros pre st Hinv; simpl.
  - now rewrite app_nil_r.
  - replace (pre ++ line :: lines) with ((pre ++ [line]) ++ lines)
      by (now rewrite <- app_assoc).
    replace (S (length pre)) with (length (pre ++ [line]))
      by (rewrite length_app; simpl; lia).
    apply IH. now apply blockStep_inv.
Qed.

(** What [detectAIBlocks] guarantees of its result. *)
Lemma detectAIBlocks_chain la : Chain la (detectAIBlocks la).
Proof.
  unfold detectAIBlocks.
  assert (Hinv : BlockInv ([] ++ la) (blockLoop (length (@nil LineAnalysis)) la ([], None))).
  { apply blockLoop_inv. split; simpl.
    - split; [intros b Hb; inversion Hb|]. intros k b b' Hk. discriminate.
    - split; [reflexivity|]. intros j l Hjl. discriminate. }
  simpl in Hinv. destruct (blockLoop 0 la ([], None)) as [blocks cur].
  destruct Hinv as [Hchain Hcur]. simpl in Hchain, Hcur.
  destruct cur as [cb|]; simpl; [|now rewrite app_nil_r].
  destruct Hcur as (Hrun & Hlen & Hblank & Hlast).
  destruct (emit_cases cb) as [(Hge & b & -> & Hs & He)|(Hlt2 & ->)];
    [|now rewrite app_nil_r].
  destruct (Run_GoodBlock la b (cb_isAI cb)) as [Hgood Hcls].
  { now rewrite Hs, He. } { rewrite Hs, He. lia. }
  apply Chain_snoc; auto.
  intros b0 Hb0. destruct (Hlast b0 Hb0) as [Hlt Ho].
  split; [now rewrite Hs|]. now rewrite He.
Qed.
End BlockFacts.

(* ===================================================================== *)
(** * The module state *)
(* ===================================================================== *)

(** A pattern with its [lastIndex] forgotten. *)
Definition resetPattern (p : DetectionPattern) : DetectionPattern :=
  {| pattern := set_lastIndex (pattern p) 0; weight := weight p;
     reason := reason p; aiIndicator := aiIndicator p |}.

Definition resetGlobals (g : Globals) : Globals :=
  {| AI_PATTERNS := map resetPattern (AI_PATTERNS g);
     LANGUAGE_PATTERNS :=
       map (fun kv => (fst kv, map resetPattern (snd kv))) (LANGUAGE_PATTERNS g) |}.

(** The states the module can be in: its two tables, whatever the
    [lastIndex] of their patterns. *)
Definition ModuleState (g : Globals) : Prop := resetGlobals g = initial.

Section StateFacts.

Lemma test_reset R S : set_lastIndex (snd (test R S)) 0 = set_lastIndex R 0.
Proof.
  unfold test. destruct (global R).
  - destruct (exec _ _ _ _) as [[b e]|]; reflexivity.
  - destruct (exec _ _ _ _); reflexivity.
Qed.

Lemma applyPatterns_reset ps content sc :
  map resetPattern (fst (applyPatterns ps content sc)) = map resetPattern ps.
Proof.
  revert sc. induction ps as [|p ps IH]; intros sc; simpl; [reflexivity|].
  pose proof (test_reset (pattern p) content) as Ht.
  destruct (test (pattern p) content) as [hit R]. simpl in Ht.
  match goal with |- context [applyPatterns ps content ?s] =>
    specialize (IH s); destruct (applyPatterns ps content s) as [ps'' sc''] end.
  simpl in *. f_equal; [|exact IH].
  unfold resetPattern. simpl. now rewrite Ht.
Qed.

Lemma setProperty_reset tbl key ps ps' :
  ownProperty tbl key = Some ps ->
  map resetPattern ps' = map resetPattern ps ->
  map (fun kv => (fst kv, map resetPattern (snd kv))) (setProperty tbl key ps')
  = map (fun kv => (fst kv, map resetPattern (snd kv))) tbl.
Proof.
  intros Hown Heq. induction tbl as [|[k qs] tbl IH]; simpl in *; [reflexivity|].
  destruct (JSString.eqb k key).
  - injection Hown as ->. simpl. now rewrite Heq.
  - simpl. f_equal. now apply IH.
Qed.

Lemma scoreLine_reset g content language :
  resetGlobals (fst (scoreLine g content language)) = resetGlobals g.
Proof.
  unfold scoreLine.
  pose proof (applyPatterns_reset (AI_PATTERNS g) content
                {| aiScore := 0; humanScore := 0; fired := [] |}) as Hg.
  destruct (applyPatterns (AI_PATTERNS g) content _) as [general sc]. simpl in Hg.
  unfold getProperty.
  destruct (ownProperty (LANGUAGE_PATTERNS g) language) as [langPatterns|] eqn:Hown.
  - pose proof (applyPatterns_reset langPatterns content sc) as Hl.
    destruct (applyPatterns langPatterns content sc) as [langPatterns' sc']. simpl in Hl.
    unfold resetGlobals. simpl. rewrite Hg.
    now rewrite (setProperty_reset _ _ _ _ Hown Hl).
  - destruct (existsb _ _); unfold resetGlobals; simpl; now rewrite Hg.
Qed.

Lemma analyzeLine_reset g line n language :
  resetGlobals (fst (analyzeLine g line n language)) = resetGlobals g.
Proof.
  unfold analyzeLine. destruct (negb (truthy (trim line))); [reflexivity|].
  pose proof (scoreLine_reset g (trim line) language) as H.
  destruct (scoreLine g (trim line) language) as [g' [sc|e]]; exact H.
Qed.

Lemma analyzeLine_ModuleState g line n language :
  ModuleState g -> ModuleState (fst (analyzeLine g line n language)).
Proof. unfold ModuleState. now rewrite analyzeLine_reset. Qed.

Lemma analyzeLines_ModuleState structureScore language lines : forall g i acc,
  ModuleState g ->
  ModuleState (fst (analyzeLines g structureScore language i lines acc)).
Proof.
  induction lines as [|line lines IH]; intros g i acc Hg; simpl; [exact Hg|].
  pose proof (analyzeLine_ModuleState g line (i + 1) language Hg) as H.
  destruct (analyzeLine g line (i + 1) language) as [g' [analysis|e]]; simpl in H.
  - now apply IH.
  - exact H.
Qed.

(** The engine leaves the tables as they are, up to [lastIndex]. *)
Lemma analyzeCode_ModuleState g code language :
  ModuleState g -> ModuleState (fst (analyzeCode g code language)).
Proof.
  intros Hg. unfold analyzeCode.
  pose proof (analyzeLines_ModuleState (analyzeCodeStructure code) language
                (split_newline code) g 0 [] Hg) as H.
  destruct (analyzeLines _ _ _ _ _ _) as [g' [la|e]]; exact H.
Qed.

(** ** Weights *)

Definition goodPatterns (ps : list DetectionPattern) : bool :=
  forallb (fun p => goodWeight (weight p)) ps.

Lemma goodPatterns_reset ps : goodPatterns (map resetPattern ps) = goodPatterns ps.
Proof. unfold goodPatterns. induction ps; simpl; congruence. Qed.

Lemma ModuleState_general g :
  ModuleState g -> goodPatterns (AI_PATTERNS g) = true /\ length (AI_PATTERNS g) = 16.
Proof.
  intros Hg. split.
  - rewrite <- goodPatterns_reset.
    change (map resetPattern (AI_PATTERNS g)) with (AI_PATTERNS (resetGlobals g)).
    rewrite Hg. reflexivity.
  - rewrite <- (length_map resetPattern).
    change (map resetPattern (AI_PATTERNS g)) with (AI_PATTERNS (resetGlobals g)).
    rewrite Hg. reflexivity.
Qed.

Lemma ownProperty_reset tbl key :
  ownProperty (map (fun kv => (fst kv, map resetPattern (snd kv))) tbl) key
  = option_map (map resetPattern) (ownProperty tbl key).
Proof.
  induction tbl as [|[k ps] tbl IH]; simpl; [reflexivity|].
  destruct (JSString.eqb k key); [reflexivity|exact IH].
Qed.

Lemma initial_language_good key ps :
  ownProperty (LANGUAGE_PATTERNS initial) key = Some ps ->
  goodPatterns ps = true /\ length ps <= 2.
Proof.
  unfold initial, Tables.LANGUAGE_PATTERNS. cbn [LANGUAGE_PATTERNS ownProperty].
  repeat match goal with
         | |- context [JSString.eqb ?k key] =>
             destruct (JSString.eqb k key);
             [intros H; injection H as <-; split; [reflexivity|simpl; lia]|]
         end.
  discriminate.
Qed.

Lemma ModuleState_language g key ps :
  ModuleState g -> ownProperty (LANGUAGE_PATTERNS g) key = Some ps ->
  goodPatterns ps = true /\ length ps <= 2.
Proof.
  intros Hg Hown.
  assert (H : ownProperty (LANGUAGE_PATTERNS (resetGlobals g)) key
              = Some (map resetPattern ps)).
  { unfold resetGlobals. simpl. rewrite ownProperty_reset, Hown. reflexivity. }
  rewrite Hg in H. apply initial_language_good in H.
  now rewrite goodPatterns_reset, length_map in H.
Qed.

End StateFacts.

(* ===================================================================== *)
(** * The line classifier *)
(* ===================================================================== *)

Section ClassifierFacts.

Definition okScores (k : nat) (sc : Scores) : Prop :=
  okScore k (aiScore sc) /\ okScore k (humanScore sc).

Lemma okScores_addAI k w why sc :
  k < 1000 -> goodWeight w = true -> okScores k sc -> okScores (S k) (addAI w why sc).
Proof.
  intros Hk Hw [Ha Hh]. split; simpl.
  - now apply okScore_add.
  - eapply okScore_mono; [|exact Hh]. lia.
Qed.

Lemma okScores_addHuman k w why sc :
  k < 1000 -> goodWeight w = true -> okScores k sc -> okScores (S k) (addHuman w why sc).
Proof.
  intros Hk Hw [Ha Hh]. split; simpl.
  - eapply okScore_mono; [|exact Ha]. lia.
  - now apply okScore_add.
Qed.

Lemma okScores_mono k k' sc : k <= k' -> okScores k sc -> okScores k' sc.
Proof. intros Hk [Ha Hh]. split; eapply okScore_mono; eauto. Qed.

Lemma applyPatterns_okScores content ps : forall sc k,
  goodPatterns ps = true -> k + length ps <= 1000 -> okScores k sc ->
  okScores (k + length ps) (snd (applyPatterns ps content sc)).
Proof.
  induction ps as [|p ps IH]; intros sc k Hgood Hlen Hsc; simpl in *.
  - now rewrite Nat.add_0_r.
  - apply andb_prop in Hgood as [Hw Hps].
    destruct (test (pattern p) content) as [hit R].
    match goal with |- context [applyPatterns ps content ?s] =>
      assert (Hs : okScores (S k) s) end.
    { destruct hit; [|eapply okScores_mono; [|exact Hsc]; lia].
      destruct (aiIndicator p);
        [apply okScores_addAI|apply okScores_addHuman]; auto; lia. }
    match goal with |- context [applyPatterns ps content ?s] =>
      specialize (IH s (S k) Hps ltac:(lia) Hs);
      destruct (applyPatterns ps content s) as [ps'' sc''] end.
    simpl in *. replace (k + S (length ps)) with (S k + length ps) by lia. exact IH.
Qed.

Lemma okScores_addAI_le k k' w why sc :
  S k <= k' <= 1000 -> goodWeight w = true -> okScores k sc ->
  okScores k' (addAI w why sc).
Proof.
  intros Hk Hw Hsc. apply (okScores_mono (S k)); [lia|].
  apply okScores_addAI; auto; lia.
Qed.

Lemma okScores_addHuman_le k k' w why sc :
  S k <= k' <= 1000 -> goodWeight w = true -> okScores k sc ->
  okScores k' (addHuman w why sc).
Proof.
  intros Hk Hw Hsc. apply (okScores_mono (S k)); [lia|].
  apply okScores_addHuman; auto; lia.
Qed.

Ltac score_step n :=
  lazymatch goal with
  | |- okScores _ (addAI _ _ _) =>
      eapply (okScores_addAI_le n); [lia|reflexivity|]
  | |- okScores _ (addHuman _ _ _) =>
      eapply (okScores_addHuman_le n); [lia|reflexivity|]
  | |- _ => idtac
  end.

Lemma heuristics_okScores content k sc :
  k + 3 <= 1000 -> okScores k sc -> okScores (k + 3) (heuristics content sc).
Proof.
  intros Hk Hsc. unfold heuristics.
  destruct (120 <? length content);
    [|destruct ((length content <? 20) && _)];
    destruct (negb _ && (30 <? length content));
    destruct (matches flag_i quirkyPattern content);
    score_step (k + 2); score_step (k + 1); score_step k;
    (eapply okScores_mono; [|exact Hsc]; lia).
Qed.

Lemma scoreLine_okScores g content language g' sc :
  ModuleState g -> scoreLine g content language = (g', Normal sc) -> okScores 21 sc.
Proof.
  intros Hg. unfold scoreLine.
  destruct (ModuleState_general g Hg) as [Hgood Hlen].
  pose proof (applyPatterns_okScores content (AI_PATTERNS g)
                {| aiScore := 0; humanScore := 0; fired := [] |} 0 Hgood
                ltac:(rewrite Hlen; lia) (conj okScore_0 okScore_0)) as H1.
  destruct (applyPatterns (AI_PATTERNS g) content _) as [general sc1].
  simpl in H1. rewrite Hlen in H1.
  unfold getProperty.
  destruct (ownProperty (LANGUAGE_PATTERNS g) language) as [langPatterns|] eqn:Hown.
  - destruct (ModuleState_language g language langPatterns Hg Hown) as [Hlg Hll].
    pose proof (applyPatterns_okScores content langPatterns sc1 16 Hlg ltac:(lia) H1) as H2.
    destruct (applyPatterns langPatterns content sc1) as [langPatterns' sc2]. simpl in H2.
    intros [= _ <-].
    eapply okScores_mono; [|apply heuristics_okScores; [|exact H2]]; lia.
  - destruct (existsb _ _); [discriminate|].
    intros [= _ <-].
    eapply okScores_mono; [|apply heuristics_okScores; [|exact H1]]; lia.
Qed.

Lemma verdict_confidence line sc :
  okScores 21 sc -> inRange (confidence (verdict line sc)).
Proof.
  intros [Ha Hh]. unfold verdict. simpl.
  apply (verdict_inRange 21); auto. lia.
Qed.

Lemma nonBlank_truthy line : nonBlank line = truthy (trim line).
Proof. reflexivity. Qed.

(** What [analyzeLine] returns for a blank line and for any other. *)
Lemma analyzeLine_blank g line n language :
  nonBlank line = false ->
  analyzeLine g line n language
  = (g, Normal {| content := line; isAI := false; confidence := 0.5;
                  reasons := ["Empty line - neutral"%string] |}).
Proof. unfold analyzeLine, nonBlank. now intros ->. Qed.

Lemma analyzeLine_nonBlank g line n language g' la :
  nonBlank line = true ->
  analyzeLine g line n language = (g', Normal la) ->
  exists sc, scoreLine g (trim line) language = (g', Normal sc) /\ la = verdict line sc.
Proof.
  unfold analyzeLine, nonBlank. intros ->. simpl.
  destruct (scoreLine g (trim line) language) as [g1 [sc|e]]; [|discriminate].
  intros [= <- <-]. eauto.
Qed.

Lemma analyzeLine_content g line n language g' la :
  analyzeLine g line n language = (g', Normal la) -> content la = line.
Proof.
  destruct (nonBlank line) eqn:Hnb.
  - intros H. destruct (analyzeLine_nonBlank _ _ _ _ _ _ Hnb H) as (sc & _ & ->).
    reflexivity.
  - rewrite analyzeLine_blank by exact Hnb. now intros [= _ <-].
Qed.

End ClassifierFacts.

(* ===================================================================== *)
(** * Verdicts and their refinement *)
(* ===================================================================== *)

Section RefinerFacts.
Local Open Scope float_scope.

(** A verdict as [analyzeLine] makes them: the confidence of a non-blank
    line within the clamp, a blank line neutral. *)
Definition okLine (l : LineAnalysis) : Prop :=
  if nonBlankLine l then inRange (confidence l)
  else confidence l = 0.5 /\ isAI l = false.

(** [l'] is [l] moved toward AI: the same text, at least the confidence,
    and AI if [l] was. *)
Record Refines (l l' : LineAnalysis) : Prop := {
  rf_ok : okLine l;
  rf_ok' : okLine l';
  rf_content : content l' = content l;
  rf_isAI : isAI l = true -> isAI l' = true;
  rf_conf : (confidence l <=? confidence l') = true
}.

Lemma Refines_refl l : okLine l -> Refines l l.
Proof.
  intros Hl. split; auto. unfold okLine in Hl.
  destruct (nonBlankLine l).
  - now apply inRange_refl.
  - destruct Hl as [-> _]. reflexivity.
Qed.

Lemma Refines_trans l1 l2 l3 : Refines l1 l2 -> Refines l2 l3 -> Refines l1 l3.
Proof.
  intros [H1 H2 Hc12 Ha12 Hl12] [_ H3 Hc23 Ha23 Hl23].
  split; auto; [congruence|].
  unfold okLine, nonBlankLine in *. rewrite Hc23, Hc12 in H3. rewrite Hc12 in H2.
  destruct (nonBlank (content l1)).
  - apply (inRange_trans (confidence l1) (confidence l2) (confidence l3)); assumption.
  - destruct H1 as [-> _]. destruct H3 as [-> _]. reflexivity.
Qed.

Lemma Refines_raise l t why :
  nonBlankLine l = true -> okLine l -> inRange t ->
  Refines l {| content := content l; isAI := true;
               confidence := Math_max (confidence l) t;
               reasons := reasons l ++ [why] |}.
Proof.
  intros Hnb Hl Ht. unfold okLine in *. rewrite Hnb in Hl.
  destruct (raise_inRange (confidence l) t Hl Ht) as [Hr Hle].
  split; auto; unfold okLine, nonBlankLine in *; simpl; now rewrite Hnb.
Qed.

Lemma Refines_bump l :
  nonBlankLine l = true -> okLine l ->
  Refines l {| content := content l; isAI := isAI l;
               confidence := Math_min (confidence l + 0.1) 0.95;
               reasons := reasons l |}.
Proof.
  intros Hnb Hl. unfold okLine in *. rewrite Hnb in Hl.
  destruct (bump_inRange (confidence l) Hl) as [Hr Hle].
  split; auto; unfold okLine, nonBlankLine in *; simpl; now rewrite Hnb.
Qed.

Lemma okLine_AI_nonBlank l : okLine l -> isAI l = true -> nonBlankLine l = true.
Proof.
  unfold okLine. destruct (nonBlankLine l); [reflexivity|].
  intros [_ ->]. discriminate.
Qed.

Lemma adjust_Refines structureScore l : okLine l -> Refines l (adjust structureScore l).
Proof.
  intros Hl. unfold adjust. destruct (gt structureScore 0.5); [|now apply Refines_refl].
  destruct (isAI l) eqn:Hai; [|now apply Refines_refl].
  rewrite <- Hai at 1. apply Refines_bump; auto. now apply okLine_AI_nonBlank.
Qed.

(** ** Arrays *)

Lemma Refines_all_refl la : Forall okLine la -> Forall2 Refines la la.
Proof. induction 1; constructor; auto using Refines_refl. Qed.

Lemma Refines_all_trans la1 la2 la3 :
  Forall2 Refines la1 la2 -> Forall2 Refines la2 la3 -> Forall2 Refines la1 la3.
Proof.
  intros H. revert la3. induction H as [|x y l k Hxy _ IH]; intros la3 H23.
  - inversion H23. constructor.
  - inversion H23 as [|? z ? k' Hyz Hk]; subst. constructor; eauto using Refines_trans.
Qed.

Lemma Refines_all_ok la la' : Forall2 Refines la la' -> Forall okLine la'.
Proof. induction 1 as [|x y l k [_ Hy _ _ _] _ IH]; constructor; auto. Qed.

Lemma Refines_update la i l l' :
  Forall okLine la -> la !! i = Some l -> Refines l l' ->
  Forall2 Refines la (<[i := l']> la).
Proof.
  intros Hok Hl Hr.
  rewrite <- (list_insert_id la i l Hl) at 1.
  apply Forall2_insert; [now apply Refines_all_refl|exact Hr].
Qed.

Lemma sandwichStep_Refines la i :
  Forall okLine la -> Forall2 Refines la (sandwichStep la i).
Proof.
  intros Hok. unfold sandwichStep.
  destruct (la !! i) as [cur|] eqn:Hcur; [|now apply Refines_all_refl].
  destruct (la !! (i - 1)%nat) as [prev|]; [|now apply Refines_all_refl].
  destruct (la !! (i + 1)%nat) as [next|]; [|now apply Refines_all_refl].
  fold (nonBlankLine cur).
  destruct (nonBlankLine cur) eqn:Hnb; cbn [negb]; [|now apply Refines_all_refl].
  destruct (negb (isAI cur) && isAI prev && isAI next); [|now apply Refines_all_refl].
  destruct (isCreativeHumanCode (content cur)); cbn [negb]; [now apply Refines_all_refl|].
  eapply Refines_update; eauto.
  apply Refines_raise; auto using inRange_08.
  eapply Forall_lookup_1; eauto.
Qed.

Lemma fold_Refines (step : list LineAnalysis -> nat -> list LineAnalysis) :
  (forall la i, Forall okLine la -> Forall2 Refines la (step la i)) ->
  forall idx la, Forall okLine la -> Forall2 Refines la (fold_left step idx la).
Proof.
  intros Hstep. induction idx as [|i idx IH]; intros la Hok; simpl.
  - now apply Refines_all_refl.
  - eapply Refines_all_trans; [apply Hstep; exact Hok|].
    apply IH. eapply Refines_all_ok. apply Hstep. exact Hok.
Qed.

Lemma sandwichPass_Refines la :
  Forall okLine la -> Forall2 Refines la (sandwichPass la).
Proof. apply fold_Refines. apply sandwichStep_Refines. Qed.

Lemma runStep_Refines la count i :
  Forall okLine la -> Forall2 Refines la (fst (runStep (la, count) i)).
Proof.
  intros Hok. unfold runStep.
  destruct (la !! i) as [line|] eqn:Hline; [|now apply Refines_all_refl].
  assert (Hl : okLine line) by (eapply Forall_lookup_1; eauto).
  fold (nonBlankLine line).
  destruct (nonBlankLine line) eqn:Hnb; cbn [negb fst]; [|now apply Refines_all_refl].
  destruct (isAI line) eqn:Hai.
  - destruct (3 <=? S count)%nat; cbn [fst]; [|now apply Refines_all_refl].
    eapply Refines_update; eauto. unfold boost. now apply Refines_bump.
  - cbn [fst]. destruct ((2 <=? count)%nat && _); [|now apply Refines_all_refl].
    destruct (aiContinues la i); [|now apply Refines_all_refl].
    eapply Refines_update; eauto. apply Refines_raise; auto using inRange_075.
Qed.

Lemma runFold_Refines idx : forall la count,
  Forall okLine la -> Forall2 Refines la (fst (fold_left runStep idx (la, count))).
Proof.
  induction idx as [|i idx IH]; intros la count Hok; cbn [fold_left fst].
  - now apply Refines_all_refl.
  - pose proof (runStep_Refines la count i Hok) as Hs.
    destruct (runStep (la, count) i) as [la' count']. simpl in Hs.
    eapply Refines_all_trans; [exact Hs|]. apply IH. eapply Refines_all_ok; eauto.
Qed.

(** The refiner moves every verdict toward AI. *)
Lemma applyContextualAnalysis_Refines la :
  Forall okLine la -> Forall2 Refines la (applyContextualAnalysis la).
Proof.
  intros Hok. unfold applyContextualAnalysis, runPass.
  eapply Refines_all_trans; [now apply sandwichPass_Refines|].
  apply runFold_Refines. eapply Refines_all_ok. now apply sandwichPass_Refines.
Qed.

End RefinerFacts.

(* ===================================================================== *)
(** * The per-line loop *)
(* ===================================================================== *)

(** The verdicts of [analyzeLine] for the lines from number [i + 1] on, in
    order, before any adjustment: what the loop of [analyzeCode] pushes,
    less the structure bias. *)
Fixpoint classifyLines (g : Globals) (language : jsstring) (i : nat)
    (lines : list jsstring) : Globals * Completion (list LineAnalysis) :=
  match lines with
  | [] => (g, Normal [])
  | line :: lines' =>
      match analyzeLine g line (i + 1) language with
      | (g', Normal analysis) =>
          match classifyLines g' language (S i) lines' with
          | (g'', Normal rest) => (g'', Normal (analysis :: rest))
          | (g'', Throw e) => (g'', Throw e)
          end
      | (g', Throw e) => (g', Throw e)
      end
  end.

Section LoopFacts.

Lemma analyzeLines_classify structureScore language lines : forall g i acc,
  analyzeLines g structureScore language i lines acc
  = match classifyLines g language i lines with
    | (g', Normal raw) => (g', Normal (acc ++ map (adjust structureScore) raw))
    | (g', Throw e) => (g', Throw e)
    end.
Proof.
  induction lines as [|line lines IH]; intros g i acc; simpl.
  - now rewrite app_nil_r.
  - destruct (analyzeLine g line (i + 1) language) as [g' [analysis|e]]; [|reflexivity].
    rewrite IH. destruct (classifyLines g' language (S i) lines) as [g'' [rest|e]];
      [|reflexivity].
    simpl. now rewrite <- app_assoc.
Qed.

Lemma analyzeLine_okLine g line n language g' la :
  ModuleState g -> analyzeLine g line n language = (g', Normal la) -> okLine la.
Proof.
  intros Hg H. pose proof (analyzeLine_content _ _ _ _ _ _ H) as Hc.
  unfold okLine, nonBlankLine. rewrite Hc.
  destruct (nonBlank line) eqn:Hnb.
  - destruct (analyzeLine_nonBlank _ _ _ _ _ _ Hnb H) as (sc & Hsc & ->).
    apply verdict_confidence. eapply scoreLine_okScores; eauto.
  - rewrite analyzeLine_blank in H by exact Hnb. injection H as _ <-. auto.
Qed.

Lemma classifyLines_ok language lines : forall g i g' raw,
  ModuleState g -> classifyLines g language i lines = (g', Normal raw) ->
  Forall okLine raw.
Proof.
  induction lines as [|line lines IH]; intros g i g' raw Hg; simpl.
  - intros [= _ <-]. constructor.
  - pose proof (analyzeLine_ModuleState g line (i + 1) language Hg) as Hg1.
    destruct (analyzeLine g line (i + 1) language) as [g1 [analysis|e]] eqn:Ha;
      [|discriminate].
    destruct (classifyLines g1 language (S i) lines) as [g2 [rest|e]] eqn:Hr;
      [|discriminate].
    intros [= _ <-]. constructor.
    + exact (analyzeLine_okLine g line (i + 1) language g1 analysis Hg Ha).
    + exact (IH g1 (S i) g2 rest Hg1 Hr).
Qed.

Lemma classifyLines_content language lines : forall g i g' raw,
  classifyLines g language i lines = (g', Normal raw) -> map content raw = lines.
Proof.
  induction lines as [|line lines IH]; intros g i g' raw; simpl.
  - now intros [= _ <-].
  - destruct (analyzeLine g line (i + 1) language) as [g1 [analysis|e]] eqn:Ha;
      [|discriminate].
    destruct (classifyLines g1 language (S i) lines) as [g2 [rest|e]] eqn:Hr;
      [|discriminate].
    intros [= _ <-]. simpl. f_equal.
    + exact (analyzeLine_content g line (i + 1) language g1 analysis Ha).
    + exact (IH g1 (S i) g2 rest Hr).
Qed.

(** [analyzeCode] in terms of its stages. *)
Lemma analyzeCode_stages g code language g' r :
  analyzeCode g code language = (g', Normal r) ->
  exists raw,
    classifyLines g language 0 (split_newline code) = (g', Normal raw)
    /\ r = summarize (applyContextualAnalysis
                        (map (adjust (analyzeCodeStructure code)) raw)).
Proof.
  unfold analyzeCode. rewrite analyzeLines_classify.
  destruct (classifyLines g language 0 (split_newline code)) as [g1 [raw|e]];
    [|discriminate].
  intros [= <- <-]. eauto.
Qed.

Lemma adjust_all_Refines structureScore raw :
  Forall okLine raw -> Forall2 Refines raw (map (adjust structureScore) raw).
Proof. induction 1; constructor; auto using adjust_Refines. Qed.

(** From the verdicts of [analyzeLine] to the final ones. *)
Lemma analyzeCode_Refines g code language g' r :
  ModuleState g -> analyzeCode g code language = (g', Normal r) ->
  exists raw,
    classifyLines g language 0 (split_newline code) = (g', Normal raw)
    /\ map content raw = split_newline code
    /\ Forall2 Refines raw (lineAnalysis r).
Proof.
  intros Hg H. destruct (analyzeCode_stages _ _ _ _ _ H) as (raw & Hraw & ->).
  exists raw. split; [exact Hraw|]. split; [eapply classifyLines_content; eauto|].
  simpl. pose proof (classifyLines_ok _ _ _ _ _ _ Hg Hraw) as Hok.
  eapply Refines_all_trans; [apply adjust_all_Refines; exact Hok|].
  apply applyContextualAnalysis_Refines. eapply Refines_all_ok.
  apply adjust_all_Refines. exact Hok.
Qed.

End LoopFacts.

(* ===================================================================== *)
(** * Texts are kept *)
(* ===================================================================== *)

Section ContentFacts.

Lemma content_update la i l l' :
  la !! i = Some l -> content l' = content l ->
  map content (<[i := l']> la) = map content la.
Proof.
  intros Hl Hc. change (map content) with (fmap (M := list) content).
  rewrite list_fmap_insert, Hc. apply list_insert_id.
  now rewrite list_lookup_fmap, Hl.
Qed.

Lemma sandwichStep_content la i : map content (sandwichStep la i) = map content la.
Proof.
  unfold sandwichStep.
  destruct (la !! i) as [cur|] eqn:Hcur; [|reflexivity].
  destruct (la !! (i - 1)); [|reflexivity]. destruct (la !! (i + 1)); [|reflexivity].
  destruct (negb _); [reflexivity|]. destruct (_ && _); [|reflexivity].
  destruct (negb _); [|reflexivity]. now apply (content_update la i cur).
Qed.

Lemma runStep_content st i : map content (fst (runStep st i)) = map content (fst st).
Proof.
  destruct st as [la count]. unfold runStep. cbn [fst].
  destruct (la !! i) as [line|] eqn:Hline; [|reflexivity].
  destruct (negb _); [reflexivity|]. destruct (isAI line).
  - destruct (3 <=? S count); [|reflexivity]. now apply (content_update la i line).
  - cbn [fst]. destruct (_ && _); [|reflexivity].
    destruct (aiContinues la i); [|reflexivity]. now apply (content_update la i line).
Qed.

Lemma applyContextualAnalysis_content la :
  map content (applyContextualAnalysis la) = map content la.
Proof.
  unfold applyContextualAnalysis, runPass, sandwichPass.
  assert (HA : forall idx la0, map content (fold_left sandwichStep idx la0) = map content la0).
  { induction idx as [|i idx IH]; intros la0; simpl; [reflexivity|].
    now rewrite IH, sandwichStep_content. }
  assert (HB : forall idx st, map content (fst (fold_left runStep idx st)) = map content (fst st)).
  { induction idx as [|i idx IH]; intros st; cbn [fold_left]; [reflexivity|].
    now rewrite IH, runStep_content. }
  rewrite HB. cbn [fst]. apply HA.
Qed.

Lemma adjust_content structureScore l : content (adjust structureScore l) = content l.
Proof. unfold adjust. destruct (gt _ _); [|reflexivity]. now destruct (isAI l). Qed.

(** The final verdicts carry the lines of the input, in order. *)
Lemma analyzeCode_content g code language g' r :
  analyzeCode g code language = (g', Normal r) ->
  map content (lineAnalysis r) = split_newline code.
Proof.
  intros H. destruct (analyzeCode_stages _ _ _ _ _ H) as (raw & Hraw & ->).
  simpl. rewrite applyContextualAnalysis_content, map_map.
  rewrite (map_ext _ content (adjust_content _)).
  eapply classifyLines_content; eauto.
Qed.

Lemma analyzeCode_aiBlocks g code language g' r :
  analyzeCode g code language = (g', Normal r) ->
  aiBlocks r = detectAIBlocks (lineAnalysis r).
Proof.
  intros H. destruct (analyzeCode_stages _ _ _ _ _ H) as (raw & Hraw & ->). reflexivity.
Qed.

End ContentFacts.

(* ===================================================================== *)
(** * Blocks *)
(* ===================================================================== *)

Section BlockProperties.

Lemma filter_one {A} (P : A -> bool) xs : forall i a,
  xs !! i = Some a -> P a = true -> 1 <= length (List.filter P xs).
Proof.
  induction xs as [|x xs IH]; intros i a Hi Ha; [discriminate|].
  destruct i as [|i]; simpl in *.
  - injection Hi as ->. rewrite Ha. simpl. lia.
  - specialize (IH i a Hi Ha). destruct (P x); simpl; lia.
Qed.

Lemma filter_two {A} (P : A -> bool) xs : forall i j a b,
  i < j -> xs !! i = Some a -> xs !! j = Some b -> P a = true -> P b = true ->
  2 <= length (List.filter P xs).
Proof.
  induction xs as [|x xs IH]; intros i j a b Hij Hi Hj Ha Hb; [discriminate|].
  destruct j as [|j]; [lia|]. destruct i as [|i]; simpl in *.
  - injection Hi as ->. rewrite Ha. simpl.
    pose proof (filter_one P xs j b Hj Hb). lia.
  - specialize (IH i j a b ltac:(lia) Hi Hj Ha Hb). destruct (P x); simpl; lia.
Qed.

Lemma GoodBlock_members la b :
  GoodBlock la b ->
  2 <= length (members la b)
  /\ Forall (fun l => isAI l = blockIsAI la b) (members la b).
Proof.
  intros [[Hr (l1 & Hl1 & Hn1 & _) (l2 & Hl2 & Hn2) Hu] Hlt].
  set (s := AIBlock.startLine b) in *. set (e := AIBlock.endLine b) in *.
  unfold members. fold s e. split.
  - apply (filter_two nonBlankLine _ 0 (e - s) l1 l2); auto; try lia.
    + rewrite lookup_take_lt by lia. rewrite lookup_drop. now rewrite Nat.add_0_r.
    + rewrite lookup_take_lt by lia. rewrite lookup_drop.
      now replace (s - 1 + (e - s)) with (e - 1) by lia.
  - apply Forall_forall. intros l Hin.
    apply list_elem_of_In, filter_In in Hin as [Hin Hnb].
    apply list_elem_of_In, list_elem_of_lookup in Hin as [k Hk].
    apply lookup_take_Some in Hk as [Hk Hlt']. rewrite lookup_drop in Hk.
    apply (Hu (s - 1 + k)); auto. lia.
Qed.

(** C3, as the code has it: every emitted block spans at least 2
    non-blank lines, all of the block's classification; two consecutive
    emitted blocks differ in classification or have, between them, a
    non-blank line of the other classification (a run too short to be
    emitted). *)
Theorem detectAIBlocks_invariant (la : list LineAnalysis) :
  Forall (fun b => 2 <= length (members la b)
                   /\ Forall (fun l => isAI l = blockIsAI la b) (members la b))
         (detectAIBlocks la)
  /\ (forall k, match detectAIBlocks la !! k, detectAIBlocks la !! (S k) with
                | Some b, Some b' =>
                    blockIsAI la b <> blockIsAI la b'
                    \/ exists j l, AIBlock.endLine b <= j /\ j + 1 < AIBlock.startLine b'
                                   /\ la !! j = Some l /\ nonBlankLine l = true
                                   /\ isAI l <> blockIsAI la b
                | _, _ => True
                end).
Proof.
  destruct (detectAIBlocks_chain la) as [Hgood Hcons]. split.
  - apply Forall_forall. intros b Hb. apply GoodBlock_members, Hgood, Hb.
  - intros k.
    destruct (detectAIBlocks la !! k) as [b|] eqn:Hk; [|exact I].
    destruct (detectAIBlocks la !! S k) as [b'|] eqn:Hk'; [|exact I].
    destruct (Hcons k b b' Hk Hk') as [Hlt (j & l & H1 & H2 & H3 & H4 & H5)].
    assert (Hb' : GoodBlock la b') by (apply Hgood; eapply list_elem_of_lookup_2; eauto).
    destruct Hb' as [[_ _ _ Hu] _].
    destruct (decide (AIBlock.startLine b' - 1 <= j)) as [Hin|Hout].
    + left. rewrite <- (Hu j l); auto; lia.
    + right. exists j, l. repeat split; auto; lia.
Qed.

(** The claim C3 as it is worded: every block has two non-blank member
    lines and no two adjacent emitted blocks share a classification. *)
Definition AdjacentBlocksDiffer (la : list LineAnalysis) : Prop :=
  Forall (fun b => 2 <= length (members la b)) (detectAIBlocks la)
  /\ forall k b b', detectAIBlocks la !! k = Some b ->
                    detectAIBlocks la !! (S k) = Some b' ->
                    blockIsAI la b <> blockIsAI la b'.

(** C3 fails as worded: in [notedCode] the TODO note between two pairs of
    AI lines is a run of one line, which is dropped, and the two AI blocks
    around it are emitted next to each other. *)
Lemma adjacent_blocks_same_class :
  exists g' r b1 b2,
    analyzeCode initial notedCode (js "text") = (g', Normal r)
    /\ classes r = [true; true; false; true; true]
    /\ aiBlocks r = detectAIBlocks (lineAnalysis r)
    /\ aiBlocks r = [b1; b2]
    /\ (AIBlock.startLine b1, AIBlock.endLine b1) = (1, 2)
    /\ (AIBlock.startLine b2, AIBlock.endLine b2) = (4, 5)
    /\ blockIsAI (lineAnalysis r) b1 = true
    /\ blockIsAI (lineAnalysis r) b2 = true
    /\ AIBlock.confidenceLevel b1 = StronglyAI
    /\ AIBlock.confidenceLevel b2 = StronglyAI
    /\ ~ AdjacentBlocksDiffer (lineAnalysis r).
Proof.
  do 4 eexists.
  split; [vm_compute; reflexivity|].
  split; [vm_compute; reflexivity|].
  split; [vm_compute; reflexivity|].
  split; [vm_compute; reflexivity|].
  split; [vm_compute; reflexivity|].
  split; [vm_compute; reflexivity|].
  split; [vm_compute; reflexivity|].
  split; [vm_compute; reflexivity|].
  split; [vm_compute; reflexivity|].
  split; [vm_compute; reflexivity|].
  intros [_ Hdiff].
  refine (Hdiff 0 _ _ _ _ _); vm_compute; reflexivity.
Qed.

(** C10: the blocks of a result lie within the lines of the input, begin
    and end on non-blank lines, and each begins after the one before it has
    ended. *)
Theorem aiBlocks_ordered g code language g' r :
  analyzeCode g code language = (g', Normal r) ->
  Forall (fun b =>
            1 <= AIBlock.startLine b <= AIBlock.endLine b
            /\ AIBlock.endLine b <= length (split_newline code)
            /\ (exists line, split_newline code !! (AIBlock.startLine b - 1) = Some line
                             /\ nonBlank line = true)
            /\ (exists line, split_newline code !! (AIBlock.endLine b - 1) = Some line
                             /\ nonBlank line = true))
         (aiBlocks r)
  /\ (forall k b b', aiBlocks r !! k = Some b -> aiBlocks r !! (S k) = Some b' ->
                     AIBlock.endLine b < AIBlock.startLine b').
Proof.
  intros H. rewrite (analyzeCode_aiBlocks _ _ _ _ _ H).
  pose proof (analyzeCode_content _ _ _ _ _ H) as Hc.
  destruct (detectAIBlocks_chain (lineAnalysis r)) as [Hgood Hcons]. split.
  - apply Forall_forall. intros b Hb. apply Hgood in Hb.
    destruct Hb as [[Hr (l1 & Hl1 & Hn1 & _) (l2 & Hl2 & Hn2) _] _].
    rewrite <- Hc, length_map. split; [lia|]. split; [lia|].
    change (map content) with (fmap (M := list) content).
    split; [exists (content l1)|exists (content l2)];
      rewrite list_lookup_fmap; (split; [|assumption]).
    + now rewrite Hl1.
    + now rewrite Hl2.
  - intros k b b' Hk Hk'. now destruct (Hcons k b b' Hk Hk').
Qed.

Lemma aiBlocks_ordered_example :
  exists g' r,
    analyzeCode initial notedCode (js "text") = (g', Normal r)
    /\ Forall (fun b =>
            1 <= AIBlock.startLine b <= AIBlock.endLine b
            /\ AIBlock.endLine b <= length (split_newline notedCode)
            /\ (exists line, split_newline notedCode !! (AIBlock.startLine b - 1) = Some line
                             /\ nonBlank line = true)
            /\ (exists line, split_newline notedCode !! (AIBlock.endLine b - 1) = Some line
                             /\ nonBlank line = true))
         (aiBlocks r)
    /\ (forall k b b', aiBlocks r !! k = Some b -> aiBlocks r !! (S k) = Some b' ->
                       AIBlock.endLine b < AIBlock.startLine b').
Proof.
  do 2 eexists. split; [vm_compute; reflexivity|].
  eapply (aiBlocks_ordered initial notedCode (js "text")). vm_compute; reflexivity.
Defined.

End BlockProperties.

(* ===================================================================== *)
(** * Calls and the module state *)
(* ===================================================================== *)

Section CallProperties.

Lemma ModuleState_initial : ModuleState initial.
Proof. vm_compute. reflexivity. Qed.

(** C1: the engine is not a function of its two arguments alone.  The
    rule patterns carry the [g] flag and are tested with [test], which
    leaves the end of a match in [lastIndex]; a second call on the same
    code and label starts its searches there.  The one-line program [nums]
    under the label [python] is AI when the module is first used and HUMAN
    when analysed again. *)
Theorem analyzeCode_second_call_differs :
  exists g1 r1 g2 r2,
    analyzeCode initial (js "nums") (js "python") = (g1, Normal r1)
    /\ analyzeCode g1 (js "nums") (js "python") = (g2, Normal r2)
    /\ classes r1 = [true] /\ classes r2 = [false]
    /\ map confidence (lineAnalysis r1) = [0.875%float]
    /\ map confidence (lineAnalysis r2) = [0.95%float]
    /\ aiLines r1 = 1 /\ aiLines r2 = 0
    /\ r1 <> r2.
Proof.
  do 4 eexists.
  split; [vm_compute; reflexivity|].
  split; [vm_compute; reflexivity|].
  split; [vm_compute; reflexivity|].
  split; [vm_compute; reflexivity|].
  split; [vm_compute; reflexivity|].
  split; [vm_compute; reflexivity|].
  split; [vm_compute; reflexivity|].
  split; [vm_compute; reflexivity|].
  intros H. apply (f_equal aiLines) in H. vm_compute in H. discriminate.
Qed.

(** ** Labels *)

Definition inherited (language : jsstring) : bool :=
  existsb (JSString.eqb language) ObjectPrototype_names.

Lemma scoreLine_returns g content language :
  inherited language = false ->
  exists g' sc, scoreLine g content language = (g', Normal sc).
Proof.
  intros Hl. unfold scoreLine.
  destruct (applyPatterns (AI_PATTERNS g) content _) as [general sc].
  unfold getProperty. fold (inherited language). rewrite Hl.
  destruct (ownProperty (LANGUAGE_PATTERNS g) language) as [ps|]; [|eauto].
  destruct (applyPatterns ps content sc) as [ps' sc']. eauto.
Qed.

Lemma analyzeLine_returns g line n language :
  inherited language = false ->
  exists g' la, analyzeLine g line n language = (g', Normal la).
Proof.
  intros Hl. unfold analyzeLine. destruct (negb _); [eauto|].
  destruct (scoreLine_returns g (trim line) language Hl) as (g' & sc & ->). eauto.
Qed.

Lemma analyzeLines_returns structureScore language lines : forall g i acc,
  inherited language = false ->
  exists g' la, analyzeLines g structureScore language i lines acc = (g', Normal la).
Proof.
  induction lines as [|line lines IH]; intros g i acc Hl; simpl; [eauto|].
  destruct (analyzeLine_returns g line (i + 1) language Hl) as (g1 & la1 & ->).
  now apply IH.
Qed.

(** A label that names no member of [Object.prototype] never makes the
    engine throw. *)
Lemma analyzeCode_returns g code language :
  inherited language = false ->
  exists g' r, analyzeCode g code language = (g', Normal r).
Proof.
  intros Hl. unfold analyzeCode.
  destruct (analyzeLines_returns (analyzeCodeStructure code) language
              (split_newline code) g 0 [] Hl) as (g' & la & ->).
  eauto.
Qed.

Lemma eqb_eq a : forall b, JSString.eqb a b = true <-> a = b.
Proof.
  induction a as [|x a IH]; intros [|y b]; simpl; split; try discriminate; auto.
  - intros H. apply andb_prop in H as [H1 H2]. apply N.eqb_eq in H1. apply IH in H2.
    congruence.
  - intros [= -> ->]. rewrite N.eqb_refl. now apply IH.
Qed.

Lemma inherited_not_own g language :
  ModuleState g -> inherited language = true ->
  ownProperty (LANGUAGE_PATTERNS g) language = None.
Proof.
  intros Hg Hl.
  destruct (ownProperty (LANGUAGE_PATTERNS g) language) as [ps|] eqn:Hown; [|reflexivity].
  exfalso.
  assert (Hkeys : map fst (LANGUAGE_PATTERNS g) = map fst (LANGUAGE_PATTERNS initial)).
  { rewrite <- Hg. simpl. rewrite map_map. reflexivity. }
  assert (Hin : In language (map fst (LANGUAGE_PATTERNS g))).
  { clear Hkeys. induction (LANGUAGE_PATTERNS g) as [|[k qs] tbl IH]; simpl in *; [discriminate|].
    destruct (JSString.eqb k language) eqn:Hk; [left; now apply eqb_eq|right; auto]. }
  rewrite Hkeys in Hin. simpl in Hin.
  destruct Hin as [<-|[<-|[<-|[]]]]; vm_compute in Hl; discriminate.
Qed.

Lemma scoreLine_throws g content language :
  ModuleState g -> inherited language = true ->
  exists g', scoreLine g content language
             = (g', Throw (TypeError "langPatterns is not iterable")).
Proof.
  intros Hg Hl. unfold scoreLine.
  destruct (applyPatterns (AI_PATTERNS g) content _) as [general sc].
  unfold getProperty. rewrite (inherited_not_own g language Hg Hl).
  fold (inherited language). rewrite Hl. eauto.
Qed.

Lemma analyzeLines_completion structureScore language lines : forall g i acc,
  ModuleState g -> inherited language = true ->
  if existsb nonBlank lines
  then exists g', analyzeLines g structureScore language i lines acc
                  = (g', Throw (TypeError "langPatterns is not iterable"))
  else exists la, analyzeLines g structureScore language i lines acc = (g, Normal la).
Proof.
  induction lines as [|line lines IH]; intros g i acc Hg Hl; simpl; [eauto|].
  destruct (nonBlank line) eqn:Hnb; simpl.
  - unfold analyzeLine. fold (nonBlank line). rewrite Hnb. simpl.
    destruct (scoreLine_throws g (trim line) language Hg Hl) as (g' & ->). eauto.
  - rewrite analyzeLine_blank by exact Hnb. apply IH; auto.
Qed.

(** C2: the engine is not total over the labels.  [LANGUAGE_PATTERNS] is
    an object literal, so a label that names a member of
    [Object.prototype] reads that member, which is truthy and not
    iterable: the first non-blank line throws a [TypeError].  Every other
    input returns a result. *)
Theorem analyzeCode_completion g code language :
  ModuleState g ->
  if inherited language && existsb nonBlank (split_newline code)
  then exists g', analyzeCode g code language
                  = (g', Throw (TypeError "langPatterns is not iterable"))
  else exists g' r, analyzeCode g code language = (g', Normal r).
Proof.
  intros Hg. destruct (inherited language) eqn:Hl; cbn [andb].
  - pose proof (analyzeLines_completion (analyzeCodeStructure code) language
                  (split_newline code) g 0 [] Hg Hl) as Hc.
    unfold analyzeCode.
    destruct (existsb nonBlank (split_newline code)).
    + destruct Hc as (g' & ->). eauto.
    + destruct Hc as (la & ->). eauto.
  - now apply analyzeCode_returns.
Qed.

Lemma analyzeCode_completion_example :
  exists g', analyzeCode initial (js "x") (js "constructor")
             = (g', Throw (TypeError "langPatterns is not iterable")).
Proof.
  exact (analyzeCode_completion initial (js "x") (js "constructor") ModuleState_initial).
Defined.

End CallProperties.

(* ===================================================================== *)
(** * The labelled print *)
(* ===================================================================== *)

Section ExampleProperties.

(** The rule of [AI_PATTERNS] at an index. *)
Definition rule (i : nat) : option DetectionPattern := Tables.AI_PATTERNS !! i.

(** C8: the verdict on the line [print(<dq>Original:<dq>, nums)] under the
    label [python] depends on the calls made before.  In a freshly loaded
    module it fires the educational-variable-names rule (the fifth general
    rule) and the labelled-output rule (the sixth), is classified AI and
    has the confidence 8/9, above 0.5.  This call leaves the [lastIndex] of
    the two rules at 23 and 16, the ends of their matches.  The same call
    made again starts the two searches there: neither rule matches, neither
    reason is given, the line is classified HUMAN and its confidence is
    0.5, not above it. *)
Theorem labelledPrint_second_call :
  exists g1 r1 la1 g2 r2 la2 names labelled names1 labelled1,
    rule 4 = Some names /\ rule 5 = Some labelled
    /\ reason names = "Uses educational variable names typical of AI tutorials"%string
    /\ reason labelled = "Contains labeled output statements typical of AI examples"%string
    /\ analyzeCode initial labelledPrint (js "python") = (g1, Normal r1)
    /\ lineAnalysis r1 = [la1]
    /\ fst (test (pattern names) (trim labelledPrint)) = true
    /\ fst (test (pattern labelled) (trim labelledPrint)) = true
    /\ In (reason names) (reasons la1)
    /\ In (reason labelled) (reasons la1)
    /\ isAI la1 = true
    /\ confidence la1 = 0.88888888888888895%float
    /\ (0.5 <? confidence la1)%float = true
    /\ aiLines r1 = 1
    /\ AI_PATTERNS g1 !! 4 = Some names1 /\ AI_PATTERNS g1 !! 5 = Some labelled1
    /\ lastIndex (pattern names1) = 23 /\ lastIndex (pattern labelled1) = 16
    /\ analyzeCode g1 labelledPrint (js "python") = (g2, Normal r2)
    /\ lineAnalysis r2 = [la2]
    /\ fst (test (pattern names1) (trim labelledPrint)) = false
    /\ fst (test (pattern labelled1) (trim labelledPrint)) = false
    /\ ~ In (reason names) (reasons la2)
    /\ ~ In (reason labelled) (reasons la2)
    /\ reasons la2
       = ["No significant patterns detected - neutral classification"%string]
    /\ isAI la2 = false
    /\ confidence la2 = 0.5%float
    /\ (0.5 <? confidence la2)%float = false
    /\ aiLines r2 = 0 /\ humanLines r2 = 1.
Proof.
  do 10 eexists.
  split; [vm_compute; reflexivity|]. split; [vm_compute; reflexivity|].
  split; [vm_compute; reflexivity|]. split; [vm_compute; reflexivity|].
  split; [vm_compute; reflexivity|]. split; [vm_compute; reflexivity|].
  split; [vm_compute; reflexivity|]. split; [vm_compute; reflexivity|].
  split; [vm_compute; tauto|]. split; [vm_compute; tauto|].
  split; [vm_compute; reflexivity|]. split; [vm_compute; reflexivity|].
  split; [vm_compute; reflexivity|]. split; [vm_compute; reflexivity|].
  split; [vm_compute; reflexivity|]. split; [vm_compute; reflexivity|].
  split; [vm_compute; reflexivity|]. split; [vm_compute; reflexivity|].
  split; [vm_compute; reflexivity|]. split; [vm_compute; reflexivity|].
  split; [vm_compute; reflexivity|]. split; [vm_compute; reflexivity|].
  split; [vm_compute; intros [H|[]]; discriminate|].
  split; [vm_compute; intros [H|[]]; discriminate|].
  split; [vm_compute; reflexivity|]. split; [vm_compute; reflexivity|].
  split; [vm_compute; reflexivity|]. split; [vm_compute; reflexivity|].
  split; vm_compute; reflexivity.
Qed.

End ExampleProperties.

(* ===================================================================== *)
(** * Confidence and classification of a line *)
(* ===================================================================== *)

Section VerdictProperties.
Local Open Scope R_scope.

(** C6: for a non-blank line, [analyzeLine] answers AI exactly when the AI
    score is strictly the greater (equal scores give HUMAN), and its
    confidence is the greater score divided by the sum of the two when that
    sum is positive, 0.5 otherwise, brought into [0.1, 0.95]. *)
Theorem analyzeLine_verdict g line n language g' la :
  ModuleState g -> nonBlank line = true ->
  analyzeLine g line n language = (g', Normal la) ->
  exists sc,
    scoreLine g (trim line) language = (g', Normal sc)
    /\ (isAI la = true <-> B2R (humanScore sc) < B2R (aiScore sc))
    /\ (B2R (aiScore sc) = B2R (humanScore sc) -> isAI la = false)
    /\ let totalScore := (aiScore sc + humanScore sc)%float in
       let q := if gt totalScore 0
                then (Math_max (aiScore sc) (humanScore sc) / totalScore)%float
                else 0.5%float in
       (gt totalScore 0 = true <-> 0 < B2R (aiScore sc) + B2R (humanScore sc))
       /\ B2R (Math_max (aiScore sc) (humanScore sc))
          = Rmax (B2R (aiScore sc)) (B2R (humanScore sc))
       /\ confidence la = Math_min (Math_max q 0.1) 0.95
       /\ B2R (confidence la) = Rmin (Rmax (B2R q) (B2R 0.1%float)) (B2R 0.95%float).
Proof.
  intros Hg Hnb H.
  destruct (analyzeLine_nonBlank _ _ _ _ _ _ Hnb H) as (sc & Hsc & ->).
  exists sc. split; [exact Hsc|].
  destruct (scoreLine_okScores _ _ _ _ _ Hg Hsc) as [Ha Hh].
  pose proof Ha as (Na & _ & _). pose proof Hh as (Nh & _ & _).
  destruct (quotient_spec 21 _ _ ltac:(lia) Ha Hh) as (Ns & Nq & Hiff).
  cbn [verdict isAI confidence]. unfold gt at 1 2.
  split; [apply ltb_R; assumption|].
  split; [intros Heq; apply ltb_R_false; auto; lra|].
  cbv zeta. split; [exact Hiff|].
  split; [apply (Math_max_R _ _ Na Nh)|].
  split; [reflexivity|].
  now apply clamp_R.
Qed.

Lemma analyzeLine_verdict_example :
  exists g' la,
    analyzeLine initial (js "nums") 1 (js "python") = (g', Normal la)
    /\ exists sc,
        scoreLine initial (trim (js "nums")) (js "python") = (g', Normal sc)
        /\ (isAI la = true <-> B2R (humanScore sc) < B2R (aiScore sc))
        /\ (B2R (aiScore sc) = B2R (humanScore sc) -> isAI la = false)
        /\ let totalScore := (aiScore sc + humanScore sc)%float in
           let q := if gt totalScore 0
                    then (Math_max (aiScore sc) (humanScore sc) / totalScore)%float
                    else 0.5%float in
           (gt totalScore 0 = true <-> 0 < B2R (aiScore sc) + B2R (humanScore sc))
           /\ B2R (Math_max (aiScore sc) (humanScore sc))
              = Rmax (B2R (aiScore sc)) (B2R (humanScore sc))
           /\ confidence la = Math_min (Math_max q 0.1) 0.95
           /\ B2R (confidence la) = Rmin (Rmax (B2R q) (B2R 0.1%float)) (B2R 0.95%float).
Proof.
  do 2 eexists. split; [vm_compute; reflexivity|].
  apply (analyzeLine_verdict initial (js "nums") 1 (js "python"));
    [exact ModuleState_initial | vm_compute; reflexivity | vm_compute; reflexivity].
Defined.

End VerdictProperties.

(* ===================================================================== *)
(** * The final verdicts *)
(* ===================================================================== *)

Section RangeProperties.

(** C5: in a result, the confidence of every non-blank line lies between
    0.1 and 0.95, and every blank line is HUMAN with confidence 0.5. *)
Theorem analyzeCode_confidence_range g code language g' r :
  ModuleState g -> analyzeCode g code language = (g', Normal r) ->
  Forall (fun l =>
            if nonBlank (content l)
            then (0.1 <=? confidence l)%float = true
                 /\ (confidence l <=? 0.95)%float = true
            else confidence l = 0.5%float /\ isAI l = false)
         (lineAnalysis r).
Proof.
  intros Hg H.
  destruct (analyzeCode_Refines _ _ _ _ _ Hg H) as (raw & _ & _ & Href).
  exact (Refines_all_ok _ _ Href).
Qed.

Lemma analyzeCode_confidence_range_example :
  exists g' r,
    analyzeCode initial gappedCode (js "text") = (g', Normal r)
    /\ Forall (fun l =>
                 if nonBlank (content l)
                 then (0.1 <=? confidence l)%float = true
                      /\ (confidence l <=? 0.95)%float = true
                 else confidence l = 0.5%float /\ isAI l = false)
              (lineAnalysis r).
Proof.
  do 2 eexists. split; [vm_compute; reflexivity|].
  eapply (analyzeCode_confidence_range initial gappedCode (js "text"));
    [exact ModuleState_initial | vm_compute; reflexivity].
Defined.

(** [l'] is [l] moved toward AI. *)
Definition TowardAI (l l' : LineAnalysis) : Prop :=
  content l' = content l
  /\ (confidence l <=? confidence l')%float = true
  /\ (isAI l = true -> isAI l' = true).

Lemma Refines_TowardAI la la' : Forall2 Refines la la' -> Forall2 TowardAI la la'.
Proof.
  induction 1 as [|l l' la la' [_ _ Hc Ha Hl] _ IH]; constructor; auto.
  repeat split; auto.
Qed.

(** C9: the structure adjustment and the refiner never lower a confidence
    and never turn an AI line into a HUMAN one.  [raw] are the verdicts of
    [analyzeLine], [adjusted] those after the structure adjustment. *)
Theorem refinement_toward_AI g code language g' r :
  ModuleState g -> analyzeCode g code language = (g', Normal r) ->
  exists raw,
    classifyLines g language 0 (split_newline code) = (g', Normal raw)
    /\ let adjusted := map (adjust (analyzeCodeStructure code)) raw in
       lineAnalysis r = applyContextualAnalysis adjusted
       /\ Forall2 TowardAI raw adjusted
       /\ Forall2 TowardAI adjusted (lineAnalysis r)
       /\ Forall2 TowardAI raw (lineAnalysis r).
Proof.
  intros Hg H. destruct (analyzeCode_stages _ _ _ _ _ H) as (raw & Hraw & ->).
  exists raw. split; [exact Hraw|]. cbv zeta. split; [reflexivity|].
  pose proof (classifyLines_ok _ _ _ _ _ _ Hg Hraw) as Hok.
  pose proof (adjust_all_Refines (analyzeCodeStructure code) raw Hok) as H1.
  pose proof (applyContextualAnalysis_Refines _ (Refines_all_ok _ _ H1)) as H2.
  split; [now apply Refines_TowardAI|]. split; [now apply Refines_TowardAI|].
  apply Refines_TowardAI. eapply Refines_all_trans; eauto.
Qed.

Lemma refinement_toward_AI_example :
  exists g' r,
    analyzeCode initial gappedCode (js "text") = (g', Normal r)
    /\ exists raw,
        classifyLines initial (js "text") 0 (split_newline gappedCode) = (g', Normal raw)
        /\ let adjusted := map (adjust (analyzeCodeStructure gappedCode)) raw in
           lineAnalysis r = applyContextualAnalysis adjusted
           /\ Forall2 TowardAI raw adjusted
           /\ Forall2 TowardAI adjusted (lineAnalysis r)
           /\ Forall2 TowardAI raw (lineAnalysis r).
Proof.
  do 2 eexists. split; [vm_compute; reflexivity|].
  eapply (refinement_toward_AI initial gappedCode (js "text"));
    [exact ModuleState_initial | vm_compute; reflexivity].
Defined.

End RangeProperties.

(* ===================================================================== *)
(** * The look-ahead of the second pass *)
(* ===================================================================== *)

Section LookaheadProperties.

Lemma existsb_seq_lookup {A} (f : A -> bool) (la : list A) : forall n a,
  a + n <= length la ->
  existsb (fun j => match la !! j with Some l => f l | None => false end) (seq a n)
  = existsb f (take n (drop a la)).
Proof.
  induction n as [|n IH]; intros a Ha; [reflexivity|].
  destruct (lookup_lt_is_Some_2 la a ltac:(lia)) as [l Hl].
  rewrite (drop_S la l a Hl). cbn [seq existsb take]. rewrite Hl.
  f_equal. apply IH. lia.
Qed.

(** The look-ahead reads the three lines that follow, blank or not. *)
Lemma aiContinues_window la i :
  aiContinues la i
  = existsb (fun l => nonBlank (content l) && isAI l) (take 3 (drop (S i) la)).
Proof.
  unfold aiContinues. rewrite Nat.add_1_r.
  destruct (le_lt_dec (length la) i) as [Hout|Hin].
  - replace (Nat.min (i + 4) (length la) - S i) with 0 by lia.
    rewrite drop_ge by lia. reflexivity.
  - rewrite (existsb_seq_lookup (fun l => nonBlank (content l) && isAI l)) by lia.
    destruct (le_lt_dec (i + 4) (length la)) as [Hle|Hgt].
    + now replace (Nat.min (i + 4) (length la) - S i) with 3 by lia.
    + rewrite !take_ge; [reflexivity| |]; rewrite length_drop; lia.
Qed.

Lemma runStep_human_resets la count i line :
  la !! i = Some line -> isAI line = false -> snd (runStep (la, count) i) = 0.
Proof.
  intros Hl Ha. unfold runStep. rewrite Hl, Ha. now destruct (negb _).
Qed.

(** C4, as the code has it: at a non-blank HUMAN line that is not creative
    human code, reached with the counter at 2 or more, the line becomes AI
    with confidence [max(confidence, 0.75)] and the extended-block reason
    exactly when one of the three lines that follow it in the array is
    non-blank and AI; the counter is reset either way. *)
Theorem runStep_human_line la count i line :
  la !! i = Some line ->
  nonBlank (content line) = true -> isAI line = false ->
  2 <= count -> isCreativeHumanCode (content line) = false ->
  runStep (la, count) i
  = (if existsb (fun l => nonBlank (content l) && isAI l) (take 3 (drop (S i) la))
     then <[i := {| content := content line; isAI := true;
                    confidence := Math_max (confidence line) 0.75;
                    reasons := reasons line
                               ++ ["Part of extended AI-generated code block"%string] |}]> la
     else la,
     0).
Proof.
  intros Hl Hnb Ha Hc Hcr. unfold runStep. rewrite Hl, Hnb, Ha, Hcr.
  apply Nat.leb_le in Hc. rewrite Hc. cbn [negb andb].
  now rewrite aiContinues_window.
Qed.

(** The array and the counter when the second loop reaches index [i]. *)
Definition secondLoopAt (raw : list LineAnalysis) (i : nat) : list LineAnalysis * nat :=
  fold_left runStep (seq 0 i) (sandwichPass raw, 0).

Lemma runStep_human_line_example :
  exists g' raw line,
    analyzeLines initial (analyzeCodeStructure extendedCode) (js "text") 0
      (split_newline extendedCode) [] = (g', Normal raw)
    /\ snd (secondLoopAt raw 2) = 2
    /\ fst (secondLoopAt raw 2) !! 2 = Some line
    /\ existsb (fun l => nonBlank (content l) && isAI l)
               (take 3 (drop 3 (fst (secondLoopAt raw 2)))) = true
    /\ runStep (fst (secondLoopAt raw 2), 2) 2
       = (if existsb (fun l => nonBlank (content l) && isAI l)
                     (take 3 (drop 3 (fst (secondLoopAt raw 2))))
          then <[2 := {| content := content line; isAI := true;
                         confidence := Math_max (confidence line) 0.75;
                         reasons := reasons line
                                    ++ ["Part of extended AI-generated code block"%string] |}]>
                 (fst (secondLoopAt raw 2))
          else fst (secondLoopAt raw 2),
          0).
Proof.
  do 3 eexists. split; [vm_compute; reflexivity|].
  split; [vm_compute; reflexivity|].
  split; [vm_compute; reflexivity|].
  split; [vm_compute; reflexivity|].
  apply (runStep_human_line _ 2 2);
    [vm_compute; reflexivity | vm_compute; reflexivity | vm_compute; reflexivity
    | lia | vm_compute; reflexivity].
Defined.

(** The look-ahead as C4 words it: the next three non-blank lines. *)
Definition nextNonBlank (la : list LineAnalysis) (i : nat) : list LineAnalysis :=
  take 3 (List.filter nonBlankLine (drop (S i) la)).

Definition aiAmongNextNonBlank (la : list LineAnalysis) (i : nat) : bool :=
  existsb isAI (nextNonBlank la i).

(** C4 fails as worded: in [gappedCode] the HUMAN line [value] is reached
    with the counter at 2 and is not creative human code; the next
    non-blank line is AI, but three blank lines lie in between and fill the
    look-ahead, so the line stays HUMAN. *)
Lemma lookahead_counts_blank_lines :
  exists g' raw line r,
    analyzeLines initial (analyzeCodeStructure gappedCode) (js "text") 0
      (split_newline gappedCode) [] = (g', Normal raw)
    /\ snd (secondLoopAt raw 2) = 2
    /\ fst (secondLoopAt raw 2) !! 2 = Some line
    /\ nonBlank (content line) = true /\ isAI line = false
    /\ isCreativeHumanCode (content line) = false
    /\ aiAmongNextNonBlank (fst (secondLoopAt raw 2)) 2 = true
    /\ aiContinues (fst (secondLoopAt raw 2)) 2 = false
    /\ runStep (secondLoopAt raw 2) 2 = (fst (secondLoopAt raw 2), 0)
    /\ analyzeCode initial gappedCode (js "text") = (g', Normal r)
    /\ classes r = [true; true; false; false; false; false; true].
Proof.
  do 4 eexists.
  split; [vm_compute; reflexivity|]. split; [vm_compute; reflexivity|].
  split; [vm_compute; reflexivity|]. split; [vm_compute; reflexivity|].
  split; [vm_compute; reflexivity|]. split; [vm_compute; reflexivity|].
  split; [vm_compute; reflexivity|]. split; [vm_compute; reflexivity|].
  split; [vm_compute; reflexivity|]. split; vm_compute; reflexivity.
Qed.

End LookaheadProperties.

(* ===================================================================== *)
(** * Statistics *)
(* ===================================================================== *)

Section StatisticsProperties.


Lemma filter_length_le {A} (P : A -> bool) xs : length (List.filter P xs) <= length xs.
Proof. induction xs as [|x xs IH]; simpl; [lia|]. destruct (P x); simpl; lia. Qed.

Lemma filter_length_split {A} (P : A -> bool) xs :
  length (List.filter P xs) + length (List.filter (fun x => negb (P x)) xs) = length xs.
Proof. induction xs as [|x xs IH]; simpl; [lia|]. destruct (P x); simpl; lia. Qed.



(** The tolerance is used: with one AI line out of three the two
    percentages are 33.333333333333329 and 66.666666666666657; their sum is
    99.999999999999986 in binary64, and below 100 in the reals too. *)
Lemma percentages_sum_below_100 :
  exists g' r pa ph,
    analyzeCode initial thirdsCode (js "text") = (g', Normal r)
    /\ totalLines r = 3 /\ aiLines r = 1 /\ humanLines r = 2
    /\ aiPercentage r = pa /\ humanPercentage r = ph
    /\ pa = 33.333333333333329%float
    /\ ph = 66.666666666666657%float
    /\ (pa + ph)%float = 99.999999999999986%float
    /\ (pa + ph =? 100)%float = false
    /\ (pa + ph <? 100)%float = true
    /\ (B2R pa + B2R ph < 100)%R.
Proof.
  do 4 eexists.
  split; [vm_compute; reflexivity|]. split; [vm_compute; reflexivity|].
  split; [vm_compute; reflexivity|]. split; [vm_compute; reflexivity|].
  split; [vm_compute; reflexivity|]. split; [vm_compute; reflexivity|].
  split; [reflexivity|]. split; [reflexivity|].
  split; [vm_compute; reflexivity|]. split; [vm_compute; reflexivity|].
  split; [vm_compute; reflexivity|].
  destruct (B2R_finite 33.333333333333329%float 4691249611844266%positive (-47)%Z eq_refl)
    as [_ ->].
  destruct (B2R_finite 66.666666666666657%float 4691249611844266%positive (-46)%Z eq_refl)
    as [_ ->].
  unfold bpow.
  change (Z.pow_pos 2 47) with 140737488355328%Z.
  change (Z.pow_pos 2 46) with 70368744177664%Z.
  lra.
Qed.

End StatisticsProperties.

(* ===================================================================== *)
(** * Blank text *)
(* ===================================================================== *)

Section TextFacts.

Lemma trimStart_nil s : trimStart s = [] <-> Forall (fun c => isWhiteSpace c = true) s.
Proof.
  induction s as [|c s IH]; simpl; [split; auto|].
  destruct (isWhiteSpace c) eqn:Hc.
  - rewrite IH. split; [intros H; constructor; auto|intros H; now inversion H].
  - split; [discriminate|]. intros H. inversion H. congruence.
Qed.

Lemma trimStart_suffix s : exists pre, s = pre ++ trimStart s
  /\ Forall (fun c => isWhiteSpace c = true) pre.
Proof.
  induction s as [|c s (pre & Hs & Hp)]; simpl; [exists []; auto|].
  destruct (isWhiteSpace c) eqn:Hc.
  - exists (c :: pre). split; [simpl; congruence|constructor; auto].
  - exists []. auto.
Qed.

Lemma trimStart_head s c t : trimStart s = c :: t -> isWhiteSpace c = false.
Proof.
  induction s as [|a s IH]; simpl; [discriminate|].
  destruct (isWhiteSpace a) eqn:Ha; [exact IH|]. intros [= <- _]. exact Ha.
Qed.

(** [trim] gives the empty string exactly for a string of white space. *)
Lemma trim_nil s : trim s = [] <-> Forall (fun c => isWhiteSpace c = true) s.
Proof.
  unfold trim, trimEnd. split.
  - intros H. apply (f_equal (@rev _)) in H. rewrite rev_involutive in H. simpl in H.
    apply trimStart_nil in H.
    destruct (trimStart s) as [|c t] eqn:Ht; [now apply trimStart_nil|].
    apply trimStart_head in Ht.
    apply Forall_forall with (x := c) in H; [congruence|].
    apply list_elem_of_In, in_rev. rewrite rev_involutive. now left.
  - intros H. apply trimStart_nil in H. rewrite H. reflexivity.
Qed.

Lemma nonBlank_false line :
  nonBlank line = false <-> Forall (fun c => isWhiteSpace c = true) line.
Proof.
  unfold nonBlank. rewrite <- trim_nil. destruct (trim line); simpl; split; congruence.
Qed.

Lemma nonBlank_true line :
  nonBlank line = true <-> exists c, In c line /\ isWhiteSpace c = false.
Proof.
  split.
  - intros H. induction line as [|a line IH].
    + discriminate.
    + destruct (isWhiteSpace a) eqn:Ha; [|exists a; split; [now left|exact Ha]].
      destruct (nonBlank line) eqn:Hl.
      * destruct (IH eq_refl) as (c & Hc & Hw). exists c. split; [now right|exact Hw].
      * apply nonBlank_false in Hl.
        assert (Hf : nonBlank (a :: line) = false) by (apply nonBlank_false; constructor; auto).
        congruence.
  - intros (c & Hc & Hw). destruct (nonBlank line) eqn:Hl; [reflexivity|].
    apply nonBlank_false in Hl. apply Forall_forall with (x := c) in Hl;
      [congruence|now apply list_elem_of_In].
Qed.

Lemma split_newline_cons a s :
  split_newline (a :: s)
  = if (a =? 10)%N then [] :: split_newline s
    else match split_newline s with
         | l :: ls => (a :: l) :: ls
         | [] => [[a]]
         end.
Proof. reflexivity. Qed.

Lemma split_newline_nonempty s : split_newline s <> [].
Proof.
  induction s as [|a s IH]; [discriminate|]. rewrite split_newline_cons.
  destruct (a =? 10)%N; [discriminate|]. now destruct (split_newline s).
Qed.

(** The characters of a text are line feeds or characters of its lines. *)
Lemma split_newline_chars s c :
  In c s -> c = 10%N \/ exists line, In line (split_newline s) /\ In c line.
Proof.
  induction s as [|a s IH]; [intros []|]. rewrite split_newline_cons.
  pose proof (split_newline_nonempty s) as Hne.
  intros [<-|Hc].
  - destruct (a =? 10)%N eqn:Ha; [left; now apply N.eqb_eq in Ha|]. right.
    destruct (split_newline s) as [|l ls]; [congruence|].
    exists (a :: l). split; now left.
  - destruct (IH Hc) as [->|(line & Hl & Hin)]; [now left|]. right.
    destruct (a =? 10)%N; [exists line; split; [now right|exact Hin]|].
    destruct (split_newline s) as [|l ls]; [destruct Hl|].
    destruct Hl as [<-|Hl].
    + exists (a :: l). split; [now left|now right].
    + exists line. split; [now right|exact Hin].
Qed.

Lemma split_newline_line s line c :
  In line (split_newline s) -> In c line -> In c s.
Proof.
  revert line. induction s as [|a s IH]; intros line.
  - intros [<-|[]] [].
  - rewrite split_newline_cons. destruct (a =? 10)%N.
    + intros [<-|Hl] Hc; [destruct Hc|]. right. eapply IH; eauto.
    + destruct (split_newline s) as [|l ls].
      * intros [<-|[]] [<-|[]]. now left.
      * intros [<-|Hl] Hc.
        -- destruct Hc as [<-|Hc]; [now left|]. right. apply (IH l); [now left|exact Hc].
        -- right. apply (IH line); [now right|exact Hc].
Qed.

(** No line of a text holds a line feed. *)
Lemma split_newline_no_lf s line :
  In line (split_newline s) -> ~ In 10%N line.
Proof.
  revert line. induction s as [|a s IH]; intros line.
  - intros [<-|[]] [].
  - rewrite split_newline_cons. destruct (a =? 10)%N eqn:Ha.
    + intros [<-|Hl]; [intros []|now apply IH].
    + apply N.eqb_neq in Ha. destruct (split_newline s) as [|l ls].
      * intros [<-|[]] [Hc|[]]. congruence.
      * intros [<-|Hl].
        -- intros [Hc|Hc]; [congruence|]. apply (IH l); [now left|exact Hc].
        -- apply IH. now right.
Qed.

(** A text is blank as a whole exactly when each of its lines is. *)
Lemma trim_lines code :
  truthy (trim code) = existsb nonBlank (split_newline code).
Proof.
  change (truthy (trim code)) with (nonBlank code).
  destruct (existsb nonBlank (split_newline code)) eqn:He.
  - apply existsb_exists in He as (line & Hl & Hnb).
    apply nonBlank_true in Hnb as (c & Hc & Hw). apply nonBlank_true.
    exists c. split; [|exact Hw]. eapply split_newline_line; eauto.
  - apply nonBlank_false. apply Forall_forall. intros c Hc.
    apply list_elem_of_In, split_newline_chars in Hc as [->|(line & Hl & Hc)];
      [reflexivity|].
    assert (Hnb : nonBlank line = false).
    { destruct (nonBlank line) eqn:Hnb; [|reflexivity].
      rewrite <- He. symmetry. apply existsb_exists. eauto. }
    apply nonBlank_false in Hnb. apply Forall_forall with (x := c) in Hnb;
      [exact Hnb|now apply list_elem_of_In].
Qed.

End TextFacts.

(* ===================================================================== *)
(** * What a match consumes *)
(* ===================================================================== *)

Section ConsumeFacts.

(** Every match of the pattern consumes a character that satisfies [P]
    (a sufficient syntactic test, for patterns without the [i] flag). *)
Fixpoint consumes (P : char -> bool) (r : regex) : bool :=
  match r with
  | Char a => P a
  | Seq r1 r2 => consumes P r1 || consumes P r2
  | Alt r1 r2 => consumes P r1 && consumes P r2
  | Repeat _ min r1 => negb (min =? 0) && consumes P r1
  | _ => false
  end.

Lemma consumes_sound fl (s : jsstring) P r :
  ignoreCase fl = false -> consumes P r = true ->
  forall x c z, x <= length s -> compile fl s r x c = Some z ->
  exists ch, In ch s /\ P ch = true.
Proof.
  intros Hi. induction r as [|a|invert items| |r1 IH1 r2 IH2|r1 IH1 r2 IH2|greedy min r1 IH1
                            | | | |r1 IH1]; cbn [consumes]; intros Hp x c z Hx Hz;
    try discriminate.
  - cbn [compile] in Hz. destruct (s !! x) as [ch|] eqn:Hch; [|discriminate].
    unfold Canonicalize in Hz. rewrite Hi in Hz. cbn [andb] in Hz.
    destruct (ch =? a)%N eqn:Heq; [|discriminate]. apply N.eqb_eq in Heq. subst a.
    exists ch. split; [|exact Hp].
    apply list_elem_of_In. eapply list_elem_of_lookup_2; eauto.
  - cbn [compile] in Hz. apply orb_prop in Hp as [Hp|Hp].
    + eapply IH1; eauto.
    + destruct (proj1 (compile_Forward fl s r1 x Hx) (fun y => compile fl s r2 y c))
        as [Hn|(y & Hy & Heq)]; [congruence|].
      rewrite Heq in Hz. eapply (IH2 Hp y); eauto. lia.
  - cbn [compile] in Hz. apply andb_prop in Hp as [Hp1 Hp2].
    destruct (compile fl s r1 x c) as [z'|] eqn:H1.
    + eapply (IH1 Hp1 x); eauto.
    + eapply (IH2 Hp2 x); eauto.
  - cbn [compile] in Hz. apply andb_prop in Hp as [Hm Hp].
    cbn [RepeatMatcher] in Hz. rewrite Hm in Hz.
    eapply (IH1 Hp x); eauto.
Qed.

(** A pattern that consumes a [P] character finds nothing in a string
    without one. *)
Lemma exec_consumes fl r (s : jsstring) P from :
  ignoreCase fl = false -> consumes P r = true ->
  Forall (fun ch => P ch = false) s ->
  exec fl r s from = None.
Proof.
  intros Hi Hp Hs. destruct (exec fl r s from) as [[b e]|] eqn:He; [|reflexivity].
  exfalso. unfold exec in He. destruct (length s <? from) eqn:Hlt; [discriminate|].
  apply Nat.ltb_ge in Hlt.
  assert (Hsearch : forall n x, x + n <= length s -> searchFrom fl s r n x = Some (b, e) -> False).
  { induction n as [|n IH]; intros x Hx; cbn [searchFrom];
      destruct (matchAt fl s r x) as [e'|] eqn:Hm; try discriminate.
    - intros _. destruct (consumes_sound fl s P r Hi Hp x _ e' ltac:(lia) Hm) as (ch & Hin & Hch).
      apply Forall_forall with (x := ch) in Hs; [congruence|now apply list_elem_of_In].
    - intros _. destruct (consumes_sound fl s P r Hi Hp x _ e' ltac:(lia) Hm) as (ch & Hin & Hch).
      apply Forall_forall with (x := ch) in Hs; [congruence|now apply list_elem_of_In].
    - apply IH. lia. }
  eapply Hsearch; [|exact He]. lia.
Qed.

Lemma test_consumes R (s : jsstring) P :
  ignoreCase (reflags R) = false -> consumes P (source R) = true ->
  Forall (fun ch => P ch = false) s ->
  fst (test R s) = false.
Proof.
  intros Hi Hp Hs. unfold test.
  destruct (global R); now rewrite (exec_consumes _ _ _ P _ Hi Hp Hs).
Qed.

Lemma matchCount_consumes fl r (s : jsstring) P :
  ignoreCase fl = false -> consumes P r = true ->
  Forall (fun ch => P ch = false) s ->
  matchCount fl r s = 0.
Proof.
  intros Hi Hp Hs. unfold matchCount.
  rewrite Nat.add_comm. cbn [Nat.add countFrom].
  now rewrite (exec_consumes _ _ _ P _ Hi Hp Hs).
Qed.

End ConsumeFacts.

(* ===================================================================== *)
(** * The structure score *)
(* ===================================================================== *)

Section StructureProperties.
Local Open Scope float_scope.

(** The three tests of [analyzeCodeStructure]. *)
Definition consistentlyIndented (code : jsstring) : bool :=
  let lines := List.filter nonBlank (split_newline code) in
  gt (ofNat (fst (fold_left indentStep lines (O, []))) / ofNat (length lines)) 0.9.

Definition heavilyCommented (code : jsstring) : bool :=
  let lines := List.filter nonBlank (split_newline code) in
  gt (ofNat (matchCount flag_m commentPattern code) / ofNat (length lines)) 0.3.

Definition defensive (code : jsstring) : bool :=
  let lines := List.filter nonBlank (split_newline code) in
  gt (ofNat (matchCount noFlags errorHandlingPattern code)) (ofNat (length lines) * 0.1).

Lemma filter_nonBlank_nil lines :
  existsb nonBlank lines = false -> List.filter nonBlank lines = [].
Proof.
  induction lines as [|l lines IH]; simpl; [reflexivity|].
  destruct (nonBlank l); simpl; [discriminate|exact IH].
Qed.

Lemma analyzeCodeStructure_table code :
  analyzeCodeStructure code
  = match consistentlyIndented code, heavilyCommented code, defensive code with
    | false, false, false => 0
    | true, false, false => 0.3
    | false, true, false => 0.2
    | false, false, true => 0.2
    | true, true, false => 0.5
    | true, false, true => 0.5
    | false, true, true => 0.4
    | true, true, true => 0.7
    end.
Proof.
  unfold analyzeCodeStructure, consistentlyIndented, heavilyCommented, defensive.
  cbv zeta.
  destruct (fold_left indentStep _ _) as [consistentIndentation indentPattern].
  cbn [fst].
  destruct (gt (ofNat consistentIndentation / _) 0.9);
    destruct (gt (ofNat (matchCount flag_m _ _) / _) 0.3);
    destruct (gt (ofNat (matchCount noFlags _ _)) _); reflexivity.
Qed.

(** A text without a non-blank line scores 0. *)
Lemma analyzeCodeStructure_blank code :
  existsb nonBlank (split_newline code) = false -> analyzeCodeStructure code = 0.
Proof.
  intros Hblank.
  assert (Hws : Forall (fun ch => negb (isWhiteSpace ch) = false) code).
  { pose proof (trim_lines code) as Ht. rewrite Hblank in Ht.
    change (truthy (trim code)) with (nonBlank code) in Ht.
    apply nonBlank_false in Ht. eapply Forall_impl; [exact Ht|].
    intros ch Hch. simpl in Hch. now rewrite Hch. }
  rewrite analyzeCodeStructure_table.
  unfold consistentlyIndented, heavilyCommented, defensive. cbv zeta.
  rewrite (filter_nonBlank_nil _ Hblank).
  rewrite (matchCount_consumes flag_m commentPattern code
             (fun ch => negb (isWhiteSpace ch)) eq_refl eq_refl Hws).
  rewrite (matchCount_consumes noFlags errorHandlingPattern code
             (fun ch => negb (isWhiteSpace ch)) eq_refl eq_refl Hws).
  reflexivity.
Qed.

(** X1: the structure score is one of six values, decided by the three tests;
    it exceeds 0.5, the threshold of the adjustment in [analyzeCode], only
    when all three tests succeed; a text without a non-blank line scores 0. *)
Theorem analyzeCodeStructure_signals code :
  analyzeCodeStructure code
  = match consistentlyIndented code, heavilyCommented code, defensive code with
    | false, false, false => 0
    | true, false, false => 0.3
    | false, true, false => 0.2
    | false, false, true => 0.2
    | true, true, false => 0.5
    | true, false, true => 0.5
    | false, true, true => 0.4
    | true, true, true => 0.7
    end
  /\ gt (analyzeCodeStructure code) 0.5
     = consistentlyIndented code && heavilyCommented code && defensive code
  /\ (consistentlyIndented code && heavilyCommented code && defensive code = false ->
      forall analysis, adjust (analyzeCodeStructure code) analysis = analysis)
  /\ (existsb nonBlank (split_newline code) = false -> analyzeCodeStructure code = 0).
Proof.
  assert (Hg : gt (analyzeCodeStructure code) 0.5
               = consistentlyIndented code && heavilyCommented code && defensive code).
  { rewrite analyzeCodeStructure_table.
    destruct (consistentlyIndented code), (heavilyCommented code), (defensive code);
      reflexivity. }
  split; [apply analyzeCodeStructure_table|]. split; [exact Hg|]. split.
  - intros Hno analysis. unfold adjust. now rewrite Hg, Hno.
  - apply analyzeCodeStructure_blank.
Qed.

End StructureProperties.

(* ===================================================================== *)
(** * What the adjustment and the refiner do to a line *)
(* ===================================================================== *)

Section MoveFacts.
Local Open Scope float_scope.

(** The two reasons that [applyContextualAnalysis] appends. *)
Definition refinerReasons : list string :=
  [ "Line sandwiched between AI-generated code blocks";
    "Part of extended AI-generated code block" ]%string.

(** What became of a verdict [l], now [l']: it is untouched; or it was AI
    and only its confidence changed; or it was HUMAN, not blank and not
    creative human code, and is now AI with one refiner reason appended and
    a confidence of 0.75 or more. *)
Inductive Outcome (l l' : LineAnalysis) : Prop :=
| Kept : l' = l -> Outcome l l'
| Boosted :
    isAI l = true -> reasons l' = reasons l -> Outcome l l'
| Flipped (why : string) :
    isAI l = false -> isAI l' = true ->
    nonBlank (content l) = true -> isCreativeHumanCode (content l) = false ->
    In why refinerReasons -> reasons l' = reasons l ++ [why] ->
    (0.75 <=? confidence l') = true ->
    Outcome l l'.

Definition Moves (l l' : LineAnalysis) : Prop := Refines l l' /\ Outcome l l'.

Lemma raise_ge c t : inRange c -> inRange t -> (t <=? Math_max c t) = true.
Proof.
  intros Hc Ht. apply inRange_R in Hc as (Hn & _). apply inRange_R in Ht as (Hnt & _).
  destruct (Math_max_R c t Hn Hnt) as (Hz & Vz & _).
  apply leb_R; auto. rewrite Vz. apply Rmax_r.
Qed.

Lemma Moves_refl l : okLine l -> Moves l l.
Proof. intros Hl. split; [now apply Refines_refl|now apply Kept]. Qed.

Lemma okLine_inRange l : okLine l -> nonBlank (content l) = true -> inRange (confidence l).
Proof. unfold okLine, nonBlankLine. intros H Hnb. now rewrite Hnb in H. Qed.

Lemma Moves_trans l1 l2 l3 : Moves l1 l2 -> Moves l2 l3 -> Moves l1 l3.
Proof.
  intros [R12 O12] [R23 O23]. split; [eapply Refines_trans; eauto|].
  destruct O12 as [->|Ha12 Hr12|why Ha1 Ha2 Hnb Hcr Hin Hr12 Hc2]; [exact O23| |].
  - destruct O23 as [->|Ha23 Hr23|why' Ha2 _ _ _ _ _ _].
    + now apply Boosted.
    + apply Boosted; congruence.
    + pose proof (rf_isAI _ _ R12 Ha12). congruence.
  - destruct O23 as [->|Ha23 Hr23|why' Ha2' _ _ _ _ _ _].
    + eapply Flipped; eauto.
    + apply (Flipped l1 l3 why); auto.
      * exact (rf_isAI _ _ R23 Ha2).
      * congruence.
      * pose proof (rf_content _ _ R12) as Hc12. pose proof (rf_content _ _ R23) as Hc23.
        apply (inRange_trans 0.75 (confidence l2) (confidence l3)).
        -- exact inRange_075.
        -- apply okLine_inRange; [exact (rf_ok' _ _ R12)|congruence].
        -- apply okLine_inRange; [exact (rf_ok' _ _ R23)|congruence].
        -- exact Hc2.
        -- exact (rf_conf _ _ R23).
    + congruence.
Qed.

Lemma Moves_bump l :
  nonBlankLine l = true -> okLine l -> isAI l = true ->
  Moves l {| content := content l; isAI := isAI l;
             confidence := Math_min (confidence l + 0.1) 0.95;
             reasons := reasons l |}.
Proof.
  intros Hnb Hl Ha. split; [now apply Refines_bump|]. now apply Boosted.
Qed.

Lemma Moves_raise l t why :
  nonBlankLine l = true -> okLine l -> isAI l = false ->
  isCreativeHumanCode (content l) = false ->
  inRange t -> (0.75 <=? t) = true -> In why refinerReasons ->
  Moves l {| content := content l; isAI := true;
             confidence := Math_max (confidence l) t;
             reasons := reasons l ++ [why] |}.
Proof.
  intros Hnb Hl Ha Hcr Ht H75 Hin. split; [now apply Refines_raise|].
  apply (Flipped _ _ why); auto. cbn [confidence].
  pose proof (okLine_inRange l Hl Hnb) as Hc.
  apply (inRange_trans 0.75 t (Math_max (confidence l) t)); auto using inRange_075.
  - apply (raise_inRange (confidence l) t Hc Ht).
  - now apply raise_ge.
Qed.

Lemma adjust_Moves structureScore l : okLine l -> Moves l (adjust structureScore l).
Proof.
  intros Hl. unfold adjust. destruct (gt structureScore 0.5); [|now apply Moves_refl].
  destruct (isAI l) eqn:Hai; [|now apply Moves_refl].
  rewrite <- Hai at 1. apply Moves_bump; auto. now apply okLine_AI_nonBlank.
Qed.

Lemma Moves_all_refl la : Forall okLine la -> Forall2 Moves la la.
Proof. induction 1; constructor; auto using Moves_refl. Qed.

Lemma Moves_all_trans la1 la2 la3 :
  Forall2 Moves la1 la2 -> Forall2 Moves la2 la3 -> Forall2 Moves la1 la3.
Proof.
  intros H. revert la3. induction H as [|x y l k Hxy _ IH]; intros la3 H23.
  - inversion H23. constructor.
  - inversion H23 as [|? z ? k' Hyz Hk]; subst. constructor; eauto using Moves_trans.
Qed.

Lemma Moves_all_ok la la' : Forall2 Moves la la' -> Forall okLine la'.
Proof. induction 1 as [|x y l k [[_ Hy _ _ _] _] _ IH]; constructor; auto. Qed.

Lemma Moves_update la i l l' :
  Forall okLine la -> la !! i = Some l -> Moves l l' ->
  Forall2 Moves la (<[i := l']> la).
Proof.
  intros Hok Hl Hr.
  rewrite <- (list_insert_id la i l Hl) at 1.
  apply Forall2_insert; [now apply Moves_all_refl|exact Hr].
Qed.

Lemma sandwichStep_Moves la i :
  Forall okLine la -> Forall2 Moves la (sandwichStep la i).
Proof.
  intros Hok. unfold sandwichStep.
  destruct (la !! i) as [cur|] eqn:Hcur; [|now apply Moves_all_refl].
  destruct (la !! (i - 1)%nat) as [prev|]; [|now apply Moves_all_refl].
  destruct (la !! (i + 1)%nat) as [next|]; [|now apply Moves_all_refl].
  fold (nonBlankLine cur).
  destruct (nonBlankLine cur) eqn:Hnb; cbn [negb]; [|now apply Moves_all_refl].
  destruct (isAI cur) eqn:Hai; cbn [negb andb]; [now apply Moves_all_refl|].
  destruct (isAI prev && isAI next); [|now apply Moves_all_refl].
  destruct (isCreativeHumanCode (content cur)) eqn:Hcr; cbn [negb];
    [now apply Moves_all_refl|].
  eapply Moves_update; eauto. unfold markSandwiched.
  apply Moves_raise; auto using inRange_08.
  - eapply Forall_lookup_1; eauto.
  - now left.
Qed.

Lemma sandwichPass_Moves la :
  Forall okLine la -> Forall2 Moves la (sandwichPass la).
Proof.
  unfold sandwichPass. generalize (seq 1 (length la - 2)). intros idx. revert la.
  induction idx as [|i idx IH]; intros la Hok; simpl.
  - now apply Moves_all_refl.
  - eapply Moves_all_trans; [apply sandwichStep_Moves; exact Hok|].
    apply IH. eapply Moves_all_ok. apply sandwichStep_Moves. exact Hok.
Qed.

Lemma runStep_Moves la count i :
  Forall okLine la -> Forall2 Moves la (fst (runStep (la, count) i)).
Proof.
  intros Hok. unfold runStep.
  destruct (la !! i) as [line|] eqn:Hline; [|now apply Moves_all_refl].
  assert (Hl : okLine line) by (eapply Forall_lookup_1; eauto).
  fold (nonBlankLine line).
  destruct (nonBlankLine line) eqn:Hnb; cbn [negb fst]; [|now apply Moves_all_refl].
  destruct (isAI line) eqn:Hai.
  - destruct (3 <=? S count)%nat; cbn [fst]; [|now apply Moves_all_refl].
    eapply Moves_update; eauto. unfold boost. now apply Moves_bump.
  - cbn [fst]. destruct (2 <=? count)%nat; cbn [andb]; [|now apply Moves_all_refl].
    destruct (isCreativeHumanCode (content line)) eqn:Hcr; cbn [negb];
      [now apply Moves_all_refl|].
    destruct (aiContinues la i); [|now apply Moves_all_refl].
    eapply Moves_update; eauto. unfold markExtended.
    apply Moves_raise; auto using inRange_075.
    right. now left.
Qed.

Lemma runFold_Moves idx : forall la count,
  Forall okLine la -> Forall2 Moves la (fst (fold_left runStep idx (la, count))).
Proof.
  induction idx as [|i idx IH]; intros la count Hok; cbn [fold_left fst].
  - now apply Moves_all_refl.
  - pose proof (runStep_Moves la count i Hok) as Hs.
    destruct (runStep (la, count) i) as [la' count']. simpl in Hs.
    eapply Moves_all_trans; [exact Hs|]. apply IH. eapply Moves_all_ok; eauto.
Qed.

Lemma applyContextualAnalysis_Moves la :
  Forall okLine la -> Forall2 Moves la (applyContextualAnalysis la).
Proof.
  intros Hok. unfold applyContextualAnalysis, runPass.
  eapply Moves_all_trans; [now apply sandwichPass_Moves|].
  apply runFold_Moves. eapply Moves_all_ok. now apply sandwichPass_Moves.
Qed.

Lemma adjust_all_Moves structureScore raw :
  Forall okLine raw -> Forall2 Moves raw (map (adjust structureScore) raw).
Proof. induction 1; constructor; auto using adjust_Moves. Qed.

Lemma analyzeCode_Moves g code language g' r :
  ModuleState g -> analyzeCode g code language = (g', Normal r) ->
  exists raw,
    classifyLines g language 0 (split_newline code) = (g', Normal raw)
    /\ Forall2 Moves raw (lineAnalysis r).
Proof.
  intros Hg H. destruct (analyzeCode_stages _ _ _ _ _ H) as (raw & Hraw & ->).
  exists raw. split; [exact Hraw|].
  simpl. pose proof (classifyLines_ok _ _ _ _ _ _ Hg Hraw) as Hok.
  eapply Moves_all_trans; [apply adjust_all_Moves; exact Hok|].
  apply applyContextualAnalysis_Moves. eapply Moves_all_ok.
  apply adjust_all_Moves. exact Hok.
Qed.

End MoveFacts.

(* ===================================================================== *)
(** * The reasons of a verdict *)
(* ===================================================================== *)

Section TableFacts.
Variable Q : DetectionPattern -> bool.
Hypothesis Q_reset : forall p, Q (resetPattern p) = Q p.

Lemma forallb_reset ps : forallb Q (map resetPattern ps) = forallb Q ps.
Proof using Q_reset.
  induction ps as [|p ps IH]; simpl; [reflexivity|]. now rewrite Q_reset, IH.
Qed.

(** What holds of every rule of the tables as written holds of every rule
    of the tables in any state of the module. *)
Lemma ModuleState_rules g :
  ModuleState g -> forallb Q Tables.AI_PATTERNS = true ->
  forallb Q (AI_PATTERNS g) = true.
Proof using Q_reset.
  intros Hg H. rewrite <- forallb_reset.
  change (map resetPattern (AI_PATTERNS g)) with (AI_PATTERNS (resetGlobals g)).
  now rewrite Hg.
Qed.

Lemma ModuleState_language_rules g key ps :
  ModuleState g ->
  forallb (fun kv => forallb Q (snd kv)) Tables.LANGUAGE_PATTERNS = true ->
  ownProperty (LANGUAGE_PATTERNS g) key = Some ps ->
  forallb Q ps = true.
Proof using Q_reset.
  intros Hg H Hown.
  assert (Ho : ownProperty (LANGUAGE_PATTERNS (resetGlobals g)) key
               = Some (map resetPattern ps)).
  { unfold resetGlobals. simpl. rewrite ownProperty_reset, Hown. reflexivity. }
  rewrite Hg in Ho. rewrite <- forallb_reset.
  revert Ho H. unfold initial. cbn [LANGUAGE_PATTERNS].
  generalize Tables.LANGUAGE_PATTERNS. intros tbl.
  induction tbl as [|[k qs] tbl IH]; simpl; [discriminate|].
  destruct (JSString.eqb k key).
  - intros [= ->] Hq. now apply andb_prop in Hq as [Hq _].
  - intros Ho Hq. apply andb_prop in Hq as [_ Hq]. auto.
Qed.
End TableFacts.

Section ReasonFacts.
Local Open Scope float_scope.

(** Each rule that hits appends its reason; nothing else changes the
    accumulators. *)
Lemma applyPatterns_fired ps content : forall sc,
  exists hits,
    fired (snd (applyPatterns ps content sc)) = fired sc ++ map reason hits
    /\ Forall (fun p => In p ps /\ fst (test (pattern p) content) = true) hits
    /\ (hits = [] -> snd (applyPatterns ps content sc) = sc).
Proof.
  induction ps as [|p ps IH]; intros sc; cbn [applyPatterns].
  - exists []. cbn [snd map]. rewrite app_nil_r. auto.
  - destruct (test (pattern p) content) as [hit R] eqn:Ht.
    match goal with |- context [applyPatterns ps content ?s] =>
      destruct (IH s) as (hits & Hf & Hh & Hn);
      destruct (applyPatterns ps content s) as [ps'' sc''] end.
    cbn [snd] in *.
    assert (Hh' : Forall (fun q => In q (p :: ps) /\ fst (test (pattern q) content) = true) hits).
    { eapply Forall_impl; [exact Hh|]. intros q [Hq Hq']. split; [now right|exact Hq']. }
    destruct hit.
    + exists (p :: hits). split; [|split; [|discriminate]].
      * rewrite Hf. destruct (aiIndicator p); cbn [fired addAI addHuman map];
          now rewrite <- app_assoc.
      * constructor; [|exact Hh']. split; [now left|]. now rewrite Ht.
    + exists hits. split; [exact Hf|]. split; [exact Hh'|exact Hn].
Qed.

(** The reasons of the heuristics that follow the rules. *)
Definition heuristicReasons : list string :=
  [ "Very long line length typical of AI generation";
    "Short, concise line suggests human writing";
    "Perfect syntax and structure";
    "Uses creative or placeholder naming typical of humans" ]%string.

Lemma heuristics_fired content sc :
  exists hs,
    fired (heuristics content sc) = fired sc ++ hs
    /\ Forall (fun why => In why heuristicReasons) hs
    /\ (hs = [] -> heuristics content sc = sc).
Proof.
  unfold heuristics, heuristicReasons.
  destruct (120 <? length content)%nat;
    [|destruct ((length content <? 20)%nat && _)];
    destruct (negb _ && (30 <? length content)%nat);
    destruct (matches flag_i quirkyPattern content);
    cbn [fired addAI addHuman]; rewrite <- ?app_assoc; cbn [app];
    eexists; (split; [try reflexivity; symmetry; apply app_nil_r|]);
    (split; [repeat constructor; simpl; tauto|]); intros Hn; try discriminate Hn;
    reflexivity.
Qed.

Definition emptyReason : string := "Empty line - neutral".
Definition neutralReason : string :=
  "No significant patterns detected - neutral classification".

(** The reasons of a verdict of [analyzeLine] for a non-blank line: those
    of the rules that hit, in the order of the tables, then those of the
    heuristics; the neutral reason alone when there is none. *)
Lemma scoreLine_fired g content language g' sc :
  scoreLine g content language = (g', Normal sc) ->
  exists hits hs,
    fired sc = map reason hits ++ hs
    /\ Forall (fun p => (In p (AI_PATTERNS g)
                         \/ exists ps, ownProperty (LANGUAGE_PATTERNS g) language = Some ps
                                       /\ In p ps)
                        /\ fst (test (pattern p) content) = true) hits
    /\ Forall (fun why => In why heuristicReasons) hs
    /\ (fired sc = [] -> aiScore sc = 0 /\ humanScore sc = 0).
Proof.
  unfold scoreLine.
  destruct (applyPatterns_fired (AI_PATTERNS g) content
              {| aiScore := 0; humanScore := 0; fired := [] |}) as (h1 & Hf1 & Hh1 & Hn1).
  destruct (applyPatterns (AI_PATTERNS g) content _) as [general sc1].
  cbn [snd fired app] in *.
  assert (Hh1' : Forall (fun p => (In p (AI_PATTERNS g)
                         \/ exists ps, ownProperty (LANGUAGE_PATTERNS g) language = Some ps
                                       /\ In p ps)
                        /\ fst (test (pattern p) content) = true) h1).
  { eapply Forall_impl; [exact Hh1|]. intros p [Hp Ht]. auto. }
  unfold getProperty.
  destruct (ownProperty (LANGUAGE_PATTERNS g) language) as [langPatterns|] eqn:Hown.
  - destruct (applyPatterns_fired langPatterns content sc1) as (h2 & Hf2 & Hh2 & Hn2).
    destruct (applyPatterns langPatterns content sc1) as [langPatterns' sc2].
    cbn [snd] in *. intros [= _ <-].
    destruct (heuristics_fired content sc2) as (hs & Hfh & Hhs & Hnh).
    exists (h1 ++ h2), hs. rewrite Hfh, Hf2, Hf1, map_app. split; [reflexivity|].
    split; [|split; [exact Hhs|]].
    + apply Forall_app. split; [exact Hh1'|].
      eapply Forall_impl; [exact Hh2|]. intros p [Hp Ht]. split; [|exact Ht].
      right. eauto.
    + intros Hnil. apply app_eq_nil in Hnil as [Hnil ->].
      apply app_eq_nil in Hnil as [H1 H2].
      apply map_eq_nil in H1. apply map_eq_nil in H2.
      rewrite (Hnh eq_refl), (Hn2 H2), (Hn1 H1). auto.
  - destruct (existsb _ _); [discriminate|]. intros [= _ <-].
    destruct (heuristics_fired content sc1) as (hs & Hfh & Hhs & Hnh).
    exists h1, hs. rewrite Hfh, Hf1. split; [reflexivity|].
    split; [exact Hh1'|]. split; [exact Hhs|].
    intros Hnil. apply app_eq_nil in Hnil as [H1 ->]. apply map_eq_nil in H1.
    rewrite (Hnh eq_refl), (Hn1 H1). auto.
Qed.

End ReasonFacts.

Section ReasonProperties.
Local Open Scope float_scope.

Lemma trimStart_In c s : In c (trimStart s) -> In c s.
Proof.
  destruct (trimStart_suffix s) as (pre & Hs & _). intros H. rewrite Hs.
  apply in_or_app. now right.
Qed.

Lemma trim_In c s : In c (trim s) -> In c s.
Proof.
  unfold trim, trimEnd. intros H. apply in_rev in H. apply trimStart_In in H.
  apply in_rev in H. now apply trimStart_In.
Qed.

Lemma trimStart_snoc u c :
  isWhiteSpace c = false -> trimStart (u ++ [c]) = trimStart u ++ [c].
Proof.
  intros Hc. induction u as [|a u IH]; simpl; [now rewrite Hc|].
  destruct (isWhiteSpace a); [exact IH|reflexivity].
Qed.

(** A trimmed string does not begin with white space. *)
Lemma trim_head s c t : trim s = c :: t -> isWhiteSpace c = false.
Proof.
  unfold trim, trimEnd. destruct (trimStart s) as [|c0 t0] eqn:Ht0; [discriminate|].
  pose proof (trimStart_head _ _ _ Ht0) as Hc0.
  cbn [rev]. rewrite (trimStart_snoc _ _ Hc0), rev_app_distr. cbn [rev app].
  intros [= <- _]. exact Hc0.
Qed.

(** What holds of the verdict of [analyzeLine] for every line, in any
    state of the module, holds of the verdicts of the loop of
    [analyzeCode], line by line. *)
Lemma classifyLines_each (P : jsstring -> LineAnalysis -> Prop) language :
  (forall g line n g' la, ModuleState g ->
     analyzeLine g line n language = (g', Normal la) -> P line la) ->
  forall lines g i g' raw,
    ModuleState g -> classifyLines g language i lines = (g', Normal raw) ->
    Forall2 P lines raw.
Proof.
  intros HP. induction lines as [|line lines IH]; intros g i g' raw Hg; simpl.
  - intros [= _ <-]. constructor.
  - pose proof (analyzeLine_ModuleState g line (i + 1)%nat language Hg) as Hg1.
    destruct (analyzeLine g line (i + 1)%nat language) as [g1 [analysis|e]] eqn:Ha;
      [|discriminate].
    destruct (classifyLines g1 language (S i) lines) as [g2 [rest|e]] eqn:Hr;
      [|discriminate].
    intros [= _ <-]. constructor.
    + exact (HP g line (i + 1)%nat g1 analysis Hg Ha).
    + exact (IH g1 (S i) g2 rest Hg1 Hr).
Qed.

(** ** The reasons that no rule gives *)

Definition plainReason (d : string) (p : DetectionPattern) : bool :=
  negb (String.eqb (reason p) d).

Lemma plainReason_reset d p : plainReason d (resetPattern p) = plainReason d p.
Proof. reflexivity. Qed.

(** A reason that neither a rule nor a heuristic gives is not among the
    reasons that fired. *)
Lemma scoreLine_not_fired g content language g' sc d :
  ModuleState g ->
  forallb (plainReason d) Tables.AI_PATTERNS = true ->
  forallb (fun kv => forallb (plainReason d) (snd kv)) Tables.LANGUAGE_PATTERNS = true ->
  ~ In d heuristicReasons ->
  scoreLine g content language = (g', Normal sc) -> ~ In d (fired sc).
Proof.
  intros Hg Hai Hlang Hh Hsc Hin.
  destruct (scoreLine_fired _ _ _ _ _ Hsc) as (hits & hs & Hf & Hhits & Hhs & _).
  rewrite Hf in Hin. apply in_app_or in Hin as [Hin|Hin].
  - apply in_map_iff in Hin as (p & Hp & Hin).
    apply Forall_forall with (x := p) in Hhits; [|now apply list_elem_of_In].
    destruct Hhits as [[Hgen|(ps & Hown & Hps)] _].
    + pose proof (ModuleState_rules _ (plainReason_reset d) g Hg Hai) as Hall.
      rewrite forallb_forall in Hall. specialize (Hall p Hgen).
      unfold plainReason in Hall. rewrite Hp, String.eqb_refl in Hall. discriminate.
    + pose proof (ModuleState_language_rules _ (plainReason_reset d) g language ps
                    Hg Hlang Hown) as Hall.
      rewrite forallb_forall in Hall. specialize (Hall p Hps).
      unfold plainReason in Hall. rewrite Hp, String.eqb_refl in Hall. discriminate.
  - apply Hh. apply Forall_forall with (x := d) in Hhs; [exact Hhs|now apply list_elem_of_In].
Qed.

(** X2: every verdict of [analyzeLine] carries a reason.  The reason
    [Empty line - neutral] marks the blank lines and no other.  The neutral
    reason stands alone, on the verdict of a non-blank line on which
    nothing fired: HUMAN, with confidence 0.5. *)
Theorem analyzeLine_reasons g line n language g' la :
  ModuleState g -> analyzeLine g line n language = (g', Normal la) ->
  reasons la <> []
  /\ (In emptyReason (reasons la) <-> nonBlank line = false)
  /\ (nonBlank line = false -> reasons la = [emptyReason])
  /\ (In neutralReason (reasons la) ->
      nonBlank line = true /\ reasons la = [neutralReason]
      /\ isAI la = false /\ confidence la = 0.5).
Proof.
  intros Hg H. destruct (nonBlank line) eqn:Hnb.
  - destruct (analyzeLine_nonBlank _ _ _ _ _ _ Hnb H) as (sc & Hsc & ->).
    pose proof (scoreLine_not_fired _ _ _ _ _ emptyReason Hg eq_refl eq_refl
                  ltac:(vm_compute; intuition discriminate) Hsc) as Hne.
    pose proof (scoreLine_not_fired _ _ _ _ _ neutralReason Hg eq_refl eq_refl
                  ltac:(vm_compute; intuition discriminate) Hsc) as Hnn.
    destruct (scoreLine_fired _ _ _ _ _ Hsc) as (_ & _ & _ & _ & _ & Hz).
    unfold verdict. cbn [reasons isAI confidence].
    destruct (fired sc) as [|why whys] eqn:Hf; cbn [length Nat.eqb].
    + destruct (Hz eq_refl) as [-> ->].
      split; [discriminate|]. split; [|split; [discriminate|]].
      * split; [|discriminate]. intros [Hd|[]]. discriminate Hd.
      * intros _. repeat split; reflexivity.
    + split; [discriminate|]. split; [|split; [discriminate|]].
      * split; [|discriminate]. intros Hin. destruct (Hne Hin).
      * intros Hin. destruct (Hnn Hin).
  - rewrite analyzeLine_blank in H by exact Hnb. injection H as _ <-.
    cbn [reasons isAI confidence].
    split; [discriminate|]. split; [|split; [reflexivity|]].
    + split; [reflexivity|]. intros _. now left.
    + intros [Hd|[]]. discriminate Hd.
Qed.

Lemma analyzeLine_reasons_example :
  exists g' la,
    analyzeLine initial (js "value = 1") 1 (js "text") = (g', Normal la)
    /\ reasons la <> []
    /\ (In emptyReason (reasons la) <-> nonBlank (js "value = 1") = false)
    /\ (nonBlank (js "value = 1") = false -> reasons la = [emptyReason])
    /\ (In neutralReason (reasons la) ->
        nonBlank (js "value = 1") = true /\ reasons la = [neutralReason]
        /\ isAI la = false /\ confidence la = 0.5).
Proof.
  do 2 eexists. split; [vm_compute; reflexivity|].
  eapply (analyzeLine_reasons initial (js "value = 1") 1 (js "text"));
    [exact ModuleState_initial | vm_compute; reflexivity].
Defined.

End ReasonProperties.

(* ===================================================================== *)
(** * Rules that cannot hit a line *)
(* ===================================================================== *)

Section SilentRules.
Local Open Scope float_scope.

(** The pattern begins by consuming the character [a]. *)
Fixpoint startsWithChar (a : char) (r : regex) : bool :=
  match r with
  | Char b => (b =? a)%N
  | Seq r1 _ => startsWithChar a r1
  | _ => false
  end.

(** The pattern is [^] followed by a pattern that begins with [a]. *)
Definition lineStart (a : char) (r : regex) : bool :=
  match r with
  | Seq Bol r' => startsWithChar a r'
  | _ => false
  end.

Lemma startsWithChar_sound fl (s : jsstring) a r :
  ignoreCase fl = false -> startsWithChar a r = true ->
  forall x c z, compile fl s r x c = Some z -> s !! x = Some a.
Proof.
  intros Hi. induction r as [|b|invert items| |r1 IH1 r2 IH2|r1 IH1 r2 IH2|greedy min r1 IH1
                            | | | |r1 IH1]; cbn [startsWithChar]; intros Hs x c z Hz;
    try discriminate.
  - cbn [compile] in Hz. destruct (s !! x) as [ch|] eqn:Hch; [|discriminate].
    unfold Canonicalize in Hz. rewrite Hi in Hz. cbn [andb] in Hz.
    destruct (ch =? b)%N eqn:Heq; [|discriminate].
    apply N.eqb_eq in Heq. apply N.eqb_eq in Hs. congruence.
  - cbn [compile] in Hz. eapply IH1; eauto.
Qed.

(** Such a pattern finds nothing in a string that holds no line terminator
    and does not begin with [a]. *)
Lemma exec_lineStart fl r (s : jsstring) a from :
  ignoreCase fl = false -> lineStart a r = true ->
  Forall (fun ch => isLineTerminator ch = false) s ->
  s !! 0%nat <> Some a ->
  exec fl r s from = None.
Proof.
  intros Hi Hl Hs H0.
  destruct r as [| | | |r1 r2| | | | | |]; try discriminate Hl.
  destruct r1; try discriminate Hl. cbn [lineStart] in Hl.
  assert (Hm : forall x, matchAt fl s (Seq Bol r2) x = None).
  { intros x. unfold matchAt. cbn [compile].
    assert (Hlt : match x with O => false | S i => lineTerminatorAt s i end = false).
    { destruct x as [|i]; [reflexivity|]. unfold lineTerminatorAt.
      destruct (s !! i) as [ch|] eqn:Hch; [|reflexivity].
      apply Forall_forall with (x := ch) in Hs; [exact Hs|].
      eapply list_elem_of_lookup_2; eauto. }
    rewrite Hlt, andb_false_r, orb_false_r.
    destruct (x =? 0)%nat eqn:Hx; [|reflexivity].
    apply Nat.eqb_eq in Hx. subst x.
    destruct (compile fl s r2 0%nat _) as [z|] eqn:Hz; [|reflexivity].
    exfalso. apply H0. eapply startsWithChar_sound; eauto. }
  unfold exec. destruct (length s <? from)%nat; [reflexivity|].
  generalize (length s - from)%nat. intros k. revert from.
  induction k as [|k IH]; intros from; cbn [searchFrom]; rewrite Hm; auto.
Qed.

(** ** From a rule that cannot hit to a reason that never appears *)

Lemma scoreLine_silent g content language g' sc d (Q : DetectionPattern -> bool) :
  (forall p, Q (resetPattern p) = Q p) ->
  ModuleState g ->
  forallb Q Tables.AI_PATTERNS = true ->
  forallb (fun kv => forallb Q (snd kv)) Tables.LANGUAGE_PATTERNS = true ->
  (forall p, Q p = true -> reason p = d -> fst (test (pattern p) content) = false) ->
  ~ In d heuristicReasons ->
  scoreLine g content language = (g', Normal sc) -> ~ In d (fired sc).
Proof.
  intros HQ Hg Hai Hlang Hsil Hh Hsc Hin.
  destruct (scoreLine_fired _ _ _ _ _ Hsc) as (hits & hs & Hf & Hhits & Hhs & _).
  rewrite Hf in Hin. apply in_app_or in Hin as [Hin|Hin].
  - apply in_map_iff in Hin as (p & Hp & Hin).
    apply Forall_forall with (x := p) in Hhits; [|now apply list_elem_of_In].
    destruct Hhits as [[Hgen|(ps & Hown & Hps)] Hhit].
    + pose proof (ModuleState_rules _ HQ g Hg Hai) as Hall.
      rewrite forallb_forall in Hall. specialize (Hall p Hgen).
      rewrite (Hsil p Hall Hp) in Hhit. discriminate.
    + pose proof (ModuleState_language_rules _ HQ g language ps Hg Hlang Hown) as Hall.
      rewrite forallb_forall in Hall. specialize (Hall p Hps).
      rewrite (Hsil p Hall Hp) in Hhit. discriminate.
  - apply Hh. apply Forall_forall with (x := d) in Hhs; [exact Hhs|now apply list_elem_of_In].
Qed.

Lemma analyzeLine_silent g line n language g' la d (Q : DetectionPattern -> bool) :
  (forall p, Q (resetPattern p) = Q p) ->
  ModuleState g ->
  forallb Q Tables.AI_PATTERNS = true ->
  forallb (fun kv => forallb Q (snd kv)) Tables.LANGUAGE_PATTERNS = true ->
  (forall p, Q p = true -> reason p = d -> fst (test (pattern p) (trim line)) = false) ->
  ~ In d heuristicReasons -> d <> emptyReason -> d <> neutralReason ->
  analyzeLine g line n language = (g', Normal la) -> ~ In d (reasons la).
Proof.
  intros HQ Hg Hai Hlang Hsil Hh He Hn H.
  destruct (nonBlank line) eqn:Hnb.
  - destruct (analyzeLine_nonBlank _ _ _ _ _ _ Hnb H) as (sc & Hsc & ->).
    pose proof (scoreLine_silent _ _ _ _ _ d Q HQ Hg Hai Hlang Hsil Hh Hsc) as Hnf.
    unfold verdict. cbn [reasons].
    destruct (length (fired sc) =? 0)%nat; [|exact Hnf].
    intros [Hd|[]]. now apply Hn.
  - rewrite analyzeLine_blank in H by exact Hnb. injection H as _ <-.
    cbn [reasons]. intros [Hd|[]]. now apply He.
Qed.

Lemma Moves_reasons d raw fin :
  ~ In d refinerReasons -> Forall2 Moves raw fin ->
  Forall (fun l => ~ In d (reasons l)) raw ->
  Forall (fun l => ~ In d (reasons l)) fin.
Proof.
  intros Hr Hmoves. induction Hmoves as [|l l' raw fin [_ Ho] _ IH]; [constructor|].
  intros Hraw. inversion Hraw; subst. constructor; [|auto].
  destruct Ho as [->|_ ->|why _ _ _ _ Hw -> _]; auto.
  intros Hin. apply in_app_or in Hin as [Hin|[<-|[]]]; auto.
Qed.

(** A reason that no rule gives to a line with property [ok], and that
    neither the heuristics nor the refiner give, is on no line of a result
    for a text whose lines all have the property. *)
Lemma analyzeCode_silent g code language g' r d (Q : DetectionPattern -> bool)
    (ok : jsstring -> Prop) :
  (forall p, Q (resetPattern p) = Q p) ->
  forallb Q Tables.AI_PATTERNS = true ->
  forallb (fun kv => forallb Q (snd kv)) Tables.LANGUAGE_PATTERNS = true ->
  (forall p line, ok line -> Q p = true -> reason p = d ->
     fst (test (pattern p) (trim line)) = false) ->
  ~ In d heuristicReasons -> d <> emptyReason -> d <> neutralReason ->
  ~ In d refinerReasons ->
  ModuleState g -> analyzeCode g code language = (g', Normal r) ->
  Forall ok (split_newline code) ->
  Forall (fun l => ~ In d (reasons l)) (lineAnalysis r).
Proof.
  intros HQ Hai Hlang Hsil Hh He Hn Hr Hg H Hok.
  destruct (analyzeCode_Moves _ _ _ _ _ Hg H) as (raw & Hraw & Hmoves).
  pose proof (classifyLines_each (fun line la => ok line -> ~ In d (reasons la)) language
                ltac:(intros g0 line n g1 la Hg0 Ha Hline;
                      eapply (analyzeLine_silent g0 line n language g1 la d Q); eauto)
                _ _ _ _ _ Hg Hraw) as Hall.
  assert (Hrawd : Forall (fun l => ~ In d (reasons l)) raw).
  { clear Hraw Hmoves. induction Hall as [|line la lines raw Hl _ IH]; [constructor|].
    inversion Hok; subst. constructor; auto. }
  exact (Moves_reasons d raw _ Hr Hmoves Hrawd).
Qed.

(** ** The two rules that span lines *)

Definition functionReason : string :=
  "Contains complete function with proper return statement".
Definition conditionalReason : string :=
  "Contains comprehensive conditional logic typical of AI".
Definition indentationReason : string :=
  "Perfect 4-space indentation consistency".

(** The rule gives another reason than [d], or it has no [i] flag and each
    of its matches consumes a line feed. *)
Definition needsLineFeed (d : string) (p : DetectionPattern) : bool :=
  plainReason d p
  || (negb (ignoreCase (reflags (pattern p)))
      && consumes (N.eqb 10) (source (pattern p))).

Lemma needsLineFeed_silent d p line :
  ~ In 10%N line -> needsLineFeed d p = true -> reason p = d ->
  fst (test (pattern p) (trim line)) = false.
Proof.
  intros Hlf HQ Hd. unfold needsLineFeed, plainReason in HQ.
  rewrite Hd, String.eqb_refl in HQ. cbn [negb orb] in HQ.
  apply andb_prop in HQ as [Hi Hc]. apply negb_true_iff in Hi.
  apply (test_consumes _ _ (N.eqb 10) Hi Hc).
  apply Forall_forall. intros ch Hch. apply list_elem_of_In, trim_In in Hch.
  apply N.eqb_neq. intros <-. contradiction.
Qed.

(** X3: the rules [def ... return] and [if ... else ... break] need a line
    feed inside the line, and [analyzeCode] cuts the text at the line
    feeds: whatever the text, neither reason is on any line of the result. *)
Theorem multiline_rules_never_fire g code language g' r :
  ModuleState g -> analyzeCode g code language = (g', Normal r) ->
  Forall (fun l => ~ In functionReason (reasons l)
                   /\ ~ In conditionalReason (reasons l))
         (lineAnalysis r).
Proof.
  intros Hg H.
  assert (Hok : Forall (fun line => ~ In 10%N line) (split_newline code)).
  { apply Forall_forall. intros line Hl. apply list_elem_of_In in Hl.
    now apply split_newline_no_lf in Hl. }
  pose proof (analyzeCode_silent g code language g' r functionReason
                (needsLineFeed functionReason) (fun line => ~ In 10%N line)
                ltac:(reflexivity) eq_refl eq_refl
                ltac:(intros p line; apply needsLineFeed_silent)
                ltac:(vm_compute; intuition discriminate) ltac:(discriminate)
                ltac:(discriminate) ltac:(vm_compute; intuition discriminate)
                Hg H Hok) as H1.
  pose proof (analyzeCode_silent g code language g' r conditionalReason
                (needsLineFeed conditionalReason) (fun line => ~ In 10%N line)
                ltac:(reflexivity) eq_refl eq_refl
                ltac:(intros p line; apply needsLineFeed_silent)
                ltac:(vm_compute; intuition discriminate) ltac:(discriminate)
                ltac:(discriminate) ltac:(vm_compute; intuition discriminate)
                Hg H Hok) as H2.
  clear Hok. induction H1 as [|l ls Hl _ IH]; [constructor|].
  inversion H2; subst. constructor; auto.
Qed.

(** A [def] with its [return] on the next line, indented by four spaces. *)
Definition functionCode : jsstring :=
  unlines [js "def first(items):"; js "    return items"].

Lemma multiline_rules_never_fire_example :
  exists g' r,
    analyzeCode initial functionCode (js "python") = (g', Normal r)
    /\ Forall (fun l => ~ In functionReason (reasons l)
                        /\ ~ In conditionalReason (reasons l))
              (lineAnalysis r).
Proof.
  do 2 eexists. split; [vm_compute; reflexivity|].
  eapply (multiline_rules_never_fire initial functionCode (js "python"));
    [exact ModuleState_initial | vm_compute; reflexivity].
Defined.

(** ** The indentation rule *)

(** The rule gives another reason than [d], or it has no [i] flag and is
    [^] followed by a space. *)
Definition needsLineStart (d : string) (p : DetectionPattern) : bool :=
  plainReason d p
  || (negb (ignoreCase (reflags (pattern p))) && lineStart 32 (source (pattern p))).

Lemma needsLineStart_silent d p line :
  Forall (fun ch => isLineTerminator ch = false) line ->
  needsLineStart d p = true -> reason p = d ->
  fst (test (pattern p) (trim line)) = false.
Proof.
  intros Hlt HQ Hd. unfold needsLineStart, plainReason in HQ.
  rewrite Hd, String.eqb_refl in HQ. cbn [negb orb] in HQ.
  apply andb_prop in HQ as [Hi Hl]. apply negb_true_iff in Hi.
  assert (He : forall from, exec (reflags (pattern p)) (source (pattern p)) (trim line) from
                            = None).
  { intros from. apply (exec_lineStart _ _ _ 32%N from Hi Hl).
    - apply Forall_forall. intros ch Hch. apply list_elem_of_In, trim_In in Hch.
      apply Forall_forall with (x := ch) in Hlt; [exact Hlt|now apply list_elem_of_In].
    - destruct (trim line) as [|c t] eqn:Ht; [discriminate|].
      apply trim_head in Ht. intros [= ->]. discriminate Ht. }
  unfold test. destruct (global (pattern p)); now rewrite He.
Qed.

(** X4: the rule [^    [a-zA-Z]] is tested on trimmed lines, which do not
    begin with a space: in a text whose only line terminators are line
    feeds (no carriage return, no U+2028 or U+2029), its reason is on no
    line of the result, however the text is indented. *)
Theorem indentation_rule_never_fires g code language g' r :
  ModuleState g -> analyzeCode g code language = (g', Normal r) ->
  ~ In 13%N code -> ~ In 8232%N code -> ~ In 8233%N code ->
  Forall (fun l => ~ In indentationReason (reasons l)) (lineAnalysis r).
Proof.
  intros Hg H Hcr Hls Hps.
  assert (Hok : Forall (fun line => Forall (fun ch => isLineTerminator ch = false) line)
                       (split_newline code)).
  { apply Forall_forall. intros line Hl. apply list_elem_of_In in Hl.
    apply Forall_forall. intros ch Hch. apply list_elem_of_In in Hch.
    pose proof (split_newline_no_lf _ _ Hl) as Hlf.
    pose proof (split_newline_line _ _ _ Hl Hch) as Hin.
    unfold isLineTerminator.
    destruct (ch =? 10)%N eqn:H10; [apply N.eqb_eq in H10; subst; contradiction|].
    destruct (ch =? 13)%N eqn:H13; [apply N.eqb_eq in H13; subst; contradiction|].
    destruct (ch =? 8232)%N eqn:H1; [apply N.eqb_eq in H1; subst; contradiction|].
    destruct (ch =? 8233)%N eqn:H2; [apply N.eqb_eq in H2; subst; contradiction|].
    reflexivity. }
  exact (analyzeCode_silent g code language g' r indentationReason
           (needsLineStart indentationReason)
           (fun line => Forall (fun ch => isLineTerminator ch = false) line)
           ltac:(reflexivity) eq_refl eq_refl
           ltac:(intros p line; apply needsLineStart_silent)
           ltac:(vm_compute; intuition discriminate) ltac:(discriminate)
           ltac:(discriminate) ltac:(vm_compute; intuition discriminate)
           Hg H Hok).
Qed.

Lemma indentation_rule_never_fires_example :
  exists g' r,
    analyzeCode initial functionCode (js "python") = (g', Normal r)
    /\ Forall (fun l => ~ In indentationReason (reasons l)) (lineAnalysis r).
Proof.
  do 2 eexists. split; [vm_compute; reflexivity|].
  eapply (indentation_rule_never_fires initial functionCode (js "python"));
    [exact ModuleState_initial | vm_compute; reflexivity
    | vm_compute; intuition discriminate | vm_compute; intuition discriminate
    | vm_compute; intuition discriminate].
Defined.

End SilentRules.

(* ===================================================================== *)
(** * The verdicts that change and those that do not *)
(* ===================================================================== *)

Section OutcomeProperties.
Local Open Scope float_scope.

(** X5: a line that the result calls HUMAN has the verdict of [analyzeLine]
    unchanged, reasons included; and a HUMAN verdict on a blank line or on
    creative human code is never changed.  [raw] are the verdicts of
    [analyzeLine]. *)
Theorem human_verdicts_kept g code language g' r :
  ModuleState g -> analyzeCode g code language = (g', Normal r) ->
  exists raw,
    classifyLines g language 0 (split_newline code) = (g', Normal raw)
    /\ Forall2 (fun l l' =>
                  (isAI l' = false -> l' = l)
                  /\ (isAI l = false ->
                      nonBlank (content l) = false
                      \/ isCreativeHumanCode (content l) = true ->
                      l' = l))
               raw (lineAnalysis r).
Proof.
  intros Hg H. destruct (analyzeCode_Moves _ _ _ _ _ Hg H) as (raw & Hraw & Hm).
  exists raw. split; [exact Hraw|].
  eapply Forall2_impl; [exact Hm|]. intros l l' [Href Ho]. split.
  - intros Hh. destruct Ho as [->|Ha _|why _ Ha' _ _ _ _ _]; [reflexivity| |congruence].
    pose proof (rf_isAI _ _ Href Ha). congruence.
  - intros Hh Hc. destruct Ho as [->|Ha _|why _ _ Hnb Hcr _ _ _]; [reflexivity|congruence|].
    destruct Hc; congruence.
Qed.

Lemma human_verdicts_kept_example :
  exists g' r,
    analyzeCode initial notedCode (js "text") = (g', Normal r)
    /\ exists raw,
        classifyLines initial (js "text") 0 (split_newline notedCode) = (g', Normal raw)
        /\ Forall2 (fun l l' =>
                      (isAI l' = false -> l' = l)
                      /\ (isAI l = false ->
                          nonBlank (content l) = false
                          \/ isCreativeHumanCode (content l) = true ->
                          l' = l))
                   raw (lineAnalysis r).
Proof.
  do 2 eexists. split; [vm_compute; reflexivity|].
  eapply (human_verdicts_kept initial notedCode (js "text"));
    [exact ModuleState_initial | vm_compute; reflexivity].
Defined.

(** X6: a line that [analyzeLine] calls AI stays AI and keeps its reasons.  A
    line that turns from HUMAN to AI is neither blank nor creative human
    code; it gets one reason of the refiner appended and a confidence of
    0.75 or more. *)
Theorem ai_verdicts_moved g code language g' r :
  ModuleState g -> analyzeCode g code language = (g', Normal r) ->
  exists raw,
    classifyLines g language 0 (split_newline code) = (g', Normal raw)
    /\ Forall2 (fun l l' =>
                  (isAI l = true -> isAI l' = true /\ reasons l' = reasons l)
                  /\ (isAI l = false -> isAI l' = true ->
                      nonBlank (content l) = true
                      /\ isCreativeHumanCode (content l) = false
                      /\ (0.75 <=? confidence l') = true
                      /\ exists why, In why refinerReasons
                                     /\ reasons l' = reasons l ++ [why]))
               raw (lineAnalysis r).
Proof.
  intros Hg H. destruct (analyzeCode_Moves _ _ _ _ _ Hg H) as (raw & Hraw & Hm).
  exists raw. split; [exact Hraw|].
  eapply Forall2_impl; [exact Hm|]. intros l l' [Href Ho]. split.
  - intros Ha. split; [exact (rf_isAI _ _ Href Ha)|].
    destruct Ho as [->|_ Hr|why Ha' _ _ _ _ _ _]; [reflexivity|exact Hr|congruence].
  - intros Hh Ha'. destruct Ho as [->|Ha _|why _ _ Hnb Hcr Hw Hr Hc]; [congruence|congruence|].
    repeat split; auto. exists why. auto.
Qed.

Lemma ai_verdicts_moved_example :
  exists g' r,
    analyzeCode initial extendedCode (js "text") = (g', Normal r)
    /\ exists raw,
        classifyLines initial (js "text") 0 (split_newline extendedCode) = (g', Normal raw)
        /\ Forall2 (fun l l' =>
                      (isAI l = true -> isAI l' = true /\ reasons l' = reasons l)
                      /\ (isAI l = false -> isAI l' = true ->
                          nonBlank (content l) = true
                          /\ isCreativeHumanCode (content l) = false
                          /\ (0.75 <=? confidence l') = true
                          /\ exists why, In why refinerReasons
                                         /\ reasons l' = reasons l ++ [why]))
                   raw (lineAnalysis r).
Proof.
  do 2 eexists. split; [vm_compute; reflexivity|].
  eapply (ai_verdicts_moved initial extendedCode (js "text"));
    [exact ModuleState_initial | vm_compute; reflexivity].
Defined.

End OutcomeProperties.

(* ===================================================================== *)
(** * Blank texts and the count of lines *)
(* ===================================================================== *)

Section BlankProperties.
Local Open Scope float_scope.

(** The verdict of [analyzeLine] for a blank line. *)
Definition blankVerdict (line : jsstring) : LineAnalysis :=
  {| content := line; isAI := false; confidence := 0.5; reasons := [emptyReason] |}.

Lemma classifyLines_blank g language lines : forall i,
  existsb nonBlank lines = false ->
  classifyLines g language i lines = (g, Normal (map blankVerdict lines)).
Proof.
  induction lines as [|line lines IH]; intros i Hb; simpl; [reflexivity|].
  simpl in Hb. apply orb_false_elim in Hb as [Hl Hb].
  rewrite analyzeLine_blank by exact Hl. now rewrite IH.
Qed.

Lemma blankVerdict_ok line : nonBlank line = false -> okLine (blankVerdict line).
Proof. intros Hl. unfold okLine, nonBlankLine. cbn [content blankVerdict]. now rewrite Hl. Qed.

Lemma blankVerdicts_ok lines :
  existsb nonBlank lines = false -> Forall okLine (map blankVerdict lines).
Proof.
  induction lines as [|line lines IH]; simpl; [constructor|].
  intros Hb. apply orb_false_elim in Hb as [Hl Hb].
  constructor; [now apply blankVerdict_ok|auto].
Qed.

(** Blank HUMAN verdicts are left as they are. *)
Lemma Moves_blank la la' :
  Forall2 Moves la la' ->
  Forall (fun l => isAI l = false /\ nonBlank (content l) = false) la ->
  la' = la.
Proof.
  induction 1 as [|l l' la la' [Href Ho] _ IH]; [reflexivity|].
  intros Hb. inversion Hb as [|? ? [Hh Hnb] Hrest]; subst.
  f_equal; [|auto].
  destruct Ho as [->|Ha _|why _ _ Hnb' _ _ _ _]; [reflexivity|congruence|congruence].
Qed.

Lemma blockLoop_blank lines : forall i st,
  Forall (fun l => nonBlank (content l) = false) lines ->
  blockLoop i lines st = st.
Proof.
  induction lines as [|l lines IH]; intros i st Hb; [reflexivity|].
  inversion Hb; subst. cbn [blockLoop]. rewrite IH by assumption.
  unfold blockStep. destruct st as [blocks cur].
  match goal with H : nonBlank (content l) = false |- _ => now rewrite H end.
Qed.

(** X7: a text of white space only (the empty text too) gives the same result
    in every state of the module and under every label, and leaves the
    state as it is: no non-blank line, both percentages 0, confidence 0.5,
    no block, and the blank verdict for every line. *)
Theorem analyzeCode_blank g code language :
  truthy (trim code) = false ->
  analyzeCode g code language
  = (g, Normal {| totalLines := 0; aiLines := 0; humanLines := 0;
                  aiPercentage := 0; humanPercentage := 0;
                  overallConfidence := 0.5;
                  lineAnalysis := map blankVerdict (split_newline code);
                  aiBlocks := [] |}).
Proof.
  intros Hb. rewrite trim_lines in Hb.
  unfold analyzeCode. rewrite analyzeLines_classify.
  rewrite (classifyLines_blank g language _ 0%nat Hb). cbn [app].
  rewrite (analyzeCodeStructure_blank code Hb).
  assert (Hadj : map (adjust 0) (map blankVerdict (split_newline code))
                 = map blankVerdict (split_newline code)).
  { rewrite map_map. apply map_ext. reflexivity. }
  rewrite Hadj.
  pose proof (blankVerdicts_ok _ Hb) as Hok.
  assert (Hall : Forall (fun l => isAI l = false /\ nonBlank (content l) = false)
                        (map blankVerdict (split_newline code))).
  { apply Forall_forall. intros l Hl. apply list_elem_of_In, in_map_iff in Hl as (line & <- & Hl).
    split; [reflexivity|]. cbn [content blankVerdict].
    destruct (nonBlank line) eqn:Hnb; [|reflexivity].
    rewrite <- Hb. symmetry. apply existsb_exists. eauto. }
  rewrite (Moves_blank _ _ (applyContextualAnalysis_Moves _ Hok) Hall).
  assert (Hnb : Forall (fun l => nonBlank (content l) = false)
                       (map blankVerdict (split_newline code))).
  { eapply Forall_impl; [exact Hall|]. now intros l [_ H]. }
  unfold summarize, detectAIBlocks. rewrite (blockLoop_blank _ _ _ Hnb).
  assert (Hf : List.filter (fun l => nonBlank (content l))
                 (map blankVerdict (split_newline code)) = []).
  { clear -Hnb. induction Hnb as [|l ls Hl _ IH]; [reflexivity|].
    cbn [List.filter]. now rewrite Hl. }
  rewrite Hf. reflexivity.
Qed.

Lemma analyzeCode_blank_example :
  analyzeCode initial (js "  ") (js "constructor")
  = (initial, Normal {| totalLines := 0; aiLines := 0; humanLines := 0;
                        aiPercentage := 0; humanPercentage := 0;
                        overallConfidence := 0.5;
                        lineAnalysis := map blankVerdict (split_newline (js "  "));
                        aiBlocks := [] |}).
Proof. apply analyzeCode_blank. reflexivity. Defined.

(** X8: the number of lines that a result reports is the number of non-blank
    lines of the text; it is positive exactly when the text is not blank,
    which is what both callers test before they call [analyzeCode]. *)
Theorem totalLines_counts_text g code language g' r :
  analyzeCode g code language = (g', Normal r) ->
  totalLines r = length (List.filter nonBlank (split_newline code))
  /\ length (lineAnalysis r) = length (split_newline code)
  /\ (0 <? totalLines r)%nat = truthy (trim code).
Proof.
  intros H. pose proof (analyzeCode_content _ _ _ _ _ H) as Hc.
  destruct (analyzeCode_stages _ _ _ _ _ H) as (raw & _ & Hr).
  assert (Ht : totalLines r = length (List.filter nonBlank (split_newline code))).
  { rewrite <- Hc. rewrite Hr. cbn [summarize totalLines lineAnalysis].
    generalize (applyContextualAnalysis (map (adjust (analyzeCodeStructure code)) raw)).
    intros la. induction la as [|l la IH]; [reflexivity|].
    cbn [List.filter map]. destruct (nonBlank (content l)); cbn [length]; now rewrite IH. }
  split; [exact Ht|]. split; [now rewrite <- Hc, length_map|].
  rewrite Ht, trim_lines.
  generalize (split_newline code). intros lines.
  induction lines as [|line lines IH]; [reflexivity|].
  cbn [List.filter existsb]. destruct (nonBlank line); [reflexivity|exact IH].
Qed.

Lemma totalLines_counts_text_example :
  exists g' r,
    analyzeCode initial gappedCode (js "text") = (g', Normal r)
    /\ totalLines r = length (List.filter nonBlank (split_newline gappedCode))
    /\ length (lineAnalysis r) = length (split_newline gappedCode)
    /\ (0 <? totalLines r)%nat = truthy (trim gappedCode).
Proof.
  do 2 eexists. split; [vm_compute; reflexivity|].
  eapply (totalLines_counts_text initial gappedCode (js "text")). vm_compute; reflexivity.
Defined.

End BlankProperties.

(* ===================================================================== *)
(** * What a block says of its lines *)
(* ===================================================================== *)

Section BlockData.
Local Open Scope float_scope.
Implicit Types (la pre : list LineAnalysis) (b : AIBlock.t).

(** The non-blank lines from line [s] to line [e]. *)
Definition span la (s e : nat) : list LineAnalysis :=
  List.filter nonBlankLine (take (e - (s - 1)) (drop (s - 1) la)).

Lemma members_span la b : members la b = span la (AIBlock.startLine b) (AIBlock.endLine b).
Proof. reflexivity. Qed.

Lemma span_app la x s e : (e <= length la)%nat -> span (la ++ [x]) s e = span la s e.
Proof.
  intros He. unfold span. f_equal.
  destruct (decide (s - 1 <= length la)%nat) as [Hs|Hs].
  - rewrite drop_app_le by lia. rewrite take_app_le; [reflexivity|].
    rewrite length_drop. lia.
  - replace (e - (s - 1))%nat with O by lia. reflexivity.
Qed.

Lemma filter_blank_nil ls :
  Forall (fun l => nonBlankLine l = false) ls -> List.filter nonBlankLine ls = [].
Proof. induction 1 as [|l ls Hl _ IH]; [reflexivity|]. cbn [List.filter]. now rewrite Hl. Qed.

(** A run followed by blank lines only, extended by a non-blank line. *)
Lemma span_extend pre line s e :
  (1 <= s)%nat -> (s <= e)%nat -> (e <= length pre)%nat ->
  (forall j l, (e <= j)%nat -> pre !! j = Some l -> nonBlankLine l = false) ->
  nonBlankLine line = true ->
  span (pre ++ [line]) s (length pre + 1) = span pre s e ++ [line].
Proof.
  intros Hs Hse He Hblank Hnb. unfold span.
  rewrite drop_app_le by lia.
  rewrite take_ge by (rewrite length_app, length_drop; simpl; lia).
  rewrite List.filter_app. cbn [List.filter]. rewrite Hnb. f_equal.
  rewrite <- (take_drop (e - (s - 1)) (drop (s - 1) pre)) at 1.
  rewrite List.filter_app.
  rewrite (filter_blank_nil (drop (e - (s - 1)) (drop (s - 1) pre))).
  - apply app_nil_r.
  - apply Forall_forall. intros l Hl. apply list_elem_of_lookup in Hl as [k Hk].
    rewrite !lookup_drop in Hk. eapply Hblank; [|exact Hk]. lia.
Qed.

Lemma span_single pre line :
  nonBlankLine line = true ->
  span (pre ++ [line]) (length pre + 1) (length pre + 1) = [line].
Proof.
  intros Hnb. unfold span.
  replace (length pre + 1 - 1)%nat with (length pre) by lia.
  rewrite drop_app_le by lia. rewrite drop_all. cbn [app].
  replace (length pre + 1 - length pre)%nat with 1%nat by lia.
  cbn [take List.filter]. now rewrite Hnb.
Qed.

(** ** Sets of reasons *)

Lemma setAdd_In set x why : In why (setAdd set x) <-> In why set \/ why = x.
Proof.
  unfold setAdd. destruct (existsb (String.eqb x) set) eqn:He.
  - apply existsb_exists in He as (y & Hy & Heq). apply String.eqb_eq in Heq. subst y.
    split; [auto|]. intros [H| ->]; auto.
  - rewrite in_app_iff. simpl. split; intros [H|H]; auto.
    + destruct H as [<-|[]]. auto.
Qed.

Lemma setAdd_NoDup set x : NoDup set -> NoDup (setAdd set x).
Proof.
  intros Hn. unfold setAdd. destruct (existsb (String.eqb x) set) eqn:He; [exact Hn|].
  apply NoDup_app. split; [|split].
  - exact Hn.
  - intros y Hy Hx. apply list_elem_of_singleton in Hx. subst y.
    assert (existsb (String.eqb x) set = true); [|congruence].
    apply existsb_exists. exists x. split; [now apply list_elem_of_In|apply String.eqb_refl].
  - apply NoDup_singleton.
Qed.

Lemma setAddAll_In xs : forall set why,
  In why (setAddAll set xs) <-> In why set \/ In why xs.
Proof.
  unfold setAddAll. induction xs as [|x xs IH]; intros set why; cbn [fold_left].
  - simpl. tauto.
  - rewrite IH, setAdd_In. simpl. intuition (subst; auto).
Qed.

Lemma setAddAll_NoDup xs : forall set, NoDup set -> NoDup (setAddAll set xs).
Proof.
  unfold setAddAll. induction xs as [|x xs IH]; intros set Hn; cbn [fold_left]; [exact Hn|].
  apply IH. now apply setAdd_NoDup.
Qed.

Lemma setAddAll_app set xs ys :
  setAddAll (setAddAll set xs) ys = setAddAll set (xs ++ ys).
Proof. unfold setAddAll. now rewrite fold_left_app. Qed.

(** ** The invariant *)

(** What [detectAIBlocks] records of the lines [ms] of a block. *)
Definition Summary (ms : list LineAnalysis) (cls : bool) b : Prop :=
  AIBlock.confidence b
  = JSNumber.sum (map confidence ms) / ofNat (length ms)
  /\ AIBlock.confidenceLevel b = getConfidenceLevel (AIBlock.confidence b) cls
  /\ AIBlock.reasons b = setAddAll [] (concat (map reasons ms)).

Definition DataInv pre (st : list AIBlock.t * option CurrentBlock) : Prop :=
  Forall (fun b => Summary (members pre b) (blockIsAI pre b) b) (fst st)
  /\ match snd st with
     | None => True
     | Some cb =>
         confidences cb = map confidence (span pre (cb_start cb) (cb_end cb))
         /\ cb_reasons cb
            = setAddAll [] (concat (map reasons (span pre (cb_start cb) (cb_end cb))))
     end.

Lemma Summary_app pre x b :
  GoodBlock pre b -> Summary (members pre b) (blockIsAI pre b) b ->
  Summary (members (pre ++ [x]) b) (blockIsAI (pre ++ [x]) b) b.
Proof.
  intros [[Hr _ _ _] _] Hs. rewrite !members_span in *.
  rewrite span_app by lia. rewrite blockIsAI_app by lia. exact Hs.
Qed.

Lemma emit_Summary pre cb b :
  emit cb = [b] ->
  confidences cb = map confidence (span pre (cb_start cb) (cb_end cb)) ->
  cb_reasons cb = setAddAll [] (concat (map reasons (span pre (cb_start cb) (cb_end cb)))) ->
  AIBlock.startLine b = cb_start cb /\ AIBlock.endLine b = cb_end cb
  /\ Summary (span pre (cb_start cb) (cb_end cb)) (cb_isAI cb) b.
Proof.
  unfold emit. destruct (2 <=? length (confidences cb))%nat; [|discriminate].
  intros [= <-] Hc Hr. cbn. split; [reflexivity|]. split; [reflexivity|].
  unfold Summary. cbn. rewrite Hc, Hr, length_map. auto.
Qed.

Lemma blockStep_data pre st line :
  BlockInv pre st -> DataInv pre st ->
  DataInv (pre ++ [line]) (blockStep st (length pre) line).
Proof.
  destruct st as [blocks cur]. intros [Hchain Hcur] [Hblocks Hdata].
  cbn [fst snd] in *.
  assert (Hblocks' : Forall (fun b => Summary (members (pre ++ [line]) b)
                                        (blockIsAI (pre ++ [line]) b) b) blocks).
  { apply Forall_forall. intros b Hb. apply Summary_app.
    - now apply (proj1 Hchain).
    - apply Forall_forall with (x := b) in Hblocks; auto. }
  unfold blockStep. fold (nonBlankLine line).
  destruct (nonBlankLine line) eqn:Hnb; cbn [negb].
  2:{ split; [exact Hblocks'|]. cbn [snd]. destruct cur as [cb|]; [|exact I].
      destruct Hcur as ([Hr _ _ _] & _). rewrite span_app by lia. exact Hdata. }
  destruct cur as [cb|].
  2:{ split; [exact Hblocks'|]. cbn [snd cb_start cb_end confidences cb_reasons].
      rewrite span_single by exact Hnb. cbn [map concat]. now rewrite app_nil_r. }
  destruct Hcur as (Hrun & Hlen & Hblank & Hlast). destruct Hdata as [Hc Hr].
  pose proof Hrun as [Hrange _ _ _].
  destruct (Bool.eqb (cb_isAI cb) (isAI line)).
  - split; [exact Hblocks'|]. cbn [snd cb_start cb_end confidences cb_reasons].
    rewrite (span_extend pre line (cb_start cb) (cb_end cb)) by (auto; lia).
    rewrite !map_app, concat_app. cbn [map concat]. rewrite app_nil_r.
    rewrite Hc, Hr, setAddAll_app. auto.
  - split.
    + cbn [fst]. apply Forall_app. split; [exact Hblocks'|].
      destruct (emit_cases cb) as [(Hge & b & Hb & Hs & He)|(_ & ->)]; [|constructor].
      rewrite Hb. constructor; [|constructor].
      destruct (emit_Summary pre cb b Hb Hc Hr) as (_ & _ & Hsum).
      destruct (Run_GoodBlock pre b (cb_isAI cb)) as [Hgood Hcls].
      { now rewrite Hs, He. } { rewrite Hs, He. lia. }
      apply Summary_app; [exact Hgood|].
      rewrite members_span, Hs, He, Hcls. exact Hsum.
    + cbn [snd cb_start cb_end confidences cb_reasons].
      rewrite span_single by exact Hnb. cbn [map concat]. now rewrite app_nil_r.
Qed.

Lemma blockLoop_data lines : forall pre st,
  BlockInv pre st -> DataInv pre st ->
  DataInv (pre ++ lines) (blockLoop (length pre) lines st).
Proof.
  induction lines as [|line lines IH]; intros pre st Hinv Hdata; simpl.
  - now rewrite app_nil_r.
  - replace (pre ++ line :: lines) with ((pre ++ [line]) ++ lines)
      by (now rewrite <- app_assoc).
    replace (S (length pre)) with (length (pre ++ [line]))
      by (rewrite length_app; simpl; lia).
    apply IH; [now apply blockStep_inv|now apply blockStep_data].
Qed.

Lemma detectAIBlocks_data la :
  Forall (fun b => Summary (members la b) (blockIsAI la b) b) (detectAIBlocks la).
Proof.
  unfold detectAIBlocks.
  assert (Hinv0 : BlockInv [] ([], None)).
  { split; simpl.
    - split; [intros b Hb; inversion Hb|]. intros k b b' Hk. discriminate.
    - split; [reflexivity|]. intros j l Hjl. discriminate. }
  assert (Hdata0 : DataInv [] ([], None)) by (split; [constructor|exact I]).
  pose proof (blockLoop_inv la [] _ Hinv0) as Hinv.
  pose proof (blockLoop_data la [] _ Hinv0 Hdata0) as Hdata.
  cbn [app length] in Hinv, Hdata.
  destruct (blockLoop 0 la ([], None)) as [blocks cur].
  destruct Hinv as [Hchain Hcur]. destruct Hdata as [Hblocks Hd]. cbn [fst snd] in *.
  apply Forall_app. split; [exact Hblocks|].
  destruct cur as [cb|]; [|constructor]. cbn [emitOpt].
  destruct Hcur as (Hrun & Hlen & _ & _). destruct Hd as [Hc Hr].
  destruct (emit_cases cb) as [(Hge & b & Hb & Hs & He)|(_ & ->)]; [|constructor].
  rewrite Hb. constructor; [|constructor].
  destruct (emit_Summary la cb b Hb Hc Hr) as (_ & _ & Hsum).
  destruct (Run_GoodBlock la b (cb_isAI cb)) as [Hgood Hcls].
  { now rewrite Hs, He. } { rewrite Hs, He. lia. }
  rewrite members_span, Hs, He, Hcls. exact Hsum.
Qed.

End BlockData.

Section BlockProperties2.
Local Open Scope float_scope.
Implicit Types (la pre : list LineAnalysis) (b : AIBlock.t).

(** X9: every block that [detectAIBlocks] emits summarises its non-blank lines:
    its confidence is their mean, its level is [getConfidenceLevel] of that
    mean and of their classification (an AI level or [Uncertain] for AI
    lines, a human level or [Uncertain] for HUMAN lines), and its reasons
    are theirs, each once. *)
Theorem block_summary la :
  Forall (fun b =>
            let ms := members la b in
            AIBlock.confidence b = JSNumber.sum (map confidence ms) / ofNat (length ms)
            /\ AIBlock.confidenceLevel b
               = getConfidenceLevel (AIBlock.confidence b) (blockIsAI la b)
            /\ In (AIBlock.confidenceLevel b)
                  (if blockIsAI la b
                   then [StronglyAI; ModerateAI; LikelyAI; Uncertain]
                   else [StronglyHuman; LikelyHuman; Uncertain])
            /\ NoDup (AIBlock.reasons b)
            /\ (forall why, In why (AIBlock.reasons b)
                            <-> exists l, In l ms /\ In why (reasons l)))
         (detectAIBlocks la).
Proof.
  eapply Forall_impl; [apply detectAIBlocks_data|].
  intros b (Hc & Hl & Hr). cbv zeta. split; [exact Hc|]. split; [exact Hl|]. split; [|split].
  - rewrite Hl. unfold getConfidenceLevel.
    destruct (blockIsAI la b); repeat destruct (ge _ _); simpl; tauto.
  - rewrite Hr. apply setAddAll_NoDup. constructor.
  - intros why. rewrite Hr, setAddAll_In, in_concat. split.
    + intros [[]|(rs & Hrs & Hin)]. apply in_map_iff in Hrs as (l & <- & Hl'). eauto.
    + intros (l & Hl' & Hin). right. exists (reasons l). split; [|exact Hin].
      apply in_map_iff. eauto.
Qed.

(** ** No run of two lines is left out *)

(** Two non-blank lines of one classification with only blank lines
    between them. *)
Definition Adjacent la (i j : nat) : Prop :=
  (i < j)%nat
  /\ exists li lj, la !! i = Some li /\ la !! j = Some lj
       /\ nonBlankLine li = true /\ nonBlankLine lj = true
       /\ isAI li = isAI lj
       /\ forall k l, (i < k < j)%nat -> la !! k = Some l -> nonBlankLine l = false.

Definition CoverInv pre (st : list AIBlock.t * option CurrentBlock) : Prop :=
  forall i j, Adjacent pre i j ->
    (exists b, In b (fst st)
               /\ (AIBlock.startLine b <= i + 1)%nat /\ (j + 1 <= AIBlock.endLine b)%nat)
    \/ match snd st with
       | Some cb => (cb_start cb <= i + 1)%nat /\ (j + 1 <= cb_end cb)%nat
       | None => False
       end.

Lemma Adjacent_app pre line i j :
  Adjacent (pre ++ [line]) i j -> (j < length pre)%nat -> Adjacent pre i j.
Proof.
  intros (Hij & li & lj & Hi & Hj & Hni & Hnj & Hc & Hb) Hlt. split; [exact Hij|].
  exists li, lj. rewrite lookup_app_l in Hi by lia. rewrite lookup_app_l in Hj by lia.
  repeat split; auto. intros k l Hk Hkl. apply (Hb k l Hk).
  rewrite lookup_app_l by lia. exact Hkl.
Qed.

Lemma blockStep_cover pre st line :
  BlockInv pre st -> CoverInv pre st ->
  CoverInv (pre ++ [line]) (blockStep st (length pre) line).
Proof.
  destruct st as [blocks cur]. intros [Hchain Hcur] Hcov i j Hadj.
  cbn [fst snd] in *. pose proof (proj1 Hadj) as Hlt.
  assert (Hj : (j < length pre + 1)%nat).
  { destruct Hadj as (_ & li & lj & _ & Hj & _). apply lookup_lt_Some in Hj.
    rewrite length_app in Hj. simpl in Hj. lia. }
  unfold blockStep. fold (nonBlankLine line).
  destruct (decide (j < length pre)%nat) as [Hold|Hnew].
  - (* a pair of earlier lines *)
    pose proof (Hcov i j (Adjacent_app _ _ _ _ Hadj Hold)) as Hc. cbn [fst snd] in Hc.
    destruct (nonBlankLine line); cbn [negb]; [|exact Hc].
    destruct cur as [cb|]; [|destruct Hc as [Hc|[]]; left; exact Hc].
    destruct Hcur as (Hrun & Hlen & Hblank & Hlast). pose proof Hrun as [Hrange _ _ _].
    destruct (Bool.eqb (cb_isAI cb) (isAI line)); cbn [fst snd].
    + destruct Hc as [Hc|[Hs He]]; [left; exact Hc|]. right. cbn. lia.
    + destruct Hc as [(b & Hb & Hc)|[Hs He]].
      * left. exists b. split; [apply in_or_app; now left|exact Hc].
      * destruct (emit_cases cb) as [(Hge & b & Hb & Hbs & Hbe)|(Hlt2 & _)]; [|lia].
        left. exists b. rewrite Hb. split; [apply in_or_app; right; now left|]. lia.
  - (* the new line closes a pair *)
    assert (j = length pre) by lia. subst j.
    destruct Hadj as (Hij & li & lj & Hi & Hj' & Hni & Hnj & Hc & Hb).
    rewrite lookup_app_l in Hi by lia.
    rewrite lookup_app_r in Hj' by lia. rewrite Nat.sub_diag in Hj'.
    injection Hj' as <-. rewrite Hnj. cbn [negb].
    destruct cur as [cb|].
    2:{ destruct Hcur as [_ Hblank]. rewrite (Hblank i li Hi) in Hni. discriminate. }
    destruct Hcur as (Hrun & Hlen & Hblank & Hlast).
    destruct Hrun as [Hrange _ (le & Hle & Hnle) Hu].
    assert (Hie : (i < cb_end cb)%nat).
    { destruct (decide (i < cb_end cb)%nat); [assumption|].
      rewrite (Hblank i li ltac:(lia) Hi) in Hni. discriminate. }
    assert (Hi' : i = (cb_end cb - 1)%nat).
    { destruct (decide (i = cb_end cb - 1)%nat); [assumption|]. exfalso.
      assert (Hbl : nonBlankLine le = false).
      { apply (Hb (cb_end cb - 1)%nat le); [lia|]. rewrite lookup_app_l by lia. exact Hle. }
      congruence. }
    assert (Hcls : cb_isAI cb = isAI line).
    { rewrite <- Hc. symmetry.
      destruct (decide (cb_start cb - 1 <= i)%nat) as [Hsi|Hsi]; [|lia].
      apply (Hu i li); auto; lia. }
    rewrite Hcls, Bool.eqb_reflx. right. cbn. lia.
Qed.

Lemma blockLoop_cover lines : forall pre st,
  BlockInv pre st -> CoverInv pre st ->
  CoverInv (pre ++ lines) (blockLoop (length pre) lines st).
Proof.
  induction lines as [|line lines IH]; intros pre st Hinv Hcov; simpl.
  - now rewrite app_nil_r.
  - replace (pre ++ line :: lines) with ((pre ++ [line]) ++ lines)
      by (now rewrite <- app_assoc).
    replace (S (length pre)) with (length (pre ++ [line]))
      by (rewrite length_app; simpl; lia).
    apply IH; [now apply blockStep_inv|now apply blockStep_cover].
Qed.

(** X10: two non-blank lines of the same classification with nothing but blank
    lines between them always lie in one emitted block: [detectAIBlocks]
    drops single lines only. *)
Theorem blocks_cover_runs la i j li lj :
  (i < j)%nat -> la !! i = Some li -> la !! j = Some lj ->
  nonBlank (content li) = true -> nonBlank (content lj) = true ->
  isAI li = isAI lj ->
  (forall k l, (i < k < j)%nat -> la !! k = Some l -> nonBlank (content l) = false) ->
  exists b, In b (detectAIBlocks la)
            /\ (AIBlock.startLine b <= i + 1)%nat /\ (j + 1 <= AIBlock.endLine b)%nat.
Proof.
  intros Hij Hi Hj Hni Hnj Hc Hb.
  assert (Hadj : Adjacent la i j).
  { split; [exact Hij|]. exists li, lj. repeat split; auto. }
  unfold detectAIBlocks.
  assert (Hinv0 : BlockInv [] ([], None)).
  { split; simpl.
    - split; [intros b Hb'; inversion Hb'|]. intros k b b' Hk. discriminate.
    - split; [reflexivity|]. intros k l Hkl. discriminate. }
  assert (Hcov0 : CoverInv [] ([], None)).
  { intros i0 j0 (_ & l1 & _ & H1 & _). discriminate. }
  pose proof (blockLoop_inv la [] _ Hinv0) as Hinv.
  pose proof (blockLoop_cover la [] _ Hinv0 Hcov0) as Hcov.
  cbn [app length] in Hinv, Hcov.
  destruct (blockLoop 0 la ([], None)) as [blocks cur].
  destruct Hinv as [_ Hcur]. specialize (Hcov i j Hadj). cbn [fst snd] in *.
  destruct Hcov as [(b & Hin & Hcv)|Hcv].
  - exists b. split; [apply in_or_app; now left|exact Hcv].
  - destruct cur as [cb|]; [|destruct Hcv]. destruct Hcv as [Hs He].
    destruct Hcur as (_ & Hlen & _ & _). cbn [emitOpt].
    destruct (emit_cases cb) as [(Hge & b & Hb' & Hbs & Hbe)|(Hlt2 & _)]; [|lia].
    exists b. rewrite Hb'. split; [apply in_or_app; right; now left|lia].
Qed.

Lemma blocks_cover_runs_example :
  exists g' r,
    analyzeCode initial notedCode (js "text") = (g', Normal r)
    /\ exists b, In b (detectAIBlocks (lineAnalysis r))
                 /\ (AIBlock.startLine b <= 3 + 1)%nat /\ (4 + 1 <= AIBlock.endLine b)%nat.
Proof.
  do 2 eexists. split; [vm_compute; reflexivity|].
  eapply (blocks_cover_runs _ 3 4);
    [lia | vm_compute; reflexivity | vm_compute; reflexivity | vm_compute; reflexivity
    | vm_compute; reflexivity | vm_compute; reflexivity | intros k l Hk; lia].
Defined.

End BlockProperties2.

(* ===================================================================== *)
(** * The extension of a path *)
(* ===================================================================== *)

Section StarFacts.
Variable fl : flags.
Variable s : jsstring.
Variables (invert : bool) (items : list class_item).

(** The character at [k] belongs to the class. *)
Definition inClass (k : nat) : Prop :=
  exists ch, s !! k = Some ch /\ xorb invert (class_holds fl items ch) = true.

(** Where a repetition of a character class stops, every character it
    went over belongs to the class. *)
Lemma star_class_answer greedy : forall fuel min x c r,
  RepeatMatcher fuel (compile fl s (Class invert items)) greedy min x c = Some r ->
  exists z, x <= z /\ c z = Some r /\ forall k, x <= k < z -> inClass k.
Proof.
  induction fuel as [|fuel IH]; intros min x c r; [discriminate|].
  cbn [RepeatMatcher].
  set (d := fun y => if (min =? 0) && (y =? x) then None
                     else RepeatMatcher fuel (compile fl s (Class invert items))
                            greedy (pred min) y c).
  assert (Hmd : compile fl s (Class invert items) x d = Some r ->
                exists z, x <= z /\ c z = Some r /\ forall k, x <= k < z -> inClass k).
  { cbn [compile]. destruct (s !! x) as [ch|] eqn:Hch; [|discriminate].
    destruct (xorb invert (class_holds fl items ch)) eqn:Hcl; [|discriminate].
    unfold d. destruct ((min =? 0) && (S x =? x)); [discriminate|].
    intros H. apply IH in H as (z & Hz & Hc & Hk).
    exists z. split; [lia|]. split; [exact Hc|].
    intros k Hkx. destruct (decide (k = x)) as [->|Hne]; [exists ch; auto|].
    apply Hk. lia. }
  destruct (negb (min =? 0)); [exact Hmd|].
  destruct greedy.
  - destruct (compile fl s (Class invert items) x d) as [r'|] eqn:Hm.
    + intros [= <-]. now apply Hmd.
    + intros Hc. exists x. split; [lia|]. split; [exact Hc|]. intros k Hk. lia.
  - destruct (c x) as [r'|] eqn:Hcx.
    + intros [= <-]. exists x. split; [lia|]. split; [exact Hcx|]. intros k Hk. lia.
    + exact Hmd.
Qed.

Lemma compile_Class x d :
  compile fl s (Class invert items) x d
  = match s !! x with
    | Some ch => if xorb invert (class_holds fl items ch) then d (S x) else None
    | None => None
    end.
Proof. reflexivity. Qed.

(** A greedy repetition over characters that all belong to the class goes
    to the end of the string, if the rest of the pattern matches there. *)
Lemma star_class_all c r : forall n x fuel,
  x + n = length s -> n < fuel ->
  (forall k, x <= k < length s -> inClass k) ->
  c (length s) = Some r ->
  RepeatMatcher fuel (compile fl s (Class invert items)) true 0 x c = Some r.
Proof.
  induction n as [|n IH]; intros x fuel Hx Hf Hall Hc;
    (destruct fuel as [|fuel]; [lia|]); cbn [RepeatMatcher Nat.eqb negb andb];
    rewrite compile_Class.
  - assert (s !! x = None) as -> by (apply lookup_ge_None_2; lia).
    replace x with (length s) by lia. exact Hc.
  - destruct (Hall x ltac:(lia)) as (ch & Hch & Hcl). rewrite Hch, Hcl.
    replace (S x =? x) with false by (symmetry; apply Nat.eqb_neq; lia).
    cbn [pred]. rewrite (IH (S x) fuel); auto; try lia.
    intros k Hk. apply Hall. lia.
Qed.
End StarFacts.

Section ExtensionFacts.
Import GitHubAnalyzer.

Lemma searchFrom_found fl (s : jsstring) r : forall n x b e,
  searchFrom fl s r n x = Some (b, e) ->
  matchAt fl s r b = Some e /\ x <= b <= x + n
  /\ forall y, x <= y < b -> matchAt fl s r y = None.
Proof.
  induction n as [|n IH]; intros x b e; cbn [searchFrom];
    destruct (matchAt fl s r x) as [e'|] eqn:Hm.
  - intros [= <- <-]. split; [exact Hm|]. split; [lia|]. intros y Hy. lia.
  - discriminate.
  - intros [= <- <-]. split; [exact Hm|]. split; [lia|]. intros y Hy. lia.
  - intros H. apply IH in H as (H1 & H2 & H3). split; [exact H1|]. split; [lia|].
    intros y Hy. destruct (decide (y = x)) as [->|Hne]; [exact Hm|]. apply H3. lia.
Qed.

Lemma searchFrom_first fl (s : jsstring) r b e : forall n x,
  x <= b <= x + n -> matchAt fl s r b = Some e ->
  (forall y, x <= y < b -> matchAt fl s r y = None) ->
  searchFrom fl s r n x = Some (b, e).
Proof.
  induction n as [|n IH]; intros x Hb Hm Hnone; cbn [searchFrom].
  - replace x with b by lia. now rewrite Hm.
  - destruct (decide (x = b)) as [->|Hne]; [now rewrite Hm|].
    rewrite Hnone by lia. apply IH; [lia|exact Hm|]. intros y Hy. apply Hnone. lia.
Qed.

Definition dot : char := 46%N.

Lemma notDot_class a :
  xorb true (class_holds noFlags [CChar dot] a) = negb (a =? dot)%N.
Proof.
  unfold class_holds, Canonicalize. cbn. rewrite orb_false_r.
  rewrite N.eqb_sym. reflexivity.
Qed.

Lemma extensionPattern_eq :
  extensionPattern
  = Seq (Char dot) (Seq (Repeat true 0 (Class true [CChar dot])) Eol).
Proof. reflexivity. Qed.

(** What [extensionPattern] matches at [x]: from a dot at [x] to the end
    of the string, when no dot follows. *)
Lemma extensionPattern_matchAt (s : jsstring) x e :
  matchAt noFlags s extensionPattern x = Some e
  <-> s !! x = Some dot /\ e = length s
      /\ forall k ch, x < k -> s !! k = Some ch -> ch <> dot.
Proof.
  unfold matchAt. rewrite extensionPattern_eq. cbn [compile].
  destruct (s !! x) as [ch0|] eqn:Hx.
  2:{ split; [discriminate|]. intros [H _]. discriminate. }
  unfold Canonicalize. cbn [ignoreCase noFlags andb].
  destruct (ch0 =? dot)%N eqn:Hd.
  2:{ split; [discriminate|]. intros [[= ->] _]. now rewrite N.eqb_refl in Hd. }
  apply N.eqb_eq in Hd. subst ch0.
  pose proof (lookup_lt_Some _ _ _ Hx) as Hlt.
  set (c := fun y : nat =>
              if (y =? length s) || (multiline noFlags && lineTerminatorAt s y)
              then Some y else None).
  assert (Hc : forall y r, c y = Some r <-> y = length s /\ r = y).
  { intros y r. unfold c. cbn [multiline noFlags andb]. rewrite orb_false_r.
    destruct (y =? length s) eqn:Hy.
    - apply Nat.eqb_eq in Hy. split; [intros [= <-]; auto|intros [_ ->]; reflexivity].
    - apply Nat.eqb_neq in Hy. split; [discriminate|intros [? _]; contradiction]. }
  split.
  - intros H. apply star_class_answer in H as (z & Hz & Hcz & Hk).
    apply Hc in Hcz as [-> ->]. split; [reflexivity|]. split; [reflexivity|].
    intros k ch Hxk Hch. pose proof (lookup_lt_Some _ _ _ Hch) as Hkl.
    destruct (Hk k ltac:(lia)) as (ch' & Hch' & Hcl).
    rewrite Hch in Hch'. injection Hch' as <-.
    rewrite notDot_class in Hcl. apply negb_true_iff, N.eqb_neq in Hcl. exact Hcl.
  - intros (_ & -> & Hno).
    apply (star_class_all noFlags s true [CChar dot] c (length s) (length s - S x) (S x));
      try lia.
    + intros k Hk. destruct (lookup_lt_is_Some_2 s k ltac:(lia)) as [ch Hch].
      exists ch. split; [exact Hch|]. rewrite notDot_class.
      apply negb_true_iff, N.eqb_neq. apply (Hno k ch); [lia|exact Hch].
    + apply Hc. auto.
Qed.

(** The string that [extensionPattern] matches in [s]: the part of [s]
    from its last dot on; the empty string when [s] has no dot. *)
Lemma matched_extension (s : jsstring) :
  (forall ch, In ch s -> ch <> dot) /\ matched noFlags extensionPattern s = []
  \/ exists stem rest,
       s = stem ++ dot :: rest /\ (forall ch, In ch rest -> ch <> dot)
       /\ matched noFlags extensionPattern s = dot :: rest.
Proof.
  unfold matched, exec. replace (length s <? 0) with false by reflexivity.
  rewrite Nat.sub_0_r.
  destruct (searchFrom noFlags s extensionPattern (length s) 0) as [[b e]|] eqn:Hs.
  - right. apply searchFrom_found in Hs as (Hm & _ & _).
    apply extensionPattern_matchAt in Hm as (Hb & -> & Hno).
    pose proof (lookup_lt_Some _ _ _ Hb) as Hlt.
    exists (take b s), (drop (S b) s).
    assert (Hd : drop b s = dot :: drop (S b) s) by (now apply drop_S).
    split; [now rewrite <- Hd, take_drop|]. split.
    + intros ch Hin. apply list_elem_of_In, list_elem_of_lookup in Hin as [k Hk].
      rewrite lookup_drop in Hk. apply (Hno (S b + k) ch); [lia|exact Hk].
    + rewrite take_ge by (rewrite length_drop; lia). exact Hd.
  - left. split; [|reflexivity]. intros ch Hin ->.
    assert (Hex : exists b, s !! b = Some dot
                            /\ forall k ch, b < k -> s !! k = Some ch -> ch <> dot).
    { clear Hs. induction s as [|a t IH]; [destruct Hin|].
      destruct (in_dec N.eq_dec dot t) as [Hi|Hni].
      - destruct (IH Hi) as (b & Hb & Hno). exists (S b). split; [exact Hb|].
        intros k ch Hk Hch. destruct k as [|k]; [lia|]. apply (Hno k ch); [lia|exact Hch].
      - destruct Hin as [->|Hi]; [|contradiction]. exists 0. split; [reflexivity|].
        intros k ch Hk Hch. destruct k as [|k]; [lia|]. simpl in Hch.
        intros ->. apply Hni. apply list_elem_of_In. eapply list_elem_of_lookup_2; eauto. }
    destruct Hex as (b & Hb & Hno).
    pose proof (lookup_lt_Some _ _ _ Hb) as Hlt.
    assert (Hm : matchAt noFlags s extensionPattern b = Some (length s)).
    { apply extensionPattern_matchAt. auto. }
    assert (Hnone : forall y, 0 <= y < b -> matchAt noFlags s extensionPattern y = None).
    { intros y Hy. destruct (matchAt noFlags s extensionPattern y) as [e|] eqn:He;
        [|reflexivity].
      apply extensionPattern_matchAt in He as (_ & _ & Hn). destruct (Hn b dot); auto. lia. }
    rewrite (searchFrom_first noFlags s extensionPattern b (length s) (length s) 0) in Hs;
      [discriminate|lia|exact Hm|exact Hnone].
Qed.

End ExtensionFacts.

(* ===================================================================== *)
(** * Paths, extensions and language labels *)
(* ===================================================================== *)

Section PathFacts.
Import GitHubAnalyzer.

Definition dotFree (rest : jsstring) : Prop := forall a, In a rest -> a <> dot.

(** A string splits in one way only into a stem, a dot and a rest
    without dots. *)
Lemma last_dot_unique : forall stem stem' rest rest',
  stem ++ dot :: rest = stem' ++ dot :: rest' ->
  dotFree rest -> dotFree rest' -> stem = stem' /\ rest = rest'.
Proof.
  induction stem as [|a stem IH]; intros [|a' stem'] rest rest' Heq Hr Hr'; simpl in Heq.
  - injection Heq as ->. auto.
  - injection Heq as <- ->. destruct (Hr dot); [|reflexivity].
    apply in_or_app. right. now left.
  - injection Heq as -> <-. destruct (Hr' dot); [|reflexivity].
    apply in_or_app. right. now left.
  - injection Heq as -> Heq. destruct (IH stem' rest rest' Heq Hr Hr') as [-> ->]. auto.
Qed.

(** A dot followed by characters other than dots. *)
Definition isExtension (e : jsstring) : bool :=
  match e with
  | a :: rest => (a =? dot)%N && forallb (fun b => negb (b =? dot)%N) rest
  | [] => false
  end.

Lemma isExtension_spec e :
  isExtension e = true -> exists rest, e = dot :: rest /\ dotFree rest.
Proof.
  destruct e as [|a rest]; [discriminate|]. simpl.
  intros H. apply andb_prop in H as [Ha Hrest]. apply N.eqb_eq in Ha. subst a.
  exists rest. split; [reflexivity|]. intros b Hb ->.
  rewrite forallb_forall in Hrest. specialize (Hrest _ Hb). discriminate.
Qed.

(** The extension of a string that ends with a dot and dot-free rest. *)
Lemma matched_suffix (s stem e : jsstring) :
  s = stem ++ e -> isExtension e = true ->
  matched noFlags extensionPattern s = e.
Proof.
  intros -> He. apply isExtension_spec in He as (rest & -> & Hrest).
  destruct (matched_extension (stem ++ dot :: rest))
    as [[Hno _]|(stem' & rest' & Heq & Hrest' & ->)].
  - destruct (Hno dot); [|reflexivity]. apply in_or_app. right. now left.
  - destruct (last_dot_unique _ _ _ _ Heq Hrest Hrest') as [_ ->]. reflexivity.
Qed.

(** The extension is empty, or the end of the string. *)
Lemma matched_cases (s : jsstring) :
  matched noFlags extensionPattern s = []
  \/ exists stem, s = stem ++ matched noFlags extensionPattern s
                  /\ isExtension (matched noFlags extensionPattern s) = true.
Proof.
  destruct (matched_extension s) as [[_ ->]|(stem & rest & Heq & Hrest & ->)]; [now left|].
  right. exists stem. split; [exact Heq|]. cbn [isExtension]. rewrite N.eqb_refl. cbn [andb].
  apply forallb_forall. intros b Hb. apply negb_true_iff, N.eqb_neq. now apply Hrest.
Qed.

Lemma existsb_eqb_In (x : jsstring) xs :
  existsb (JSString.eqb x) xs = true <-> In x xs.
Proof.
  rewrite existsb_exists. split.
  - intros (y & Hy & Hxy). apply eqb_eq in Hxy. now subst.
  - intros H. exists x. split; [exact H|]. now apply eqb_eq.
Qed.

Lemma ownString_In tbl key v : ownString tbl key = Some v -> In (key, v) tbl.
Proof.
  induction tbl as [|[k w] tbl IH]; simpl; [discriminate|].
  destruct (JSString.eqb k key) eqn:Hk.
  - intros [= ->]. apply eqb_eq in Hk. subst. now left.
  - intros H. right. auto.
Qed.

Lemma ownString_None tbl key v : ownString tbl key = None -> ~ In (key, v) tbl.
Proof.
  induction tbl as [|[k w] tbl IH]; simpl; [tauto|].
  destruct (JSString.eqb k key) eqn:Hk; [discriminate|].
  intros H [[= -> ->]|Hin]; [|now apply IH].
  assert (JSString.eqb key key = true) by now apply eqb_eq. congruence.
Qed.

(** No key of the table occurs twice. *)
Lemma ownString_unique tbl key v :
  NoDup (map fst tbl) -> In (key, v) tbl -> ownString tbl key = Some v.
Proof.
  induction tbl as [|[k w] tbl IH]; simpl; [tauto|].
  intros Hnd [[= -> ->]|Hin].
  - assert (JSString.eqb key key = true) as -> by now apply eqb_eq. reflexivity.
  - apply NoDup_cons in Hnd as [Hk Hnd].
    destruct (JSString.eqb k key) eqn:Hkey; [|auto].
    apply eqb_eq in Hkey. subst k. destruct Hk.
    apply list_elem_of_In. apply (in_map fst) in Hin. exact Hin.
Qed.

Lemma LANGUAGE_MAP_keys : NoDup (map fst LANGUAGE_MAP).
Proof. apply (bool_decide_unpack _). vm_compute. reflexivity. Qed.

(** Every key of [LANGUAGE_MAP] is an extension, and its label is a
    non-empty string that is none of the names of [Object.prototype] and
    not ["text"]. *)
Definition goodEntry (kv : jsstring * jsstring) : bool :=
  isExtension (fst kv) && truthy (snd kv) && negb (inherited (snd kv))
  && negb (JSString.eqb (snd kv) (js "text")).

Lemma LANGUAGE_MAP_entries : forallb goodEntry LANGUAGE_MAP = true.
Proof. vm_compute. reflexivity. Qed.

Lemma codeExtensions_keys :
  forallb (fun e => isExtension e && existsb (JSString.eqb e) (map fst LANGUAGE_MAP))
    codeExtensions = true.
Proof. vm_compute. reflexivity. Qed.

(** No extension is a property name of [Object.prototype]. *)
Lemma isExtension_not_inherited e :
  isExtension e = true -> existsb (JSString.eqb e) ObjectPrototype_names = false.
Proof.
  intros He. apply isExtension_spec in He as (rest & -> & _).
  apply not_true_is_false. intros H. apply existsb_exists in H as (n & Hn & He).
  apply eqb_eq in He. subst n. vm_compute in Hn.
  repeat (destruct Hn as [Hn|Hn]; [discriminate|]). destruct Hn.
Qed.
End PathFacts.

Section PathProperties.
Import GitHubAnalyzer.
Variable toLowerCase : jsstring -> jsstring.

Lemma getLanguageFromPath_cases filePath :
  extension toLowerCase filePath = []
  /\ getLanguageFromPath toLowerCase filePath = LabelString (js "text")
  \/ (exists stem, toLowerCase filePath = stem ++ extension toLowerCase filePath)
     /\ isExtension (extension toLowerCase filePath) = true
     /\ match ownString LANGUAGE_MAP (extension toLowerCase filePath) with
        | Some language => getLanguageFromPath toLowerCase filePath = LabelString language
        | None => getLanguageFromPath toLowerCase filePath = LabelString (js "text")
        end.
Proof.
  unfold getLanguageFromPath. cbv zeta. unfold extension.
  destruct (matched_cases (toLowerCase filePath)) as [->|(stem & Heq & He)];
    [left; auto|right].
  split; [eauto|]. split; [exact He|].
  set (ext := matched noFlags extensionPattern (toLowerCase filePath)) in *.
  assert (truthy ext = true) as ->.
  { apply isExtension_spec in He as (rest & -> & _). reflexivity. }
  unfold getString. destruct (ownString LANGUAGE_MAP ext) as [language|] eqn:Hown.
  - apply ownString_In in Hown.
    pose proof LANGUAGE_MAP_entries as Hall. rewrite forallb_forall in Hall.
    specialize (Hall _ Hown). unfold goodEntry in Hall. simpl in Hall.
    apply andb_prop in Hall as [Hall _]. apply andb_prop in Hall as [Hall _].
    apply andb_prop in Hall as [_ ->]. reflexivity.
  - now rewrite isExtension_not_inherited.
Qed.

(** X11: [getLanguageFromPath] returns a string for every path, never a
    member of [Object.prototype]: the string is ["text"] or a label of
    [LANGUAGE_MAP], and [analyzeCode] returns a result for it on every
    text and in every state of the module. *)
Theorem getLanguageFromPath_label : forall filePath,
  exists language,
    getLanguageFromPath toLowerCase filePath = LabelString language
    /\ (language = js "text" \/ In language (map snd LANGUAGE_MAP))
    /\ forall g code, exists g' r, analyzeCode g code language = (g', Normal r).
Proof.
  intros filePath.
  assert (Htext : forall g code, exists g' r, analyzeCode g code (js "text") = (g', Normal r)).
  { intros g code. now apply analyzeCode_returns. }
  destruct (getLanguageFromPath_cases filePath) as [[_ ->]|(_ & _ & H)].
  - exists (js "text"). auto.
  - destruct (ownString LANGUAGE_MAP (extension toLowerCase filePath))
      as [language|] eqn:Hown.
    + exists language. split; [exact H|]. apply ownString_In in Hown.
      split; [right; apply (in_map snd) in Hown; exact Hown|].
      intros g code. apply analyzeCode_returns.
      pose proof LANGUAGE_MAP_entries as Hall. rewrite forallb_forall in Hall.
      specialize (Hall _ Hown). unfold goodEntry in Hall. simpl in Hall.
      apply andb_prop in Hall as [Hall _]. apply andb_prop in Hall as [_ Hall].
      now apply negb_true_iff in Hall.
    + exists (js "text"). auto.
Qed.

(** X12: the label of a path is decided by the end of the lower-cased
    path: a label other than ["text"] is returned exactly when the path
    ends with an extension that [LANGUAGE_MAP] gives this label. *)
Theorem getLanguageFromPath_suffix : forall filePath language,
  language <> js "text" ->
  (getLanguageFromPath toLowerCase filePath = LabelString language
   <-> exists stem e, toLowerCase filePath = stem ++ e /\ In (e, language) LANGUAGE_MAP).
Proof.
  intros filePath language Hne. split.
  - intros Hl. destruct (getLanguageFromPath_cases filePath) as [[_ H]|((stem & Heq) & _ & H)].
    + rewrite H in Hl. injection Hl as <-. contradiction.
    + destruct (ownString LANGUAGE_MAP (extension toLowerCase filePath))
        as [l|] eqn:Hown.
      * rewrite H in Hl. injection Hl as ->. apply ownString_In in Hown.
        exists stem, (extension toLowerCase filePath). auto.
      * rewrite H in Hl. injection Hl as <-. contradiction.
  - intros (stem & e & Heq & Hin).
    pose proof LANGUAGE_MAP_entries as Hall. rewrite forallb_forall in Hall.
    specialize (Hall _ Hin). unfold goodEntry in Hall. simpl in Hall.
    apply andb_prop in Hall as [Hall _]. apply andb_prop in Hall as [Hall _].
    apply andb_prop in Hall as [He Ht].
    assert (Hext : extension toLowerCase filePath = e).
    { unfold extension. now apply (matched_suffix _ stem). }
    unfold getLanguageFromPath. cbv zeta. rewrite Hext.
    assert (truthy e = true) as ->.
    { apply isExtension_spec in He as (rest & -> & _). reflexivity. }
    unfold getString.
    rewrite (ownString_unique _ _ _ LANGUAGE_MAP_keys Hin). now rewrite Ht.
Qed.

(** X13: a file is analysed exactly when its lower-cased path ends with
    one of the eighteen extensions of [codeExtensions]. *)
Theorem shouldAnalyzeFile_suffix : forall filePath,
  shouldAnalyzeFile toLowerCase filePath = true
  <-> exists stem e, toLowerCase filePath = stem ++ e /\ In e codeExtensions.
Proof.
  intros filePath. unfold shouldAnalyzeFile. cbv zeta. split.
  - destruct (matched_cases (toLowerCase filePath)) as [H|(stem & Heq & He)].
    + unfold extension. rewrite H. discriminate.
    + destruct (negb (truthy (extension toLowerCase filePath))); [discriminate|].
      intros Hin. apply existsb_eqb_In in Hin. exists stem, (extension toLowerCase filePath).
      auto.
  - intros (stem & e & Heq & Hin).
    pose proof codeExtensions_keys as Hall. rewrite forallb_forall in Hall.
    specialize (Hall _ Hin). apply andb_prop in Hall as [He _].
    assert (Hext : extension toLowerCase filePath = e).
    { unfold extension. now apply (matched_suffix _ stem). }
    rewrite Hext.
    assert (truthy e = true) as ->.
    { apply isExtension_spec in He as (rest & -> & _). reflexivity. }
    cbn [negb]. now apply existsb_eqb_In.
Qed.

(** X14: every file that [shouldAnalyzeFile] accepts has a language of its
    own: [getLanguageFromPath] gives it the label that [LANGUAGE_MAP]
    holds for its extension, never ["text"]. *)
Theorem analyzed_file_language : forall filePath,
  shouldAnalyzeFile toLowerCase filePath = true ->
  exists language,
    getLanguageFromPath toLowerCase filePath = LabelString language
    /\ In (extension toLowerCase filePath, language) LANGUAGE_MAP
    /\ In (extension toLowerCase filePath) codeExtensions
    /\ language <> js "text".
Proof.
  intros filePath. unfold shouldAnalyzeFile. cbv zeta.
  destruct (negb (truthy (extension toLowerCase filePath))); [discriminate|].
  intros Hin. apply existsb_eqb_In in Hin.
  pose proof codeExtensions_keys as Hall. rewrite forallb_forall in Hall.
  specialize (Hall _ Hin). apply andb_prop in Hall as [He Hkey].
  apply existsb_eqb_In in Hkey. apply in_map_iff in Hkey as ([k language] & Hk & Hkv).
  simpl in Hk. subst k. exists language.
  pose proof LANGUAGE_MAP_entries as Hgood. rewrite forallb_forall in Hgood.
  specialize (Hgood _ Hkv). unfold goodEntry in Hgood. simpl in Hgood.
  apply andb_prop in Hgood as [Hgood Hnt]. apply andb_prop in Hgood as [Hgood _].
  apply andb_prop in Hgood as [_ Ht].
  split.
  - unfold getLanguageFromPath. cbv zeta.
    assert (truthy (extension toLowerCase filePath) = true) as ->.
    { apply isExtension_spec in He as (rest & -> & _). reflexivity. }
    unfold getString. rewrite (ownString_unique _ _ _ LANGUAGE_MAP_keys Hkv).
    now rewrite Ht.
  - split; [exact Hkv|]. split; [exact Hin|].
    intros ->. apply negb_true_iff in Hnt.
    assert (JSString.eqb (js "text") (js "text") = true) by now apply eqb_eq.
    congruence.
Qed.
End PathProperties.

Lemma getLanguageFromPath_suffix_example :
  js "typescript" <> js "text"
  /\ (GitHubAnalyzer.getLanguageFromPath lowerASCII (js "src/lib/Index.d.TS")
      = GitHubAnalyzer.LabelString (js "typescript")
      <-> exists stem e, lowerASCII (js "src/lib/Index.d.TS") = stem ++ e
                         /\ In (e, js "typescript") GitHubAnalyzer.LANGUAGE_MAP).
Proof.
  split; [discriminate|].
  apply (getLanguageFromPath_suffix lowerASCII (js "src/lib/Index.d.TS") (js "typescript")).
  discriminate.
Defined.

Lemma analyzed_file_language_example :
  GitHubAnalyzer.shouldAnalyzeFile lowerASCII (js "src/App.TSX") = true
  /\ exists language,
       GitHubAnalyzer.getLanguageFromPath lowerASCII (js "src/App.TSX")
       = GitHubAnalyzer.LabelString language
       /\ In (GitHubAnalyzer.extension lowerASCII (js "src/App.TSX"), language)
            GitHubAnalyzer.LANGUAGE_MAP
       /\ In (GitHubAnalyzer.extension lowerASCII (js "src/App.TSX"))
            GitHubAnalyzer.codeExtensions
       /\ language <> js "text".
Proof.
  split; [vm_compute; reflexivity|].
  apply (analyzed_file_language lowerASCII (js "src/App.TSX")). vm_compute. reflexivity.
Defined.

(* ===================================================================== *)
(** * The listing of a repository *)
(* ===================================================================== *)

Section ListingFacts.
Import GitHubAnalyzer.
Variable fetch : nat -> jsstring -> Promise Response.

Definition isRequest (e : Event) : bool :=
  match e with Request _ => true | _ => false end.

(** The events of a listing: requests for an address that begins with
    the contents address of the repository, and messages on the console. *)
Definition listingEvent (owner repo : jsstring) (e : Event) : Prop :=
  match e with
  | Request url => exists path, url = contentsUrl owner repo path
  | ConsoleError _ _ | ConsoleWarn _ _ => True
  | ProgressCall _ _ _ => False
  end.

(** [st'] continues [st] by [events], which [P] holds of; the tables
    are the same. *)
Definition Steps (P : Event -> Prop) (st st' : State) : Prop :=
  globals st' = globals st
  /\ exists events,
       log st' = log st ++ events
       /\ requests st' = requests st + length (List.filter isRequest events)
       /\ Forall P events.

Lemma Steps_refl P st : Steps P st st.
Proof.
  split; [reflexivity|]. exists []. rewrite app_nil_r. simpl.
  split; [reflexivity|]. split; [lia|constructor].
Qed.

Lemma Steps_trans P st1 st2 st3 : Steps P st1 st2 -> Steps P st2 st3 -> Steps P st1 st3.
Proof.
  intros [Hg1 (ev1 & Hl1 & Hr1 & Hp1)] [Hg2 (ev2 & Hl2 & Hr2 & Hp2)].
  split; [congruence|]. exists (ev1 ++ ev2).
  split; [rewrite Hl2, Hl1; now rewrite app_assoc|].
  split; [rewrite List.filter_app, length_app; lia|].
  apply Forall_app; auto.
Qed.

Lemma Steps_record (P : Event -> Prop) e st :
  P e -> isRequest e = false -> Steps P st (record e st).
Proof.
  intros He Hr. split; [reflexivity|]. exists [e]. simpl. rewrite Hr. simpl.
  split; [reflexivity|]. split; [lia|]. auto.
Qed.

Lemma Steps_request (P : Event -> Prop) url st :
  P (Request url) -> Steps P st (fst (request fetch url st)).
Proof.
  intros He. split; [reflexivity|]. exists [Request url]. simpl.
  split; [reflexivity|]. split; [lia|]. auto.
Qed.

Lemma fetchGitHubContents_Steps owner repo path st :
  Steps (listingEvent owner repo) st (fst (fetchGitHubContents fetch owner repo path st)).
Proof.
  unfold fetchGitHubContents.
  pose proof (Steps_request (listingEvent owner repo) (contentsUrl owner repo path) st
                ltac:(simpl; eauto)) as Hreq.
  destruct (request fetch (contentsUrl owner repo path) st) as [st1 [response|reason]];
    simpl in Hreq.
  - destruct (negb (ok response)).
    + simpl. eapply Steps_trans; [exact Hreq|]. now apply Steps_record.
    + destruct (json response) as [[items|item]|reason]; simpl; auto.
      eapply Steps_trans; [exact Hreq|]. now apply Steps_record.
  - simpl. eapply Steps_trans; [exact Hreq|]. now apply Steps_record.
Qed.

Definition isFile (item : GitHubFile.t) : bool :=
  JSString.eqb (GitHubFile.type item) (js "file").

(** The directories that [getAllFiles] goes into. *)
Definition descends (item : GitHubFile.t) : bool :=
  negb (isFile item)
  && JSString.eqb (GitHubFile.type item) (js "dir")
  && negb (startsWith (GitHubFile.name item) (js "."))
  && negb (JSString.eqb (GitHubFile.name item) (js "node_modules")).

Definition onlyFiles (p : Promise (list GitHubFile.t)) : Prop :=
  match p with
  | Fulfilled files => Forall (fun f => isFile f = true) files
  | Rejected _ => True
  end.

Lemma collectFiles_Steps owner repo getSubFiles :
  (forall path st, Steps (listingEvent owner repo) st (fst (getSubFiles path st))) ->
  (forall path st, onlyFiles (snd (getSubFiles path st))) ->
  forall contents allFiles st,
    Steps (listingEvent owner repo) st (fst (collectFiles getSubFiles contents allFiles st))
    /\ (Forall (fun f => isFile f = true) allFiles ->
        Forall (fun f => isFile f = true)
          (snd (collectFiles getSubFiles contents allFiles st))).
Proof.
  intros Hrun Hfiles. induction contents as [|item contents IH]; intros allFiles st.
  - simpl. split; [apply Steps_refl|auto].
  - cbn [collectFiles]. destruct (JSString.eqb (GitHubFile.type item) (js "file")) eqn:Hf.
    + destruct (IH (allFiles ++ [item]) st) as [H1 H2]. split; [exact H1|].
      intros Hall. apply H2. apply Forall_app. split; [exact Hall|]. constructor; auto.
    + destruct (_ && _ && _); [|apply IH].
      specialize (Hrun (GitHubFile.path item) st).
      specialize (Hfiles (GitHubFile.path item) st).
      destruct (getSubFiles (GitHubFile.path item) st) as [st1 [subFiles|reason]];
        simpl in Hrun, Hfiles.
      * destruct (IH (allFiles ++ subFiles) st1) as [H1 H2].
        split; [eapply Steps_trans; eauto|].
        intros Hall. apply H2. apply Forall_app. auto.
      * match goal with |- context [collectFiles _ _ _ ?s] =>
          destruct (IH allFiles s) as [H1 H2] end.
        split; [|exact H2].
        eapply Steps_trans; [exact Hrun|]. eapply Steps_trans; [|exact H1].
        now apply Steps_record.
Qed.

Lemma getAllFiles_Steps owner repo : forall maxDepth path st,
  Steps (listingEvent owner repo) st (fst (getAllFiles fetch maxDepth owner repo path st))
  /\ onlyFiles (snd (getAllFiles fetch maxDepth owner repo path st)).
Proof.
  induction maxDepth as [|depth IH]; intros path st.
  - simpl. split; [apply Steps_refl|constructor].
  - cbn [getAllFiles].
    pose proof (fetchGitHubContents_Steps owner repo path st) as Hfetch.
    destruct (fetchGitHubContents fetch owner repo path st) as [st1 [contents|reason]];
      simpl in Hfetch; [|simpl; auto].
    destruct (collectFiles_Steps owner repo (getAllFiles fetch depth owner repo)
                (fun p s => proj1 (IH p s)) (fun p s => proj2 (IH p s))
                contents [] st1) as [H1 H2].
    destruct (collectFiles _ contents [] st1) as [st2 allFiles]. simpl in *.
    split; [eapply Steps_trans; eauto|]. apply H2. constructor.
Qed.

(** Where no directory of a listing is gone into, or where a directory
    that is gone into yields nothing and does nothing, the files of the
    listing are collected in their order. *)
Lemma collectFiles_flat getSubFiles : forall contents allFiles st,
  (forall item, In item contents -> descends item = true ->
                getSubFiles (GitHubFile.path item) st = (st, Fulfilled [])) ->
  collectFiles getSubFiles contents allFiles st
  = (st, allFiles ++ List.filter isFile contents).
Proof.
  induction contents as [|item contents IH]; intros allFiles st Hsub.
  - simpl. now rewrite app_nil_r.
  - cbn [collectFiles List.filter]. unfold isFile at 1.
    pose proof (Hsub item ltac:(now left)) as Hitem. unfold descends, isFile in Hitem.
    destruct (JSString.eqb (GitHubFile.type item) (js "file")) eqn:Hf.
    + rewrite IH by (intros i Hi; apply Hsub; now right).
      now rewrite <- app_assoc.
    + cbn [negb andb] in Hitem.
      destruct (_ && _ && _).
      * rewrite Hitem by reflexivity. rewrite app_nil_r.
        apply IH. intros i Hi. apply Hsub. now right.
      * apply IH. intros i Hi. apply Hsub. now right.
Qed.
End ListingFacts.


Section TraceFacts.
Import GitHubAnalyzer.
Variable fetch : nat -> jsstring -> Promise Response.
Variables owner repo : jsstring.

(** The addresses of the requests among some events, in their order. *)
Definition requestUrls (events : list Event) : list jsstring :=
  flat_map (fun e => match e with Request url => [url] | _ => [] end) events.

Lemma requestUrls_app xs ys :
  requestUrls (xs ++ ys) = requestUrls xs ++ requestUrls ys.
Proof. apply flat_map_app. Qed.

Lemma requestUrls_length events :
  length (requestUrls events) = length (List.filter isRequest events).
Proof.
  induction events as [|e events IH]; [reflexivity|].
  destruct e; simpl; rewrite ?IH; reflexivity.
Qed.

(** The items that [fetchGitHubContents] gets from an answer, if it gets
    any. *)
Definition listing (answer : Promise Response) : option (list GitHubFile.t) :=
  match answer with
  | Fulfilled response =>
      if ok response then
        match json response with
        | Fulfilled (JsonArray items) => Some items
        | Fulfilled (JsonValue item) => Some [item]
        | Rejected _ => None
        end
      else None
  | Rejected _ => None
  end.

(** The requests [urls] of a call for the directory [path], the first of
    them being the request number [n0]: the first request is for [path],
    and every later one is for the [path] field of an item that an earlier
    request of the call has listed and that [getAllFiles] goes into. *)
Definition Traced (n0 : nat) (path : jsstring) (urls : list jsstring) : Prop :=
  forall i url,
    urls !! i = Some url ->
    (i = 0 /\ url = contentsUrl owner repo path)
    \/ exists j listed items item,
         j < i /\ urls !! j = Some listed
         /\ listing (fetch (n0 + j) listed) = Some items
         /\ In item items /\ descends item = true
         /\ url = contentsUrl owner repo (GitHubFile.path item).

(** A function that makes traced calls. *)
Definition TracedCall
    (getSubFiles : jsstring -> State -> State * Promise (list GitHubFile.t)) : Prop :=
  forall path st,
    exists events,
      log (fst (getSubFiles path st)) = log st ++ events
      /\ requests (fst (getSubFiles path st)) = requests st + length (requestUrls events)
      /\ Traced (requests st) path (requestUrls events).

Lemma Traced_nil n0 path : Traced n0 path [].
Proof. intros i url Hi. destruct i; discriminate. Qed.

(** The requests of a call for a listed directory, behind those of the
    call that listed it. *)
Lemma Traced_app n0 path urls root items item urls' :
  urls !! 0 = Some root -> listing (fetch n0 root) = Some items ->
  In item items -> descends item = true ->
  Traced n0 path urls ->
  Traced (n0 + length urls) (GitHubFile.path item) urls' ->
  Traced n0 path (urls ++ urls').
Proof.
  intros Hroot Hlist Hin Hd Hurls Hsub i url Hi.
  assert (Hlen : 0 < length urls) by (apply lookup_lt_Some in Hroot; exact Hroot).
  destruct (decide (i < length urls)) as [Hlt|Hge].
  - rewrite lookup_app_l in Hi by exact Hlt.
    destruct (Hurls i url Hi) as [H|(j & listed & its & it & Hj & Hl & Hls & Hit & Hdi & Hu)];
      [now left|right].
    exists j, listed, its, it. split; [exact Hj|].
    split; [now apply lookup_app_l_Some|]. auto.
  - rewrite lookup_app_r in Hi by lia. right.
    destruct (Hsub _ _ Hi)
      as [[Hi0 Hu]|(j & listed & its & it & Hj & Hl & Hls & Hit & Hdi & Hu)].
    + exists 0, root, items, item. split; [lia|].
      split; [now apply lookup_app_l_Some|]. rewrite Nat.add_0_r. auto.
    + exists (length urls + j), listed, its, it. split; [lia|]. split.
      * rewrite lookup_app_r by lia.
        now replace (length urls + j - length urls) with j by lia.
      * rewrite Nat.add_assoc. auto.
Qed.

Lemma fetchGitHubContents_trace path st :
  exists events,
    log (fst (fetchGitHubContents fetch owner repo path st)) = log st ++ events
    /\ requestUrls events = [contentsUrl owner repo path]
    /\ requests (fst (fetchGitHubContents fetch owner repo path st)) = S (requests st)
    /\ forall contents,
         snd (fetchGitHubContents fetch owner repo path st) = Fulfilled contents ->
         listing (fetch (requests st) (contentsUrl owner repo path)) = Some contents.
Proof.
  unfold fetchGitHubContents, request, listing.
  destruct (fetch (requests st) (contentsUrl owner repo path)) as [response|reason].
  - destruct (ok response); cbn [negb].
    + destruct (json response) as [[items|item]|reason]; cbn [fst snd log requests record].
      * eexists [_]. repeat split. now intros contents [= <-].
      * eexists [_]. repeat split. now intros contents [= <-].
      * eexists [_; _]. rewrite <- app_assoc. repeat split. discriminate.
    + cbn [fst snd log requests record]. eexists [_; _]. rewrite <- app_assoc.
      repeat split. discriminate.
  - cbn [fst snd log requests record]. eexists [_; _]. rewrite <- app_assoc.
    repeat split. discriminate.
Qed.

Lemma collectFiles_traced getSubFiles n0 path root items :
  TracedCall getSubFiles -> listing (fetch n0 root) = Some items ->
  forall contents allFiles st urls,
    (forall item, In item contents -> In item items) ->
    urls !! 0 = Some root -> requests st = n0 + length urls ->
    Traced n0 path urls ->
    exists events,
      log (fst (collectFiles getSubFiles contents allFiles st)) = log st ++ events
      /\ requests (fst (collectFiles getSubFiles contents allFiles st))
         = requests st + length (requestUrls events)
      /\ Traced n0 path (urls ++ requestUrls events).
Proof.
  intros Hsub Hlist.
  induction contents as [|item contents IH]; intros allFiles st urls Hin Hroot Hreq Hurls.
  - exists []. cbn [collectFiles fst requestUrls flat_map length].
    rewrite !app_nil_r. auto.
  - assert (Hin' : forall it, In it contents -> In it items)
      by (intros it Hit; apply Hin; now right).
    cbn [collectFiles].
    destruct (JSString.eqb (GitHubFile.type item) (js "file")) eqn:Hfile;
      [now apply IH|].
    destruct (JSString.eqb (GitHubFile.type item) (js "dir")
              && negb (startsWith (GitHubFile.name item) (js "."))
              && negb (JSString.eqb (GitHubFile.name item) (js "node_modules")))
      eqn:Hgo; [|now apply IH].
    assert (Hd : descends item = true).
    { unfold descends, isFile. rewrite Hfile. cbn [negb andb]. exact Hgo. }
    destruct (Hsub (GitHubFile.path item) st) as (ev1 & Hl1 & Hr1 & Ht1).
    rewrite Hreq in Ht1.
    pose proof (Traced_app n0 path urls root items item (requestUrls ev1)
                  Hroot Hlist (Hin item (or_introl eq_refl)) Hd Hurls Ht1) as Hsum.
    assert (Hroot' : (urls ++ requestUrls ev1) !! 0 = Some root)
      by (now apply lookup_app_l_Some).
    destruct (getSubFiles (GitHubFile.path item) st) as [st1 [subFiles|reason]];
      cbn [fst] in Hl1, Hr1.
    + destruct (IH (allFiles ++ subFiles) st1 (urls ++ requestUrls ev1) Hin' Hroot')
        as (ev2 & Hl2 & Hr2 & Ht2); [rewrite Hr1, Hreq, length_app; lia|exact Hsum|].
      exists (ev1 ++ ev2). rewrite Hl2, Hr2, Hl1, Hr1, requestUrls_app, length_app.
      split; [now rewrite <- app_assoc|]. split; [lia|now rewrite app_assoc].
    + match goal with |- context [collectFiles _ _ _ ?s] =>
        destruct (IH allFiles s (urls ++ requestUrls ev1) Hin' Hroot')
          as (ev2 & Hl2 & Hr2 & Ht2) end;
        [cbn [record requests]; rewrite Hr1, Hreq, length_app; lia|exact Hsum|].
      eexists (ev1 ++ _ :: ev2). split; [|split].
      * rewrite Hl2. cbn [record log]. rewrite Hl1, <- !app_assoc. reflexivity.
      * rewrite Hr2. cbn [record requests]. rewrite Hr1, requestUrls_app, length_app.
        cbn [requestUrls flat_map app]. fold (requestUrls ev2). lia.
      * rewrite requestUrls_app. cbn [requestUrls flat_map app]. fold (requestUrls ev2).
        now rewrite app_assoc.
Qed.

Lemma getAllFiles_traced : forall maxDepth,
  TracedCall (getAllFiles fetch maxDepth owner repo).
Proof.
  induction maxDepth as [|depth IH]; intros path st.
  - exists []. cbn [getAllFiles fst requestUrls flat_map length].
    rewrite app_nil_r. split; [reflexivity|]. split; [lia|apply Traced_nil].
  - cbn [getAllFiles].
    destruct (fetchGitHubContents_trace path st) as (ev0 & Hl0 & Hu0 & Hr0 & Hc0).
    assert (Hfirst : Traced (requests st) path [contentsUrl owner repo path]).
    { intros i url Hi. destruct i as [|i]; [|destruct i; discriminate].
      injection Hi as <-. now left. }
    destruct (fetchGitHubContents fetch owner repo path st) as [st1 [contents|reason]];
      cbn [fst snd] in *.
    + destruct (collectFiles_traced (getAllFiles fetch depth owner repo) (requests st)
                  path (contentsUrl owner repo path) contents IH (Hc0 _ eq_refl)
                  contents [] st1 [contentsUrl owner repo path])
        as (ev1 & Hl1 & Hr1 & Ht1); auto; [simpl; lia|].
      destruct (collectFiles _ contents [] st1) as [st2 allFiles]. cbn [fst] in *.
      exists (ev0 ++ ev1). rewrite Hl1, Hl0, Hr1, Hr0, requestUrls_app, Hu0, length_app.
      rewrite <- app_assoc. split; [reflexivity|]. split; [simpl; lia|exact Ht1].
    + exists ev0. rewrite Hu0. split; [exact Hl0|]. split; [simpl; lia|exact Hfirst].
Qed.
End TraceFacts.

Section ListingProperties.
Import GitHubAnalyzer.
Variable fetch : nat -> jsstring -> Promise Response.

(** X15: whatever the network answers, the first request of
    [getAllFiles] is for the contents of the directory it was called for,
    and each later one is for the [path] field, as it was received, of a
    directory that an earlier request of the call has listed and that is
    neither hidden nor [node_modules]; the address of a request is the
    address of the contents API of the repository followed by that path,
    which is used as it is, with no check.  The call writes to the console only, calls no progress callback and
    leaves the tables of the engine as they are. *)
Theorem getAllFiles_effects : forall maxDepth owner repo path st,
  let st' := fst (getAllFiles fetch maxDepth owner repo path st) in
  globals st' = globals st
  /\ exists events,
       log st' = log st ++ events
       /\ requests st' = requests st + length (List.filter isRequest events)
       /\ Forall (listingEvent owner repo) events
       /\ Traced fetch owner repo (requests st) path (requestUrls events).
Proof.
  intros maxDepth owner repo path st.
  destruct (getAllFiles_Steps fetch owner repo maxDepth path st)
    as [[Hg (events & Hlog & Hreq & Hev)] _].
  destruct (getAllFiles_traced fetch owner repo maxDepth path st)
    as (events' & Hlog' & _ & Htraced).
  cbv zeta. split; [exact Hg|]. exists events.
  rewrite Hlog in Hlog'. apply app_inv_head in Hlog'. subst events'. auto.
Qed.

(** X16: every item that [getAllFiles] returns has the type ['file']. *)
Theorem getAllFiles_files : forall maxDepth owner repo path st st' files,
  getAllFiles fetch maxDepth owner repo path st = (st', Fulfilled files) ->
  Forall (fun f => GitHubFile.type f = js "file") files.
Proof.
  intros maxDepth owner repo path st st' files H.
  pose proof (proj2 (getAllFiles_Steps fetch owner repo maxDepth path st)) as Hf.
  rewrite H in Hf. simpl in Hf.
  eapply Forall_impl; [exact Hf|]. intros f Hfile. now apply eqb_eq.
Qed.

(** X17: when the listing of a directory holds no directory that
    [getAllFiles] goes into - all are hidden or [node_modules] - or the
    depth is used up, the call makes this one request and returns the
    files of the listing, in their order. *)
Theorem getAllFiles_flat : forall depth owner repo path st st1 contents,
  fetchGitHubContents fetch owner repo path st = (st1, Fulfilled contents) ->
  depth = 0 \/ forallb (fun item => negb (descends item)) contents = true ->
  getAllFiles fetch (S depth) owner repo path st
  = (st1, Fulfilled (List.filter isFile contents)).
Proof.
  intros depth owner repo path st st1 contents Hfetch Hflat.
  cbn [getAllFiles]. rewrite Hfetch.
  rewrite collectFiles_flat; [reflexivity|].
  intros item Hin Hd. destruct Hflat as [->|Hall]; [reflexivity|].
  rewrite forallb_forall in Hall. specialize (Hall _ Hin). now rewrite Hd in Hall.
Qed.
End ListingProperties.

Lemma getAllFiles_files_example :
  exists st' files,
    GitHubAnalyzer.getAllFiles Sample.fetch 3 (js "octo") (js "demo") [] Sample.start
    = (st', GitHubAnalyzer.Fulfilled files)
    /\ Forall (fun f => GitHubAnalyzer.GitHubFile.type f = js "file") files.
Proof.
  do 2 eexists. split; [vm_compute; reflexivity|].
  eapply (getAllFiles_files Sample.fetch 3 (js "octo") (js "demo") [] Sample.start).
  vm_compute. reflexivity.
Defined.

Lemma getAllFiles_flat_example :
  exists st1,
    GitHubAnalyzer.fetchGitHubContents Sample.fetch (js "octo") (js "demo") (js "src")
      Sample.start
    = (st1, GitHubAnalyzer.Fulfilled Sample.src)
    /\ (2 = 0 \/ forallb (fun item => negb (descends item)) Sample.src = true)
    /\ GitHubAnalyzer.getAllFiles Sample.fetch 3 (js "octo") (js "demo") (js "src")
         Sample.start
       = (st1, GitHubAnalyzer.Fulfilled (List.filter isFile Sample.src)).
Proof.
  eexists. split; [vm_compute; reflexivity|].
  split; [right; vm_compute; reflexivity|].
  eapply (getAllFiles_flat Sample.fetch 2 (js "octo") (js "demo") (js "src") Sample.start).
  - vm_compute. reflexivity.
  - right. vm_compute. reflexivity.
Defined.

(* ===================================================================== *)
(** * The address of a repository *)
(* ===================================================================== *)

Section RunFacts.
Variable s : jsstring.
Variables (invert : bool) (items : list class_item).

Definition member : nat -> Prop := inClass noFlags s invert items.

(** A repetition of a character class that has to go over one character
    at least: where it stops, it has gone over characters of the class,
    and over one at least. *)
Lemma plus_class_answer fuel x c r :
  RepeatMatcher fuel (compile noFlags s (Class invert items)) true 1 x c = Some r ->
  exists z, x < z /\ c z = Some r /\ forall k, x <= k < z -> member k.
Proof.
  destruct fuel as [|fuel]; [discriminate|].
  cbn [RepeatMatcher Nat.eqb negb andb pred]. rewrite compile_Class.
  destruct (s !! x) as [a|] eqn:Ha; [|discriminate].
  destruct (xorb invert (class_holds noFlags items a)) eqn:Hcl; [|discriminate].
  intros H. apply star_class_answer in H as (z & Hz & Hc & Hk).
  exists z. split; [lia|]. split; [exact Hc|].
  intros k Hkx. destruct (decide (k = x)) as [->|Hne]; [exists a; auto|].
  apply Hk. lia.
Qed.

(** A greedy repetition goes over a run of [n] characters of the class
    that ends the string or is followed by another character, when the
    rest of the pattern matches behind the run. *)
Lemma class_run c r : forall n x fuel min,
  (forall k, x <= k < x + n -> member k) ->
  x + n = length s \/ ~ member (x + n) ->
  min <= n -> n < fuel ->
  c (x + n) = Some r ->
  RepeatMatcher fuel (compile noFlags s (Class invert items)) true min x c = Some r.
Proof.
  induction n as [|n IH]; intros x fuel min Hrun Hend Hmin Hfuel Hc;
    (destruct fuel as [|fuel]; [lia|]); cbn [RepeatMatcher]; rewrite compile_Class.
  - replace min with 0 by lia. cbn [Nat.eqb negb]. rewrite Nat.add_0_r in *.
    destruct (s !! x) as [a|] eqn:Ha; [|exact Hc].
    destruct (xorb invert (class_holds noFlags items a)) eqn:Hcl; [|exact Hc].
    destruct Hend as [Hend|Hend].
    + apply lookup_lt_Some in Ha. lia.
    + destruct Hend. exists a. auto.
  - destruct (Hrun x ltac:(lia)) as (a & Ha & Hcl). rewrite Ha, Hcl.
    replace (S x =? x) with false by (symmetry; apply Nat.eqb_neq; lia).
    rewrite andb_false_r.
    rewrite (IH (S x) fuel (pred min)); try lia.
    + now destruct (negb (min =? 0)).
    + intros k Hk. apply Hrun. lia.
    + now replace (S x + n) with (x + S n) by lia.
    + now replace (S x + n) with (x + S n) by lia.
Qed.
End RunFacts.

Section UrlFacts.
Import GitHubAnalyzer.

Definition slash : char := 47%N.

Lemma noneOf_class d a :
  xorb true (class_holds noFlags [CChar d] a) = negb (a =? d)%N.
Proof.
  unfold class_holds, Canonicalize. cbn. rewrite orb_false_r.
  rewrite N.eqb_sym. reflexivity.
Qed.

Lemma drop_lookup (s : jsstring) x :
  drop x s = match s !! x with Some a => a :: drop (S x) s | None => [] end.
Proof.
  destruct (s !! x) as [a|] eqn:Ha.
  - now apply drop_S.
  - apply drop_ge. now apply lookup_ge_None_1.
Qed.

Lemma startsWith_spec : forall p t,
  startsWith t p = true <-> exists post, t = p ++ post.
Proof.
  induction p as [|a p IH]; intros t; simpl.
  - split; [eauto|now destruct t].
  - destruct t as [|b t].
    + split; [discriminate|]. intros [post H]. discriminate.
    + cbn [startsWith]. rewrite andb_true_iff, IH, N.eqb_eq. split.
      * intros [-> [post ->]]. eauto.
      * intros [post [= -> ->]]. eauto.
Qed.

(** A literal matches where the string continues with it. *)
Lemma compile_lit_chars (s : jsstring) : forall p x c,
  compile noFlags s (lit_chars p) x c
  = if startsWith (drop x s) p then c (x + length p) else None.
Proof.
  induction p as [|a p IH]; intros x c.
  - simpl. rewrite Nat.add_0_r. now destruct (drop x s).
  - assert (Hchar : compile noFlags s (Seq (Char a) (lit_chars p)) x c
                    = if startsWith (drop x s) (a :: p) then c (x + length (a :: p))
                      else None).
    { cbn [compile]. rewrite (drop_lookup s x). unfold Canonicalize. cbn [ignoreCase noFlags andb].
      destruct (s !! x) as [b|]; [|reflexivity]. cbn [startsWith].
      destruct (b =? a)%N; [|reflexivity]. cbn [andb]. rewrite IH.
      cbn [length]. now replace (S x + length p) with (x + S (length p)) by lia. }
    destruct p as [|b p]; [|exact Hchar].
    rewrite <- Hchar. cbn [lit_chars compile]. destruct (s !! x); [|reflexivity].
    now destruct (_ =? _)%N.
Qed.

Lemma searchFrom_some fl (s : jsstring) r b e : forall n x,
  x <= b <= x + n -> matchAt fl s r b = Some e ->
  exists b' e', searchFrom fl s r n x = Some (b', e').
Proof.
  induction n as [|n IH]; intros x Hb Hm; cbn [searchFrom].
  - replace x with b by lia. rewrite Hm. eauto.
  - destruct (matchAt fl s r x) as [e'|] eqn:Hx; [eauto|].
    apply IH; [|exact Hm]. destruct (decide (x = b)) as [->|Hne]; [congruence|lia].
Qed.

Definition slashFree (t : jsstring) : Prop := ~ In slash t.

Lemma notSlash_lookup (s : jsstring) k :
  inClass noFlags s true [CChar slash] k <-> exists a, s !! k = Some a /\ a <> slash.
Proof.
  unfold inClass. split; intros (a & Ha & H); exists a; (split; [exact Ha|]).
  - rewrite noneOf_class in H. now apply negb_true_iff, N.eqb_neq in H.
  - rewrite noneOf_class. now apply negb_true_iff, N.eqb_neq.
Qed.

(** The characters of [t], placed at [x] in [s], are no slashes. *)
Lemma slashFree_run (s pre t post : jsstring) x :
  s = pre ++ t ++ post -> x = length pre -> slashFree t ->
  forall k, x <= k < x + length t -> inClass noFlags s true [CChar slash] k.
Proof.
  intros -> -> Ht k Hk. apply notSlash_lookup. unfold jsstring in *.
  rewrite lookup_app_r by lia. rewrite lookup_app_l by lia.
  destruct (lookup_lt_is_Some_2 t (k - length pre) ltac:(lia)) as [a Ha].
  exists a. split; [exact Ha|]. intros ->. apply Ht.
  apply list_elem_of_In. eapply list_elem_of_lookup_2; eauto.
Qed.

(** A run of characters of a class, from any index on, ends somewhere. *)
Lemma run_exists (s : jsstring) invert items : forall n x,
  x + n = length s ->
  exists m, m <= n
            /\ (forall k, x <= k < x + m -> inClass noFlags s invert items k)
            /\ (x + m = length s \/ ~ inClass noFlags s invert items (x + m)).
Proof.
  induction n as [|n IH]; intros x Hx.
  - exists 0. split; [lia|]. split; [intros k Hk; lia|left; lia].
  - destruct (s !! x) as [a|] eqn:Ha.
    2:{ apply lookup_ge_None_1 in Ha. lia. }
    destruct (xorb invert (class_holds noFlags items a)) eqn:Hcl.
    + destruct (IH (S x) ltac:(lia)) as (m & Hm & Hrun & Hend).
      exists (S m). split; [lia|]. split.
      * intros k Hk. destruct (decide (k = x)) as [->|Hne]; [exists a; auto|].
        apply Hrun. lia.
      * now replace (x + S m) with (S x + m) by lia.
    + exists 0. split; [lia|]. split; [intros k Hk; lia|].
      right. rewrite Nat.add_0_r. intros (b & Hb & Hclb). congruence.
Qed.

Definition repositoryPart : regex :=
  seqs [rplus (noneOf [ch "/"]); lit "/"; rplus (noneOf [ch "/"])].

Lemma urlPattern_eq :
  urlPattern
  = Seq (lit_chars (js "github.com/"))
      (Seq (Repeat true 1 (Class true [CChar slash]))
         (Seq (Char slash) (Repeat true 1 (Class true [CChar slash])))).
Proof. reflexivity. Qed.

Lemma compile_slash (s : jsstring) x c :
  compile noFlags s (Char slash) x c
  = match s !! x with
    | Some a => if (a =? slash)%N then c (S x) else None
    | None => None
    end.
Proof. reflexivity. Qed.

Lemma compile_slash_at (s : jsstring) x c :
  s !! x = Some slash -> compile noFlags s (Char slash) x c = c (S x).
Proof.
  intros H.
  change (compile noFlags s (Char slash) x c)
    with (match s !! x with
          | Some a => if (a =? slash)%N then c (S x) else None
          | None => None
          end).
  unfold char in *. now rewrite H, N.eqb_refl.
Qed.

Lemma compile_Seq fl (s : jsstring) r1 r2 x c :
  compile fl s (Seq r1 r2) x c = compile fl s r1 x (fun y => compile fl s r2 y c).
Proof. reflexivity. Qed.

Lemma compile_Repeat fl (s : jsstring) greedy min r x c :
  compile fl s (Repeat greedy min r) x c
  = RepeatMatcher (S (min + length s)) (compile fl s r) greedy min x c.
Proof. reflexivity. Qed.

(** What a match of [urlPattern] at [b] shows of the string. *)
Lemma urlPattern_matchAt (s : jsstring) b e :
  matchAt noFlags s urlPattern b = Some e ->
  exists owner c post,
    s = take b s ++ js "github.com/" ++ owner ++ slash :: c :: post
    /\ owner <> [] /\ slashFree owner /\ c <> slash.
Proof.
  unfold matchAt. rewrite urlPattern_eq. rewrite compile_Seq, compile_lit_chars.
  destruct (startsWith (drop b s) (js "github.com/")) eqn:Hlit; [|discriminate].
  apply startsWith_spec in Hlit as [rest Hrest].
  set (b1 := b + length (js "github.com/")).
  rewrite compile_Seq, compile_Repeat.
  intros H. apply plus_class_answer in H as (z1 & Hz1 & Hc1 & Hrun1).
  rewrite compile_Seq, compile_slash in Hc1.
  destruct (s !! z1) as [a|] eqn:Ha; [|discriminate].
  destruct (a =? slash)%N eqn:Has; [|discriminate]. apply N.eqb_eq in Has. subst a.
  rewrite compile_Repeat in Hc1.
  apply plus_class_answer in Hc1 as (z2 & Hz2 & _ & Hrun2).
  destruct (Hrun2 (S z1) ltac:(lia)) as (c & Hc & Hcl).
  rewrite noneOf_class in Hcl. apply negb_true_iff, N.eqb_neq in Hcl.
  assert (Hs : s = take b s ++ js "github.com/" ++ rest).
  { rewrite <- Hrest. now rewrite take_drop. }
  assert (Hb : b <= length s).
  { pose proof (lookup_lt_Some _ _ _ Ha) as Hlt1. unfold b1 in Hz1. unfold char in *. lia. }
  assert (Hlen : length (take b s) = b) by (rewrite length_take; lia).
  pose proof (lookup_lt_Some _ _ _ Hc) as Hlt.
  (* the rest, from [b1] on *)
  assert (Hdrop : rest = drop b1 s).
  { unfold b1. rewrite <- drop_drop, Hrest. now rewrite drop_app_length. }
  exists (take (z1 - b1) rest), c, (drop (S (S z1) - b1) rest).
  split; [|split; [|split]].
  - rewrite Hs at 1. do 2 f_equal.
    rewrite <- (take_drop (z1 - b1) rest) at 1. f_equal.
    rewrite Hdrop, !drop_drop. replace (b1 + (z1 - b1)) with z1 by lia.
    rewrite (drop_S s slash z1 Ha), (drop_S s c (S z1) Hc).
    do 3 f_equal. lia.
  - intros Hnil. apply (f_equal length) in Hnil. rewrite length_take in Hnil.
    rewrite Hdrop, length_drop in Hnil. simpl in Hnil. lia.
  - intros Hin. apply list_elem_of_In, list_elem_of_lookup in Hin as [k Hk].
    rewrite lookup_take_Some in Hk. destruct Hk as [Hk Hkz].
    rewrite Hdrop, lookup_drop in Hk.
    destruct (Hrun1 (b1 + k) ltac:(lia)) as (a & Ha' & Hcla).
    pose proof (eq_trans (eq_sym Hk) Ha') as Heq. injection Heq as <-.
    rewrite noneOf_class in Hcla. now rewrite N.eqb_refl in Hcla.
  - exact Hcl.
Qed.

(** The match of [urlPattern] at an occurrence of
    [github.com/owner/repo]: it ends behind the characters of [repo] that
    are no slashes. *)
Lemma urlPattern_at (s pre owner repo post : jsstring) :
  s = pre ++ js "github.com/" ++ owner ++ slash :: repo ++ post ->
  owner <> [] -> slashFree owner -> repo <> [] -> slashFree repo ->
  post = [] \/ (exists post', post = slash :: post') ->
  matchAt noFlags s urlPattern (length pre)
  = Some (length pre + 11 + length owner + 1 + length repo)
  /\ groups s (length pre) (length pre + 11 + length owner + 1 + length repo)
     = (owner, repo).
Proof.
  intros Hs Howner Hso Hrepo Hsr Hpost.
  set (b := length pre). set (b1 := b + 11). set (e1 := b1 + length owner).
  set (e := e1 + 1 + length repo).
  assert (Hlen : length s = e + length post).
  { rewrite Hs. rewrite !length_app. cbn [length]. rewrite length_app.
    change (length (js "github.com/")) with 11. unfold e, e1, b1, b. lia. }
  assert (Hdrop : drop b s = js "github.com/" ++ owner ++ slash :: repo ++ post).
  { rewrite Hs. unfold b. now rewrite drop_app_length. }
  assert (Hrun1 : forall k, b1 <= k < b1 + length owner ->
                            inClass noFlags s true [CChar slash] k).
  { apply (slashFree_run s (pre ++ js "github.com/") owner (slash :: repo ++ post));
      [now rewrite Hs, <- app_assoc| |exact Hso].
    rewrite length_app. reflexivity. }
  assert (Hslash : s !! e1 = Some slash).
  { rewrite Hs.
    replace (pre ++ js "github.com/" ++ owner ++ slash :: repo ++ post)
      with ((pre ++ js "github.com/" ++ owner) ++ slash :: repo ++ post)
      by (now rewrite <- !app_assoc).
    apply list_lookup_middle. rewrite !length_app.
    change (length (js "github.com/")) with 11. unfold e1, b1, b. lia. }
  assert (Hrun2 : forall k, S e1 <= k < S e1 + length repo ->
                            inClass noFlags s true [CChar slash] k).
  { apply (slashFree_run s (pre ++ js "github.com/" ++ owner ++ [slash]) repo post);
      [|rewrite !length_app; cbn [length]; change (length (js "github.com/")) with 11;
        unfold e1, b1, b; lia|exact Hsr].
    rewrite Hs. rewrite <- !app_assoc. reflexivity. }
  assert (Hend2 : S e1 + length repo = length s
                  \/ ~ inClass noFlags s true [CChar slash] (S e1 + length repo)).
  { destruct Hpost as [->|[post' ->]].
    - left. simpl in Hlen. unfold e in Hlen. lia.
    - right. intros Hin. apply notSlash_lookup in Hin as (a & Ha & Hne).
      assert (Hmid : s !! (S e1 + length repo) = Some slash).
      { rewrite Hs.
        replace (pre ++ js "github.com/" ++ owner ++ slash :: repo ++ slash :: post')
          with ((pre ++ js "github.com/" ++ owner ++ slash :: repo) ++ slash :: post')
          by (now rewrite <- !app_assoc).
        apply list_lookup_middle. rewrite !length_app. cbn [length].
        change (length (js "github.com/")) with 11. unfold e1, b1, b. lia. }
      pose proof (eq_trans (eq_sym Ha) Hmid) as Heq. congruence. }
  assert (Hend1 : b1 + length owner = length s
                  \/ ~ inClass noFlags s true [CChar slash] (b1 + length owner)).
  { right. intros Hin. apply notSlash_lookup in Hin as (a & Ha & Hne).
    fold e1 in Ha. pose proof (eq_trans (eq_sym Ha) Hslash) as Heq. congruence. }
  assert (Howner_len : 1 <= length owner) by (destruct owner; [congruence|simpl; lia]).
  assert (Hrepo_len : 1 <= length repo) by (destruct repo; [congruence|simpl; lia]).
  (* the rest of the pattern, from the slash on *)
  assert (Hrest : forall c r, c e = Some r ->
            compile noFlags s
              (Seq (Char slash) (Repeat true 1 (Class true [CChar slash]))) e1 c = Some r).
  { intros c r Hc. rewrite compile_Seq, (compile_slash_at s e1 _ Hslash).
    rewrite compile_Repeat.
    apply (class_run s true [CChar slash] c r (length repo) (S e1)); auto; try lia.
    now replace (S e1 + length repo) with e by (unfold e; lia). }
  split.
  - unfold matchAt. rewrite urlPattern_eq. rewrite compile_Seq, compile_lit_chars.
    fold b. rewrite Hdrop.
    assert (startsWith (js "github.com/" ++ owner ++ slash :: repo ++ post)
              (js "github.com/") = true) as -> by (apply startsWith_spec; eauto).
    change (b + length (js "github.com/")) with b1.
    rewrite compile_Seq, compile_Repeat.
    apply (class_run s true [CChar slash] _ e (length owner) b1); auto; lia.
  - unfold groups. fold b b1. cbv zeta.
    change (seqs [lit "/"; rplus (noneOf [ch "/"])])
      with (Seq (Char slash) (Repeat true 1 (Class true [CChar slash]))).
    change (rplus (noneOf [ch "/"])) with (Repeat true 1 (Class true [CChar slash])).
    rewrite compile_Repeat.
    rewrite (class_run s true [CChar slash] _ e1 (length owner) b1); auto; try lia.
    2:{ fold e1. unfold matchAt. now rewrite (Hrest (fun y => Some y) e). }
    assert (Hd1 : drop b1 s = owner ++ slash :: repo ++ post).
    { unfold b1. rewrite <- drop_drop, Hdrop.
      change 11 with (length (js "github.com/")). apply drop_app_length. }
    assert (Hd2 : drop (S e1) s = repo ++ post).
    { replace (S e1) with (b1 + S (length owner)) by (unfold e1; lia).
      rewrite <- drop_drop, Hd1.
      replace (owner ++ slash :: repo ++ post)
        with ((owner ++ [slash]) ++ repo ++ post) by (now rewrite <- app_assoc).
      apply drop_app_length'. rewrite length_app. simpl. lia. }
    f_equal.
    + replace (e1 - b1) with (length owner) by (unfold e1; lia).
      rewrite Hd1. apply take_app_length.
    + fold e. replace (e - S e1) with (length repo) by (unfold e; lia).
      rewrite Hd2. apply take_app_length.
Qed.
End UrlFacts.

(* ===================================================================== *)
(** * The analysis of a repository *)
(* ===================================================================== *)

Section RepositoryFacts.
Import GitHubAnalyzer.
Variable toLowerCase : jsstring -> jsstring.
Variable fetch : nat -> jsstring -> Promise Response.

(** A callback that returns from every call; so does none. *)
Definition quiet (onProgress : option Callback) : Prop :=
  match onProgress with
  | Some callback => forall current total file, callback current total file = None
  | None => True
  end.

(** The callback has thrown [reason]. *)
Definition thrownBy (onProgress : option Callback) (reason : Reason) : Prop :=
  exists callback current total file,
    onProgress = Some callback /\ callback current total file = Some reason.

Lemma quiet_thrownBy onProgress reason :
  quiet onProgress -> ~ thrownBy onProgress reason.
Proof.
  intros Hq (callback & current & total & file & -> & Hc).
  simpl in Hq. rewrite Hq in Hc. discriminate.
Qed.

Definition isProgressCall (e : Event) : bool :=
  match e with ProgressCall _ _ _ => true | _ => false end.

Definition progressCalls (events : list Event) : list Event :=
  List.filter isProgressCall events.

(** The calls of the callback in the loop over the files from index [i]
    on. *)
Fixpoint loopCalls (onProgress : option Callback) (total i : nat)
    (files : list GitHubFile.t) : list Event :=
  match onProgress, files with
  | Some _, file :: files' =>
      ProgressCall (i + 1) total (GitHubFile.path file)
      :: loopCalls onProgress total (S i) files'
  | _, _ => []
  end.

Definition downloadUrl (file : GitHubFile.t) : jsstring :=
  match GitHubFile.download_url file with
  | Some url => url
  | None => js "undefined"
  end.

(** The text that the request number [n], for [url], yields. *)
Definition downloaded (n : nat) (url : jsstring) : option jsstring :=
  match fetch n url with
  | Fulfilled response =>
      if ok response then
        match text response with
        | Fulfilled content => Some content
        | Rejected _ => None
        end
      else None
  | Rejected _ => None
  end.

(** The files whose text arrives and is not blank, when the first of
    [files] is asked for by the request number [n], the next by the
    request after it, and so on. *)
Fixpoint reportedFrom (n : nat) (files : list GitHubFile.t) : list GitHubFile.t :=
  match files with
  | [] => []
  | file :: files' =>
      match downloaded n (downloadUrl file) with
      | Some content =>
          if truthy (trim content) then file :: reportedFrom (S n) files'
          else reportedFrom (S n) files'
      | None => reportedFrom (S n) files'
      end
  end.

Lemma fetchFileContent_spec url st :
  globals (fst (fetchFileContent fetch url st)) = globals st
  /\ requests (fst (fetchFileContent fetch url st)) = S (requests st)
  /\ (exists events,
        log (fst (fetchFileContent fetch url st)) = log st ++ Request url :: events
        /\ progressCalls events = [])
  /\ match downloaded (requests st) url with
     | Some content => snd (fetchFileContent fetch url st) = Fulfilled content
     | None => exists reason, snd (fetchFileContent fetch url st) = Rejected reason
     end.
Proof.
  unfold fetchFileContent, downloaded, request.
  destruct (fetch (requests st) url) as [response|reason]; simpl.
  - destruct (ok response); simpl.
    + destruct (text response) as [content|reason]; simpl.
      * repeat split; auto. exists []. auto.
      * repeat split; eauto. eexists [_]. rewrite <- app_assoc. split; reflexivity.
    + repeat split; eauto. eexists [_]. rewrite <- app_assoc. split; reflexivity.
  - repeat split; eauto. eexists [_]. rewrite <- app_assoc. split; reflexivity.
Qed.

(** [getLanguageFromPath] yields a string, which is no property name of
    [Object.prototype]. *)
Lemma getLanguageFromPath_string filePath :
  exists language,
    getLanguageFromPath toLowerCase filePath = LabelString language
    /\ inherited language = false.
Proof.
  destruct (getLanguageFromPath_cases toLowerCase filePath) as [[_ ->]|(_ & _ & H)].
  - exists (js "text"). auto.
  - destruct (ownString LANGUAGE_MAP (extension toLowerCase filePath))
      as [language|] eqn:Hown.
    + exists language. split; [exact H|]. apply ownString_In in Hown.
      pose proof LANGUAGE_MAP_entries as Hall. rewrite forallb_forall in Hall.
      specialize (Hall _ Hown). unfold goodEntry in Hall. simpl in Hall.
      apply andb_prop in Hall as [Hall _]. apply andb_prop in Hall as [_ Hall].
      now apply negb_true_iff in Hall.
    + exists (js "text"). auto.
Qed.

(** The counts of a result of the engine. *)
Lemma analyzeCode_counts g code language g' r :
  analyzeCode g code language = (g', Normal r) ->
  aiLines r + humanLines r = totalLines r
  /\ (truthy (trim code) = true -> 1 <= totalLines r).
Proof.
  intros H. pose proof (analyzeCode_content _ _ _ _ _ H) as Hc.
  destruct (analyzeCode_stages _ _ _ _ _ H) as (raw & _ & Hr).
  rewrite Hr in Hc |- *. cbn [summarize totalLines aiLines humanLines lineAnalysis] in *.
  set (la := applyContextualAnalysis _) in *.
  set (ne := List.filter (fun l => nonBlank (content l)) la).
  pose proof (filter_length_le isAI ne) as Hle.
  split; [lia|].
  rewrite trim_lines, <- Hc. intros Hex.
  apply existsb_exists in Hex as (line & Hin & Hnb).
  apply in_map_iff in Hin as (l & <- & Hl).
  assert (Hne : In l ne) by (apply filter_In; auto).
  destruct ne; [destruct Hne|simpl; lia].
Qed.

(** What the loop keeps of the files analysed so far. *)
Record Sound (acc : Totals.t) : Prop := {
  sound_lines :
    Totals.totalLines acc
    = list_sum (map (fun f => totalLines (FileAnalysis.analysis f))
                  (Totals.fileAnalyses acc));
  sound_ai :
    Totals.totalAiLines acc
    = list_sum (map (fun f => aiLines (FileAnalysis.analysis f))
                  (Totals.fileAnalyses acc));
  sound_human :
    Totals.totalHumanLines acc
    = list_sum (map (fun f => humanLines (FileAnalysis.analysis f))
                  (Totals.fileAnalyses acc));
  sound_confidence :
    Totals.totalConfidence acc
    = JSNumber.sum (map (fun f => overallConfidence (FileAnalysis.analysis f))
                      (Totals.fileAnalyses acc));
  sound_count : Totals.analyzedCount acc = length (Totals.fileAnalyses acc)
}.

(** An entry of the report: a file that passed the filter, under the
    label of its path, with a result of the engine for a text that is not
    blank. *)
Record GoodFile (f : FileAnalysis.t) : Prop := {
  good_path : shouldAnalyzeFile toLowerCase (FileAnalysis.path f) = true;
  good_language :
    getLanguageFromPath toLowerCase (FileAnalysis.path f)
    = LabelString (FileAnalysis.language f);
  good_size :
    truthyNumber (FileAnalysis.size f) = true
    /\ PrimFloat.ltb (FileAnalysis.size f) (1024 * 1024)%float = true;
  good_analysis :
    exists g g' code,
      truthy (trim code) = true
      /\ analyzeCode g code (FileAnalysis.language f)
         = (g', Normal (FileAnalysis.analysis f));
  good_counts :
    aiLines (FileAnalysis.analysis f) + humanLines (FileAnalysis.analysis f)
    = totalLines (FileAnalysis.analysis f)
    /\ 1 <= totalLines (FileAnalysis.analysis f)
}.

Lemma Sound_empty : Sound emptyTotals.
Proof. constructor; reflexivity. Qed.

Lemma list_sum_snoc xs x : list_sum (xs ++ [x]) = list_sum xs + x.
Proof. rewrite list_sum_app. simpl. lia. Qed.

Lemma Sound_addFile file language analysis acc :
  Sound acc -> Sound (addFile file language analysis acc).
Proof.
  intros [H1 H2 H3 H4 H5].
  constructor; cbn [addFile Totals.totalLines Totals.totalAiLines
                    Totals.totalHumanLines Totals.totalConfidence
                    Totals.analyzedCount Totals.fileAnalyses];
    rewrite ?map_app, ?list_sum_snoc; cbn [map FileAnalysis.analysis].
  - rewrite list_sum_snoc. congruence.
  - rewrite list_sum_snoc. congruence.
  - rewrite list_sum_snoc. congruence.
  - unfold JSNumber.sum in *. rewrite fold_left_app. simpl. congruence.
  - rewrite length_app. simpl. lia.
Qed.

Lemma progress_spec onProgress current total file st :
  globals (fst (progress onProgress current total file st)) = globals st
  /\ requests (fst (progress onProgress current total file st)) = requests st
  /\ log (fst (progress onProgress current total file st))
     = log st ++ match onProgress with
                 | Some _ => [ProgressCall current total file]
                 | None => []
                 end
  /\ (forall reason,
        snd (progress onProgress current total file st) = Some reason ->
        thrownBy onProgress reason).
Proof.
  destruct onProgress as [callback|]; simpl.
  - repeat split; auto. intros reason Hr. exists callback, current, total, file. auto.
  - rewrite app_nil_r. repeat split; auto. discriminate.
Qed.

Lemma progressCalls_app xs ys :
  progressCalls (xs ++ ys) = progressCalls xs ++ progressCalls ys.
Proof. apply List.filter_app. Qed.

(** The loop over the files: it answers; it rejects only with what the
    callback throws; and when it fulfils, the entries it has added are the
    files whose text arrived and is not blank. *)
Lemma analyzeFiles_spec onProgress total : forall files i acc st,
  Forall (fun file => analyzeable toLowerCase file = true) files ->
  Sound acc -> Forall GoodFile (Totals.fileAnalyses acc) ->
  let st' := fst (analyzeFiles toLowerCase fetch onProgress total i files acc st) in
  (exists events, log st' = log st ++ events)
  /\ (ModuleState (globals st) -> ModuleState (globals st'))
  /\ match snd (analyzeFiles toLowerCase fetch onProgress total i files acc st) with
     | Some (Fulfilled acc') =>
         Sound acc' /\ Forall GoodFile (Totals.fileAnalyses acc')
         /\ requests st' = requests st + length files
         /\ map FileAnalysis.path (Totals.fileAnalyses acc')
            = map FileAnalysis.path (Totals.fileAnalyses acc)
              ++ map GitHubFile.path (reportedFrom (requests st) files)
         /\ progressCalls (log st')
            = progressCalls (log st) ++ loopCalls onProgress total i files
     | Some (Rejected reason) => thrownBy onProgress reason
     | None => False
     end.
Proof.
  induction files as [|file files IH]; intros i acc st Hfiles Hacc Hgood; cbv zeta.
  - simpl. split; [exists []; now rewrite app_nil_r|]. split; [auto|].
    rewrite Nat.add_0_r, !app_nil_r. destruct onProgress; simpl; rewrite ?app_nil_r; auto.
  - apply Forall_cons in Hfiles as [Hfile Hfiles].
    cbn [analyzeFiles].
    destruct (progress_spec onProgress (i + 1) total (GitHubFile.path file) st)
      as (Hg1 & Hr1 & Hl1 & Hq1).
    destruct (progress onProgress (i + 1) total (GitHubFile.path file) st)
      as [st1 [reason|]]; cbn [fst snd] in *.
    { split; [eauto|]. split; [now rewrite Hg1|]. now apply Hq1. }
    fold (downloadUrl file).
    destruct (fetchFileContent_spec (downloadUrl file) st1)
      as (Hg2 & Hr2 & (ev2 & Hl2 & Hp2) & Hd).
    assert (Hcalls1 : forall rest,
              progressCalls (log st ++ match onProgress with
                                       | Some _ => [ProgressCall (i + 1) total
                                                      (GitHubFile.path file)]
                                       | None => []
                                       end)
              ++ loopCalls onProgress total (S i) rest
              = progressCalls (log st) ++ loopCalls onProgress total i (file :: rest)).
    { intros rest. rewrite progressCalls_app. destruct onProgress; simpl.
      - rewrite <- app_assoc. reflexivity.
      - assert (Hn : forall k fs, loopCalls None total k fs = [])
          by (intros k [|? ?]; reflexivity).
        now rewrite !Hn, !app_nil_r. }
    destruct (fetchFileContent fetch (downloadUrl file) st1) as [st2 [content|reason]];
      cbn [fst snd] in *.
    + (* the text has arrived *)
      rewrite Hr1 in Hd. cbn [reportedFrom].
      destruct (downloaded (requests st) (downloadUrl file)) as [content'|];
        [injection Hd as <-|destruct Hd as [? Hd]; discriminate].
      destruct (getLanguageFromPath_string (GitHubFile.path file))
        as (language & Hlabel & Hlanguage).
      rewrite Hlabel.
      destruct (truthy (trim content)) eqn:Hblank; cbn [negb].
      * destruct (analyzeCode_returns (globals st2) content language Hlanguage)
          as (g & analysis & Hrun).
        rewrite Hrun.
        assert (Hfa : GoodFile
                        {| FileAnalysis.path := GitHubFile.path file;
                           FileAnalysis.language := language;
                           FileAnalysis.analysis := analysis;
                           FileAnalysis.size :=
                             if truthyNumber (GitHubFile.size file)
                             then GitHubFile.size file else 0%float |}).
        { unfold analyzeable in Hfile.
          apply andb_prop in Hfile as [Hfile _]. apply andb_prop in Hfile as [Hfile Hlt].
          apply andb_prop in Hfile as [Hpath Hsize].
          constructor; cbn [FileAnalysis.path FileAnalysis.language
                            FileAnalysis.analysis FileAnalysis.size].
          - exact Hpath.
          - exact Hlabel.
          - rewrite Hsize. auto.
          - eauto.
          - destruct (analyzeCode_counts _ _ _ _ _ Hrun) as [H1 H2]. auto. }
        specialize (IH (S i) (addFile file language analysis acc) (setGlobals g st2)
                      Hfiles (Sound_addFile _ _ _ _ Hacc)).
        cbv zeta in IH.
        destruct IH as ((ev & Hev) & Hms & IH).
        { cbn [addFile Totals.fileAnalyses]. apply Forall_app. split; [exact Hgood|].
          constructor; [exact Hfa|constructor]. }
        split; [|split].
        -- exists (match onProgress with
                   | Some _ => [ProgressCall (i + 1) total (GitHubFile.path file)]
                   | None => []
                   end ++ Request (downloadUrl file) :: ev2 ++ ev).
           rewrite Hev. cbn [setGlobals log]. rewrite Hl2, Hl1.
           rewrite <- !app_assoc. reflexivity.
        -- intros Hst. apply Hms. cbn [setGlobals globals].
           pose proof (analyzeCode_ModuleState (globals st2) content language) as Hm.
           rewrite Hrun in Hm. apply Hm. now rewrite Hg2, Hg1.
        -- destruct (snd (analyzeFiles _ _ _ _ _ _ _ _)) as [[acc'|reason]|];
             [|exact IH|exact IH].
           destruct IH as (Hs & Hg & Hreq & Hpaths & Hcalls).
           split; [exact Hs|]. split; [exact Hg|].
           split; [rewrite Hreq; cbn [setGlobals requests length]; lia|].
           split.
           ++ rewrite Hpaths. cbn [addFile Totals.fileAnalyses setGlobals requests].
              rewrite map_app, <- app_assoc. cbn [map FileAnalysis.path app].
              now rewrite Hr2, Hr1.
           ++ rewrite Hcalls. cbn [setGlobals log]. rewrite Hl2, Hl1.
              rewrite <- Hcalls1. rewrite !progressCalls_app.
              cbn [progressCalls List.filter isProgressCall].
              fold (progressCalls ev2). rewrite Hp2, app_nil_r.
              reflexivity.
      * (* a blank text *)
        specialize (IH (S i) acc st2 Hfiles Hacc Hgood). cbv zeta in IH.
        destruct IH as ((ev & Hev) & Hms & IH).
        split; [|split].
        -- exists (match onProgress with
                   | Some _ => [ProgressCall (i + 1) total (GitHubFile.path file)]
                   | None => []
                   end ++ Request (downloadUrl file) :: ev2 ++ ev).
           rewrite Hev, Hl2, Hl1. rewrite <- !app_assoc. reflexivity.
        -- intros Hst. apply Hms. now rewrite Hg2, Hg1.
        -- destruct (snd (analyzeFiles _ _ _ _ _ _ _ _)) as [[acc'|reason]|];
             [|exact IH|exact IH].
           destruct IH as (Hs & Hg & Hreq & Hpaths & Hcalls).
           split; [exact Hs|]. split; [exact Hg|].
           split; [rewrite Hreq; cbn [length]; lia|].
           split.
           ++ rewrite Hpaths. now rewrite Hr2, Hr1.
           ++ rewrite Hcalls, Hl2, Hl1. rewrite <- Hcalls1. rewrite !progressCalls_app.
              cbn [progressCalls List.filter isProgressCall].
              fold (progressCalls ev2). rewrite Hp2, app_nil_r.
              reflexivity.
    + (* the download has failed *)
      rewrite Hr1 in Hd. cbn [reportedFrom].
      destruct (downloaded (requests st) (downloadUrl file)) as [content'|];
        [discriminate|].
      match goal with |- context [analyzeFiles _ _ _ _ _ _ _ ?s] =>
        specialize (IH (S i) acc s Hfiles Hacc Hgood) end.
      cbv zeta in IH. destruct IH as ((ev & Hev) & Hms & IH).
      split; [|split].
      -- eexists. rewrite Hev. cbn [record log]. rewrite Hl2, Hl1.
         rewrite <- !app_assoc. reflexivity.
      -- intros Hst. apply Hms. cbn [record globals]. now rewrite Hg2, Hg1.
      -- destruct (snd (analyzeFiles _ _ _ _ _ _ _ _)) as [[acc'|reason']|];
           [|exact IH|exact IH].
         destruct IH as (Hs & Hg & Hreq & Hpaths & Hcalls).
         split; [exact Hs|]. split; [exact Hg|].
         split; [rewrite Hreq; cbn [record requests length]; lia|].
         split.
         ++ rewrite Hpaths. cbn [record requests]. now rewrite Hr2, Hr1.
         ++ rewrite Hcalls. cbn [record log]. rewrite Hl2, Hl1. rewrite <- Hcalls1.
            rewrite !progressCalls_app.
            cbn [progressCalls List.filter isProgressCall].
            fold (progressCalls ev2). rewrite Hp2, !app_nil_r.
            reflexivity.
Qed.
(** The callback has thrown [reason] in the call for one of [files], in
    the loop from index [i] on. *)
Definition thrownIn (onProgress : option Callback) (total i : nat)
    (files : list GitHubFile.t) (reason : Reason) : Prop :=
  exists callback k file,
    onProgress = Some callback /\ files !! k = Some file
    /\ callback (i + k + 1) total (GitHubFile.path file) = Some reason.

Lemma progress_thrown onProgress current total file st reason :
  snd (progress onProgress current total file st) = Some reason ->
  exists callback,
    onProgress = Some callback /\ callback current total file = Some reason.
Proof. destruct onProgress as [callback|]; simpl; [eauto|discriminate]. Qed.

Lemma fetchFileContent_log url st :
  exists events,
    log (fst (fetchFileContent fetch url st)) = log st ++ Request url :: events
    /\ progressCalls events = [] /\ requestUrls events = [].
Proof.
  unfold fetchFileContent, request.
  destruct (fetch (requests st) url) as [response|reason]; simpl.
  - destruct (ok response); simpl.
    + destruct (text response) as [content|reason]; simpl.
      * exists []. auto.
      * eexists [_]. rewrite <- app_assoc. repeat split.
    + eexists [_]. rewrite <- app_assoc. repeat split.
  - eexists [_]. rewrite <- app_assoc. repeat split.
Qed.

(** What an answer of the loop from index [i] on tells of its events:
    when it fulfils, one request for each file, in their order, and one
    call of the callback for each file, in their order; when it rejects,
    the callback has thrown. *)
Definition LoopOutcome (onProgress : option Callback) (total i : nat)
    (files : list GitHubFile.t) (st : State)
    (answer : State * option (Promise Totals.t)) : Prop :=
  match snd answer with
  | Some (Fulfilled _) =>
      exists events,
        log (fst answer) = log st ++ events
        /\ requestUrls events = map downloadUrl files
        /\ progressCalls events = loopCalls onProgress total i files
  | Some (Rejected reason) => thrownIn onProgress total i files reason
  | None => True
  end.

Lemma loopCalls_None total i files : loopCalls None total i files = [].
Proof. now destruct files. Qed.

Lemma LoopOutcome_step onProgress total i file files st next before answer :
  log next = log st ++ before ->
  requestUrls before = [downloadUrl file] ->
  progressCalls before
  = match onProgress with
    | Some _ => [ProgressCall (i + 1) total (GitHubFile.path file)]
    | None => []
    end ->
  LoopOutcome onProgress total (S i) files next answer ->
  LoopOutcome onProgress total i (file :: files) st answer.
Proof.
  intros Hlog Hreq Hcalls. unfold LoopOutcome.
  destruct (snd answer) as [[acc|reason]|]; [| |auto].
  - intros (events & Hl & Hr & Hc). exists (before ++ events).
    rewrite Hl, Hlog, requestUrls_app, progressCalls_app, Hr, Hc, Hreq, Hcalls.
    split; [now rewrite <- app_assoc|]. split; [reflexivity|].
    destruct onProgress; [reflexivity|]. now rewrite !loopCalls_None.
  - intros (callback & k & f & Hcb & Hk & Hthrown).
    exists callback, (S k), f. split; [exact Hcb|]. split; [exact Hk|].
    now replace (i + S k + 1) with (S i + k + 1) by lia.
Qed.

Lemma analyzeFiles_log onProgress total : forall files i acc st,
  LoopOutcome onProgress total i files st
    (analyzeFiles toLowerCase fetch onProgress total i files acc st).
Proof.
  induction files as [|file files IH]; intros i acc st.
  - unfold LoopOutcome. cbn [analyzeFiles fst snd]. exists [].
    rewrite app_nil_r. split; [reflexivity|]. split; [reflexivity|].
    now destruct onProgress.
  - cbn [analyzeFiles].
    destruct (progress_spec onProgress (i + 1) total (GitHubFile.path file) st)
      as (_ & _ & Hl1 & _).
    pose proof (progress_thrown onProgress (i + 1) total (GitHubFile.path file) st)
      as Hthrown.
    destruct (progress onProgress (i + 1) total (GitHubFile.path file) st)
      as [st1 [reason|]]; cbn [fst snd] in *.
    { unfold LoopOutcome. cbn [snd].
      destruct (Hthrown reason eq_refl) as (callback & Hcb & Hc).
      exists callback, 0, file. rewrite Nat.add_0_r. auto. }
    fold (downloadUrl file).
    destruct (fetchFileContent_log (downloadUrl file) st1) as (ev2 & Hl2 & Hp2 & Hu2).
    set (call := match onProgress with
                 | Some _ => [ProgressCall (i + 1) total (GitHubFile.path file)]
                 | None => []
                 end) in *.
    assert (Hcall : progressCalls call = call /\ requestUrls call = []).
    { unfold call. now destruct onProgress. }
    destruct Hcall as [Hcall1 Hcall2].
    assert (Hstep : forall next extra answer,
              log next = log (fst (fetchFileContent fetch (downloadUrl file) st1)) ++ extra ->
              progressCalls extra = [] -> requestUrls extra = [] ->
              LoopOutcome onProgress total (S i) files next answer ->
              LoopOutcome onProgress total i (file :: files) st answer).
    { intros next extra answer Hnext Hpe Hue.
      apply (LoopOutcome_step onProgress total i file files st next
               (call ++ Request (downloadUrl file) :: ev2 ++ extra)).
      - rewrite Hnext, Hl2, Hl1. now rewrite <- !app_assoc.
      - rewrite requestUrls_app, Hcall2. cbn [requestUrls flat_map app].
        fold (requestUrls (ev2 ++ extra)). now rewrite requestUrls_app, Hu2, Hue.
      - rewrite progressCalls_app, Hcall1.
        cbn [progressCalls List.filter isProgressCall].
        fold (progressCalls (ev2 ++ extra)).
        now rewrite progressCalls_app, Hp2, Hpe, app_nil_r. }
    destruct (fetchFileContent fetch (downloadUrl file) st1) as [st2 [content|reason]];
      cbn [fst] in Hstep.
    + destruct (getLanguageFromPath toLowerCase (GitHubFile.path file))
        as [language|]; [|exact I].
      destruct (negb (truthy (trim content))).
      * apply (Hstep st2 []); auto. now rewrite app_nil_r.
      * destruct (analyzeCode (globals st2) content language) as [g [analysis|e]].
        -- apply (Hstep (setGlobals g st2) []); auto. cbn [setGlobals log].
           now rewrite app_nil_r.
        -- eapply (Hstep _ [_]); cycle 3; [apply IH|reflexivity..].
    + eapply (Hstep _ [_]); cycle 3; [apply IH|reflexivity..].
Qed.
End RepositoryFacts.

Section EventFacts.
Import GitHubAnalyzer.

Lemma listing_progressCalls owner repo events :
  Forall (listingEvent owner repo) events -> progressCalls events = [].
Proof.
  induction 1 as [|e events He _ IH]; [reflexivity|].
  cbn [progressCalls List.filter]. fold (progressCalls events). rewrite IH.
  destruct e; simpl in He |- *; tauto.
Qed.
End EventFacts.

Section RepositoryLemmas.
Import GitHubAnalyzer.
Variable toLowerCase : jsstring -> jsstring.
Variable fetch : nat -> jsstring -> Promise Response.

Definition structureMessage : jsstring := js "Fetching repository structure...".

(** The call of the callback before the listing. *)
Definition firstCall (onProgress : option Callback) : list Event :=
  match onProgress with
  | Some _ => [ProgressCall 0 1 structureMessage]
  | None => []
  end.

Definition report (repositoryUrl : jsstring) (allFiles : list GitHubFile.t)
    (acc : Totals.t) : RepositoryAnalysis.t :=
  {| RepositoryAnalysis.repositoryUrl := repositoryUrl;
     RepositoryAnalysis.totalFiles := length allFiles;
     RepositoryAnalysis.analyzedFiles := length (Totals.fileAnalyses acc);
     RepositoryAnalysis.files := Totals.fileAnalyses acc;
     RepositoryAnalysis.overallStats := overallStats acc |}.

(** The steps of a call that fulfils. *)
Lemma analyzeGitHubRepository_fulfilled url onProgress st st' r :
  analyzeGitHubRepository toLowerCase fetch url onProgress st
  = (st', Some (Fulfilled r)) ->
  exists b e st2 allFiles acc,
    exec noFlags urlPattern url 0 = Some (b, e)
    /\ snd (progress onProgress 0 1 structureMessage st) = None
    /\ getAllFiles fetch 3 (fst (groups url b e)) (snd (groups url b e)) []
         (fst (progress onProgress 0 1 structureMessage st))
       = (st2, Fulfilled allFiles)
    /\ List.filter (analyzeable toLowerCase) allFiles <> []
    /\ analyzeFiles toLowerCase fetch onProgress
         (length (List.filter (analyzeable toLowerCase) allFiles)) 0
         (List.filter (analyzeable toLowerCase) allFiles) emptyTotals st2
       = (st', Some (Fulfilled acc))
    /\ r = report url allFiles acc.
Proof.
  unfold analyzeGitHubRepository. fold structureMessage.
  destruct (exec noFlags urlPattern url 0) as [[b e]|]; [|discriminate].
  destruct (groups url b e) as [owner repo] eqn:Hgroups.
  destruct (progress onProgress 0 1 structureMessage st) as [st1 [reason|]];
    [discriminate|].
  destruct (getAllFiles fetch 3 owner repo [] st1) as [st2 [allFiles|reason]] eqn:Hall;
    [|discriminate].
  destruct (length (List.filter (analyzeable toLowerCase) allFiles) =? 0) eqn:Hlen;
    [discriminate|].
  destruct (analyzeFiles _ _ _ _ _ _ _ _) as [st3 [[acc|reason]|]] eqn:Hloop;
    try discriminate.
  intros [= <- <-]. exists b, e, st2, allFiles, acc. rewrite Hgroups. cbn [fst snd].
  repeat split; auto.
  intros Hnil. rewrite Hnil in Hlen. discriminate.
Qed.

Lemma filter_analyzeable allFiles :
  Forall (fun file => analyzeable toLowerCase file = true)
    (List.filter (analyzeable toLowerCase) allFiles).
Proof.
  rewrite Forall_forall. intros f Hf. apply list_elem_of_In, filter_In in Hf. tauto.
Qed.

(** The loop of a call, from its start. *)
Lemma analyzeFiles_start onProgress total files st :
  let st' := fst (analyzeFiles toLowerCase fetch onProgress total 0
                    (List.filter (analyzeable toLowerCase) files) emptyTotals st) in
  (exists events, log st' = log st ++ events)
  /\ (ModuleState (globals st) -> ModuleState (globals st'))
  /\ match snd (analyzeFiles toLowerCase fetch onProgress total 0
                  (List.filter (analyzeable toLowerCase) files) emptyTotals st) with
     | Some (Fulfilled acc') =>
         Sound acc' /\ Forall (GoodFile toLowerCase) (Totals.fileAnalyses acc')
         /\ requests st'
            = requests st + length (List.filter (analyzeable toLowerCase) files)
         /\ map FileAnalysis.path (Totals.fileAnalyses acc')
            = map GitHubFile.path
                (reportedFrom fetch (requests st)
                   (List.filter (analyzeable toLowerCase) files))
         /\ progressCalls (log st')
            = progressCalls (log st)
              ++ loopCalls onProgress total 0
                   (List.filter (analyzeable toLowerCase) files)
     | Some (Rejected reason) => thrownBy onProgress reason
     | None => False
     end.
Proof.
  apply (analyzeFiles_spec toLowerCase fetch onProgress total
           (List.filter (analyzeable toLowerCase) files) 0 emptyTotals st).
  - apply filter_analyzeable.
  - apply Sound_empty.
  - constructor.
Qed.

Lemma reportedFrom_length : forall files n,
  length (reportedFrom fetch n files) <= length files.
Proof.
  induction files as [|file files IH]; intros n; cbn [reportedFrom length]; [lia|].
  specialize (IH (S n)).
  destruct (downloaded fetch n (downloadUrl file)) as [content|]; [|lia].
  destruct (truthy (trim content)); cbn [length]; lia.
Qed.

(** The first event of a listing is its request. *)
Lemma getAllFiles_first depth owner repo path st :
  exists events,
    log (fst (getAllFiles fetch (S depth) owner repo path st))
    = log st ++ Request (contentsUrl owner repo path) :: events.
Proof.
  cbn [getAllFiles].
  assert (Hfetch : exists events,
            log (fst (fetchGitHubContents fetch owner repo path st))
            = log st ++ Request (contentsUrl owner repo path) :: events).
  { unfold fetchGitHubContents, request.
    destruct (fetch (requests st) (contentsUrl owner repo path)) as [response|reason].
    - destruct (negb (ok response)).
      + eexists [_]. simpl. now rewrite <- app_assoc.
      + destruct (json response) as [[items|item]|reason]; simpl.
        * exists []. reflexivity.
        * exists []. reflexivity.
        * eexists [_]. now rewrite <- app_assoc.
    - eexists [_]. simpl. now rewrite <- app_assoc. }
  destruct Hfetch as [ev1 Hev1].
  destruct (fetchGitHubContents fetch owner repo path st) as [st1 [contents|reason]];
    cbn [fst] in *; [|eauto].
  destruct (collectFiles_Steps owner repo (getAllFiles fetch depth owner repo)
              (fun p s => proj1 (getAllFiles_Steps fetch owner repo depth p s))
              (fun p s => proj2 (getAllFiles_Steps fetch owner repo depth p s))
              contents [] st1) as [[_ (ev2 & Hev2 & _)] _].
  destruct (collectFiles _ contents [] st1) as [st2 allFiles]. cbn [fst] in *.
  exists (ev1 ++ ev2). rewrite Hev2, Hev1. now rewrite <- app_assoc.
Qed.

(** No match of [urlPattern] starts at a character other than [g]. *)
Lemma urlPattern_first (s : jsstring) x a :
  s !! x = Some a -> a <> 103%N -> matchAt noFlags s urlPattern x = None.
Proof.
  intros Ha Hne. unfold matchAt. rewrite urlPattern_eq, compile_Seq, compile_lit_chars.
  rewrite (drop_S s a x Ha). cbn [js list_ascii_of_string map startsWith].
  replace (a =? N_of_ascii "g")%N with false; [reflexivity|].
  symmetry. now apply N.eqb_neq.
Qed.

(** The match and the groups in an address of the documented form. *)
Lemma exec_address (s pre owner repo post : jsstring) :
  s = pre ++ js "github.com/" ++ owner ++ slash :: repo ++ post ->
  ~ In 103%N pre ->
  owner <> [] -> slashFree owner -> repo <> [] -> slashFree repo ->
  post = [] \/ (exists post', post = slash :: post') ->
  exists b e,
    exec noFlags urlPattern s 0 = Some (b, e) /\ groups s b e = (owner, repo).
Proof.
  intros Hs Hpre Howner Hso Hrepo Hsr Hpost.
  destruct (urlPattern_at s pre owner repo post Hs Howner Hso Hrepo Hsr Hpost)
    as [Hm Hg].
  set (e := length pre + 11 + length owner + 1 + length repo) in *.
  exists (length pre), e. split; [|exact Hg].
  unfold exec. replace (length s <? 0) with false by reflexivity.
  rewrite Nat.sub_0_r.
  apply searchFrom_first; [| exact Hm |].
  - rewrite Hs, length_app. lia.
  - intros y Hy.
    destruct (lookup_lt_is_Some_2 pre y ltac:(lia)) as [a Ha].
    apply (urlPattern_first s y a).
    + rewrite Hs. apply lookup_app_l_Some. exact Ha.
    + intros ->. apply Hpre. apply list_elem_of_In. eapply list_elem_of_lookup_2; eauto.
Qed.
End RepositoryLemmas.

Section RepositoryProperties.
Import GitHubAnalyzer.
Variable toLowerCase : jsstring -> jsstring.
Variable fetch : nat -> jsstring -> Promise Response.

Lemma getAllFiles_rejected depth owner repo path st st' reason :
  getAllFiles fetch (S depth) owner repo path st = (st', Rejected reason) ->
  fetchGitHubContents fetch owner repo path st = (st', Rejected reason).
Proof.
  cbn [getAllFiles].
  destruct (fetchGitHubContents fetch owner repo path st) as [st1 [contents|reason']].
  - destruct (collectFiles _ contents [] st1). discriminate.
  - auto.
Qed.

(** The longest beginning of a string that holds no slash. *)
Lemma slashFree_span : forall t : jsstring,
  exists run rest,
    t = run ++ rest /\ slashFree run
    /\ (rest = [] \/ exists rest', rest = slash :: rest').
Proof.
  induction t as [|a t (run & rest & -> & Hrun & Hrest)].
  - exists [], []. split; [reflexivity|]. split; [intros []|now left].
  - destruct (N.eq_dec a slash) as [->|Hne].
    + exists [], (slash :: run ++ rest). split; [reflexivity|].
      split; [intros []|right; eauto].
    + exists (a :: run), rest. split; [reflexivity|]. split; [|exact Hrest].
      intros [Ha|Hin]; [congruence|now apply Hrun].
Qed.

(** The addresses that [urlPattern] matches. *)
Definition hasRepository (url : jsstring) : Prop :=
  exists pre owner c post,
    url = pre ++ js "github.com/" ++ owner ++ slash :: c :: post
    /\ owner <> [] /\ slashFree owner /\ c <> slash.

Lemma urlPattern_matches url :
  matches noFlags urlPattern url = true <-> hasRepository url.
Proof.
  unfold matches, exec. replace (length url <? 0) with false by reflexivity.
  rewrite Nat.sub_0_r. split.
  - destruct (searchFrom noFlags url urlPattern (length url) 0) as [[b e]|] eqn:Hs;
      [|discriminate].
    intros _. apply searchFrom_found in Hs as (Hm & _ & _).
    apply urlPattern_matchAt in Hm as (owner & c & post & Hurl & Ho & Hso & Hc).
    exists (take b url), owner, c, post. auto.
  - intros (pre & owner & c & post & Hurl & Ho & Hso & Hc).
    destruct (slashFree_span post) as (run & rest & -> & Hrun & Hrest).
    assert (Hrun' : slashFree (c :: run)).
    { intros [Hin|Hin]; [congruence|now apply Hrun]. }
    destruct (urlPattern_at url pre owner (c :: run) rest Hurl Ho Hso
                ltac:(discriminate) Hrun' Hrest) as [Hm _].
    destruct (searchFrom_some noFlags url urlPattern (length pre) _ (length url) 0
                ltac:(rewrite Hurl, length_app; lia) Hm) as (b' & e' & ->).
    reflexivity.
Qed.

(** X18: the address must hold [github.com/], an owner of one character at
    least and without a slash, a slash and one more character that is no
    slash; any other address is rejected at once as invalid, before any
    request and without a call of the callback. *)
Theorem repository_address : forall url,
  (matches noFlags urlPattern url = true <-> hasRepository url)
  /\ (matches noFlags urlPattern url = false ->
      forall onProgress st,
        analyzeGitHubRepository toLowerCase fetch url onProgress st
        = (st, Some (Rejected InvalidRepositoryUrl))).
Proof.
  intros url. split; [apply urlPattern_matches|].
  unfold matches, analyzeGitHubRepository.
  destruct (exec noFlags urlPattern url 0) as [[b e]|]; [discriminate|reflexivity].
Qed.

(** X19: in an address [... github.com/owner/repo ...] with no [g] before
    [github.com], where owner and repo hold no slash and the address ends
    behind repo or goes on with a slash, the first request of the analysis
    lists the root of this repository of this owner; only the first call
    of the callback comes before it. *)
Theorem repository_of_address : forall pre owner repo post onProgress st,
  ~ In 103%N pre ->
  owner <> [] -> slashFree owner -> repo <> [] -> slashFree repo ->
  post = [] \/ (exists post', post = slash :: post') ->
  quiet onProgress ->
  exists events,
    log (fst (analyzeGitHubRepository toLowerCase fetch
                (pre ++ js "github.com/" ++ owner ++ slash :: repo ++ post)
                onProgress st))
    = log st ++ firstCall onProgress
      ++ Request (contentsUrl owner repo []) :: events.
Proof.
  intros pre owner repo post onProgress st Hpre Howner Hso Hrepo Hsr Hpost Hquiet.
  match goal with |- context [analyzeGitHubRepository _ _ ?u _ _] =>
    remember u as url eqn:Hurl end.
  destruct (exec_address url pre owner repo post Hurl Hpre Howner Hso Hrepo Hsr Hpost)
    as (b & e & Hexec & Hgroups).
  unfold analyzeGitHubRepository. rewrite Hexec, Hgroups. fold structureMessage.
  destruct (progress_spec onProgress 0 1 structureMessage st) as (_ & _ & Hl1 & Hq1).
  destruct (progress onProgress 0 1 structureMessage st) as [st1 [reason|]];
    cbn [fst snd] in *.
  { destruct (quiet_thrownBy _ _ Hquiet (Hq1 _ eq_refl)). }
  fold (firstCall onProgress) in Hl1.
  destruct (getAllFiles_first fetch 2 owner repo [] st1) as [ev1 Hev1].
  destruct (getAllFiles fetch 3 owner repo [] st1) as [st2 [allFiles|reason]];
    cbn [fst] in *.
  - destruct (length (List.filter (analyzeable toLowerCase) allFiles) =? 0).
    + exists ev1. cbn [fst]. rewrite Hev1, Hl1. now rewrite <- app_assoc.
    + destruct (analyzeFiles_start toLowerCase fetch onProgress
                  (length (List.filter (analyzeable toLowerCase) allFiles))
                  allFiles st2) as ((ev2 & Hev2) & _ & _).
      destruct (analyzeFiles _ _ _ _ _ _ _ _) as [st3 [[acc|reason]|]];
        cbn [fst] in *; exists (ev1 ++ ev2); rewrite Hev2, Hev1, Hl1;
        now rewrite <- !app_assoc.
  - exists ev1. cbn [fst]. rewrite Hev1, Hl1. now rewrite <- app_assoc.
Qed.

(** X20: when the promise of [analyzeGitHubRepository] is rejected, this
    is what has happened, with the reason named each time.  Either the
    address has no match of the pattern: the reason is the invalid
    address and nothing was requested or logged.  Or, with the owner and
    the repository that the first match of the pattern in this address
    gives: the callback has thrown the reason in its first call, with 0
    of 1; or [fetchGitHubContents] for the root of this repository, called
    after that call, was rejected with the reason; or the listing of this repository
    gave files of which none passes the filter; or the callback has
    thrown the reason in its call for one of the files that passed the
    filter, with the index of that file from 1 on, the number of these
    files and its path.  No failing download, no exception of the engine
    and no failing listing of a directory further down is among them. *)
Theorem repository_rejections : forall url onProgress st st' reason,
  analyzeGitHubRepository toLowerCase fetch url onProgress st
  = (st', Some (Rejected reason)) ->
  (exec noFlags urlPattern url 0 = None
   /\ reason = InvalidRepositoryUrl /\ st' = st)
  \/ exists b e,
       exec noFlags urlPattern url 0 = Some (b, e)
       /\ let owner := fst (groups url b e) in
          let repo := snd (groups url b e) in
          let st1 := fst (progress onProgress 0 1 structureMessage st) in
          (exists callback,
             onProgress = Some callback
             /\ callback 0 1 structureMessage = Some reason
             /\ st' = st1)
          \/ (snd (progress onProgress 0 1 structureMessage st) = None
              /\ fetchGitHubContents fetch owner repo [] st1
                 = (st', Rejected reason))
          \/ (exists allFiles,
                getAllFiles fetch 3 owner repo [] st1 = (st', Fulfilled allFiles)
                /\ List.filter (analyzeable toLowerCase) allFiles = []
                /\ reason = NoAnalyzeableFiles)
          \/ (exists st2 allFiles,
                getAllFiles fetch 3 owner repo [] st1 = (st2, Fulfilled allFiles)
                /\ thrownIn onProgress
                     (length (List.filter (analyzeable toLowerCase) allFiles)) 0
                     (List.filter (analyzeable toLowerCase) allFiles) reason).
Proof.
  intros url onProgress st st' reason. unfold analyzeGitHubRepository.
  destruct (exec noFlags urlPattern url 0) as [[b e]|];
    [|intros [= <- <-]; now left].
  intros H. right. exists b, e. split; [reflexivity|]. revert H.
  destruct (groups url b e) as [owner repo]. cbn [fst snd]. fold structureMessage.
  pose proof (progress_thrown onProgress 0 1 structureMessage st) as Hthrown.
  destruct (progress onProgress 0 1 structureMessage st) as [st1 [thrown|]];
    cbn [fst snd] in *.
  { intros [= <- <-]. left.
    destruct (Hthrown thrown eq_refl) as (callback & Hcb & Hc). eauto. }
  destruct (getAllFiles fetch 3 owner repo [] st1) as [st2 [allFiles|failure]] eqn:Hall.
  - destruct (length (List.filter (analyzeable toLowerCase) allFiles) =? 0) eqn:Hlen.
    + intros [= <- <-]. right. right. left. exists allFiles.
      apply Nat.eqb_eq, length_zero_iff_nil in Hlen. auto.
    + pose proof (analyzeFiles_log toLowerCase fetch onProgress
                    (length (List.filter (analyzeable toLowerCase) allFiles))
                    (List.filter (analyzeable toLowerCase) allFiles) 0 emptyTotals st2)
        as Hout.
      unfold LoopOutcome in Hout.
      destruct (analyzeFiles _ _ _ _ _ _ _ _) as [st3 [[acc|thrown]|]];
        cbn [snd] in *; try discriminate.
      intros [= <- <-]. right. right. right. exists st2, allFiles. auto.
  - intros [= <- <-]. apply getAllFiles_rejected in Hall. right. left. auto.
Qed.

Lemma list_sum_map_le {A} (f g : A -> nat) xs :
  Forall (fun x => f x <= g x) xs -> list_sum (map f xs) <= list_sum (map g xs).
Proof. induction 1; simpl; lia. Qed.

Lemma list_sum_map_add {A} (f g h : A -> nat) xs :
  Forall (fun x => f x + g x = h x) xs ->
  list_sum (map f xs) + list_sum (map g xs) = list_sum (map h xs).
Proof. induction 1; simpl; lia. Qed.

Lemma list_sum_map_ge {A} (f : A -> nat) xs :
  Forall (fun x => 1 <= f x) xs -> length xs <= list_sum (map f xs).
Proof. induction 1; simpl; lia. Qed.

(** What the loop leaves, for the report. *)
Lemma report_counts acc :
  Sound acc -> Forall (GoodFile toLowerCase) (Totals.fileAnalyses acc) ->
  Totals.totalAiLines acc + Totals.totalHumanLines acc = Totals.totalLines acc
  /\ length (Totals.fileAnalyses acc) <= Totals.totalLines acc
  /\ (Totals.fileAnalyses acc = [] -> Totals.totalLines acc = 0).
Proof.
  intros [H1 H2 H3 _ _] Hgood. rewrite H1, H2, H3. split; [|split].
  - apply list_sum_map_add. eapply Forall_impl; [exact Hgood|].
    intros f Hf. apply (good_counts _ _ Hf).
  - apply list_sum_map_ge. eapply Forall_impl; [exact Hgood|].
    intros f Hf. apply (good_counts _ _ Hf).
  - now intros ->.
Qed.

(** X21: the report of a repository adds up: [analyzedFiles] is the number
    of its entries, and at most [totalFiles]; every entry belongs to a file
    that passed the filter, carries the label of its path and a result of
    the engine for a text that is not blank; the three counts are the sums
    over the entries, the AI and the human lines make up the total, which
    is at least the number of entries; and the overall confidence is the
    mean of those of the entries, 0 without entries. *)
Theorem repository_accounting : forall url onProgress st st' r,
  analyzeGitHubRepository toLowerCase fetch url onProgress st
  = (st', Some (Fulfilled r)) ->
  let stats := RepositoryAnalysis.overallStats r in
  let analyses := map FileAnalysis.analysis (RepositoryAnalysis.files r) in
  RepositoryAnalysis.repositoryUrl r = url
  /\ RepositoryAnalysis.analyzedFiles r = length (RepositoryAnalysis.files r)
  /\ RepositoryAnalysis.analyzedFiles r <= RepositoryAnalysis.totalFiles r
  /\ Forall (GoodFile toLowerCase) (RepositoryAnalysis.files r)
  /\ OverallStats.totalLines stats = list_sum (map totalLines analyses)
  /\ OverallStats.aiLines stats = list_sum (map aiLines analyses)
  /\ OverallStats.humanLines stats = list_sum (map humanLines analyses)
  /\ OverallStats.aiLines stats + OverallStats.humanLines stats
     = OverallStats.totalLines stats
  /\ RepositoryAnalysis.analyzedFiles r <= OverallStats.totalLines stats
  /\ OverallStats.overallConfidence stats
     = if 0 <? RepositoryAnalysis.analyzedFiles r
       then (JSNumber.sum (map overallConfidence analyses)
             / ofNat (RepositoryAnalysis.analyzedFiles r))%float
       else 0%float.
Proof.
  intros url onProgress st st' r H.
  apply analyzeGitHubRepository_fulfilled in H
    as (b & e & st2 & allFiles & acc & _ & _ & _ & _ & Hloop & ->).
  destruct (analyzeFiles_start toLowerCase fetch onProgress
              (length (List.filter (analyzeable toLowerCase) allFiles))
              allFiles st2) as (_ & _ & Hout).
  rewrite Hloop in Hout. cbn [snd] in Hout.
  destruct Hout as (Hsound & Hgood & _ & Hpaths & _).
  destruct (report_counts acc Hsound Hgood) as (Hsum & Hle & _).
  destruct Hsound as [H1 H2 H3 H4 H5].
  cbv zeta. cbn [report RepositoryAnalysis.repositoryUrl RepositoryAnalysis.analyzedFiles
                 RepositoryAnalysis.totalFiles RepositoryAnalysis.files
                 RepositoryAnalysis.overallStats overallStats
                 OverallStats.totalLines OverallStats.aiLines OverallStats.humanLines
                 OverallStats.overallConfidence].
  rewrite !map_map.
  split; [reflexivity|]. split; [reflexivity|]. split.
  { apply (f_equal length) in Hpaths. rewrite !length_map in Hpaths. rewrite Hpaths.
    etransitivity; [apply reportedFrom_length|]. apply filter_length_le. }
  split; [exact Hgood|]. split; [exact H1|]. split; [exact H2|]. split; [exact H3|].
  split; [exact Hsum|]. split; [exact Hle|].
  now rewrite H5, H4.
Qed.

(** X22: while the lines of a report are fewer than 2^53, its two
    percentages lie between 0 and 100; with an entry they add up to 100
    within 1e-12, and without one both are 0. *)
Theorem repository_percentages : forall url onProgress st st' r,
  analyzeGitHubRepository toLowerCase fetch url onProgress st
  = (st', Some (Fulfilled r)) ->
  let stats := RepositoryAnalysis.overallStats r in
  (Z.of_nat (OverallStats.totalLines stats) < 2 ^ 53)%Z ->
  (0 <=? OverallStats.aiPercentage stats)%float = true
  /\ (OverallStats.aiPercentage stats <=? 100)%float = true
  /\ (0 <=? OverallStats.humanPercentage stats)%float = true
  /\ (OverallStats.humanPercentage stats <=? 100)%float = true
  /\ match RepositoryAnalysis.files r with
     | [] =>
         OverallStats.aiPercentage stats = 0%float
         /\ OverallStats.humanPercentage stats = 0%float
     | _ :: _ =>
         (99.999999999999
          <=? OverallStats.aiPercentage stats + OverallStats.humanPercentage stats)%float
         = true
         /\ (OverallStats.aiPercentage stats + OverallStats.humanPercentage stats
             <=? 100.000000000001)%float = true
     end.
Proof.
  intros url onProgress st st' r H.
  apply analyzeGitHubRepository_fulfilled in H
    as (b & e & st2 & allFiles & acc & _ & _ & _ & _ & Hloop & ->).
  destruct (analyzeFiles_start toLowerCase fetch onProgress
              (length (List.filter (analyzeable toLowerCase) allFiles))
              allFiles st2) as (_ & _ & Hout).
  rewrite Hloop in Hout. cbn [snd] in Hout.
  destruct Hout as (Hsound & Hgood & _ & _ & _).
  destruct (report_counts acc Hsound Hgood) as (Hsum & Hle & Hnil).
  cbv zeta. cbn [report RepositoryAnalysis.files RepositoryAnalysis.overallStats
                 overallStats OverallStats.totalLines OverallStats.aiPercentage
                 OverallStats.humanPercentage].
  intros H53.
  set (n := Totals.totalLines acc) in *. set (k := Totals.totalAiLines acc) in *.
  replace (Totals.totalHumanLines acc) with (n - k) by lia.
  destruct (0 <? n) eqn:Hn.
  - apply Nat.ltb_lt in Hn.
    destruct (percentage_bounds k n ltac:(lia) ltac:(lia) H53) as [Ha0 Ha1].
    destruct (percentage_bounds (n - k) n ltac:(lia) ltac:(lia) H53) as [Hh0 Hh1].
    destruct (percentages_sum k n ltac:(lia) ltac:(lia) H53) as [Hs0 Hs1].
    repeat split; auto.
    destruct (Totals.fileAnalyses acc) as [|f fs] eqn:Hfs; [|auto].
    specialize (Hnil eq_refl). lia.
  - apply Nat.ltb_ge in Hn.
    repeat split; try reflexivity.
    destruct (Totals.fileAnalyses acc) as [|f fs] eqn:Hfs; [auto|simpl in Hle; lia].
Qed.

(** X23: in a call of [analyzeGitHubRepository] that fulfils, the listing
    is the one [getAllFiles] gives, to depth 3, for the root of the
    repository that the first match of the pattern in the address names.
    Every item of this listing has type [file], and [totalFiles] is their
    number.  After the listing the call makes one request for each file
    of the listing that passes the filter, for its [download_url], in the
    order of the listing, and no other request.  The entries of the
    report are, in this order, those of these files whose text arrived
    and is not blank: a file whose download fails or whose text is blank
    is left out. *)
Theorem repository_files : forall url onProgress st st' r,
  analyzeGitHubRepository toLowerCase fetch url onProgress st
  = (st', Some (Fulfilled r)) ->
  exists b e st2 allFiles,
    exec noFlags urlPattern url 0 = Some (b, e)
    /\ getAllFiles fetch 3 (fst (groups url b e)) (snd (groups url b e)) []
         (fst (progress onProgress 0 1 structureMessage st))
       = (st2, Fulfilled allFiles)
    /\ let candidates := List.filter (analyzeable toLowerCase) allFiles in
       RepositoryAnalysis.totalFiles r = length allFiles
       /\ Forall (fun f => GitHubFile.type f = js "file") allFiles
       /\ (exists events,
             log st' = log st2 ++ events
             /\ requestUrls events = map downloadUrl candidates)
       /\ requests st' = requests st2 + length candidates
       /\ map FileAnalysis.path (RepositoryAnalysis.files r)
          = map GitHubFile.path (reportedFrom fetch (requests st2) candidates).
Proof.
  intros url onProgress st st' r H.
  apply analyzeGitHubRepository_fulfilled in H
    as (b & e & st2 & allFiles & acc & Hexec & _ & Hall & _ & Hloop & ->).
  exists b, e, st2, allFiles. split; [exact Hexec|]. split; [exact Hall|].
  destruct (analyzeFiles_start toLowerCase fetch onProgress
              (length (List.filter (analyzeable toLowerCase) allFiles))
              allFiles st2) as (_ & _ & Hout).
  pose proof (analyzeFiles_log toLowerCase fetch onProgress
                (length (List.filter (analyzeable toLowerCase) allFiles))
                (List.filter (analyzeable toLowerCase) allFiles) 0 emptyTotals st2)
    as Hlog.
  unfold LoopOutcome in Hlog.
  rewrite Hloop in Hout, Hlog. cbn [fst snd] in Hout, Hlog.
  destruct Hout as (_ & _ & Hreq & Hpaths & _).
  destruct Hlog as (events & Hl & Hu & _).
  cbn [report RepositoryAnalysis.totalFiles RepositoryAnalysis.files].
  split; [reflexivity|].
  pose proof (getAllFiles_Steps fetch (fst (groups url b e)) (snd (groups url b e)) 3 []
                (fst (progress onProgress 0 1 structureMessage st))) as [_ Honly].
  rewrite Hall in Honly. cbn [snd onlyFiles] in Honly.
  split.
  { eapply Forall_impl; [exact Honly|]. intros f Hf. now apply eqb_eq. }
  split; [exists events; auto|]. auto.
Qed.

(** X24: the events of a call of [analyzeGitHubRepository] that fulfils
    come in three parts.  First the one call of the callback, when one is
    given, with 0 of 1 and the message of the structure.  Then the
    listing that [getAllFiles] makes for the repository of the address:
    it begins with the request for the root and holds no call of the
    callback.  Then the loop over the files of this listing that pass the
    filter: its calls of the callback are one for each of these files, in
    the order of the listing, with the index of the file from 1 on, the
    number of these files and the path - also for the files that are then
    left out. *)
Theorem repository_progress : forall url onProgress st st' r,
  analyzeGitHubRepository toLowerCase fetch url onProgress st
  = (st', Some (Fulfilled r)) ->
  exists b e st2 allFiles listed loop,
    exec noFlags urlPattern url 0 = Some (b, e)
    /\ getAllFiles fetch 3 (fst (groups url b e)) (snd (groups url b e)) []
         (fst (progress onProgress 0 1 structureMessage st))
       = (st2, Fulfilled allFiles)
    /\ let candidates := List.filter (analyzeable toLowerCase) allFiles in
       log st2
       = log st ++ firstCall onProgress
         ++ Request (contentsUrl (fst (groups url b e)) (snd (groups url b e)) [])
            :: listed
       /\ progressCalls listed = []
       /\ log st' = log st2 ++ loop
       /\ progressCalls loop
          = loopCalls onProgress (length candidates) 0 candidates.
Proof.
  intros url onProgress st st' r H.
  apply analyzeGitHubRepository_fulfilled in H
    as (b & e & st2 & allFiles & acc & Hexec & _ & Hall & _ & Hloop & ->).
  pose proof (analyzeFiles_log toLowerCase fetch onProgress
                (length (List.filter (analyzeable toLowerCase) allFiles))
                (List.filter (analyzeable toLowerCase) allFiles) 0 emptyTotals st2)
    as Hlog.
  unfold LoopOutcome in Hlog. rewrite Hloop in Hlog. cbn [fst snd] in Hlog.
  destruct Hlog as (loop & Hl & _ & Hcalls).
  pose proof (getAllFiles_Steps fetch (fst (groups url b e)) (snd (groups url b e)) 3 []
                (fst (progress onProgress 0 1 structureMessage st))) as [Hsteps _].
  destruct (getAllFiles_first fetch 2 (fst (groups url b e)) (snd (groups url b e)) []
              (fst (progress onProgress 0 1 structureMessage st))) as [listed Hfirst].
  rewrite Hall in Hsteps, Hfirst. cbn [fst] in Hsteps, Hfirst.
  destruct Hsteps as [_ (events & Hlog & _ & Hev)].
  destruct (progress_spec onProgress 0 1 structureMessage st) as (_ & _ & Hl1 & _).
  fold (firstCall onProgress) in Hl1.
  exists b, e, st2, allFiles, listed, loop.
  split; [exact Hexec|]. split; [exact Hall|]. cbn zeta.
  split; [rewrite Hfirst, Hl1; now rewrite <- app_assoc|].
  split; [|auto].
  rewrite Hlog in Hfirst. apply app_inv_head in Hfirst. subst events.
  apply Forall_cons_1 in Hev as [_ Hev].
  exact (listing_progressCalls _ _ _ Hev).
Qed.

(** X25: a call of [analyzeGitHubRepository], however it ends, leaves the
    tables of the engine with their rules: whatever it changes there is a
    [lastIndex]. *)
Theorem repository_engine_state : forall url onProgress st,
  ModuleState (globals st) ->
  ModuleState
    (globals (fst (analyzeGitHubRepository toLowerCase fetch url onProgress st))).
Proof.
  intros url onProgress st Hst. unfold analyzeGitHubRepository.
  destruct (exec noFlags urlPattern url 0) as [[b e]|]; [|exact Hst].
  destruct (groups url b e) as [owner repo]. fold structureMessage.
  destruct (progress_spec onProgress 0 1 structureMessage st) as (Hg1 & _ & _ & _).
  destruct (progress onProgress 0 1 structureMessage st) as [st1 [reason|]];
    cbn [fst snd] in *; [now rewrite Hg1|].
  pose proof (getAllFiles_Steps fetch owner repo 3 [] st1) as [[Hg2 _] _].
  destruct (getAllFiles fetch 3 owner repo [] st1) as [st2 [allFiles|reason]];
    cbn [fst] in *; [|now rewrite Hg2, Hg1].
  destruct (length (List.filter (analyzeable toLowerCase) allFiles) =? 0);
    [cbn [fst]; now rewrite Hg2, Hg1|].
  destruct (analyzeFiles_start toLowerCase fetch onProgress
              (length (List.filter (analyzeable toLowerCase) allFiles))
              allFiles st2) as (_ & Hms & _).
  destruct (analyzeFiles _ _ _ _ _ _ _ _) as [st3 [[acc|reason]|]];
    cbn [fst] in *; apply Hms; now rewrite Hg2, Hg1.
Qed.

(** X26: the promise is fulfilled also when no file could be analysed -
    every download failed, or every text was blank: the report then has no
    entry, and its six statistics are 0. *)
Theorem repository_without_entries : forall url onProgress st st' r,
  analyzeGitHubRepository toLowerCase fetch url onProgress st
  = (st', Some (Fulfilled r)) ->
  RepositoryAnalysis.files r = [] ->
  RepositoryAnalysis.analyzedFiles r = 0
  /\ 1 <= RepositoryAnalysis.totalFiles r
  /\ RepositoryAnalysis.overallStats r
     = {| OverallStats.totalLines := 0; OverallStats.aiLines := 0;
          OverallStats.humanLines := 0; OverallStats.aiPercentage := 0%float;
          OverallStats.humanPercentage := 0%float;
          OverallStats.overallConfidence := 0%float |}.
Proof.
  intros url onProgress st st' r H.
  apply analyzeGitHubRepository_fulfilled in H
    as (b & e & st2 & allFiles & acc & _ & _ & _ & Hne & Hloop & ->).
  destruct (analyzeFiles_start toLowerCase fetch onProgress
              (length (List.filter (analyzeable toLowerCase) allFiles))
              allFiles st2) as (_ & _ & Hout).
  rewrite Hloop in Hout. cbn [snd] in Hout.
  destruct Hout as ([H1 H2 H3 H4 H5] & _).
  cbn [report RepositoryAnalysis.files RepositoryAnalysis.analyzedFiles
       RepositoryAnalysis.totalFiles RepositoryAnalysis.overallStats].
  intros Hnil. rewrite Hnil in *. cbn [map list_sum length JSNumber.sum fold_left] in *.
  split; [reflexivity|]. split.
  - destruct allFiles; [now destruct Hne|simpl; lia].
  - unfold overallStats. rewrite H1, H2, H3, H4, H5. reflexivity.
Qed.
End RepositoryProperties.

Lemma repository_of_address_example :
  ~ In 103%N (js "https://")
  /\ js "octo" <> [] /\ slashFree (js "octo")
  /\ js "demo" <> [] /\ slashFree (js "demo")
  /\ (js "/tree/main" = [] \/ (exists post', js "/tree/main" = slash :: post'))
  /\ quiet None
  /\ exists events,
       GitHubAnalyzer.log
         (fst (GitHubAnalyzer.analyzeGitHubRepository lowerASCII Sample.fetch
                 (js "https://" ++ js "github.com/" ++ js "octo"
                  ++ slash :: js "demo" ++ js "/tree/main")
                 None Sample.start))
       = GitHubAnalyzer.log Sample.start ++ firstCall None
         ++ GitHubAnalyzer.Request
              (GitHubAnalyzer.contentsUrl (js "octo") (js "demo") []) :: events.
Proof.
  assert (H1 : ~ In 103%N (js "https://")).
  { intros H. vm_compute in H. intuition discriminate. }
  assert (H2 : slashFree (js "octo")).
  { intros H. vm_compute in H. intuition discriminate. }
  assert (H3 : slashFree (js "demo")).
  { intros H. vm_compute in H. intuition discriminate. }
  assert (H4 : js "/tree/main" = [] \/ (exists post', js "/tree/main" = slash :: post')).
  { right. eexists. reflexivity. }
  split; [exact H1|]. split; [discriminate|]. split; [exact H2|].
  split; [discriminate|]. split; [exact H3|]. split; [exact H4|]. split; [exact I|].
  apply (repository_of_address lowerASCII Sample.fetch (js "https://") (js "octo")
           (js "demo") (js "/tree/main") None Sample.start);
    [exact H1|discriminate|exact H2|discriminate|exact H3|exact H4|exact I].
Defined.

Lemma repository_accounting_example :
  exists st' r,
    GitHubAnalyzer.analyzeGitHubRepository lowerASCII Sample.fetch sampleUrl None
      Sample.start
    = (st', Some (GitHubAnalyzer.Fulfilled r))
    /\ let stats := GitHubAnalyzer.RepositoryAnalysis.overallStats r in
       let analyses :=
         map GitHubAnalyzer.FileAnalysis.analysis
           (GitHubAnalyzer.RepositoryAnalysis.files r) in
       GitHubAnalyzer.RepositoryAnalysis.repositoryUrl r = sampleUrl
       /\ GitHubAnalyzer.RepositoryAnalysis.analyzedFiles r
          = length (GitHubAnalyzer.RepositoryAnalysis.files r)
       /\ GitHubAnalyzer.RepositoryAnalysis.analyzedFiles r
          <= GitHubAnalyzer.RepositoryAnalysis.totalFiles r
       /\ Forall (GoodFile lowerASCII) (GitHubAnalyzer.RepositoryAnalysis.files r)
       /\ GitHubAnalyzer.OverallStats.totalLines stats
          = list_sum (map totalLines analyses)
       /\ GitHubAnalyzer.OverallStats.aiLines stats = list_sum (map aiLines analyses)
       /\ GitHubAnalyzer.OverallStats.humanLines stats
          = list_sum (map humanLines analyses)
       /\ GitHubAnalyzer.OverallStats.aiLines stats
          + GitHubAnalyzer.OverallStats.humanLines stats
          = GitHubAnalyzer.OverallStats.totalLines stats
       /\ GitHubAnalyzer.RepositoryAnalysis.analyzedFiles r
          <= GitHubAnalyzer.OverallStats.totalLines stats
       /\ GitHubAnalyzer.OverallStats.overallConfidence stats
          = if 0 <? GitHubAnalyzer.RepositoryAnalysis.analyzedFiles r
            then (JSNumber.sum (map overallConfidence analyses)
                  / ofNat (GitHubAnalyzer.RepositoryAnalysis.analyzedFiles r))%float
            else 0%float.
Proof.
  do 2 eexists. split; [vm_compute; reflexivity|].
  eapply (repository_accounting lowerASCII Sample.fetch sampleUrl None Sample.start).
  vm_compute. reflexivity.
Defined.

Lemma repository_percentages_example :
  exists st' r,
    GitHubAnalyzer.analyzeGitHubRepository lowerASCII Sample.fetch sampleUrl None
      Sample.start
    = (st', Some (GitHubAnalyzer.Fulfilled r))
    /\ (Z.of_nat (GitHubAnalyzer.OverallStats.totalLines
                    (GitHubAnalyzer.RepositoryAnalysis.overallStats r)) < 2 ^ 53)%Z
    /\ let stats := GitHubAnalyzer.RepositoryAnalysis.overallStats r in
       (0 <=? GitHubAnalyzer.OverallStats.aiPercentage stats)%float = true
       /\ (GitHubAnalyzer.OverallStats.aiPercentage stats <=? 100)%float = true
       /\ (0 <=? GitHubAnalyzer.OverallStats.humanPercentage stats)%float = true
       /\ (GitHubAnalyzer.OverallStats.humanPercentage stats <=? 100)%float = true
       /\ match GitHubAnalyzer.RepositoryAnalysis.files r with
          | [] =>
              GitHubAnalyzer.OverallStats.aiPercentage stats = 0%float
              /\ GitHubAnalyzer.OverallStats.humanPercentage stats = 0%float
          | _ :: _ =>
              (99.999999999999
               <=? GitHubAnalyzer.OverallStats.aiPercentage stats
                   + GitHubAnalyzer.OverallStats.humanPercentage stats)%float = true
              /\ (GitHubAnalyzer.OverallStats.aiPercentage stats
                  + GitHubAnalyzer.OverallStats.humanPercentage stats
                  <=? 100.000000000001)%float = true
          end.
Proof.
  do 2 eexists. split; [vm_compute; reflexivity|]. split; [vm_compute; reflexivity|].
  eapply (repository_percentages lowerASCII Sample.fetch sampleUrl None Sample.start).
  - vm_compute. reflexivity.
  - vm_compute. reflexivity.
Defined.

Lemma repository_files_example :
  exists st' r,
    GitHubAnalyzer.analyzeGitHubRepository lowerASCII Sample.fetch sampleUrl None
      Sample.start
    = (st', Some (GitHubAnalyzer.Fulfilled r))
    /\ exists b e st2 allFiles,
         exec noFlags GitHubAnalyzer.urlPattern sampleUrl 0 = Some (b, e)
         /\ GitHubAnalyzer.getAllFiles Sample.fetch 3
              (fst (GitHubAnalyzer.groups sampleUrl b e))
              (snd (GitHubAnalyzer.groups sampleUrl b e)) []
              (fst (GitHubAnalyzer.progress None 0 1 structureMessage Sample.start))
            = (st2, GitHubAnalyzer.Fulfilled allFiles)
         /\ let candidates :=
              List.filter (GitHubAnalyzer.analyzeable lowerASCII) allFiles in
            GitHubAnalyzer.RepositoryAnalysis.totalFiles r = length allFiles
            /\ Forall (fun f => GitHubAnalyzer.GitHubFile.type f = js "file") allFiles
            /\ (exists events,
                  GitHubAnalyzer.log st' = GitHubAnalyzer.log st2 ++ events
                  /\ requestUrls events = map downloadUrl candidates)
            /\ GitHubAnalyzer.requests st'
               = GitHubAnalyzer.requests st2 + length candidates
            /\ map GitHubAnalyzer.FileAnalysis.path
                 (GitHubAnalyzer.RepositoryAnalysis.files r)
               = map GitHubAnalyzer.GitHubFile.path
                   (reportedFrom Sample.fetch (GitHubAnalyzer.requests st2) candidates).
Proof.
  do 2 eexists. split; [vm_compute; reflexivity|].
  eapply (repository_files lowerASCII Sample.fetch sampleUrl None Sample.start).
  vm_compute. reflexivity.
Defined.

Lemma repository_progress_example :
  exists st' r,
    GitHubAnalyzer.analyzeGitHubRepository lowerASCII Sample.fetch sampleUrl
      (Some (fun _ _ _ => None)) Sample.start
    = (st', Some (GitHubAnalyzer.Fulfilled r))
    /\ exists b e st2 allFiles listed loop,
         exec noFlags GitHubAnalyzer.urlPattern sampleUrl 0 = Some (b, e)
         /\ GitHubAnalyzer.getAllFiles Sample.fetch 3
              (fst (GitHubAnalyzer.groups sampleUrl b e))
              (snd (GitHubAnalyzer.groups sampleUrl b e)) []
              (fst (GitHubAnalyzer.progress (Some (fun _ _ _ => None)) 0 1
                      structureMessage Sample.start))
            = (st2, GitHubAnalyzer.Fulfilled allFiles)
         /\ let candidates :=
              List.filter (GitHubAnalyzer.analyzeable lowerASCII) allFiles in
            GitHubAnalyzer.log st2
            = GitHubAnalyzer.log Sample.start
              ++ firstCall (Some (fun _ _ _ => None))
              ++ GitHubAnalyzer.Request
                   (GitHubAnalyzer.contentsUrl
                      (fst (GitHubAnalyzer.groups sampleUrl b e))
                      (snd (GitHubAnalyzer.groups sampleUrl b e)) [])
                 :: listed
            /\ progressCalls listed = []
            /\ GitHubAnalyzer.log st' = GitHubAnalyzer.log st2 ++ loop
            /\ progressCalls loop
               = loopCalls (Some (fun _ _ _ => None)) (length candidates) 0 candidates.
Proof.
  do 2 eexists. split; [vm_compute; reflexivity|].
  eapply (repository_progress lowerASCII Sample.fetch sampleUrl
            (Some (fun _ _ _ => None)) Sample.start).
  vm_compute. reflexivity.
Defined.

(** An address of a repository that the sample network does not know: the
    request for its root is answered with 404. *)
Definition unknownUrl : jsstring := js "https://github.com/octo/other".

Lemma repository_rejections_example :
  exists st' reason,
    GitHubAnalyzer.analyzeGitHubRepository lowerASCII Sample.fetch unknownUrl None
      Sample.start
    = (st', Some (GitHubAnalyzer.Rejected reason))
    /\ ((exec noFlags GitHubAnalyzer.urlPattern unknownUrl 0 = None
         /\ reason = GitHubAnalyzer.InvalidRepositoryUrl /\ st' = Sample.start)
        \/ exists b e,
             exec noFlags GitHubAnalyzer.urlPattern unknownUrl 0 = Some (b, e)
             /\ let owner := fst (GitHubAnalyzer.groups unknownUrl b e) in
                let repo := snd (GitHubAnalyzer.groups unknownUrl b e) in
                let st1 :=
                  fst (GitHubAnalyzer.progress None 0 1 structureMessage Sample.start) in
                (exists callback,
                   None = Some callback
                   /\ callback 0 1 structureMessage = Some reason
                   /\ st' = st1)
                \/ (snd (GitHubAnalyzer.progress None 0 1 structureMessage Sample.start)
                    = None
                    /\ GitHubAnalyzer.fetchGitHubContents Sample.fetch owner repo [] st1
                       = (st', GitHubAnalyzer.Rejected reason))
                \/ (exists allFiles,
                      GitHubAnalyzer.getAllFiles Sample.fetch 3 owner repo [] st1
                      = (st', GitHubAnalyzer.Fulfilled allFiles)
                      /\ List.filter (GitHubAnalyzer.analyzeable lowerASCII) allFiles = []
                      /\ reason = GitHubAnalyzer.NoAnalyzeableFiles)
                \/ (exists st2 allFiles,
                      GitHubAnalyzer.getAllFiles Sample.fetch 3 owner repo [] st1
                      = (st2, GitHubAnalyzer.Fulfilled allFiles)
                      /\ thrownIn None
                           (length (List.filter (GitHubAnalyzer.analyzeable lowerASCII)
                                      allFiles)) 0
                           (List.filter (GitHubAnalyzer.analyzeable lowerASCII) allFiles)
                           reason)).
Proof.
  do 2 eexists. split; [vm_compute; reflexivity|].
  eapply (repository_rejections lowerASCII Sample.fetch unknownUrl None Sample.start).
  vm_compute. reflexivity.
Defined.

Lemma repository_engine_state_example :
  ModuleState (GitHubAnalyzer.globals Sample.start)
  /\ ModuleState
       (GitHubAnalyzer.globals
          (fst (GitHubAnalyzer.analyzeGitHubRepository lowerASCII Sample.fetch sampleUrl
                  None Sample.start))).
Proof.
  split; [reflexivity|].
  apply (repository_engine_state lowerASCII Sample.fetch sampleUrl None Sample.start).
  reflexivity.
Defined.

Lemma repository_without_entries_example :
  exists st' r,
    GitHubAnalyzer.analyzeGitHubRepository lowerASCII Offline.fetch sampleUrl None
      Sample.start
    = (st', Some (GitHubAnalyzer.Fulfilled r))
    /\ GitHubAnalyzer.RepositoryAnalysis.files r = []
    /\ GitHubAnalyzer.RepositoryAnalysis.analyzedFiles r = 0
    /\ 1 <= GitHubAnalyzer.RepositoryAnalysis.totalFiles r
    /\ GitHubAnalyzer.RepositoryAnalysis.overallStats r
       = {| GitHubAnalyzer.OverallStats.totalLines := 0;
            GitHubAnalyzer.OverallStats.aiLines := 0;
            GitHubAnalyzer.OverallStats.humanLines := 0;
            GitHubAnalyzer.OverallStats.aiPercentage := 0%float;
            GitHubAnalyzer.OverallStats.humanPercentage := 0%float;
            GitHubAnalyzer.OverallStats.overallConfidence := 0%float |}.
Proof.
  do 2 eexists. split; [vm_compute; reflexivity|]. split; [vm_compute; reflexivity|].
  eapply (repository_without_entries lowerASCII Offline.fetch sampleUrl None Sample.start).
  - vm_compute. reflexivity.
  - vm_compute. reflexivity.
Defined.

(* ===================================================================== *)
(** * Languages without rules, and the tabs *)
(* ===================================================================== *)

Section LanguageProperties.

(** A label that [LANGUAGE_PATTERNS] has no rules for, and that names no
    member of [Object.prototype]. *)
Definition ruleless (language : jsstring) : bool :=
  negb (inherited language)
  && negb (existsb (JSString.eqb language) (map fst Tables.LANGUAGE_PATTERNS)).

Lemma ownProperty_key tbl key ps :
  ownProperty tbl key = Some ps -> In key (map fst tbl).
Proof.
  induction tbl as [|[k qs] tbl IH]; simpl; [discriminate|].
  destruct (JSString.eqb k key) eqn:Hk; [left; now apply eqb_eq|right; auto].
Qed.

Lemma getProperty_ruleless g language :
  ModuleState g -> ruleless language = true ->
  getProperty (LANGUAGE_PATTERNS g) language = Absent.
Proof.
  intros Hg Hl. apply andb_prop in Hl as [Hinh Hkey].
  apply negb_true_iff in Hinh, Hkey. unfold getProperty.
  destruct (ownProperty (LANGUAGE_PATTERNS g) language) as [ps|] eqn:Hown.
  - apply ownProperty_key in Hown.
    assert (Hkeys : map fst (LANGUAGE_PATTERNS g) = map fst Tables.LANGUAGE_PATTERNS).
    { change Tables.LANGUAGE_PATTERNS with (LANGUAGE_PATTERNS initial).
      rewrite <- Hg. simpl. rewrite map_map. reflexivity. }
    rewrite Hkeys in Hown.
    assert (existsb (JSString.eqb language) (map fst Tables.LANGUAGE_PATTERNS) = true).
    { apply existsb_exists. exists language. split; [exact Hown|now apply eqb_eq]. }
    congruence.
  - unfold inherited in Hinh. now rewrite Hinh.
Qed.

Lemma analyzeLine_ruleless g line n language language' :
  ModuleState g -> ruleless language = true -> ruleless language' = true ->
  analyzeLine g line n language = analyzeLine g line n language'.
Proof.
  intros Hg Hl Hl'. unfold analyzeLine, scoreLine.
  rewrite (getProperty_ruleless g language Hg Hl),
          (getProperty_ruleless g language' Hg Hl').
  reflexivity.
Qed.

Lemma analyzeLines_ruleless structureScore language language' lines :
  ruleless language = true -> ruleless language' = true ->
  forall g i acc,
    ModuleState g ->
    analyzeLines g structureScore language i lines acc
    = analyzeLines g structureScore language' i lines acc.
Proof.
  intros Hl Hl'. induction lines as [|line lines IH]; intros g i acc Hg; [reflexivity|].
  cbn [analyzeLines]. rewrite (analyzeLine_ruleless g line (i + 1) _ _ Hg Hl Hl').
  pose proof (analyzeLine_ModuleState g line (i + 1) language' Hg) as Hg'.
  destruct (analyzeLine g line (i + 1) language') as [g' [analysis|e]]; [|reflexivity].
  now apply IH.
Qed.

(** X27: the language matters only where [LANGUAGE_PATTERNS] has rules for
    it: for any two labels without rules - such as ["java"] and ["text"] -
    [analyzeCode] gives the same result, and leaves the same state, on
    every text. *)
Theorem language_without_rules : forall g code language language',
  ModuleState g -> ruleless language = true -> ruleless language' = true ->
  analyzeCode g code language = analyzeCode g code language'.
Proof.
  intros g code language language' Hg Hl Hl'. unfold analyzeCode.
  now rewrite (analyzeLines_ruleless _ language language' _ Hl Hl' g 0 [] Hg).
Qed.
End LanguageProperties.

Lemma language_without_rules_example :
  ModuleState initial /\ ruleless (js "java") = true /\ ruleless (js "text") = true
  /\ analyzeCode initial notedCode (js "java") = analyzeCode initial notedCode (js "text").
Proof.
  split; [reflexivity|]. split; [reflexivity|]. split; [reflexivity|].
  apply (language_without_rules initial notedCode (js "java") (js "text")); reflexivity.
Defined.

Section TabProperties.
Import CodeAnalyzer.

Definition blankLines (code : jsstring) : nat :=
  length (List.filter (fun line => negb (nonBlank line)) (split_newline code)).

Lemma filter_filter_length {A} (P Q : A -> bool) xs :
  (forall x, In x xs -> P x = true -> Q x = true) ->
  length (List.filter P (List.filter Q xs)) = length (List.filter P xs).
Proof.
  induction xs as [|x xs IH]; intros H; [reflexivity|]. cbn [List.filter].
  assert (IH' : length (List.filter P (List.filter Q xs)) = length (List.filter P xs)).
  { apply IH. intros y Hy. apply H. now right. }
  destruct (Q x) eqn:HQ; cbn [List.filter].
  - destruct (P x); cbn [length]; now rewrite IH'.
  - destruct (P x) eqn:HP; [|exact IH'].
    rewrite H in HQ; [discriminate|now left|exact HP].
Qed.

(** X28: the titles of the tabs count the lines that are not blank, the
    tabs show all lines.  The AI tab has as many rows as its title says,
    because no blank line is AI; the tab of the human lines and the tab of
    all lines have as many rows more than their titles say as the text has
    blank lines. *)
Theorem tab_titles : forall g code language g' r,
  ModuleState g -> analyzeCode g code language = (g', Normal r) ->
  length (aiOnly r) = aiOnlyTitle r
  /\ length (humanOnly r) = humanOnlyTitle r + blankLines code
  /\ length (allLines r) = allLinesTitle r + blankLines code.
Proof.
  intros g code language g' r Hg H.
  pose proof (analyzeCode_content _ _ _ _ _ H) as Hc.
  destruct (analyzeCode_Refines _ _ _ _ _ Hg H) as (raw & _ & _ & Href).
  pose proof (Refines_all_ok _ _ Href) as Hok.
  destruct (analyzeCode_stages _ _ _ _ _ H) as (raw' & _ & Hr).
  unfold aiOnly, humanOnly, allLines, aiOnlyTitle, humanOnlyTitle, allLinesTitle,
    blankLines.
  rewrite <- Hc. rewrite Hr in Hok |- *.
  cbn [summarize totalLines aiLines humanLines lineAnalysis] in *.
  set (la := applyContextualAnalysis _) in *.
  set (ne := List.filter (fun l => nonBlank (content l)) la).
  assert (Hblank : length (List.filter (fun line => negb (nonBlank line)) (map content la))
                   = length (List.filter (fun l => negb (nonBlank (content l))) la)).
  { clear. induction la as [|l la IH]; [reflexivity|]. cbn [map List.filter].
    destruct (negb (nonBlank (content l))); cbn [length]; now rewrite IH. }
  rewrite Hblank.
  assert (Hai : length (List.filter isAI ne) = length (List.filter isAI la)).
  { apply filter_filter_length. intros l Hl Hisai.
    apply list_elem_of_In in Hl. rewrite Forall_forall in Hok. specialize (Hok _ Hl).
    unfold okLine, nonBlankLine in Hok.
    destruct (nonBlank (content l)); [reflexivity|]. destruct Hok as [_ Hno]. congruence. }
  pose proof (filter_length_split (fun l => nonBlank (content l)) la) as Hsplit.
  pose proof (filter_length_split isAI la) as Hsplit2.
  pose proof (filter_length_le isAI ne) as Hle.
  fold ne in Hsplit.
  split; [now rewrite Hai|]. split; lia.
Qed.
End TabProperties.

Lemma tab_titles_example :
  exists g' r,
    ModuleState initial
    /\ analyzeCode initial gappedCode (js "python") = (g', Normal r)
    /\ length (CodeAnalyzer.aiOnly r) = CodeAnalyzer.aiOnlyTitle r
    /\ length (CodeAnalyzer.humanOnly r)
       = CodeAnalyzer.humanOnlyTitle r + blankLines gappedCode
    /\ length (CodeAnalyzer.allLines r) = CodeAnalyzer.allLinesTitle r + blankLines gappedCode.
Proof.
  do 2 eexists. split; [reflexivity|]. split; [vm_compute; reflexivity|].
  eapply (tab_titles initial gappedCode (js "python")); [reflexivity|].
  vm_compute. reflexivity.
Defined.
